(** * tegra-bootloader-update: the update orchestrator

    A shallow embedding of [tegra-bootloader-update.c] and the properties
    of its boot partition update protocol.

    Conventions.
    - C integers are [Z]; where a C type truncates a value that can leave
      its range ([unsigned int] products, [size_t] products of LBAs) the
      wrap-around is written out with [u32] and [u64].
    - Byte buffers are [list byte].  [buf + k] is [skipn k buf]; reading
      past the end of a buffer has no meaning in C, and every theorem that
      depends on a buffer carries the bound that keeps the access inside.
    - The operating system is an explicit [world]: the block devices behind
      the file descriptors, and a chronological trace of the system calls
      made.  Functions thread the world (and the program's globals).
    - Code of other modules of the repository (bup, gpt, bct, ver, smd) is
      a record of operations, [externals]. *)

From Stdlib Require Import ZArith List Bool Lia Permutation.
From Stdlib.Strings Require Import String Ascii Byte.
Import ListNotations.
Open Scope string_scope.
Open Scope list_scope.
Open Scope Z_scope.

(** ** Machine integers *)

Definition u32 (x : Z) : Z := x mod 2 ^ 32.
Definition u64 (x : Z) : Z := x mod 2 ^ 64.

(** A 64-bit value stored in an [off_t]: the same 64 bits, read with
    their sign. *)
Definition s64 (x : Z) : Z :=
  if u64 x >=? 2 ^ 63 then u64 x - 2 ^ 64 else u64 x.

(** ** Bytes and buffers *)

Definition zero_byte : byte := x00.

Fixpoint bytes_eqb (a b : list byte) : bool :=
  match a, b with
  | [], [] => true
  | x :: a', y :: b' => Byte.eqb x y && bytes_eqb a' b'
  | _, _ => false
  end.

(** [memcmp(a, b, n) == 0] *)
Definition memcmp_eq (a b : list byte) (n : Z) : bool :=
  bytes_eqb (firstn (Z.to_nat n) a) (firstn (Z.to_nat n) b).

(** The zero-filled buffer [calloc(1, n)]. *)
Definition zeros (n : Z) : list byte := repeat zero_byte (Z.to_nat n).

(** ** Block devices and the system call layer *)

(** A block device: a fixed number of bytes and the file position of the
    descriptor that is open on it. *)
Record device := mkDevice {
  dev_size : Z;
  dev_data : Z -> byte;
  dev_pos  : Z
}.

(** The trace.  [EvWriteAt] and [EvProcess] are call records of
    [write_completely_at] and [process_entry]; the others are system calls
    and calls into the slot metadata and GPT modules that reach a device. *)
Inductive event :=
| EvLseek (fd off : Z)
| EvRead (fd pos n : Z)
| EvWrite (fd pos : Z) (data : list byte)
| EvFsync (fd : Z)
| EvOpen (path : string) (fd : Z)
| EvClose (fd : Z)
| EvWriteAt (fd off bufsiz erase_size : Z)
| EvProcess (partname : string)
| EvSetWriteable (path : string) (on : bool)
| EvGptSave
| EvSmdSetRedundancy
| EvSmdMarkActive (slot : Z)
| EvSmdUpdate (initialize : Z).

(** [w_dev] maps a descriptor to its device; [w_node] is the descriptor
    [open] returns for a device node (negative: the node cannot be opened);
    [w_io] gives, for each of the coming [read]/[write] calls in turn, the
    most bytes the call transfers (zero or less: the call fails); once the
    list is used up calls transfer all they are asked for. *)
Record world := mkWorld {
  w_dev   : Z -> option device;
  w_node  : string -> Z;
  w_io    : list Z;
  w_trace : list event
}.

Definition log (e : event) (w : world) : world :=
  mkWorld (w_dev w) (w_node w) (w_io w) (w_trace w ++ [e]).

Definition set_dev (fd : Z) (d : device) (w : world) : world :=
  mkWorld (fun x => if x =? fd then Some d else w_dev w x)
          (w_node w) (w_io w) (w_trace w).

Definition set_io (io : list Z) (w : world) : world :=
  mkWorld (w_dev w) (w_node w) io (w_trace w).

Definition take_limit (io : list Z) : option Z * list Z :=
  match io with
  | [] => (None, [])
  | l :: rest => (Some l, rest)
  end.

(** Bytes one call transfers: what is asked, what the device has left, and
    what the call is limited to. *)
Definition xfer (count room : Z) (lim : option Z) : Z :=
  match lim with
  | None => Z.min count room
  | Some l => Z.min (Z.min count room) l
  end.

Definition zrange (start : Z) (n : nat) : list Z :=
  map (fun i => start + Z.of_nat i) (seq 0 n).

Definition peek (f : Z -> byte) (pos : Z) (n : nat) : list byte :=
  map f (zrange pos n).

Definition poke (f : Z -> byte) (pos : Z) (data : list byte) : Z -> byte :=
  fun x =>
    if (pos <=? x) && (x <? pos + Z.of_nat (List.length data))
    then nth (Z.to_nat (x - pos)) data zero_byte
    else f x.

(** [lseek(fd, off, SEEK_SET)]; as on Linux block and MTD devices, a
    position past the end of the device is refused. *)
Definition sys_lseek (fd off : Z) (w : world) : Z * world :=
  match w_dev w fd with
  | None => (-1, w)
  | Some d =>
      if (off <? 0) || (off >? dev_size d) then (-1, w)
      else (off, log (EvLseek fd off)
                     (set_dev fd (mkDevice (dev_size d) (dev_data d) off) w))
  end.

(** [lseek(fd, 0, SEEK_END)] *)
Definition sys_lseek_end (fd : Z) (w : world) : Z * world :=
  match w_dev w fd with
  | None => (-1, w)
  | Some d =>
      (dev_size d,
       log (EvLseek fd (dev_size d))
           (set_dev fd (mkDevice (dev_size d) (dev_data d) (dev_size d)) w))
  end.

(** [write(fd, buf, count)]: a positive number of bytes written, or -1. *)
Definition sys_write (fd : Z) (buf : list byte) (count : Z) (w : world)
  : Z * world :=
  match w_dev w fd with
  | None => (-1, w)
  | Some d =>
      let (lim, io') := take_limit (w_io w) in
      let n := xfer count (dev_size d - dev_pos d) lim in
      if n <=? 0 then (-1, set_io io' w)
      else
        let data := firstn (Z.to_nat n) buf in
        (n, log (EvWrite fd (dev_pos d) data)
                (set_dev fd
                   (mkDevice (dev_size d)
                             (poke (dev_data d) (dev_pos d) data)
                             (dev_pos d + n))
                   (set_io io' w)))
  end.

(** [read(fd, buf, count)]: the bytes read ([n > 0] of them), 0 at the end
    of the device, or -1. *)
Definition sys_read (fd : Z) (count : Z) (w : world)
  : Z * list byte * world :=
  match w_dev w fd with
  | None => (-1, [], w)
  | Some d =>
      let (lim, io') := take_limit (w_io w) in
      let room := dev_size d - dev_pos d in
      let n := xfer count room lim in
      if n <=? 0 then ((if room <=? 0 then 0 else -1), [], set_io io' w)
      else
        (n, peek (dev_data d) (dev_pos d) (Z.to_nat n),
         log (EvRead fd (dev_pos d) n)
             (set_dev fd
                (mkDevice (dev_size d) (dev_data d) (dev_pos d + n))
                (set_io io' w)))
  end.

Definition sys_fsync (fd : Z) (w : world) : world := log (EvFsync fd) w.

(** [open(path, flags)]: the descriptor of the node, positioned at 0. *)
Definition sys_open (path : string) (w : world) : Z * world :=
  let fd := w_node w path in
  if fd <? 0 then (-1, w)
  else match w_dev w fd with
       | None => (-1, w)
       | Some d =>
           (fd, log (EvOpen path fd)
                    (set_dev fd (mkDevice (dev_size d) (dev_data d) 0) w))
       end.

Definition sys_close (fd : Z) (w : world) : world := log (EvClose fd) w.

(** ** read_completely_at, write_completely_at *)

(** The loop [for (remain = bufsiz, total = 0; remain > 0; total += n,
    remain -= n)] of [read_completely_at].  Every iteration that goes on
    reads at least one byte, so [remain] iterations are enough; [None] is
    the loop cut short by [fuel] (see [read_loop_fuel]). *)
Fixpoint read_loop (fuel : nat) (fd remain total : Z) (acc : list byte)
  (w : world) : option (Z * list byte * world) :=
  if remain <=? 0 then Some (total, acc, w)
  else match fuel with
       | O => None
       | S fuel' =>
           let '(n, data, w1) := sys_read fd remain w in
           if n <=? 0 then Some (-1, acc, w1)
           else read_loop fuel' fd (remain - n) (total + n) (acc ++ data) w1
       end.

(** Returns the value, the buffer after the call and the world. *)
Definition read_completely_at (fd : Z) (buf : list byte) (bufsiz offset : Z)
  (w : world) : Z * list byte * world :=
  let (r, w1) := sys_lseek fd offset w in
  if r =? -1 then (-1, buf, w1)
  else match read_loop (Z.to_nat bufsiz) fd bufsiz 0 [] w1 with
       | Some (ret, acc, w2) => (ret, acc ++ skipn (List.length acc) buf, w2)
       | None => (-1, buf, w1)
       end.

(** The write loops of [write_completely_at]: [write(fd, buf + total,
    remain)] until nothing remains. *)
Fixpoint write_loop (fuel : nat) (fd : Z) (buf : list byte)
  (remain total : Z) (w : world) : option (Z * world) :=
  if remain <=? 0 then Some (total, w)
  else match fuel with
       | O => None
       | S fuel' =>
           let (n, w1) := sys_write fd (skipn (Z.to_nat total) buf) remain w in
           if n <=? 0 then Some (-1, w1)
           else write_loop fuel' fd buf (remain - n) (total + n) w1
       end.

Definition write_all (fd : Z) (buf : list byte) (size : Z) (w : world)
  : Z * world :=
  match write_loop (Z.to_nat size) fd buf size 0 w with
  | Some r => r
  | None => (-1, w)
  end.

(** [zerobuf] is the global zero-filled buffer. *)
Definition write_completely_at (zerobuf : list byte) (fd : Z)
  (buf : list byte) (bufsiz offset erase_size : Z) (w : world) : Z * world :=
  let w0 := log (EvWriteAt fd offset bufsiz erase_size) w in
  let (r, w1) := sys_lseek fd offset w0 in
  if r =? -1 then (-1, w1)
  else if negb (erase_size =? 0) then
    let (e, w2) := write_all fd zerobuf erase_size w1 in
    if e <? 0 then (-1, w2)
    else
      let w3 := sys_fsync fd w2 in
      let (r2, w4) := sys_lseek fd offset w3 in
      if r2 =? -1 then (-1, w4)
      else write_all fd buf bufsiz w4
  else write_all fd buf bufsiz w1.

(** ** Data model *)

Inductive tegra_soctype_t :=
| TEGRA_SOCTYPE_186
| TEGRA_SOCTYPE_194
| TEGRA_SOCTYPE_210
| TEGRA_SOCTYPE_INVALID.

Definition soc_eqb (a b : tegra_soctype_t) : bool :=
  match a, b with
  | TEGRA_SOCTYPE_186, TEGRA_SOCTYPE_186 => true
  | TEGRA_SOCTYPE_194, TEGRA_SOCTYPE_194 => true
  | TEGRA_SOCTYPE_210, TEGRA_SOCTYPE_210 => true
  | TEGRA_SOCTYPE_INVALID, TEGRA_SOCTYPE_INVALID => true
  | _, _ => false
  end.

(** [gpt_entry_t] (declared in gpt.h): the fields the orchestrator reads,
    both 64-bit LBAs in 512-byte sectors. *)
Record gpt_entry_t := mkGptEntry {
  first_lba : Z;
  last_lba  : Z
}.

(** [struct update_entry_s]; [part = None] is the NULL pointer, and the
    field [length] of the source is [ent_length] here. *)
Record update_entry_s := mkEntry {
  partname   : string;
  part       : option gpt_entry_t;
  devname    : string;
  bup_offset : Z;
  ent_length : Z
}.

Definition MAX_ENTRIES : Z := 64.

(** The file-scope variables of the program that the update functions read
    and write. *)
Record globals := mkGlobals {
  soctype          : tegra_soctype_t;
  spiboot_platform : bool;
  bootdev_size     : Z;
  contentbuf       : list byte;
  contentbuf_size  : Z;
  slotbuf          : list byte;
  slotbuf_size     : Z;
  zerobuf          : list byte;
  bct_updated      : Z
}.

Definition set_contentbuf (b : list byte) (g : globals) : globals :=
  mkGlobals (soctype g) (spiboot_platform g) (bootdev_size g) b
            (contentbuf_size g) (slotbuf g) (slotbuf_size g) (zerobuf g)
            (bct_updated g).

Definition set_slotbuf (b : list byte) (g : globals) : globals :=
  mkGlobals (soctype g) (spiboot_platform g) (bootdev_size g) (contentbuf g)
            (contentbuf_size g) b (slotbuf_size g) (zerobuf g)
            (bct_updated g).

Definition set_bct_updated (v : Z) (g : globals) : globals :=
  mkGlobals (soctype g) (spiboot_platform g) (bootdev_size g) (contentbuf g)
            (contentbuf_size g) (slotbuf g) (slotbuf_size g) (zerobuf g) v.

(** [struct ver_info_s] (ver.h). *)
Record ver_info_s := mkVerInfo {
  bsp_version : Z;
  crc         : Z
}.

(** The other modules of the repository, by the interface the
    orchestrator calls.  [bup_read ctx count] returns the value of the
    call, the bytes it stored and the context after it;
    [bct_update_valid_t21x cur new block_size page_size] returns its
    verdict and the two sizes it may have written through its pointer
    arguments; [ver_extract_info] is [Some] when the call returns 0, and
    a call that fails is taken to leave its output structure as it was
    (the orchestrator zeroes it first and ignores the return code).  *)
Record externals := mkExternals {
  bup_context : Type;
  bup_setpos : bup_context -> Z -> Z * bup_context;
  bup_read : bup_context -> Z -> Z * list byte * bup_context;
  bct_update_valid_t18x : list byte -> list byte -> bool;
  bct_update_valid_t19x : list byte -> list byte -> bool;
  bct_update_valid_t21x : list byte -> list byte -> Z -> Z -> bool * Z * Z;
  ver_extract_info : list byte -> option ver_info_s;
  crc32 : list byte -> Z
}.

(** ** redundant_part_format *)

(** The source returns a [printf] format, always ["%s"] followed by a
    suffix; the model returns the suffix, and [sprintf(dst, fmt, name)] is
    [name ++ suffix]. *)
Definition redundant_part_format (g : globals) (name : string) : string :=
  if negb (soc_eqb (soctype g) TEGRA_SOCTYPE_210) then "_b"
  else if String.eqb name "NVC" then
         (if spiboot_platform g then "_R" else "-1")
  else if String.eqb name "VER" then "_b"
  else "-1".

Definition other_copy_name (g : globals) (name : string) : string :=
  name ++ redundant_part_format g name.

(** ** update_bct (tegra186/tegra194) *)

Section Update.

Variable X : externals.

Definition bct_block_size (g : globals) : Z :=
  if spiboot_platform g then 32768 else 16384.

Definition bct_page_size (g : globals) : Z :=
  if spiboot_platform g then 2048 else 512.

Definition bctslotsize_of (g : globals) (ent : update_entry_s) : Z :=
  bct_page_size g * ((ent_length ent + (bct_page_size g - 1)) / bct_page_size g).

(** The [switch (i)] of the write loop. *)
Definition update_bct_offset (g : globals) (ent : update_entry_s) (i : Z) : Z :=
  if i =? 0 then bctslotsize_of g ent
  else if i =? 1 then bct_block_size g
  else 0.

(** [curbct != NULL && memcmp(newbct, curbct + offset, length) == 0] *)
Definition bct_same (curbct : option (list byte)) (newbct : list byte)
  (offset len : Z) : bool :=
  match curbct with
  | None => false
  | Some cur => memcmp_eq newbct (skipn (Z.to_nat offset) cur) len
  end.

(** The loop [for (i = 0; i < 3; i++)], over the values of [i] left.
    [ent->part] is dereferenced without a test: the caller passes an
    entry that has a partition. *)
Fixpoint update_bct_loop (g : globals) (bootfd : Z)
  (curbct : option (list byte)) (newbct : list byte) (ent : update_entry_s)
  (idxs : list Z) (w : world) : Z * world :=
  match idxs with
  | [] => (0, w)
  | i :: rest =>
      let offset := update_bct_offset g ent i in
      if bct_same curbct newbct offset (ent_length ent)
      then update_bct_loop g bootfd curbct newbct ent rest w
      else
        let base := match part ent with
                    | Some p => first_lba p * 512
                    | None => 0
                    end in
        let (r, w1) := write_completely_at (zerobuf g) bootfd newbct
                         (ent_length ent) (base + offset)
                         (bctslotsize_of g ent) w in
        if r <? 0 then (-1, w1)
        else update_bct_loop g bootfd curbct newbct ent rest w1
  end.

Definition update_bct (g : globals) (bootfd : Z)
  (curbct : option (list byte)) (newbct : list byte) (ent : update_entry_s)
  (w : world) : Z * globals * world :=
  if soc_eqb (soctype g) TEGRA_SOCTYPE_210 then (-1, g, w)
  else
    let invalid :=
      match curbct with
      | None => false
      | Some cur =>
          (soc_eqb (soctype g) TEGRA_SOCTYPE_186
           && negb (bct_update_valid_t18x X cur newbct))
          || (soc_eqb (soctype g) TEGRA_SOCTYPE_194
              && negb (bct_update_valid_t19x X cur newbct))
      end in
    if invalid then (-1, g, w)
    else
      let (r, w1) := update_bct_loop g bootfd curbct newbct ent [0; 1; 2] w in
      if r <? 0 then (-1, g, w1)
      else (0, set_bct_updated 1 g, sys_fsync bootfd w1).

(** ** update_bct_t210 *)

(** [bctcount]: the number of BCT copies the partition holds. *)
Definition bctcount_of (block_size : Z) (ent : update_entry_s) : Z :=
  let bctpartsize :=
    match part ent with
    | Some p => u32 ((last_lba p - first_lba p + 1) * 512)
    | None => 0
    end in
  let bctcount := bctpartsize / block_size in
  if bctcount >? 64 then 64 else bctcount.

(** The three-way choice on [*which]: the first and last index of the
    loop and the next value of [*which]. *)
Definition bct_phase (which bctcount : Z) : Z * Z * Z :=
  if which <? 0 then (bctcount - 1, bctcount - 1, 1)
  else if which =? 0 then (0, 0, -1)
  else (bctcount - 2, 1, 0).

(** The loop [for (bctidx = bctstart; bctidx >= bctend; bctidx -= 1)],
    with [n] iterations left. *)
Fixpoint update_bct_t210_loop (g : globals) (bootfd : Z)
  (curbct : option (list byte)) (newbct : list byte) (ent : update_entry_s)
  (block_size bctcopies : Z) (bctidx : Z) (n : nat) (w : world) : Z * world :=
  match n with
  | O => (0, w)
  | S n' =>
      let offset := u32 (bctidx * block_size) in
      if bct_same curbct newbct offset (ent_length ent)
      then update_bct_t210_loop g bootfd curbct newbct ent block_size
             bctcopies (bctidx - 1) n' w
      else
        let base := match part ent with
                    | Some p => first_lba p * 512
                    | None => 0
                    end in
        let (r, w1) := write_completely_at (zerobuf g) bootfd (contentbuf g)
                         (ent_length ent) (base + offset) (ent_length ent) w in
        if r <? 0 then (-1, w1)
        else if (bctidx =? 0) && (bctcopies =? 2) then
          let offset2 := offset + ent_length ent in
          let (r2, w2) := write_completely_at (zerobuf g) bootfd
                            (contentbuf g) (ent_length ent) (base + offset2)
                            (ent_length ent) w1 in
          if r2 <? 0 then (-1, w2)
          else update_bct_t210_loop g bootfd curbct newbct ent block_size
                 bctcopies (bctidx - 1) n' w2
        else update_bct_t210_loop g bootfd curbct newbct ent block_size
               bctcopies (bctidx - 1) n' w1
  end.

(** [which] is the pointer argument: [None] is NULL, and the second
    component of the result is [*which] after the call. *)
Definition update_bct_t210 (g : globals) (bootfd : Z)
  (curbct : option (list byte)) (newbct : list byte) (ent : update_entry_s)
  (which : option Z) (w : world) : Z * option Z * globals * world :=
  let bctcopies := if spiboot_platform g then 2 else 1 in
  if negb (soc_eqb (soctype g) TEGRA_SOCTYPE_210) then (-1, which, g, w)
  else
    match which with
    | None => (-1, which, g, w)
    | Some wh =>
        let '(valid, block_size, page_size) :=
          match curbct with
          | None => (true, bct_block_size g, bct_page_size g)
          | Some cur =>
              bct_update_valid_t21x X cur newbct (bct_block_size g)
                                    (bct_page_size g)
          end in
        if negb valid then (-1, which, g, w)
        else if negb (ent_length ent mod page_size =? 0) then (-1, which, g, w)
        else if ent_length ent * bctcopies >? block_size then (-1, which, g, w)
        else
          let bctcount := bctcount_of block_size ent in
          let '(bctstart, bctend, next) := bct_phase wh bctcount in
          let (r, w1) := update_bct_t210_loop g bootfd curbct newbct ent
                           block_size bctcopies bctstart
                           (Z.to_nat (bctstart - bctend + 1)) w in
          if r <? 0 then (-1, Some next, g, w1)
          else (0, Some next, set_bct_updated 1 g, sys_fsync bootfd w1)
    end.

(** ** maybe_update_bootpart *)

Definition partsize_of (p : gpt_entry_t) : Z :=
  u64 ((last_lba p - first_lba p + 1) * 512).

(** [ent->part->first_lba * 512]: the product of a 64-bit LBA, made in 64
    bits without sign (it wraps: an LBA of 2^55 gives 0). *)
Definition part_start (p : gpt_entry_t) : Z := u64 (first_lba p * 512).

(** Where a partition lies: [offset = first_lba * 512; if (offset >=
    bootdev_size) { fd = gptfd; offset -= bootdev_size; }].  The source
    has these lines in [maybe_update_bootpart], [nvc_parts_match] and
    [invalid_version_or_downgrade].  [offset] is an [off_t] and
    [bootdev_size] an [unsigned long]: the comparison and the subtraction
    are made in 64 bits without sign, and what [offset] then holds is
    read with its sign by [lseek]. *)
Definition part_past (g : globals) (p : gpt_entry_t) : bool :=
  part_start p >=? bootdev_size g.

Definition part_fd (g : globals) (bootfd gptfd : Z) (p : gpt_entry_t) : Z :=
  if part_past g p then gptfd else bootfd.

Definition part_offset (g : globals) (p : gpt_entry_t) : Z :=
  if part_past g p then s64 (part_start p - bootdev_size g)
  else s64 (part_start p).

(** Called only with [ent->part != NULL]; [p] is that partition. *)
Definition maybe_update_bootpart (g : globals) (bootfd gptfd : Z)
  (ent : update_entry_s) (p : gpt_entry_t) (is_bct : bool) (initialize : Z)
  (bctctx : option Z) (w : world) : Z * option Z * globals * world :=
  let partsize := partsize_of p in
  if ent_length ent >? partsize then (-1, bctctx, g, w)
  else
    if part_past g p && (gptfd <? 0) then (-1, bctctx, g, w)
    else
      let fd := part_fd g bootfd gptfd p in
      let offset := part_offset g p in
      let '(r, sb, w1) := read_completely_at fd (slotbuf g) partsize offset w in
      let g1 := set_slotbuf sb g in
      if r <? 0 then (-1, bctctx, g1, w1)
      else if is_bct then
        let curbct := if initialize =? 0 then Some (slotbuf g1) else None in
        if soc_eqb (soctype g1) TEGRA_SOCTYPE_210
        then update_bct_t210 g1 bootfd curbct (contentbuf g1) ent bctctx w1
        else let '(r2, g2, w2) :=
               update_bct g1 bootfd curbct (contentbuf g1) ent w1 in
             (r2, bctctx, g2, w2)
      else if memcmp_eq (contentbuf g1) (slotbuf g1) (ent_length ent)
      then (0, bctctx, g1, w1)
      else
        let (r3, w3) := write_completely_at (zerobuf g1) fd (contentbuf g1)
                          (ent_length ent) offset partsize w1 in
        if r3 <? 0 then (-1, bctctx, g1, w3)
        else (0, bctctx, g1, sys_fsync fd w3).

(** ** process_entry *)

(** [bup_read(bupctx, contentbuf + total, ...)] stores its bytes at
    [total]. *)
Definition store (buf : list byte) (at_ : Z) (data : list byte) : list byte :=
  firstn (Z.to_nat at_) buf ++ data
  ++ skipn (Z.to_nat at_ + List.length data) buf.

(** The call [n = bup_read(bupctx, contentbuf + total, contentbuf_size -
    total)]: its value, [contentbuf] after it and the context after it.
    The third argument is a [size_t]. *)
Definition bup_read_body (ctx : bup_context X) (cbuf : list byte)
  (cbuf_size total : Z) : Z * list byte * bup_context X :=
  let '(n, data, ctx1) := bup_read X ctx (u64 (cbuf_size - total)) in
  (n, store cbuf total data, ctx1).

(** The loop [for (total = 0; total < length; total += n)] that reads the
    payload of an entry into [contentbuf]; the same loop stands in
    [process_entry] and in [invalid_version_or_downgrade].  Every
    iteration that goes on adds at least one to [total], so [length]
    iterations are enough ([bup_read_loop_fuel]). *)
Fixpoint bup_read_loop (fuel : nat) (ctx : bup_context X) (cbuf : list byte)
  (cbuf_size len total : Z) : option (Z * list byte * bup_context X) :=
  if len <=? total then Some (0, cbuf, ctx)
  else match fuel with
       | O => None
       | S fuel' =>
           let '(n, cbuf1, ctx1) := bup_read_body ctx cbuf cbuf_size total in
           if n <=? 0 then Some (-1, cbuf1, ctx1)
           else bup_read_loop fuel' ctx1 cbuf1 cbuf_size len (total + n)
       end.

Definition bup_read_content (ctx : bup_context X) (g : globals) (len : Z)
  : Z * globals * bup_context X :=
  match bup_read_loop (Z.to_nat len) ctx (contentbuf g) (contentbuf_size g)
                      len 0 with
  | Some (r, cb, ctx1) => (r, set_contentbuf cb g, ctx1)
  | None => (-1, g, ctx)
  end.

Definition process_entry (ctx : bup_context X) (g : globals)
  (bootfd gptfd : Z) (ent : update_entry_s) (dryrun : bool) (initialize : Z)
  (bctctx : option Z) (w : world)
  : Z * option Z * bup_context X * globals * world :=
  let w0 := log (EvProcess (partname ent)) w in
  let (sp, ctx1) := bup_setpos X ctx (bup_offset ent) in
  if sp =? -1 then (-1, bctctx, ctx1, g, w0)
  else
    let '(rr, g1, ctx2) := bup_read_content ctx1 g (ent_length ent) in
    if rr <? 0 then (-1, bctctx, ctx2, g1, w0)
    else if dryrun then (0, bctctx, ctx2, g1, w0)
    else
      match part ent with
      | Some p =>
          let '(r, b', g2, w1) :=
            maybe_update_bootpart g1 bootfd gptfd ent p
              (String.eqb (partname ent) "BCT") initialize bctctx w0 in
          (r, b', ctx2, g2, w1)
      | None =>
          let (fd, w1) := sys_open (devname ent) w0 in
          if fd <? 0 then (-1, bctctx, ctx2, g1, w1)
          else
            let (e, w2) := sys_lseek_end fd w1 in
            let erase_size := u32 e in
            if erase_size <? 0 then (-1, bctctx, ctx2, g1, sys_close fd w2)
            else
            let (s, w3) := sys_lseek fd 0 w2 in
            if s <? 0 then (-1, bctctx, ctx2, g1, sys_close fd w3)
            else
              let (r, w4) := write_completely_at (zerobuf g1) fd
                               (contentbuf g1) (ent_length ent) 0
                               erase_size w3 in
              if r <? 0 then (-1, bctctx, ctx2, g1, sys_close fd w4)
              else (0, bctctx, ctx2, g1, sys_close fd (sys_fsync fd w4))
      end.

End Update.

(** ** order_entries (tegra186/tegra194) *)

(** The seven index variables of [order_entries] ([-1]: not seen) and the
    entries stored in [ordered] so far.  [ordered] holds pointers into
    [orig]; the model holds the entries they point to. *)
Record order_vars := mkOrderVars {
  ov_mb1 : Z; ov_mb1_b : Z; ov_bct : Z; ov_bct1 : Z; ov_bct2 : Z;
  ov_mb2 : Z; ov_mb2_b : Z;
  ov_ordered : list update_entry_s
}.

Definition order_step (e : update_entry_s) (i : Z) (v : order_vars)
  : order_vars :=
  let '(mkOrderVars mb1 mb1_b bct bct1 bct2 mb2 mb2_b ordered) := v in
  if String.eqb (partname e) "mb1" then
    mkOrderVars i mb1_b bct bct1 bct2 mb2 mb2_b ordered
  else if String.eqb (partname e) "mb1_b" then
    mkOrderVars mb1 i bct bct1 bct2 mb2 mb2_b ordered
  else if String.eqb (partname e) "mb2" then
    mkOrderVars mb1 mb1_b bct bct1 bct2 i mb2_b ordered
  else if String.eqb (partname e) "mb2_b" then
    mkOrderVars mb1 mb1_b bct bct1 bct2 mb2 i ordered
  else if String.eqb (partname e) "BCT" then
    if bct =? -1 then mkOrderVars mb1 mb1_b i bct1 bct2 mb2 mb2_b ordered
    else if bct1 =? -1 then mkOrderVars mb1 mb1_b bct i bct2 mb2 mb2_b ordered
    else if bct2 =? -1 then mkOrderVars mb1 mb1_b bct bct1 i mb2 mb2_b ordered
    else v
  else mkOrderVars mb1 mb1_b bct bct1 bct2 mb2 mb2_b (ordered ++ [e]).

(** The loop [for (i = 0; i < count; i++)], from index [i] on. *)
Fixpoint order_scan (rest : list update_entry_s) (i : Z) (v : order_vars)
  : order_vars :=
  match rest with
  | [] => v
  | e :: rest' => order_scan rest' (i + 1) (order_step e i v)
  end.

(** [if (k >= 0) ordered[j++] = &orig[k];] *)
Definition append_at (orig : list update_entry_s) (k : Z)
  (ordered : list update_entry_s) : list update_entry_s :=
  if k >=? 0 then
    match nth_error orig (Z.to_nat k) with
    | Some e => ordered ++ [e]
    | None => ordered
    end
  else ordered.

(** The entries [ordered[0 .. j-1]] that the function has stored. *)
Definition order_entries (orig : list update_entry_s) : list update_entry_s :=
  let v := order_scan orig 0
             (mkOrderVars (-1) (-1) (-1) (-1) (-1) (-1) (-1) []) in
  append_at orig (ov_mb1_b v)
    (append_at orig (ov_mb1 v)
       (append_at orig (ov_bct2 v)
          (append_at orig (ov_bct1 v)
             (append_at orig (ov_bct v)
                (append_at orig (ov_mb2_b v)
                   (append_at orig (ov_mb2 v) (ov_ordered v))))))).

(** ** find_entry_by_name, order_entries_t210 *)

Definition t210_emmc_partnames : list string :=
  [ "VER_b"; "BCT"; "NVC-1";
    "PT-1"; "TBC-1"; "RP1-1"; "EBT-1"; "WB0-1"; "BPF-1"; "DTB-1"; "TOS-1";
    "EKS-1"; "LNX-1";
    "BCT";
    "BCT";
    "PT"; "TBC"; "RP1"; "EBT"; "WB0"; "BPF"; "DTB"; "TOS"; "EKS"; "LNX";
    "NVC"; "VER" ].

Definition t210_spi_sd_partnames : list string :=
  [ "VER_b"; "BCT"; "NVC_R";
    "BCT";
    "BCT";
    "PT"; "TBC"; "RP1"; "EBT"; "WB0"; "BPF"; "DTB"; "TOS"; "EKS"; "LNX";
    "NVC"; "VER" ].

(** The index of the first entry of that name ([None]: NULL), from index
    [i] on. *)
Fixpoint find_from (list_ : list update_entry_s) (i : nat) (name : string)
  : option nat :=
  match list_ with
  | [] => None
  | e :: rest =>
      if String.eqb (partname e) name then Some i
      else find_from rest (S i) name
  end.

Definition find_entry_by_name (list_ : list update_entry_s) (name : string)
  : option nat :=
  find_from list_ 0%nat name.

(** [memcmp(name, "EKS", 3) == 0] *)
Definition is_eks (name : string) : bool := String.prefix "EKS" name.

(** The loop over [update_list->partnames]: [None] when a name that is
    not an EKS name has no entry, else the entries stored in [ordered] and
    the indices marked in [used]. *)
Fixpoint t210_template (orig : list update_entry_s) (names : list string)
  (ordered : list update_entry_s) (used : list nat)
  : option (list update_entry_s * list nat) :=
  match names with
  | [] => Some (ordered, used)
  | name :: rest =>
      match find_entry_by_name orig name with
      | None =>
          if is_eks name then t210_template orig rest ordered used
          else None
      | Some k =>
          match nth_error orig k with
          | Some e => t210_template orig rest (ordered ++ [e]) (k :: used)
          | None => None
          end
      end
  end.

Definition is_used (used : list nat) (i : nat) : bool :=
  existsb (Nat.eqb i) used.

(** The loop [for (i = 0; i < count; i++) if (!used[i]) ...], from index
    [i] on. *)
Fixpoint t210_unused (rest : list update_entry_s) (i : nat) (used : list nat)
  : list update_entry_s :=
  match rest with
  | [] => []
  | e :: rest' =>
      if is_used used i then t210_unused rest' (S i) used
      else e :: t210_unused rest' (S i) used
  end.

(** Returns [retcount] (0: error) and the entries [ordered[0 ..
    retcount-1]]. *)
Definition order_entries_t210 (g : globals) (orig : list update_entry_s)
  : Z * list update_entry_s :=
  let update_list := if spiboot_platform g then t210_spi_sd_partnames
                     else t210_emmc_partnames in
  if Z.of_nat (List.length orig) >? 128 then (0, [])
  else match t210_template orig update_list [] [] with
       | None => (0, [])
       | Some (ordered, used) =>
           let all := ordered ++ t210_unused orig 0%nat used in
           (Z.of_nat (List.length all), all)
       end.

(** ** nvc_parts_match, invalid_version_or_downgrade *)

Section Gate.

Variable X : externals.

(** One pass of [for (i = 0; i < 2; i++)] in [nvc_parts_match]: the
    partition read into [slotbuf] and its CRC, or [None] when the read
    fails. *)
Definition nvc_read_crc (g : globals) (bootfd gptfd : Z) (p : gpt_entry_t)
  (w : world) : option Z * globals * world :=
  let partsize := partsize_of p in
  let fd := part_fd g bootfd gptfd p in
  let offset := part_offset g p in
  let '(r, sb, w1) := read_completely_at fd (slotbuf g) partsize offset w in
  let g1 := set_slotbuf sb g in
  if r <? 0 then (None, g1, w1)
  else (Some (crc32 X (firstn (Z.to_nat partsize) sb)), g1, w1).

Definition nvc_parts_match (g : globals) (bootfd gptfd : Z)
  (nvc0 nvc1 : option update_entry_s) (w : world) : bool * globals * world :=
  match nvc0, nvc1 with
  | Some e0, Some e1 =>
      match part e0, part e1 with
      | Some p0, Some p1 =>
          let '(c0, g1, w1) := nvc_read_crc g bootfd gptfd p0 w in
          match c0 with
          | None => (false, g1, w1)
          | Some crc0 =>
              let '(c1, g2, w2) := nvc_read_crc g1 bootfd gptfd p1 w1 in
              match c1 with
              | None => (false, g2, w2)
              | Some crc1 => (crc0 =? crc1, g2, w2)
              end
          end
      | _, _ => (false, g, w)
      end
  | _, _ => (false, g, w)
  end.

(** [ver[0]], [ver[1]], [nvc[0]], [nvc[1]] *)
Record gate_vars := mkGateVars {
  gv_ver0 : option update_entry_s;
  gv_ver1 : option update_entry_s;
  gv_nvc0 : option update_entry_s;
  gv_nvc1 : option update_entry_s
}.

Definition gate_scan_step (ver_b_name nvc_b_name : string) (v : gate_vars)
  (e : update_entry_s) : gate_vars :=
  if String.eqb (partname e) "VER" then
    mkGateVars (Some e) (gv_ver1 v) (gv_nvc0 v) (gv_nvc1 v)
  else if String.eqb (partname e) "NVC" then
    mkGateVars (gv_ver0 v) (gv_ver1 v) (Some e) (gv_nvc1 v)
  else if String.eqb (partname e) ver_b_name then
    mkGateVars (gv_ver0 v) (Some e) (gv_nvc0 v) (gv_nvc1 v)
  else if String.eqb (partname e) nvc_b_name then
    mkGateVars (gv_ver0 v) (gv_ver1 v) (gv_nvc0 v) (Some e)
  else v.

Definition gate_scan (g : globals) (entry_list : list update_entry_s)
  : gate_vars :=
  fold_left (gate_scan_step (other_copy_name g "VER") (other_copy_name g "NVC"))
            entry_list (mkGateVars None None None None).

Definition zero_verinfo : ver_info_s := mkVerInfo 0 0.

(** One pass of the loop that fills [verinfo[i]]: [None] is [return
    true].  A VER partition that does not parse leaves [verinfo[i]] as
    [memset] made it; the orchestrator does not look at the return code. *)
Definition gate_read_ver (g : globals) (bootfd gptfd : Z)
  (v : option update_entry_s) (w : world)
  : option ver_info_s * globals * world :=
  match v with
  | None => (Some zero_verinfo, g, w)
  | Some e =>
      match part e with
      | None => (None, g, w)
      | Some p =>
          let fd := part_fd g bootfd gptfd p in
          let offset := part_offset g p in
          let partsize := partsize_of p in
          let '(r, sb, w1) :=
            read_completely_at fd (slotbuf g) partsize offset w in
          let g1 := set_slotbuf sb g in
          if r <? 0 then (None, g1, w1)
          else
            match ver_extract_info X (firstn (Z.to_nat partsize) sb) with
            | Some info => (Some info, g1, w1)
            | None => (Some zero_verinfo, g1, w1)
            end
      end
  end.

(** The checks on the three version infos, after they are read. *)
Definition gate_decide (g : globals) (bootfd gptfd : Z) (vars : gate_vars)
  (verinfo0 verinfo1 bup_verinfo : ver_info_s) (force_initialize : bool)
  (w : world) : bool * globals * world :=
  if (bsp_version verinfo0 =? bsp_version verinfo1)
     && negb (bsp_version verinfo0 =? 0) then
    if bsp_version verinfo0 >? bsp_version bup_verinfo then (true, g, w)
    else if crc verinfo0 =? crc verinfo1 then
      let '(m, g1, w1) :=
        nvc_parts_match g bootfd gptfd (gv_nvc0 vars) (gv_nvc1 vars) w in
      if negb m then (true, g1, w1) else (false, g1, w1)
    else (false, g, w)
  else if (bsp_version verinfo1 =? 0) && negb (bsp_version verinfo0 =? 0)
          && (bsp_version verinfo0 >? bsp_version bup_verinfo) then
    if force_initialize then (false, g, w) else (true, g, w)
  else if negb (bsp_version verinfo1 =? 0)
          && negb (bsp_version verinfo1 =? bsp_version bup_verinfo) then
    (true, g, w)
  else if force_initialize then (false, g, w)
  else (true, g, w).

(** "Read the version info from the payload": [None] is [return true]. *)
Definition gate_bup_verinfo (ctx : bup_context X) (g : globals)
  (ver0 : update_entry_s) : option ver_info_s * bup_context X * globals :=
  let (sp, ctx1) := bup_setpos X ctx (bup_offset ver0) in
  if sp =? -1 then (None, ctx1, g)
  else
    let '(rr, g1, ctx2) := bup_read_content X ctx1 g (ent_length ver0) in
    if rr <? 0 then (None, ctx2, g1)
    else (ver_extract_info X
            (firstn (Z.to_nat (ent_length ver0)) (contentbuf g1)), ctx2, g1).

(** [true]: the update cannot be applied. *)
Definition invalid_version_or_downgrade (ctx : bup_context X) (g : globals)
  (bootfd gptfd : Z) (entry_list : list update_entry_s)
  (force_initialize : bool) (w : world)
  : bool * bup_context X * globals * world :=
  let vars := gate_scan g entry_list in
  match gv_ver0 vars with
  | None => (false, ctx, g, w)
  | Some ver0 =>
      let '(bv, ctx2, g1) := gate_bup_verinfo ctx g ver0 in
      match bv with
      | None => (true, ctx2, g1, w)
      | Some bup_verinfo =>
          let '(i0, g2, w1) :=
            gate_read_ver g1 bootfd gptfd (gv_ver0 vars) w in
          match i0 with
          | None => (true, ctx2, g2, w1)
          | Some verinfo0 =>
              let '(i1, g3, w2) :=
                gate_read_ver g2 bootfd gptfd (gv_ver1 vars) w1 in
              match i1 with
              | None => (true, ctx2, g3, w2)
              | Some verinfo1 =>
                  let '(rej, g4, w3) :=
                    gate_decide g3 bootfd gptfd vars verinfo0 verinfo1
                                bup_verinfo force_initialize w2 in
                  (rej, ctx2, g4, w3)
              end
          end
      end
  end.

End Gate.

(** ** find_largest_partition *)

(** The size of the target of one entry ([None]: [goto error_depart]). *)
Definition target_size (ent : update_entry_s) (w : world) : option Z * world :=
  match part ent with
  | Some p => (Some (partsize_of p), w)
  | None =>
      let (fd, w1) := sys_open (devname ent) w in
      if fd <? 0 then (None, w1)
      else
        let (offset, w2) := sys_lseek_end fd w1 in
        let w3 := sys_close fd w2 in
        if offset =? -1 then (None, w3) else (Some offset, w3)
  end.

Fixpoint largest_of (entries : list update_entry_s) (largest : Z) (w : world)
  : option Z * world :=
  match entries with
  | [] => (Some largest, w)
  | ent :: rest =>
      match target_size ent w with
      | (None, w1) => (None, w1)
      | (Some partlen, w1) =>
          largest_of rest (if partlen >? largest then partlen else largest) w1
      end
  end.

(** Returns [*sizep], or [None] for -1. *)
Definition find_largest_partition (redundant nonredundant : list update_entry_s)
  (w : world) : option Z * world :=
  match largest_of redundant 0 w with
  | (None, w1) => (None, w1)
  | (Some l1, w1) =>
      match largest_of nonredundant l1 w1 with
      | (None, w2) => (None, w2)
      | (Some largest, w2) => (Some (512 * ((largest + 511) / 512)), w2)
      end
  end.

(** ** main: building the update tasks *)

(** What the loop over [bup_enumerate_entries] builds. *)
Record plan := mkPlan {
  redundant_entries    : list update_entry_s;
  nonredundant_entries : list update_entry_s;
  largest_length       : Z;
  mb1_other            : update_entry_s
}.

(** [PlanFail] is [goto reset_and_depart]; [PlanOverrun] is a store past
    the end of one of the two arrays of [MAX_ENTRIES] entries, which the
    source does not test for on every path. *)
Inductive plan_result :=
| PlanOk (p : plan)
| PlanFail
| PlanOverrun.

Definition empty_entry : update_entry_s := mkEntry "" None "" 0 0.

(** [list[count] = e; count += 1] on an array of [MAX_ENTRIES]. *)
Definition push (l : list update_entry_s) (e : update_entry_s)
  : option (list update_entry_s) :=
  if Z.of_nat (List.length l) >=? MAX_ENTRIES then None else Some (l ++ [e]).

Definition is_full (l : list update_entry_s) : bool :=
  Z.of_nat (List.length l) >=? MAX_ENTRIES.

(** What the plan builder asks of its surroundings: the GPT lookup,
    [access(path, F_OK|W_OK) == 0] and [partition_should_be_present]. *)
Record plan_env := mkPlanEnv {
  gpt_find_by_name : string -> option gpt_entry_t;
  access_ok : string -> bool;
  partition_should_be_present : string -> bool
}.

Definition partlabel_path (name : string) : string :=
  "/dev/disk/by-partlabel/" ++ name.

(** [*suffix == '\0'] *)
Definition suffix_empty (suffix : option string) : bool :=
  match suffix with
  | Some s => String.eqb s ""
  | None => true
  end.

(** The body of the [while] loop for one enumerated entry. *)
Definition plan_step (g : globals) (E : plan_env) (initialize : Z)
  (suffix : option string) (p : plan) (item : string * Z * Z) : plan_result :=
  let '(name, offset, len) := item in
  let partname_b := other_copy_name g name in
  let updent := mkEntry name None "" offset len in
  let largest := if len >? largest_length p then len else largest_length p in
  let red := redundant_entries p in
  let nonred := nonredundant_entries p in
  match gpt_find_by_name E name with
  | Some pt =>
      let part_b := gpt_find_by_name E partname_b in
      let has_b := match part_b with Some _ => true | None => false end in
      if negb (initialize =? 0) then
        if has_b || String.eqb name "BCT" then
          if is_full red then PlanFail
          else
            let red1 := red ++ [mkEntry name (Some pt) "" offset len] in
            match part_b with
            | Some pb =>
                match push red1 (mkEntry partname_b (Some pb) "" offset len) with
                | Some red2 => PlanOk (mkPlan red2 nonred largest (mb1_other p))
                | None => PlanOverrun
                end
            | None => PlanOk (mkPlan red1 nonred largest (mb1_other p))
            end
        else
          if is_full nonred then PlanFail
          else PlanOk (mkPlan red (nonred ++ [mkEntry name (Some pt) "" offset len])
                              largest (mb1_other p))
      else if has_b || String.eqb name "BCT" then
        if is_full red then PlanFail
        else
          let first := negb has_b || suffix_empty suffix in
          let e := mkEntry (if first then name else partname_b)
                           (if first then Some pt else part_b) "" offset len in
          let other :=
            if String.eqb name "mb1" then
              mkEntry (if suffix_empty suffix then partname_b else name)
                      (if suffix_empty suffix then part_b else Some pt)
                      "" offset len
            else mb1_other p in
          PlanOk (mkPlan (red ++ [e]) nonred largest other)
      else PlanOk (mkPlan red nonred largest (mb1_other p))
  | None =>
      let pathname := partlabel_path name in
      if negb (access_ok E pathname) then
        if partition_should_be_present E name then PlanFail
        else PlanOk (mkPlan red nonred largest (mb1_other p))
      else
        let pathname_b := partlabel_path partname_b in
        let redundant := access_ok E pathname_b in
        if negb (initialize =? 0) then
          if redundant then
            match push red (mkEntry name None pathname offset len) with
            | None => PlanOverrun
            | Some red1 =>
                match push red1 (mkEntry partname_b None pathname_b offset len) with
                | None => PlanOverrun
                | Some red2 => PlanOk (mkPlan red2 nonred largest (mb1_other p))
                end
            end
          else
            match push nonred (mkEntry name None pathname offset len) with
            | None => PlanOverrun
            | Some nonred1 => PlanOk (mkPlan red nonred1 largest (mb1_other p))
            end
        else if redundant then
          match push red
                  (mkEntry (if suffix_empty suffix then name else partname_b)
                           None
                           (if suffix_empty suffix then pathname else pathname_b)
                           offset len) with
          | None => PlanOverrun
          | Some red1 => PlanOk (mkPlan red1 nonred largest (mb1_other p))
          end
        else PlanOk (mkPlan red nonred largest (mb1_other p))
  end.

(** The [while (bup_enumerate_entries(...))] loop over the entries the
    BUP enumerates (name, offset, length). *)
Fixpoint build_plan (g : globals) (E : plan_env) (initialize : Z)
  (suffix : option string) (items : list (string * Z * Z)) (p : plan)
  : plan_result :=
  match items with
  | [] => PlanOk p
  | item :: rest =>
      match plan_step g E initialize suffix p item with
      | PlanOk p1 => build_plan g E initialize suffix rest p1
      | r => r
      end
  end.

Definition empty_plan : plan := mkPlan [] [] 0 empty_entry.

(** For tegra210 all entries are lumped into the redundant list. *)
Definition merge_t210 (g : globals) (p : plan) : plan_result :=
  if soc_eqb (soctype g) TEGRA_SOCTYPE_210 then
    if Z.of_nat (List.length (redundant_entries p))
       + Z.of_nat (List.length (nonredundant_entries p)) >? MAX_ENTRIES
    then PlanFail
    else PlanOk (mkPlan (redundant_entries p ++ nonredundant_entries p) []
                        (largest_length p) (mb1_other p))
  else PlanOk p.

(** ** main *)

Section Main.

Variable X : externals.

(** The command line after [getopt_long_only]: [opt_suffix] is [suffix]
    ([None]: NULL), [opt_have_path] is [optind < argc]. *)
Record options := mkOptions {
  opt_initialize     : Z;
  opt_suffix         : option string;
  opt_slot_specified : bool;
  opt_dryrun         : bool;
  opt_check_only     : bool;
  opt_have_path      : bool
}.

(** The results of the calls [main] makes into the other modules.
    [bup_init = None], [gpt_init = false], [smd_new = false] and
    [smd_init = false] stand for a NULL context; [bup_entries] is what
    [bup_enumerate_entries] yields (name, offset, length). *)
Record main_env := mkMainEnv {
  cvm_soctype : tegra_soctype_t;
  smd_get_current_slot : Z;
  bup_init : option (bup_context X);
  bup_boot_device : string;
  bup_gpt_device : string;
  set_bootdev_writeable_status : string -> bool -> bool;
  gpt_init : bool;
  gpt_load : Z;
  gpt_load_from_config : Z;
  gpt_save : Z;
  gpt_layout_config_match : Z;
  smd_new : bool;
  smd_init : bool;
  smd_redundancy_full : bool;
  smd_set_redundancy_level : Z;
  smd_slot_mark_active : Z -> Z;
  smd_update : Z -> Z;
  bup_find_missing_entries : Z;
  bup_entries : list (string * Z * Z);
  env_plan : plan_env;
  malloc_ok : Z -> bool
}.

(** [Exited ret w]: [main] returns [ret].  [Undefined]: the program has
    stored past an array or is about to use an [ordered_entries] slot that
    was never filled. *)
Inductive main_result :=
| Exited (ret : Z) (w : world)
| Undefined.

(** The loops [for (i = 0; i < count; i++) if (process_entry(...) != 0)
    goto reset_and_depart;]. *)
Fixpoint process_all (ctx : bup_context X) (g : globals) (bootfd gptfd : Z)
  (entries : list update_entry_s) (dryrun : bool) (initialize : Z)
  (bctctx : option Z) (w : world)
  : Z * option Z * bup_context X * globals * world :=
  match entries with
  | [] => (0, bctctx, ctx, g, w)
  | ent :: rest =>
      let '(r, b1, ctx1, g1, w1) :=
        process_entry X ctx g bootfd gptfd ent dryrun initialize bctctx w in
      if negb (r =? 0) then (r, b1, ctx1, g1, w1)
      else process_all ctx1 g1 bootfd gptfd rest dryrun initialize b1 w1
  end.

(** The slot metadata update that ends a tegra186/tegra194 run. *)
Definition main_commit (env : main_env) (slot_specified dryrun : bool)
  (initialize curslot : Z) (w : world) : Z * world :=
  if negb slot_specified then
    if dryrun then (0, w)
    else
      let newslot := u32 (if negb (initialize =? 0) then 0 else 1 - curslot) in
      let w1 := log (EvSmdMarkActive newslot) w in
      if smd_slot_mark_active env newslot <? 0 then (1, w1)
      else
        let w2 := log (EvSmdUpdate initialize) w1 in
        if smd_update env initialize <? 0
        then (0, w2)   (* [perror], and on to [ret = 0] *)
        else (0, w2)
  else (0, w).

(** From the version check to [ret = 0]: the value [ret] has at
    [reset_and_depart] and the world there. *)
Definition main_execute (env : main_env) (ctx : bup_context X) (g : globals)
  (fd gptfd : Z) (slot_specified dryrun : bool) (initialize curslot : Z)
  (p : plan) (w : world) : main_result :=
  if soc_eqb (soctype g) TEGRA_SOCTYPE_210 then
    let '(rej, ctx1, g1, w1) :=
      invalid_version_or_downgrade X ctx g fd gptfd (redundant_entries p)
                                   (initialize >? 1) w in
    if rej then Exited 1 w1
    else
      let (count, ordered) := order_entries_t210 g1 (redundant_entries p) in
      if count =? 0 then Exited 1 w1
      else if count >? MAX_ENTRIES then Undefined
      else
        let '(r, _, _, _, w2) :=
          process_all ctx1 g1 fd gptfd ordered dryrun initialize (Some (-1)) w1 in
        if negb (r =? 0) then Exited 1 w2 else Exited 0 w2
  else
    let ordered := order_entries (redundant_entries p) in
    if negb (List.length ordered =? List.length (redundant_entries p))%nat
    then Undefined
    else
      let '(r, _, ctx1, g1, w1) :=
        process_all ctx g fd gptfd ordered dryrun initialize None w in
      if negb (r =? 0) then Exited 1 w1
      else
        let '(r2, w2) :=
          if negb (initialize =? 0) then
            let '(r', _, _, _, w') :=
              process_all ctx1 g1 fd gptfd (nonredundant_entries p) dryrun
                          initialize None w1 in
            (r', w')
          else if negb (bct_updated g1 =? 0) then
            if String.eqb (partname (mb1_other p)) "" then (-1, w1)
            else
              let '(r', _, _, _, w') :=
                process_entry X ctx1 g1 fd gptfd (mb1_other p) dryrun
                              initialize None w1 in
              (r', w')
          else (0, w1) in
        if negb (r2 =? 0) then Exited 1 w2
        else
          let (c, w3) := main_commit env slot_specified dryrun initialize
                                     curslot w2 in
          Exited c w3.

(** The code after the label [reset_and_depart] (the calls that free
    memory and contexts leave no trace). *)
Definition reset_and_depart (env : main_env) (dryrun : bool) (fd gptfd : Z)
  (reset_bootdev reset_gptdev : bool) (w : world) : world :=
  let w1 := if fd >=? 0
            then sys_close fd (if negb dryrun then sys_fsync fd w else w)
            else w in
  let w2 := if gptfd >=? 0 then sys_close gptfd (sys_fsync gptfd w1) else w1 in
  let w3 := if reset_bootdev
            then log (EvSetWriteable (bup_boot_device env) false) w2 else w2 in
  if reset_gptdev
  then log (EvSetWriteable (bup_gpt_device env) false) w3 else w3.

(** The slot choice at the head of [main]: [None] is [return 1], else
    [curslot], [suffix] and [initialize]. *)
Definition select_slot (o : options) (soc : tegra_soctype_t)
  (current_slot : Z) : option (Z * option string * Z) :=
  match soc with
  | TEGRA_SOCTYPE_186 | TEGRA_SOCTYPE_194 =>
      if negb (opt_slot_specified o) && (opt_initialize o =? 0) then
        let curslot := current_slot in
        if curslot <? 0 then None
        else Some (curslot, Some (if curslot =? 0 then "_b" else ""),
                   opt_initialize o)
      else Some (-1, opt_suffix o, opt_initialize o)
  | TEGRA_SOCTYPE_210 =>
      if opt_slot_specified o then None
      else Some (-1, opt_suffix o, opt_initialize o + 1)
  | TEGRA_SOCTYPE_INVALID => None
  end.

(** The globals once the buffers are there: [contentbuf =
    malloc(largest_length)], [slotbuf = malloc(slotbuf_size)], [zerobuf =
    calloc(1, slotbuf_size)], [contentbuf_size = largest_length]. *)
Definition alloc_globals (soc : tegra_soctype_t) (spi : bool)
  (bootdev_end_offset : Z) (p : plan) (size : Z) : globals :=
  mkGlobals soc spi bootdev_end_offset
            (zeros (largest_length p)) (largest_length p)
            (zeros size) size (zeros size) 0.

(** [main], from the test of [optind] on. *)
Definition main (o : options) (env : main_env) (w : world) : main_result :=
  if negb (opt_have_path o) && negb (opt_check_only o) then Exited 1 w
  else if soc_eqb (cvm_soctype env) TEGRA_SOCTYPE_INVALID then Exited 1 w
  else
  let soc := cvm_soctype env in
  match select_slot o soc (smd_get_current_slot env) with
  | None => Exited 1 w
  | Some (curslot, suffix, initialize) =>
  match bup_init env with
  | None => Exited 1 w
  | Some ctx =>
  let bootdev := bup_boot_device env in
  let gptdev := bup_gpt_device env in
  let dryrun := opt_dryrun o in
  if Z.of_nat (String.length bootdev) <? 8 then Exited 1 w
  else
  let spi := String.prefix "/dev/mtd" bootdev in
  if negb spi && negb (String.prefix "/dev/mmc" bootdev) then Exited 1 w
  else
  (* the GPT device *)
  let '(gptfd, reset_gptdev, wg) :=
    if spi then (-1, false, w)
    else if dryrun then
      let (f, w') := sys_open gptdev w in (f, false, w')
    else
      let w' := log (EvSetWriteable gptdev true) w in
      let (f, w'') := sys_open gptdev w' in
      (f, set_bootdev_writeable_status env gptdev true, w'') in
  if negb spi && (gptfd <? 0)
  then Exited 1 (reset_and_depart env dryrun (-1) gptfd false reset_gptdev wg)
  else
  (* the boot device *)
  let '(fd, reset_bootdev, wb) :=
    if dryrun then
      let (f, w') := sys_open bootdev wg in (f, false, w')
    else
      let w' := log (EvSetWriteable bootdev true) wg in
      let (f, w'') := sys_open bootdev w' in
      (f, set_bootdev_writeable_status env bootdev true, w'') in
  let depart := fun (ret : Z) (w' : world) =>
    Exited ret (reset_and_depart env dryrun fd gptfd reset_bootdev
                                 reset_gptdev w') in
  if fd <? 0 then depart 1 wb
  else if negb (gpt_init env) then depart 1 wb
  else if opt_check_only o then
    if soc_eqb soc TEGRA_SOCTYPE_210 then depart 1 wb
    else if negb (gpt_load env =? 0) then depart 0 wb
    else if gpt_layout_config_match env <? 0 then depart 2 wb
    else depart (if gpt_layout_config_match env =? 0 then 1 else 0) wb
  else
  let err := if negb (initialize =? 0) then gpt_load_from_config env
             else gpt_load env in
  if negb (err =? 0) then depart 1 wb
  else
  let save := negb (initialize =? 0) && negb dryrun
              && negb (soc_eqb soc TEGRA_SOCTYPE_210) in
  let ws := if save then log EvGptSave wb else wb in
  if save && negb (gpt_save env =? 0) then depart 1 ws
  else
  let (bootdev_end_offset, we) := sys_lseek_end fd ws in
  if bootdev_end_offset =? -1 then depart 1 we
  else
  let (_, w0) := sys_lseek fd 0 we in
  let smd_null :=
    if soc_eqb soc TEGRA_SOCTYPE_210 then false
    else if negb (initialize =? 0) then negb (smd_new env)
    else negb (smd_init env) in
  if smd_null then depart 1 w0
  else
  let smdctx := negb (soc_eqb soc TEGRA_SOCTYPE_210) in
  let upgrade := smdctx && negb (opt_slot_specified o)
                 && negb (smd_redundancy_full env) && negb dryrun in
  let wr := if upgrade then log EvSmdSetRedundancy w0 else w0 in
  if upgrade && (smd_set_redundancy_level env <? 0) then depart 1 wr
  else if negb (bup_find_missing_entries env =? 0) then depart 1 wr
  else
  let g0 := mkGlobals soc spi bootdev_end_offset [] 0 [] 0 [] 0 in
  match build_plan g0 (env_plan env) initialize suffix (bup_entries env)
                   empty_plan with
  | PlanOverrun => Undefined
  | PlanFail => depart 1 wr
  | PlanOk p0 =>
  match merge_t210 g0 p0 with
  | PlanOverrun => Undefined
  | PlanFail => depart 1 wr
  | PlanOk p =>
  match find_largest_partition (redundant_entries p)
                               (nonredundant_entries p) wr with
  | (None, wl) => depart 1 wl
  | (Some size, wl) =>
  if negb (malloc_ok env (largest_length p)) || negb (malloc_ok env size)
  then depart 1 wl
  else
  let g := alloc_globals soc spi bootdev_end_offset p size in
  match main_execute env ctx g fd gptfd (opt_slot_specified o) dryrun
                     initialize curslot p wl with
  | Undefined => Undefined
  | Exited ret wx => depart ret wx
  end
  end
  end
  end
  end
  end.

End Main.

(** * Vocabulary of the properties *)

(** The events a step has added to the trace. *)
Definition new_events (w w' : world) : list event :=
  skipn (List.length (w_trace w)) (w_trace w').

Definition is_write (e : event) : bool :=
  match e with
  | EvWrite _ _ _ => true
  | _ => false
  end.

(** The [write] system calls in a trace. *)
Definition writes_in (evs : list event) : list event := filter is_write evs.

(** The calls of [write_completely_at] in a trace: descriptor, offset. *)
Fixpoint write_calls (evs : list event) : list (Z * Z) :=
  match evs with
  | [] => []
  | EvWriteAt fd off _ _ :: rest => (fd, off) :: write_calls rest
  | _ :: rest => write_calls rest
  end.

(** The entries [process_entry] was called on, in a trace. *)
Fixpoint processed_in (evs : list event) : list string :=
  match evs with
  | [] => []
  | EvProcess name :: rest => name :: processed_in rest
  | _ :: rest => processed_in rest
  end.

(** A step that only looks: seeks and reads. *)
Definition is_seek_or_read (e : event) : bool :=
  match e with
  | EvLseek _ _ | EvRead _ _ _ => true
  | _ => false
  end.

(** The events [write_completely_at] can add for descriptor [fd]. *)
Definition is_write_at_event (fd : Z) (e : event) : bool :=
  match e with
  | EvWriteAt f _ _ _ | EvLseek f _ | EvWrite f _ _ | EvFsync f => f =? fd
  | _ => false
  end.

(** [evs] is a run of [write] calls on [fd] that starts at [pos] and
    leaves no gap: the bytes it wrote, in order. *)
Fixpoint written_from (fd pos : Z) (evs : list event) : option (list byte) :=
  match evs with
  | [] => Some []
  | EvWrite f p data :: rest =>
      if (f =? fd) && (p =? pos) then
        match written_from fd (pos + Z.of_nat (List.length data)) rest with
        | Some more => Some (data ++ more)
        | None => None
        end
      else None
  | _ => None
  end.

(** Every call of [write_completely_at] in the trace is followed, later
    in the trace, by an [fsync] of the same descriptor. *)
Fixpoint flush_follows (evs : list event) : bool :=
  match evs with
  | [] => true
  | EvWriteAt fd _ _ _ :: rest =>
      existsb (fun e => match e with
                        | EvFsync f => f =? fd
                        | _ => false
                        end) rest
      && flush_follows rest
  | _ :: rest => flush_follows rest
  end.

(** The last event of a trace is an [fsync]. *)
Definition ends_with_fsync (evs : list event) : bool :=
  match rev evs with
  | EvFsync _ :: _ => true
  | _ => false
  end.

(** The bytes of a device from [pos] on. *)
Definition device_bytes (w : world) (fd pos len : Z) : option (list byte) :=
  match w_dev w fd with
  | Some d => Some (peek (dev_data d) pos (Z.to_nat len))
  | None => None
  end.

(** Two worlds with the same devices: sizes, contents and nodes (file
    positions, pending transfer limits and traces may differ). *)
Definition same_devices (w w' : world) : Prop :=
  (forall fd,
      match w_dev w fd, w_dev w' fd with
      | Some d, Some d' =>
          dev_size d = dev_size d' /\ (forall x, dev_data d x = dev_data d' x)
      | None, None => True
      | _, _ => False
      end)
  /\ (forall path, w_node w path = w_node w' path).

(** Entries by name. *)
Definition named (name : string) (l : list update_entry_s)
  : list update_entry_s :=
  filter (fun e => String.eqb (partname e) name) l.

(** The entries [order_entries] leaves in input order. *)
Definition is_plain (e : update_entry_s) : bool :=
  negb (String.eqb (partname e) "mb1") && negb (String.eqb (partname e) "mb1_b")
  && negb (String.eqb (partname e) "mb2") && negb (String.eqb (partname e) "mb2_b")
  && negb (String.eqb (partname e) "BCT").

Definition count_named (name : string) (l : list update_entry_s) : nat :=
  List.length (named name l).

(** The place of an entry in the tegra186/tegra194 order. *)
Definition order_rank (e : update_entry_s) : nat :=
  if String.eqb (partname e) "mb1" then 4
  else if String.eqb (partname e) "mb1_b" then 5
  else if String.eqb (partname e) "mb2" then 1
  else if String.eqb (partname e) "mb2_b" then 2
  else if String.eqb (partname e) "BCT" then 3
  else 0.

Definition has_name (l : list update_entry_s) (name : string) : bool :=
  existsb (fun e => String.eqb (partname e) name) l.

(** The first entry of each name of a template that has one. *)
Fixpoint template_matches (orig : list update_entry_s) (names : list string)
  : list update_entry_s :=
  match names with
  | [] => []
  | name :: rest =>
      match find (fun e => String.eqb (partname e) name) orig with
      | Some e => e :: template_matches orig rest
      | None => template_matches orig rest
      end
  end.

(** The indices of the first entries of the names of a template. *)
Fixpoint template_indices (orig : list update_entry_s) (names : list string)
  : list nat :=
  match names with
  | [] => []
  | name :: rest =>
      match find_entry_by_name orig name with
      | Some k => k :: template_indices orig rest
      | None => template_indices orig rest
      end
  end.

(** The entries whose index is not in [used], in input order. *)
Definition not_consumed (orig : list update_entry_s) (used : list nat)
  : list update_entry_s :=
  map snd (filter (fun ie => negb (is_used used (fst ie)))
                  (combine (seq 0 (List.length orig)) orig)).

(** The template of the boot medium. *)
Definition t210_update_list (g : globals) : list string :=
  if spiboot_platform g then t210_spi_sd_partnames else t210_emmc_partnames.

(** One entry of [orig] by index, or nothing for -1. *)
Definition pick (l : list update_entry_s) (k : Z) : list update_entry_s :=
  append_at l k [].

(** What the index variables of [order_entries] hold once a prefix [pre]
    of the list is scanned. *)
Definition order_inv (pre : list update_entry_s) (v : order_vars) : Prop :=
  let n := Z.of_nat (List.length pre) in
  ov_ordered v = filter is_plain pre
  /\ (pick pre (ov_mb1 v) = named "mb1" pre /\ -1 <= ov_mb1 v < n)
  /\ (pick pre (ov_mb1_b v) = named "mb1_b" pre /\ -1 <= ov_mb1_b v < n)
  /\ (pick pre (ov_mb2 v) = named "mb2" pre /\ -1 <= ov_mb2 v < n)
  /\ (pick pre (ov_mb2_b v) = named "mb2_b" pre /\ -1 <= ov_mb2_b v < n)
  /\ (pick pre (ov_bct v) ++ pick pre (ov_bct1 v) ++ pick pre (ov_bct2 v)
      = named "BCT" pre
      /\ -1 <= ov_bct v < n /\ -1 <= ov_bct1 v < n /\ -1 <= ov_bct2 v < n
      /\ (ov_bct v = -1 -> ov_bct1 v = -1)
      /\ (ov_bct1 v = -1 -> ov_bct2 v = -1)).

(** The bounds on the names [order_entries] has one variable for. *)
Definition order_input_ok (l : list update_entry_s) : Prop :=
  (count_named "BCT" l <= 3)%nat
  /\ (count_named "mb1" l <= 1)%nat /\ (count_named "mb1_b" l <= 1)%nat
  /\ (count_named "mb2" l <= 1)%nat /\ (count_named "mb2_b" l <= 1)%nat.

(** Entries of lower rank stand before entries of higher rank. *)
Definition rank_sorted (l : list update_entry_s) : Prop :=
  forall i j e1 e2,
    nth_error l i = Some e1 -> nth_error l j = Some e2 ->
    (i <= j)%nat -> (order_rank e1 <= order_rank e2)%nat.

(** The order the tegra186/tegra194 update relies on: every [mb2] or
    [mb2_b] stands before every [BCT], and every [BCT] before every [mb1]
    or [mb1_b]. *)
Definition mb2_bct_mb1_order (out : list update_entry_s) : Prop :=
  forall i j k e1 e2 e3,
    nth_error out i = Some e1 -> nth_error out j = Some e2 ->
    nth_error out k = Some e3 ->
    partname e1 = "mb1" \/ partname e1 = "mb1_b" ->
    partname e2 = "BCT" ->
    partname e3 = "mb2" \/ partname e3 = "mb2_b" ->
    (k < j < i)%nat.

(** An entry list to run the ordering on. *)
Definition sample_entry (name : string) : update_entry_s :=
  mkEntry name (Some (mkGptEntry 0 7)) "" 0 16.

Definition sample_t186_entries : list update_entry_s :=
  map sample_entry ["mb1"; "cboot"; "BCT"; "mb2_b"; "mb1_b"; "kernel"; "mb2"].

(** [w'] comes from [w] by adding events that all satisfy [P]. *)
Definition steps (P : event -> bool) (w w' : world) : Prop :=
  exists evs, w_trace w' = w_trace w ++ evs /\ forallb P evs = true.

(** The device behind [fd]: its size, file position and contents. *)
Definition dev_is (w : world) (fd size pos : Z) (f : Z -> byte) : Prop :=
  exists d, w_dev w fd = Some d /\ dev_size d = size /\ dev_pos d = pos
            /\ forall x, dev_data d x = f x.

(** A step on [fd] leaves the other devices and the nodes alone. *)
Definition others_kept (fd : Z) (w w' : world) : Prop :=
  (forall fd', fd' <> fd -> w_dev w' fd' = w_dev w fd')
  /\ (forall path, w_node w' path = w_node w path).

Definition is_fsync_of (fd : Z) (e : event) : bool :=
  match e with
  | EvFsync f => f =? fd
  | _ => false
  end.

Definition is_write_of (fd : Z) (e : event) : bool :=
  match e with
  | EvWrite f _ _ => f =? fd
  | _ => false
  end.

(** A step that writes to [fd] at most: its events are those of
    [write_completely_at] on [fd], the other devices are as they were and
    [fd] has kept its size. *)
Definition touches (fd : Z) (w w' : world) : Prop :=
  steps (is_write_at_event fd) w w'
  /\ others_kept fd w w'
  /\ match w_dev w fd, w_dev w' fd with
     | Some d, Some d' => dev_size d = dev_size d'
     | None, None => True
     | _, _ => False
     end.

(** A step that only seeks and reads. *)
Definition looks (w w' : world) : Prop :=
  steps is_seek_or_read w w' /\ same_devices w w'.

(** No call of [write_completely_at] but on [fd]. *)
Definition write_at_only (fd : Z) (e : event) : bool :=
  match e with
  | EvWriteAt f _ _ _ => f =? fd
  | _ => true
  end.

(** The system calls [write_completely_at] makes on [fd]. *)
Definition is_io_on (fd : Z) (e : event) : bool :=
  match e with
  | EvLseek f _ | EvWrite f _ _ | EvFsync f => f =? fd
  | _ => false
  end.

(** [fd] has kept its size, and the other devices are as they were. *)
Definition kept (fd : Z) (w w' : world) : Prop :=
  others_kept fd w w'
  /\ match w_dev w fd, w_dev w' fd with
     | Some d, Some d' => dev_size d = dev_size d'
     | None, None => True
     | _, _ => False
     end.

(** A step made of system calls on [fd] alone. *)
Definition io_steps (fd : Z) (w w' : world) : Prop :=
  steps (is_io_on fd) w w' /\ kept fd w w'.

(** ** Stand-ins to run the model on *)

(** Modelled from the spec: the BUP module ([open], [setpos], [read] of
    section 6; bup.c is not among the sources).  A package is its bytes
    and a read position: [setpos] moves the position, [read] returns the
    bytes from it on, at most [count] of them, and 0 at the end. *)
Definition sample_bup_setpos (ctx : list byte * Z) (off : Z)
  : Z * (list byte * Z) :=
  (off, (fst ctx, off)).

Definition sample_bup_read (ctx : list byte * Z) (count : Z)
  : Z * list byte * (list byte * Z) :=
  let avail := skipn (Z.to_nat (snd ctx)) (fst ctx) in
  let n := Z.min count (Z.of_nat (List.length avail)) in
  if n <=? 0 then (0, [], ctx)
  else (n, firstn (Z.to_nat n) avail, (fst ctx, snd ctx + n)).

(** Modelled from the spec: the VER module ([extract_info(bytes) ->
    {bsp_version, crc} or error]; ver.c is not among the sources).  The
    stand-in takes the version from the first byte and the CRC from the
    second, and fails on less than two bytes. *)
Definition sample_ver_extract_info (data : list byte) : option ver_info_s :=
  match data with
  | v :: c :: _ => Some (mkVerInfo (Z.of_N (Byte.to_N v)) (Z.of_N (Byte.to_N c)))
  | _ => None
  end.

(** Modelled from the spec: the BCT module ([validate_update(current,
    new, soc, medium) -> bool]; bct.c is not among the sources).  The
    stand-in accepts every update and leaves the sizes alone. *)
Definition sample_ext : externals :=
  mkExternals (list byte * Z) sample_bup_setpos sample_bup_read
              (fun _ _ => true) (fun _ _ => true)
              (fun _ _ block_size page_size => (true, block_size, page_size))
              sample_ver_extract_info
              (fun data => Z.of_nat (List.length data)).

(** A device of [size] bytes, all equal to [fill]. *)
Definition sample_device (size : Z) (fill : byte) : device :=
  mkDevice size (fun _ => fill) 0.

(** A world with the boot device on descriptor 3, the GPT device on 4 and
    one partition node on 5. *)
Definition sample_world (boot gpt node : device) (io : list Z) : world :=
  mkWorld (fun fd => if fd =? 3 then Some boot
                     else if fd =? 4 then Some gpt
                     else if fd =? 5 then Some node
                     else None)
          (fun path =>
             if String.eqb path "/dev/mmcblk0boot0" then 3
             else if String.eqb path "/dev/mmcblk0boot1" then 4
             else if String.eqb path "/dev/disk/by-partlabel/kernel" then 5
             else -1)
          io [].

Definition sample_globals (soc : tegra_soctype_t) (spi : bool)
  (bootdev_size_ : Z) (content : list byte) (bufsize : Z) : globals :=
  mkGlobals soc spi bootdev_size_ content (Z.of_nat (List.length content))
            (zeros bufsize) bufsize (zeros bufsize) 0.

(** The first-LBA byte offset of the partition of an entry on the boot
    device; [update_bct] and [update_bct_t210] add their offsets to it. *)
Definition bct_base (ent : update_entry_s) : Z :=
  match part ent with
  | Some p => first_lba p * 512
  | None => 0
  end.

(** The offsets [update_bct] goes through, in its order. *)
Definition update_bct_offsets (g : globals) (ent : update_entry_s) : list Z :=
  [bctslotsize_of g ent; bct_block_size g; 0].

(** An event of a step that seeks and reads, and writes to [fd] only. *)
Definition rw_event (fd : Z) (e : event) : bool :=
  is_seek_or_read e || is_write_at_event fd e.




(** A step that calls [write_completely_at] on [fd] only, and ends with
    a flush of [fd]. *)
Definition flushed (fd : Z) (w w' : world) : Prop :=
  exists pre, w_trace w' = w_trace w ++ pre ++ [EvFsync fd]
              /\ forallb (write_at_only fd) pre = true.

(** ** Worlds and calls for the examples *)

Definition sample_payload : list byte := [x01; x02; x03; x04].

(** Three devices filled with [xff]: a boot device and a GPT device of 64
    bytes, and a partition node of 4 bytes. *)
Definition small_world (io : list Z) : world :=
  sample_world (sample_device 64 xff) (sample_device 64 xff)
               (sample_device 4 xff) io.

(** An entry for the partition node of [small_world], with a payload of
    [len] bytes at the start of the package. *)
Definition node_entry (len : Z) : update_entry_s :=
  mkEntry "kernel" None "/dev/disk/by-partlabel/kernel" 0 len.

(** Globals of a tegra186 eMMC system with buffers of 8 bytes. *)
Definition small_globals : globals :=
  sample_globals TEGRA_SOCTYPE_186 false 64 (zeros 8) 8.

(** A tegra210 eMMC system whose BCT partition is one block of 16 KiB at
    the start of the boot device, with a BCT payload of 512 bytes. *)
Definition t210_payload : list byte := repeat x07 512.

Definition t210_world : world :=
  sample_world (sample_device 16384 xff) (sample_device 64 xff)
               (sample_device 4 xff) [].

Definition t210_globals : globals :=
  mkGlobals TEGRA_SOCTYPE_210 false 16384 t210_payload 512
            (zeros 16384) 16384 (zeros 16384) 0.

Definition t210_bct_entry : update_entry_s :=
  mkEntry "BCT" (Some (mkGptEntry 0 31)) "" 0 512.

(** A partition of 8 bytes does not exist in 512-byte sectors; the
    examples on [small_world] use the partition node and, for GPT
    targets, a boot device of one sector. *)
Definition sector_world (io : list Z) : world :=
  sample_world (sample_device 512 xff) (sample_device 64 xff)
               (sample_device 4 xff) io.

Definition sector_globals : globals :=
  mkGlobals TEGRA_SOCTYPE_186 false 512 (sample_payload ++ zeros 4) 8
            (zeros 512) 512 (zeros 512) 0.

Definition sector_entry : update_entry_s :=
  mkEntry "cboot" (Some (mkGptEntry 0 0)) "" 0 4.

(** The parts of the result of [process_entry]. *)
Definition pe_ret {C : Type} (r : Z * option Z * C * globals * world) : Z :=
  fst (fst (fst (fst r))).

Definition pe_which {C : Type} (r : Z * option Z * C * globals * world)
  : option Z :=
  snd (fst (fst (fst r))).

Definition pe_world {C : Type} (r : Z * option Z * C * globals * world)
  : world :=
  snd r.

(** A payload of 8 bytes for the partition node of 4 bytes. *)
Definition long_payload : list byte := sample_payload ++ [x05; x06; x07; x08].

(** A tegra210 eMMC system whose BCT partition is a single sector, smaller
    than one block of 16 KiB, on a boot device of 8 GiB. *)
Definition tiny_bct_world : world :=
  sample_world (sample_device (2 ^ 33) xff) (sample_device 64 xff)
               (sample_device 4 xff) [].

Definition tiny_bct_globals : globals :=
  mkGlobals TEGRA_SOCTYPE_210 false (2 ^ 33) t210_payload 512
            (zeros 512) 512 (zeros 512) 0.

Definition tiny_bct_entry : update_entry_s :=
  mkEntry "BCT" (Some (mkGptEntry 0 0)) "" 0 512.

(** The VER partition [p] is readable in [w] and parses to [v]. *)
Definition partition_parses (X : externals) (g : globals) (bootfd gptfd : Z)
  (w : world) (p : gpt_entry_t) (v : ver_info_s) : Prop :=
  exists d, w_dev w (part_fd g bootfd gptfd p) = Some d
            /\ ver_extract_info X
                 (peek (dev_data d) (part_offset g p)
                       (Z.to_nat (partsize_of p)))
               = Some v.

(** Fixtures of the version gate: a tegra210 boot device whose bytes are
    all 5 (so both VER partitions parse to version 5 with the stand-in
    parser), and a package whose VER payload has version 3. *)
Definition ver_world : world :=
  sample_world (sample_device 16384 x05) (sample_device 64 xff)
               (sample_device 4 xff) [].

Definition ver_globals : globals :=
  mkGlobals TEGRA_SOCTYPE_210 false 16384 (zeros 2) 2
            (zeros 16384) 16384 (zeros 16384) 0.

Definition ver_entry : update_entry_s :=
  mkEntry "VER" (Some (mkGptEntry 0 0)) "" 0 2.

Definition ver_b_entry : update_entry_s :=
  mkEntry "VER_b" (Some (mkGptEntry 1 1)) "" 0 2.

Definition ver_plan : plan :=
  mkPlan [ver_entry; ver_b_entry] [] 2 empty_entry.

Definition ver_package : list byte * Z := ([x03; x00], 0).

(** Fixtures of whole runs: a boot device of two sectors that holds
    [cboot] and [cboot_b], and a package with one entry, [cboot]. *)
Definition slot_plan_env : plan_env :=
  mkPlanEnv (fun name =>
               if String.eqb name "cboot" then Some (mkGptEntry 0 0)
               else if String.eqb name "cboot_b" then Some (mkGptEntry 1 1)
               else None)
            (fun _ => false) (fun _ => false).

(** The other modules answer with success, but for [smd_update], which
    answers [update_result]. *)
Definition slot_env (soc : tegra_soctype_t) (current_slot update_result : Z)
  : main_env sample_ext :=
  mkMainEnv sample_ext soc current_slot (Some (sample_payload, 0))
            "/dev/mmcblk0boot0" "/dev/mmcblk0boot1" (fun _ _ => true)
            true 0 0 0 0 true true true 0 (fun _ => 0)
            (fun _ => update_result) 0 [("cboot", 0, 4)] slot_plan_env
            (fun _ => true).

Definition slot_world : world :=
  sample_world (sample_device 1024 xff) (sample_device 64 xff)
               (sample_device 4 xff) [].

(** [tegra-bootloader-update <path>]: no option given. *)
Definition slot_options : options :=
  mkOptions 0 None false false false true.

(** What a run of [main] leaves to its caller. *)
Definition exit_status (r : main_result) : option Z :=
  match r with
  | Exited ret _ => Some ret
  | Undefined => None
  end.

Definition run_trace (r : main_result) : list event :=
  match r with
  | Exited _ w => w_trace w
  | Undefined => []
  end.

(** The calls into the slot metadata module. *)
Definition is_smd_event (e : event) : bool :=
  match e with
  | EvSmdSetRedundancy | EvSmdMarkActive _ | EvSmdUpdate _ => true
  | _ => false
  end.

(** The globals that are set once, before the update tasks are built. *)
Definition same_platform (g g' : globals) : Prop :=
  soctype g' = soctype g /\ spiboot_platform g' = spiboot_platform g
  /\ bootdev_size g' = bootdev_size g.

(** Fixtures of the tegra210 order: update tasks for every name of the
    SPI template but EKS, in an order of their own, and two more. *)
Definition named_entry (name : string) : update_entry_s :=
  mkEntry name (Some (mkGptEntry 0 0)) "" 0 4.

Definition spi_globals : globals :=
  mkGlobals TEGRA_SOCTYPE_210 true 16384 (zeros 4) 4
            (zeros 512) 512 (zeros 512) 0.

Definition spi_entries : list update_entry_s :=
  map named_entry
      ["xusb"; "VER"; "NVC"; "LNX"; "TOS"; "DTB"; "BPF"; "WB0"; "EBT";
       "RP1"; "TBC"; "PT"; "NVC_R"; "BCT"; "VER_b"; "kernel"].

(** The suffix [main] derives from the current slot. *)
Definition derived_suffix (curslot : Z) : string :=
  if curslot =? 0 then "_b" else "".

(** The name of the copy of a partition that belongs to a slot: the base
    name for slot 0, the name of the redundant copy for slot 1. *)
Definition slot_copy_name (g : globals) (slot : Z) (name : string) : string :=
  if slot =? 1 then other_copy_name g name else name.

(** Modelled from the spec: the update task that one enumerated entry of
    the package gives in update mode when the copies of [slot] are the
    targets.  A partition with two copies gives the task for the copy of
    [slot] (a GPT partition or a partition node); a BCT without a second
    copy gives the task for the only BCT; every other entry gives no
    redundant task. *)
Definition slot_entry (g : globals) (E : plan_env) (slot : Z)
  (item : string * Z * Z) : list update_entry_s :=
  let '(name, offset, len) := item in
  let copy := slot_copy_name g slot name in
  match gpt_find_by_name E name with
  | Some pt =>
      match gpt_find_by_name E (other_copy_name g name) with
      | Some _ => [mkEntry copy (gpt_find_by_name E copy) "" offset len]
      | None => if String.eqb name "BCT"
                then [mkEntry name (Some pt) "" offset len] else []
      end
  | None =>
      if access_ok E (partlabel_path name)
         && access_ok E (partlabel_path (other_copy_name g name))
      then [mkEntry copy None (partlabel_path copy) offset len]
      else []
  end.

(** The slots given to [smd_slot_mark_active], in order. *)
Fixpoint marked_active (evs : list event) : list Z :=
  match evs with
  | [] => []
  | EvSmdMarkActive slot :: rest => slot :: marked_active rest
  | _ :: rest => marked_active rest
  end.

(** The buffer [contentbuf] has [contentbuf_size] bytes. *)
Definition buffer_ok (g : globals) : Prop :=
  Z.of_nat (List.length (contentbuf g)) = contentbuf_size g.

(** The values [contentbuf_size - total] (as signed numbers) that the
    loop of [bup_read_loop] hands to [bup_read], in order. *)
Fixpoint bup_read_bounds (X : externals) (fuel : nat) (ctx : bup_context X)
  (cbuf : list byte) (cbuf_size len total : Z) : list Z :=
  if len <=? total then []
  else match fuel with
       | O => []
       | S fuel' =>
           let '(n, cbuf1, ctx1) := bup_read_body X ctx cbuf cbuf_size total in
           (cbuf_size - total)
           :: (if n <=? 0 then []
               else bup_read_bounds X fuel' ctx1 cbuf1 cbuf_size len (total + n))
       end.

(** Modelled from the spec: the BUP module's [read(handle, buf,
    max_bytes) -> n]: at most [max_bytes] bytes are read, and the [n]
    bytes read are what is stored in [buf] (bup.c is not among the
    sources). *)
Definition bup_read_contract (X : externals) : Prop :=
  forall (ctx : bup_context X) (count n : Z) (data : list byte)
         (ctx' : bup_context X),
    0 <= count -> bup_read X ctx count = (n, data, ctx') ->
    n <= count /\ Z.of_nat (List.length data) = Z.max 0 n.

(** The update tasks a run can process: the two lists and the other mb1
    entry when it was saved. *)
Definition plan_entries (p : plan) : list update_entry_s :=
  redundant_entries p ++ nonredundant_entries p
  ++ (if String.eqb (partname (mb1_other p)) "" then [] else [mb1_other p]).

(** The largest length among the enumerated entries of the package. *)
Definition largest_item (items : list (string * Z * Z)) : Z :=
  fold_left (fun m item => Z.max m (snd item)) items 0.

Definition lengths_fit (m : Z) (l : list update_entry_s) : Prop :=
  Forall (fun e => ent_length e <= m) l.

(** What the loop over the enumerated entries keeps true. *)
Definition plan_fits (p : plan) : Prop :=
  0 <= largest_length p
  /\ lengths_fit (largest_length p) (redundant_entries p)
  /\ lengths_fit (largest_length p) (nonredundant_entries p)
  /\ ent_length (mb1_other p) <= largest_length p.

(** [contentbuf] and [contentbuf_size] are as they were. *)
Definition content_kept (g g' : globals) : Prop :=
  contentbuf g' = contentbuf g /\ contentbuf_size g' = contentbuf_size g.

(** Nothing but [slotbuf] has changed. *)
Definition slotbuf_only (g g' : globals) : Prop :=
  same_platform g g' /\ content_kept g g'.

(** From [w] to [w'] no device has changed its size, and no byte has
    changed but, at most, the bytes [lo .. hi - 1] of the device behind
    [fd] (file positions, transfer limits and traces may differ). *)
Definition changed_only_within (fd lo hi : Z) (w w' : world) : Prop :=
  (forall path, w_node w' path = w_node w path)
  /\ forall f,
       match w_dev w f, w_dev w' f with
       | Some d, Some d' =>
           dev_size d' = dev_size d
           /\ forall x, (f = fd -> x < lo \/ hi <= x) ->
                        dev_data d' x = dev_data d x
       | None, None => True
       | _, _ => False
       end.

(** A stand-in whose BCT validators reject every update. *)
Definition strict_ext : externals :=
  mkExternals (list byte * Z) sample_bup_setpos sample_bup_read
              (fun _ _ => false) (fun _ _ => false)
              (fun _ _ block_size page_size => (false, block_size, page_size))
              sample_ver_extract_info
              (fun data => Z.of_nat (List.length data)).


Definition t186_bct_globals : globals :=
  mkGlobals TEGRA_SOCTYPE_186 false 32768 t210_payload 512
            (zeros 32768) 32768 (zeros 32768) 0.



(** Update tasks with both VER and both NVC entries of a tegra210 eMMC
    system, and a package of version 5. *)
Definition ver_nvc_entries : list update_entry_s :=
  [ver_entry; ver_b_entry;
   mkEntry "NVC" (Some (mkGptEntry 2 2)) "" 0 2;
   mkEntry "NVC-1" (Some (mkGptEntry 3 3)) "" 0 2].

Definition ver5_package : list byte * Z := ([x05; x00], 0).

(** Opening a node, seeking and closing. *)
Definition is_probe (e : event) : bool :=
  match e with
  | EvOpen _ _ | EvLseek _ _ | EvClose _ => true
  | _ => false
  end.

(** The target of an entry, a GPT partition or a partition node, has at
    most [l] bytes. *)
Definition target_fits (w : world) (ent : update_entry_s) (l : Z) : Prop :=
  match part ent with
  | Some p => partsize_of p <= l
  | None => exists d, w_dev w (w_node w (devname ent)) = Some d
                      /\ dev_size d <= l
  end.

(** The two stretches of names between the BCT entries of the tegra210
    templates: the redundant copies, and the primary partitions. *)
Definition t210_copy_names (g : globals) : list string :=
  if spiboot_platform g then ["NVC_R"]
  else ["NVC-1"; "PT-1"; "TBC-1"; "RP1-1"; "EBT-1"; "WB0-1"; "BPF-1";
        "DTB-1"; "TOS-1"; "EKS-1"; "LNX-1"].

Definition t210_primary_names : list string :=
  ["PT"; "TBC"; "RP1"; "EBT"; "WB0"; "BPF"; "DTB"; "TOS"; "EKS"; "LNX";
   "NVC"; "VER"].

(** The events of a system call on a descriptor or of a call of
    [write_completely_at]: what the writers of a partition add to the
    trace. *)
Definition is_device_call (e : event) : bool :=
  match e with
  | EvLseek _ _ | EvRead _ _ _ | EvWrite _ _ _ | EvFsync _ | EvOpen _ _
  | EvClose _ | EvWriteAt _ _ _ _ => true
  | _ => false
  end.

(** The events of the loops over the update tasks: a call of
    [process_entry] and what it does to the devices. *)
Definition is_entry_event (e : event) : bool :=
  match e with
  | EvProcess _ => true
  | _ => is_device_call e
  end.

(** What changes nothing: opening, seeking, reading, flushing, closing,
    and a call of [process_entry] (which, by itself, only reads the
    package). *)
Definition is_dry_event (e : event) : bool :=
  match e with
  | EvLseek _ _ | EvRead _ _ _ | EvFsync _ | EvOpen _ _ | EvClose _
  | EvProcess _ => true
  | _ => false
  end.

(** A step that changes nothing: no [write], no call of
    [write_completely_at], no change of write protection, no GPT or slot
    metadata update, and the devices as they were. *)
Definition harmless (w w' : world) : Prop :=
  steps is_dry_event w w' /\ same_devices w w'.

(** A call of [set_bootdev_writeable_status]. *)
Definition is_lock_event (e : event) : bool :=
  match e with
  | EvSetWriteable _ _ => true
  | _ => false
  end.

Definition no_lock_event (e : event) : bool := negb (is_lock_event e).

(** [set_bootdev_writeable_status(dev, false)]. *)
Definition is_relock (e : event) : bool :=
  match e with
  | EvSetWriteable _ false => true
  | _ => false
  end.

(** What [main] does before it runs the update tasks: lifting the write
    protection, opening and seeking, the size probes of
    [find_largest_partition], the save of a new GPT and the change of the
    redundancy level. *)
Definition is_setup_event (e : event) : bool :=
  match e with
  | EvSetWriteable _ true | EvOpen _ _ | EvLseek _ _ | EvClose _
  | EvGptSave | EvSmdSetRedundancy => true
  | _ => false
  end.

(** Every call of [write_completely_at] made from [w] to [w'] is
    followed, before [w'], by a flush of the descriptor it wrote to. *)
Definition durable (w w' : world) : Prop :=
  exists evs, w_trace w' = w_trace w ++ evs /\ flush_follows evs = true.

(** An update task whose target is the one its name stands for: the
    partition the GPT has under the name of the task, or else the
    partition node of that name, which is there and writeable. *)
Definition task_target_ok (E : plan_env) (e : update_entry_s) : Prop :=
  match part e with
  | Some pt => gpt_find_by_name E (partname e) = Some pt /\ devname e = ""
  | None => devname e = partlabel_path (partname e)
            /\ access_ok E (devname e) = true
  end.

(** All the tasks of a plan have their target, and [mb1_other], once it
    is set, is a GPT partition. *)
Definition plan_targets_ok (E : plan_env) (p : plan) : Prop :=
  Forall (task_target_ok E) (redundant_entries p ++ nonredundant_entries p)
  /\ (mb1_other p = empty_entry
      \/ exists pt, part (mb1_other p) = Some pt
                    /\ gpt_find_by_name E (partname (mb1_other p)) = Some pt).

(** No [write] but on [fd]. *)
Definition writes_only (fd : Z) (e : event) : bool :=
  match e with
  | EvWrite f _ _ => f =? fd
  | _ => true
  end.

(** Every [write] of the trace is followed, later in the trace, by an
    [fsync] of the descriptor it wrote to: nothing written is left
    without a flush after it. *)
Fixpoint writes_flushed (evs : list event) : bool :=
  match evs with
  | [] => true
  | EvWrite fd _ _ :: rest =>
      existsb (is_fsync_of fd) rest && writes_flushed rest
  | _ :: rest => writes_flushed rest
  end.

(** From [w] to [w'] every [write] has been followed by a flush of its
    descriptor. *)
Definition settled (w w' : world) : Prop :=
  exists evs, w_trace w' = w_trace w ++ evs /\ writes_flushed evs = true.

(** The tasks of [entries], run one after the other by [process_entry]
    from the state [(bctctx, ctx, g, w)] on, all return 0, and [final]
    is the state the last of them leaves. *)
Fixpoint all_return_0 (X : externals) (ctx : bup_context X) (g : globals)
  (bootfd gptfd : Z) (entries : list update_entry_s) (dryrun : bool)
  (initialize : Z) (bctctx : option Z) (w : world)
  (final : option Z * bup_context X * globals * world) : Prop :=
  match entries with
  | [] => final = (bctctx, ctx, g, w)
  | ent :: rest =>
      exists b1 ctx1 g1 w1,
        process_entry X ctx g bootfd gptfd ent dryrun initialize bctctx w
        = (0, b1, ctx1, g1, w1)
        /\ all_return_0 X ctx1 g1 bootfd gptfd rest dryrun initialize b1 w1
                        final
  end.

(** * Lemmas *)

(** ** Lists and names *)

Lemma geb_true (a b : Z) : b <= a -> (a >=? b) = true.
Proof. intros H. rewrite Z.geb_leb. now apply Z.leb_le. Qed.

Lemma geb_false (a b : Z) : a < b -> (a >=? b) = false.
Proof. intros H. rewrite Z.geb_leb. now apply Z.leb_gt. Qed.

Lemma gtb_true (a b : Z) : b < a -> (a >? b) = true.
Proof. intros H. rewrite Z.gtb_ltb. now apply Z.ltb_lt. Qed.

Lemma gtb_false (a b : Z) : a <= b -> (a >? b) = false.
Proof. intros H. rewrite Z.gtb_ltb. now apply Z.ltb_ge. Qed.

Lemma named_app (name : string) (a b : list update_entry_s) :
  named name (a ++ b) = named name a ++ named name b.
Proof. unfold named. apply filter_app. Qed.

Lemma count_named_app (name : string) (a b : list update_entry_s) :
  count_named name (a ++ b) = (count_named name a + count_named name b)%nat.
Proof. unfold count_named. rewrite named_app. apply length_app. Qed.

Lemma named_In (name : string) (l : list update_entry_s) (e : update_entry_s) :
  In e (named name l) -> partname e = name /\ In e l.
Proof.
  unfold named. rewrite filter_In. intros [Hin Hn].
  apply String.eqb_eq in Hn. auto.
Qed.

Lemma pick_neg (l : list update_entry_s) : pick l (-1) = [].
Proof. reflexivity. Qed.

Lemma append_at_pick (orig : list update_entry_s) (k : Z)
  (acc : list update_entry_s) :
  append_at orig k acc = acc ++ pick orig k.
Proof.
  unfold pick, append_at. destruct (k >=? 0); [|now rewrite app_nil_r].
  destruct (nth_error orig (Z.to_nat k)); [reflexivity|now rewrite app_nil_r].
Qed.

Lemma pick_app_old (pre : list update_entry_s) (e : update_entry_s) (k : Z) :
  -1 <= k < Z.of_nat (List.length pre) -> pick (pre ++ [e]) k = pick pre k.
Proof.
  intros Hk. unfold pick, append_at.
  destruct (k >=? 0) eqn:Hge; [|reflexivity].
  rewrite Z.geb_leb in Hge. apply Z.leb_le in Hge.
  rewrite nth_error_app1 by lia. reflexivity.
Qed.

Lemma pick_app_new (pre : list update_entry_s) (e : update_entry_s) :
  pick (pre ++ [e]) (Z.of_nat (List.length pre)) = [e].
Proof.
  unfold pick, append_at.
  rewrite geb_true by lia.
  rewrite Nat2Z.id, nth_error_app2 by lia.
  rewrite Nat.sub_diag. reflexivity.
Qed.

Lemma pick_length (l : list update_entry_s) (k : Z) :
  (List.length (pick l k) <= 1)%nat.
Proof.
  unfold pick, append_at. destruct (k >=? 0); simpl; [|lia].
  destruct (nth_error l (Z.to_nat k)); simpl; lia.
Qed.

Lemma pick_nonneg_length (l : list update_entry_s) (k : Z) :
  0 <= k < Z.of_nat (List.length l) -> List.length (pick l k) = 1%nat.
Proof.
  intros Hk. unfold pick, append_at.
  rewrite geb_true by lia.
  destruct (nth_error l (Z.to_nat k)) eqn:E; [reflexivity|].
  apply nth_error_None in E. lia.
Qed.

(** ** order_entries *)

Lemma named_snoc (n : string) (pre : list update_entry_s) (e : update_entry_s) :
  named n (pre ++ [e])
  = named n pre ++ (if String.eqb (partname e) n then [e] else []).
Proof. rewrite named_app. reflexivity. Qed.

Lemma single_keep (n : string) (pre : list update_entry_s)
  (e : update_entry_s) (k : Z) :
  String.eqb (partname e) n = false ->
  pick pre k = named n pre /\ -1 <= k < Z.of_nat (List.length pre) ->
  pick (pre ++ [e]) k = named n (pre ++ [e])
  /\ -1 <= k < Z.of_nat (List.length (pre ++ [e])).
Proof.
  intros Hn [Hp Hk]. rewrite named_snoc, Hn, app_nil_r, pick_app_old by lia.
  rewrite length_app. simpl. split; [assumption|lia].
Qed.

Lemma single_set (n : string) (pre : list update_entry_s)
  (e : update_entry_s) :
  String.eqb (partname e) n = true ->
  (count_named n (pre ++ [e]) <= 1)%nat ->
  pick (pre ++ [e]) (Z.of_nat (List.length pre)) = named n (pre ++ [e])
  /\ -1 <= Z.of_nat (List.length pre) < Z.of_nat (List.length (pre ++ [e])).
Proof.
  intros Hn Hc. unfold count_named in Hc. rewrite named_snoc, Hn in *.
  rewrite length_app in Hc. simpl in Hc.
  destruct (named n pre) as [|x l]; [|simpl in Hc; lia].
  rewrite pick_app_new, length_app. simpl. split; [reflexivity|lia].
Qed.

Lemma plain_snoc (pre : list update_entry_s) (e : update_entry_s) :
  filter is_plain (pre ++ [e])
  = filter is_plain pre ++ (if is_plain e then [e] else []).
Proof. rewrite filter_app. reflexivity. Qed.

Lemma bct_keep (pre : list update_entry_s) (e : update_entry_s) (b0 b1 b2 : Z) :
  String.eqb (partname e) "BCT" = false ->
  let n := Z.of_nat (List.length pre) in
  (pick pre b0 ++ pick pre b1 ++ pick pre b2 = named "BCT" pre
   /\ -1 <= b0 < n /\ -1 <= b1 < n /\ -1 <= b2 < n
   /\ (b0 = -1 -> b1 = -1) /\ (b1 = -1 -> b2 = -1)) ->
  let n' := Z.of_nat (List.length (pre ++ [e])) in
  pick (pre ++ [e]) b0 ++ pick (pre ++ [e]) b1 ++ pick (pre ++ [e]) b2
  = named "BCT" (pre ++ [e])
  /\ -1 <= b0 < n' /\ -1 <= b1 < n' /\ -1 <= b2 < n'
  /\ (b0 = -1 -> b1 = -1) /\ (b1 = -1 -> b2 = -1).
Proof.
  intros Hn n (Hp & H0 & H1 & H2 & I0 & I1) n'. subst n n'.
  rewrite named_snoc, Hn, app_nil_r, !pick_app_old by lia.
  rewrite length_app. simpl. repeat split; try assumption; lia.
Qed.

Lemma bct_add (pre : list update_entry_s) (e : update_entry_s) (b0 b1 b2 : Z) :
  String.eqb (partname e) "BCT" = true ->
  (count_named "BCT" (pre ++ [e]) <= 3)%nat ->
  let n := Z.of_nat (List.length pre) in
  (pick pre b0 ++ pick pre b1 ++ pick pre b2 = named "BCT" pre
   /\ -1 <= b0 < n /\ -1 <= b1 < n /\ -1 <= b2 < n
   /\ (b0 = -1 -> b1 = -1) /\ (b1 = -1 -> b2 = -1)) ->
  let n' := Z.of_nat (List.length (pre ++ [e])) in
  let '(c0, c1, c2) :=
    if b0 =? -1 then (n, b1, b2)
    else if b1 =? -1 then (b0, n, b2)
    else if b2 =? -1 then (b0, b1, n)
    else (b0, b1, b2) in
  pick (pre ++ [e]) c0 ++ pick (pre ++ [e]) c1 ++ pick (pre ++ [e]) c2
  = named "BCT" (pre ++ [e])
  /\ -1 <= c0 < n' /\ -1 <= c1 < n' /\ -1 <= c2 < n'
  /\ (c0 = -1 -> c1 = -1) /\ (c1 = -1 -> c2 = -1).
Proof.
  intros Hn Hc n (Hp & H0 & H1 & H2 & I0 & I1) n'. subst n n'.
  unfold count_named in Hc. rewrite named_snoc, Hn in *.
  rewrite length_app in Hc |- *. simpl in Hc |- *.
  destruct (Z.eqb_spec b0 (-1)) as [E0|E0].
  { assert (F1 : b1 = -1) by auto. assert (F2 : b2 = -1) by auto.
    clear I0 I1. subst b0 b1 b2.
    rewrite !pick_neg in *. simpl in Hp. rewrite <- Hp.
    rewrite pick_app_new. try rewrite !pick_app_old by lia.
    rewrite ?pick_neg. simpl.
    repeat split; try lia; auto. }
  destruct (Z.eqb_spec b1 (-1)) as [E1|E1].
  { assert (F2 : b2 = -1) by auto. clear I0 I1. subst b1 b2.
    rewrite !pick_neg, app_nil_r in *. rewrite <- Hp.
    rewrite pick_app_new. try rewrite !pick_app_old by lia.
    rewrite ?pick_neg. simpl.
    repeat split; try lia; auto. }
  destruct (Z.eqb_spec b2 (-1)) as [E2|E2].
  { clear I0 I1. subst b2. rewrite !pick_neg, app_nil_r in *. rewrite <- Hp.
    rewrite pick_app_new. try rewrite !pick_app_old by lia.
    rewrite <- app_assoc.
    repeat split; try lia; auto. }
  exfalso. rewrite <- Hp in Hc. rewrite !length_app in Hc.
  rewrite !pick_nonneg_length in Hc by lia. lia.
Qed.

Lemma order_step_inv (pre : list update_entry_s) (e : update_entry_s)
  (v : order_vars) :
  order_inv pre v -> order_input_ok (pre ++ [e]) ->
  order_inv (pre ++ [e]) (order_step e (Z.of_nat (List.length pre)) v).
Proof.
  destruct v as [m1 m1b b0 b1 b2 m2 m2b ord].
  unfold order_inv, order_step. cbn [ov_ordered ov_mb1 ov_mb1_b ov_mb2 ov_mb2_b
    ov_bct ov_bct1 ov_bct2].
  intros (Ho & Hm1 & Hm1b & Hm2 & Hm2b & Hb) (Cb & C1 & C1b & C2 & C2b).
  assert (Hplain : is_plain e = false ->
                   ord = filter is_plain (pre ++ [e])).
  { intros Hp. rewrite plain_snoc, Hp, app_nil_r. exact Ho. }
  destruct (String.eqb (partname e) "mb1") eqn:E1.
  { pose proof (proj1 (String.eqb_eq _ _) E1) as N.
    cbn [ov_ordered ov_mb1 ov_mb1_b ov_mb2 ov_mb2_b ov_bct ov_bct1 ov_bct2].
    refine (conj _ (conj _ (conj _ (conj _ (conj _ _))))).
    - apply Hplain. unfold is_plain. rewrite E1. reflexivity.
    - apply single_set; assumption.
    - apply single_keep; [rewrite N; reflexivity|assumption].
    - apply single_keep; [rewrite N; reflexivity|assumption].
    - apply single_keep; [rewrite N; reflexivity|assumption].
    - apply bct_keep; [rewrite N; reflexivity|assumption]. }
  destruct (String.eqb (partname e) "mb1_b") eqn:E2.
  { pose proof (proj1 (String.eqb_eq _ _) E2) as N.
    cbn [ov_ordered ov_mb1 ov_mb1_b ov_mb2 ov_mb2_b ov_bct ov_bct1 ov_bct2].
    refine (conj _ (conj _ (conj _ (conj _ (conj _ _))))).
    - apply Hplain. unfold is_plain. rewrite E1, E2. reflexivity.
    - apply single_keep; assumption.
    - apply single_set; assumption.
    - apply single_keep; [rewrite N; reflexivity|assumption].
    - apply single_keep; [rewrite N; reflexivity|assumption].
    - apply bct_keep; [rewrite N; reflexivity|assumption]. }
  destruct (String.eqb (partname e) "mb2") eqn:E3.
  { pose proof (proj1 (String.eqb_eq _ _) E3) as N.
    cbn [ov_ordered ov_mb1 ov_mb1_b ov_mb2 ov_mb2_b ov_bct ov_bct1 ov_bct2].
    refine (conj _ (conj _ (conj _ (conj _ (conj _ _))))).
    - apply Hplain. unfold is_plain. rewrite E1, E2, E3. reflexivity.
    - apply single_keep; assumption.
    - apply single_keep; assumption.
    - apply single_set; assumption.
    - apply single_keep; [rewrite N; reflexivity|assumption].
    - apply bct_keep; [rewrite N; reflexivity|assumption]. }
  destruct (String.eqb (partname e) "mb2_b") eqn:E4.
  { pose proof (proj1 (String.eqb_eq _ _) E4) as N.
    cbn [ov_ordered ov_mb1 ov_mb1_b ov_mb2 ov_mb2_b ov_bct ov_bct1 ov_bct2].
    refine (conj _ (conj _ (conj _ (conj _ (conj _ _))))).
    - apply Hplain. unfold is_plain. rewrite E1, E2, E3, E4. reflexivity.
    - apply single_keep; assumption.
    - apply single_keep; assumption.
    - apply single_keep; assumption.
    - apply single_set; assumption.
    - apply bct_keep; [rewrite N; reflexivity|assumption]. }
  destruct (String.eqb (partname e) "BCT") eqn:E5.
  { pose proof (bct_add pre e b0 b1 b2 E5 Cb Hb) as HB. cbv zeta in HB.
    assert (K1 := single_keep "mb1" pre e m1 E1 Hm1).
    assert (K2 := single_keep "mb1_b" pre e m1b E2 Hm1b).
    assert (K3 := single_keep "mb2" pre e m2 E3 Hm2).
    assert (K4 := single_keep "mb2_b" pre e m2b E4 Hm2b).
    assert (K0 : ord = filter is_plain (pre ++ [e])).
    { apply Hplain. unfold is_plain. rewrite E1, E2, E3, E4, E5. reflexivity. }
    destruct (b0 =? -1); [|destruct (b1 =? -1); [|destruct (b2 =? -1)]];
      cbn [ov_ordered ov_mb1 ov_mb1_b ov_mb2 ov_mb2_b ov_bct ov_bct1 ov_bct2];
      exact (conj K0 (conj K1 (conj K2 (conj K3 (conj K4 HB))))). }
  cbn [ov_ordered ov_mb1 ov_mb1_b ov_mb2 ov_mb2_b ov_bct ov_bct1 ov_bct2].
  refine (conj _ (conj _ (conj _ (conj _ (conj _ _))))).
  - rewrite plain_snoc. unfold is_plain at 2. rewrite E1, E2, E3, E4, E5.
    simpl. now rewrite Ho.
  - apply single_keep; assumption.
  - apply single_keep; assumption.
  - apply single_keep; assumption.
  - apply single_keep; assumption.
  - apply bct_keep; assumption.
Qed.

Lemma order_input_ok_prefix (pre rest : list update_entry_s) :
  order_input_ok (pre ++ rest) -> order_input_ok pre.
Proof.
  unfold order_input_ok. rewrite !count_named_app. intros H.
  repeat split; lia.
Qed.

Lemma order_scan_inv (rest pre : list update_entry_s) (v : order_vars) :
  order_inv pre v -> order_input_ok (pre ++ rest) ->
  order_inv (pre ++ rest) (order_scan rest (Z.of_nat (List.length pre)) v).
Proof.
  revert pre v. induction rest as [|e rest IH]; intros pre v Hinv Hok.
  - rewrite app_nil_r. exact Hinv.
  - cbn [order_scan].
    replace (pre ++ e :: rest) with ((pre ++ [e]) ++ rest) in *
      by (rewrite <- app_assoc; reflexivity).
    replace (Z.of_nat (List.length pre) + 1)
      with (Z.of_nat (List.length (pre ++ [e])))
      by (rewrite length_app; simpl; lia).
    apply IH; [|assumption].
    apply order_step_inv; [assumption|].
    eapply order_input_ok_prefix; eassumption.
Qed.

(** The stored entries, in the order of the seven [if]s that end
    [order_entries]. *)
Lemma order_entries_shape (orig : list update_entry_s) :
  order_input_ok orig ->
  order_entries orig
  = filter is_plain orig ++ named "mb2" orig ++ named "mb2_b" orig
    ++ named "BCT" orig ++ named "mb1" orig ++ named "mb1_b" orig.
Proof.
  intros Hok.
  pose proof (order_scan_inv orig []
                (mkOrderVars (-1) (-1) (-1) (-1) (-1) (-1) (-1) [])) as H.
  cbn [app List.length Z.of_nat] in H.
  assert (Hinit : order_inv [] (mkOrderVars (-1) (-1) (-1) (-1) (-1) (-1) (-1) [])).
  { unfold order_inv. cbn. repeat split; lia. }
  specialize (H Hinit Hok).
  unfold order_entries.
  destruct (order_scan orig 0 _) as [m1 m1b b0 b1 b2 m2 m2b ord].
  unfold order_inv in H.
  cbn [ov_ordered ov_mb1 ov_mb1_b ov_mb2 ov_mb2_b ov_bct ov_bct1 ov_bct2] in *.
  destruct H as (Ho & (Hm1 & _) & (Hm1b & _) & (Hm2 & _) & (Hm2b & _) & (Hb & _)).
  rewrite !append_at_pick.
  rewrite Ho, Hm1, Hm1b, Hm2, Hm2b, <- Hb.
  rewrite <- !app_assoc. reflexivity.
Qed.

Lemma six_way_permutation (l : list update_entry_s) :
  Permutation l
    (filter is_plain l ++ named "mb2" l ++ named "mb2_b" l
     ++ named "BCT" l ++ named "mb1" l ++ named "mb1_b" l).
Proof.
  induction l as [|a l IH]; [constructor|].
  unfold named in *. cbn [filter]. unfold is_plain at 1.
  destruct (String.eqb_spec (partname a) "mb1") as [N|N1].
  { rewrite ?N. cbn. rewrite ?app_assoc. apply Permutation_cons_app.
    rewrite <- ?app_assoc. exact IH. }
  destruct (String.eqb_spec (partname a) "mb1_b") as [N|N2].
  { rewrite ?N. cbn. rewrite ?app_assoc. apply Permutation_cons_app.
    rewrite <- ?app_assoc. exact IH. }
  destruct (String.eqb_spec (partname a) "mb2") as [N|N3].
  { rewrite ?N. cbn. rewrite ?app_assoc. apply Permutation_cons_app.
    rewrite <- ?app_assoc. exact IH. }
  destruct (String.eqb_spec (partname a) "mb2_b") as [N|N4].
  { rewrite ?N. cbn. rewrite ?app_assoc. apply Permutation_cons_app.
    rewrite <- ?app_assoc. exact IH. }
  destruct (String.eqb_spec (partname a) "BCT") as [N|N5].
  { rewrite ?N. cbn. rewrite ?app_assoc. apply Permutation_cons_app.
    rewrite <- ?app_assoc. exact IH. }
  cbn. constructor. exact IH.
Qed.

Lemma rank_sorted_app (l1 l2 : list update_entry_s) (r : nat) :
  rank_sorted l1 -> rank_sorted l2 ->
  Forall (fun e => (order_rank e <= r)%nat) l1 ->
  Forall (fun e => (r <= order_rank e)%nat) l2 ->
  rank_sorted (l1 ++ l2).
Proof.
  intros S1 S2 F1 F2 i j e1 e2 Hi Hj Hij.
  rewrite Forall_forall in F1, F2.
  destruct (Nat.lt_ge_cases i (List.length l1)) as [Li|Li];
    destruct (Nat.lt_ge_cases j (List.length l1)) as [Lj|Lj].
  - rewrite nth_error_app1 in Hi, Hj by assumption. eapply S1; eassumption.
  - rewrite nth_error_app1 in Hi by assumption.
    rewrite nth_error_app2 in Hj by assumption.
    apply nth_error_In in Hi, Hj.
    specialize (F1 _ Hi). specialize (F2 _ Hj). lia.
  - lia.
  - rewrite nth_error_app2 in Hi, Hj by assumption.
    eapply S2; [eassumption|eassumption|lia].
Qed.

Lemma rank_sorted_const (l : list update_entry_s) (r : nat) :
  Forall (fun e => order_rank e = r) l -> rank_sorted l.
Proof.
  intros F i j e1 e2 Hi Hj _. rewrite Forall_forall in F.
  apply nth_error_In in Hi, Hj. rewrite (F _ Hi), (F _ Hj). lia.
Qed.

Lemma named_rank (name : string) (r : nat) (l : list update_entry_s) :
  order_rank (mkEntry name None "" 0 0) = r ->
  Forall (fun e => order_rank e = r) (named name l).
Proof.
  intros Hr. apply Forall_forall. intros e He.
  apply named_In in He. destruct He as [Hn _].
  unfold order_rank in *. cbn [partname] in Hr. rewrite Hn. exact Hr.
Qed.

Lemma plain_rank (l : list update_entry_s) :
  Forall (fun e => order_rank e = 0%nat) (filter is_plain l).
Proof.
  apply Forall_forall. intros e He. apply filter_In in He.
  destruct He as [_ Hp]. unfold is_plain in Hp. unfold order_rank.
  destruct (String.eqb (partname e) "mb1"); [discriminate|].
  destruct (String.eqb (partname e) "mb1_b"); [discriminate|].
  destruct (String.eqb (partname e) "mb2"); [discriminate|].
  destruct (String.eqb (partname e) "mb2_b"); [discriminate|].
  destruct (String.eqb (partname e) "BCT"); [discriminate|reflexivity].
Qed.

Lemma Forall_rank_le (l : list update_entry_s) (r r' : nat) :
  (r <= r')%nat -> Forall (fun e => order_rank e = r) l ->
  Forall (fun e => (order_rank e <= r')%nat) l.
Proof. intros H. apply Forall_impl. intros a Ha. lia. Qed.

Lemma Forall_rank_ge (l : list update_entry_s) (r r' : nat) :
  (r' <= r)%nat -> Forall (fun e => order_rank e = r) l ->
  Forall (fun e => (r' <= order_rank e)%nat) l.
Proof. intros H. apply Forall_impl. intros a Ha. lia. Qed.

Lemma six_way_rank_sorted (l : list update_entry_s) :
  rank_sorted
    (filter is_plain l ++ named "mb2" l ++ named "mb2_b" l
     ++ named "BCT" l ++ named "mb1" l ++ named "mb1_b" l).
Proof.
  pose proof (plain_rank l) as R0.
  pose proof (named_rank "mb2" 1 l eq_refl) as R1.
  pose proof (named_rank "mb2_b" 2 l eq_refl) as R2.
  pose proof (named_rank "BCT" 3 l eq_refl) as R3.
  pose proof (named_rank "mb1" 4 l eq_refl) as R4.
  pose proof (named_rank "mb1_b" 5 l eq_refl) as R5.
  apply rank_sorted_app with (r := 0%nat);
    [eapply rank_sorted_const; eassumption | |
     eapply Forall_rank_le; [|eassumption]; lia |
     apply Forall_forall; intros; lia].
  apply rank_sorted_app with (r := 1%nat);
    [eapply rank_sorted_const; eassumption | |
     eapply Forall_rank_le; [|eassumption]; lia |
     repeat (apply Forall_app; split);
     (eapply Forall_rank_ge; [|eassumption]; lia)].
  apply rank_sorted_app with (r := 2%nat);
    [eapply rank_sorted_const; eassumption | |
     eapply Forall_rank_le; [|eassumption]; lia |
     repeat (apply Forall_app; split);
     (eapply Forall_rank_ge; [|eassumption]; lia)].
  apply rank_sorted_app with (r := 3%nat);
    [eapply rank_sorted_const; eassumption | |
     eapply Forall_rank_le; [|eassumption]; lia |
     repeat (apply Forall_app; split);
     (eapply Forall_rank_ge; [|eassumption]; lia)].
  apply rank_sorted_app with (r := 4%nat);
    [eapply rank_sorted_const; eassumption |
     eapply rank_sorted_const; eassumption |
     eapply Forall_rank_le; [|eassumption]; lia |
     eapply Forall_rank_ge; [|eassumption]; lia].
Qed.

Lemma rank_sorted_lt (l : list update_entry_s) :
  rank_sorted l ->
  forall i j e1 e2,
    nth_error l i = Some e1 -> nth_error l j = Some e2 ->
    (order_rank e1 < order_rank e2)%nat -> (i < j)%nat.
Proof.
  intros S i j e1 e2 Hi Hj Hr.
  destruct (Nat.lt_ge_cases i j) as [L|L]; [assumption|].
  specialize (S j i e2 e1 Hj Hi L). lia.
Qed.

Lemma rank_sorted_order (l : list update_entry_s) :
  rank_sorted l -> mb2_bct_mb1_order l.
Proof.
  intros S i j k e1 e2 e3 Hi Hj Hk N1 N2 N3.
  assert (R2 : order_rank e2 = 3%nat)
    by (unfold order_rank; rewrite N2; reflexivity).
  assert (R1 : (4 <= order_rank e1)%nat)
    by (unfold order_rank; destruct N1 as [N|N]; rewrite N; cbn; lia).
  assert (R3 : (order_rank e3 <= 2)%nat)
    by (unfold order_rank; destruct N3 as [N|N]; rewrite N; cbn; lia).
  split.
  - eapply (rank_sorted_lt l S k j); [eassumption|eassumption|lia].
  - eapply (rank_sorted_lt l S j i); [eassumption|eassumption|lia].
Qed.

(** * Theorems *)

(** C2: on tegra186/tegra194, for a list with at most three entries
    named BCT and at most one each named mb1, mb1_b, mb2, mb2_b,
    [order_entries] stores a permutation of the list: first the entries of
    none of these names in input order, then mb2, mb2_b, each BCT, mb1 and
    mb1_b.  So every mb2 and mb2_b stands before every BCT, and every BCT
    before every mb1 and mb1_b. *)
Theorem order_entries_mb2_bct_mb1 (orig : list update_entry_s) :
  order_input_ok orig ->
  order_entries orig
  = filter is_plain orig ++ named "mb2" orig ++ named "mb2_b" orig
    ++ named "BCT" orig ++ named "mb1" orig ++ named "mb1_b" orig
  /\ Permutation orig (order_entries orig)
  /\ mb2_bct_mb1_order (order_entries orig).
Proof.
  intros Hok. pose proof (order_entries_shape orig Hok) as Hs.
  split; [exact Hs|]. rewrite Hs. split.
  - apply six_way_permutation.
  - apply rank_sorted_order, six_way_rank_sorted.
Qed.

Lemma order_entries_mb2_bct_mb1_witness :
  order_input_ok sample_t186_entries
  /\ (order_entries sample_t186_entries
      = map sample_entry
            ["cboot"; "kernel"; "mb2"; "mb2_b"; "BCT"; "mb1"; "mb1_b"]
      /\ Permutation sample_t186_entries (order_entries sample_t186_entries)
      /\ mb2_bct_mb1_order (order_entries sample_t186_entries)).
Proof.
  assert (H : order_input_ok sample_t186_entries)
    by (unfold order_input_ok; cbn; lia).
  split; [exact H|].
  destruct (order_entries_mb2_bct_mb1 sample_t186_entries H) as (E & P & O).
  split; [reflexivity|]. split; assumption.
Defined.

(** ** order_entries_t210 *)

Lemma find_from_some (l : list update_entry_s) (i : nat) (name : string)
  (k : nat) :
  find_from l i name = Some k ->
  (i <= k)%nat
  /\ exists e, nth_error l (k - i) = Some e
               /\ find (fun e => String.eqb (partname e) name) l = Some e.
Proof.
  revert i. induction l as [|a l IH]; intros i H; [discriminate|].
  cbn [find_from find] in *.
  destruct (String.eqb (partname a) name).
  - injection H as <-. split; [lia|]. exists a.
    rewrite Nat.sub_diag. split; reflexivity.
  - destruct (IH _ H) as (Hle & e & Hn & Hf). split; [lia|]. exists e.
    replace (k - i)%nat with (S (k - S i)) by lia. split; assumption.
Qed.

Lemma find_from_none (l : list update_entry_s) (i : nat) (name : string) :
  find_from l i name = None ->
  find (fun e => String.eqb (partname e) name) l = None.
Proof.
  revert i. induction l as [|a l IH]; intros i H; [reflexivity|].
  cbn [find_from find] in *.
  destruct (String.eqb (partname a) name); [discriminate|]. eauto.
Qed.

Lemma has_name_find (l : list update_entry_s) (name : string) :
  find (fun e => String.eqb (partname e) name) l = None ->
  has_name l name = false.
Proof.
  unfold has_name. induction l as [|a l IH]; [reflexivity|].
  cbn [find existsb].
  destruct (String.eqb (partname a) name); [discriminate|]. exact IH.
Qed.

Lemma has_name_find_some (l : list update_entry_s) (name : string)
  (e : update_entry_s) :
  find (fun e => String.eqb (partname e) name) l = Some e ->
  has_name l name = true.
Proof.
  unfold has_name. induction l as [|a l IH]; [discriminate|].
  cbn [find existsb].
  destruct (String.eqb (partname a) name); [reflexivity|]. exact IH.
Qed.

Lemma t210_template_ok (orig : list update_entry_s) (names : list string) :
  (forall name, In name names -> has_name orig name = false ->
                is_eks name = true) ->
  forall ordered used,
    t210_template orig names ordered used
    = Some (ordered ++ template_matches orig names,
            rev (template_indices orig names) ++ used).
Proof.
  induction names as [|name rest IH]; intros Hopt ordered used.
  - cbn. now rewrite app_nil_r.
  - cbn [t210_template template_matches template_indices].
    assert (Hrest : forall n, In n rest -> has_name orig n = false ->
                              is_eks n = true)
      by (intros n Hn; apply Hopt; now right).
    unfold find_entry_by_name.
    destruct (find_from orig 0 name) as [k|] eqn:Ef.
    + destruct (find_from_some _ _ _ _ Ef) as (_ & e & Hn & Hf).
      rewrite Nat.sub_0_r in Hn. rewrite Hn, Hf, IH by assumption.
      cbn [rev]. rewrite <- !app_assoc. reflexivity.
    + pose proof (find_from_none _ _ _ Ef) as Hf. rewrite Hf.
      rewrite (Hopt name (or_introl eq_refl) (has_name_find _ _ Hf)).
      apply IH. assumption.
Qed.

Lemma t210_template_fatal (orig : list update_entry_s) (names : list string)
  (name : string) :
  In name names -> has_name orig name = false -> is_eks name = false ->
  forall ordered used, t210_template orig names ordered used = None.
Proof.
  induction names as [|n rest IH]; intros Hin Hno Heks ordered used;
    [contradiction|].
  cbn [t210_template]. unfold find_entry_by_name.
  destruct (find_from orig 0 n) as [k|] eqn:Ef.
  - destruct (find_from_some _ _ _ _ Ef) as (_ & e & Hn & Hf).
    rewrite Nat.sub_0_r in Hn. rewrite Hn.
    destruct Hin as [<-|Hin].
    + rewrite (has_name_find_some _ _ _ Hf) in Hno. discriminate.
    + apply IH; assumption.
  - destruct Hin as [<-|Hin].
    + now rewrite Heks.
    + destruct (is_eks n); [|reflexivity]. apply IH; assumption.
Qed.

Lemma t210_unused_spec (rest : list update_entry_s) (i : nat)
  (used : list nat) :
  t210_unused rest i used
  = map snd (filter (fun ie => negb (is_used used (fst ie)))
                    (combine (seq i (List.length rest)) rest)).
Proof.
  revert i. induction rest as [|e rest IH]; intros i; [reflexivity|].
  cbn [t210_unused List.length seq combine filter fst].
  destruct (is_used used i); cbn [negb map snd]; rewrite IH; reflexivity.
Qed.

Lemma is_used_rev (l : list nat) (i : nat) :
  is_used (rev l ++ []) i = is_used l i.
Proof.
  rewrite app_nil_r. unfold is_used.
  apply Bool.eq_iff_eq_true. rewrite !existsb_exists.
  split; intros (x & Hx & Hi); exists x; split; try assumption.
  - now apply in_rev.
  - now apply in_rev in Hx.
Qed.

Lemma not_consumed_rev (orig : list update_entry_s) (l : list nat) :
  not_consumed orig (rev l ++ []) = not_consumed orig l.
Proof.
  unfold not_consumed. f_equal. apply filter_ext.
  intros [i e]. cbn [fst]. now rewrite is_used_rev.
Qed.

Lemma t210_update_list_starts_with_VER_b (g : globals) :
  exists rest, t210_update_list g = "VER_b" :: rest.
Proof.
  unfold t210_update_list. destruct (spiboot_platform g); eexists; reflexivity.
Qed.

Lemma order_entries_t210_ok (g : globals) (orig : list update_entry_s) :
  Z.of_nat (List.length orig) <= 128 ->
  (forall name, In name (t210_update_list g) -> has_name orig name = false ->
                is_eks name = true) ->
  let all := template_matches orig (t210_update_list g)
             ++ not_consumed orig (template_indices orig (t210_update_list g)) in
  order_entries_t210 g orig = (Z.of_nat (List.length all), all)
  /\ all <> [].
Proof.
  intros Hlen Hopt all. subst all. split.
  - unfold order_entries_t210. rewrite gtb_false by assumption.
    fold (t210_update_list g). rewrite t210_template_ok by assumption.
    cbn [app]. rewrite t210_unused_spec.
    fold (not_consumed orig (rev (template_indices orig (t210_update_list g)) ++ [])).
    rewrite not_consumed_rev. reflexivity.
  - destruct (t210_update_list_starts_with_VER_b g) as (rest & Hl).
    assert (Hver : has_name orig "VER_b" = true).
    { destruct (has_name orig "VER_b") eqn:E; [reflexivity|].
      assert (Hin : In "VER_b" (t210_update_list g))
        by (rewrite Hl; now left).
      specialize (Hopt _ Hin E). discriminate. }
    rewrite Hl. cbn [template_matches].
    destruct (find (fun e => String.eqb (partname e) "VER_b") orig) eqn:Ef.
    + discriminate.
    + rewrite (has_name_find _ _ Ef) in Hver. discriminate.
Qed.

Lemma order_entries_t210_fatal (g : globals) (orig : list update_entry_s)
  (name : string) :
  In name (t210_update_list g) -> has_name orig name = false ->
  is_eks name = false ->
  order_entries_t210 g orig = (0, []).
Proof.
  intros Hin Hno Heks. unfold order_entries_t210.
  destruct (Z.of_nat (List.length orig) >? 128); [reflexivity|].
  fold (t210_update_list g).
  now rewrite (t210_template_fatal orig _ name Hin Hno Heks).
Qed.

(** ** Bytes, peek and poke *)

Lemma bytes_eqb_eq (a b : list byte) : bytes_eqb a b = true <-> a = b.
Proof.
  revert b. induction a as [|x a IH]; destruct b as [|y b]; cbn;
    try (split; (discriminate || reflexivity)).
  rewrite andb_true_iff, IH. split.
  - intros [H1 H2]. apply Byte.byte_dec_bl in H1. now subst.
  - intros H. injection H as -> ->. split; [|reflexivity].
    now apply Byte.byte_dec_lb.
Qed.

Lemma memcmp_eq_iff (a b : list byte) (n : Z) :
  memcmp_eq a b n = true <-> firstn (Z.to_nat n) a = firstn (Z.to_nat n) b.
Proof. unfold memcmp_eq. apply bytes_eqb_eq. Qed.

Lemma zrange_length (s : Z) (n : nat) : List.length (zrange s n) = n.
Proof. unfold zrange. now rewrite length_map, length_seq. Qed.

Lemma peek_length (f : Z -> byte) (pos : Z) (n : nat) :
  List.length (peek f pos n) = n.
Proof. unfold peek. now rewrite length_map, zrange_length. Qed.

Lemma map_seq_from (A : Type) (f : nat -> A) (a m : nat) :
  map f (seq a m) = map (fun i => f (a + i)%nat) (seq 0 m).
Proof.
  revert a f. induction m as [|m IH]; intros a f; [reflexivity|].
  cbn [seq map]. rewrite Nat.add_0_r. f_equal.
  rewrite (IH (S a) f), (IH 1%nat (fun i => f (a + i)%nat)).
  apply map_ext. intros i. f_equal. lia.
Qed.

Lemma zrange_app (s : Z) (n m : nat) :
  zrange s (n + m) = zrange s n ++ zrange (s + Z.of_nat n) m.
Proof.
  unfold zrange. rewrite seq_app, map_app. f_equal.
  cbn [Nat.add]. rewrite map_seq_from.
  apply map_ext. intros i. lia.
Qed.

Lemma peek_nth (f : Z -> byte) (pos : Z) (n i : nat) (d : byte) :
  (i < n)%nat -> nth i (peek f pos n) d = f (pos + Z.of_nat i).
Proof.
  intros Hi. unfold peek, zrange.
  rewrite nth_indep with (d' := f (pos + Z.of_nat 0))
    by (now rewrite !length_map, length_seq).
  rewrite map_map.
  rewrite (map_nth (fun x => f (pos + Z.of_nat x)) (seq 0 n) 0%nat i).
  now rewrite seq_nth.
Qed.

Lemma peek_app (f : Z -> byte) (pos : Z) (n m : nat) :
  peek f pos (n + m) = peek f pos n ++ peek f (pos + Z.of_nat n) m.
Proof. unfold peek. now rewrite zrange_app, map_app. Qed.

Lemma peek_ext (f g : Z -> byte) (pos : Z) (n : nat) :
  (forall x, f x = g x) -> peek f pos n = peek g pos n.
Proof. intros H. unfold peek. apply map_ext. exact H. Qed.

Lemma firstn_peek (f : Z -> byte) (pos : Z) (k n : nat) :
  (k <= n)%nat -> firstn k (peek f pos n) = peek f pos k.
Proof.
  intros H. replace n with (k + (n - k))%nat by lia.
  rewrite peek_app, firstn_app, peek_length, Nat.sub_diag. cbn [firstn].
  rewrite app_nil_r. apply firstn_all2. rewrite peek_length. lia.
Qed.

Lemma poke_inside (f : Z -> byte) (pos : Z) (data : list byte) (i : nat) :
  (i < List.length data)%nat ->
  poke f pos data (pos + Z.of_nat i) = nth i data zero_byte.
Proof.
  intros Hi. unfold poke.
  replace (pos <=? pos + Z.of_nat i) with true by (symmetry; apply Z.leb_le; lia).
  replace (pos + Z.of_nat i <? pos + Z.of_nat (List.length data)) with true
    by (symmetry; apply Z.ltb_lt; lia).
  cbn [andb]. f_equal. lia.
Qed.

Lemma poke_outside (f : Z -> byte) (pos : Z) (data : list byte) (x : Z) :
  x < pos \/ pos + Z.of_nat (List.length data) <= x ->
  poke f pos data x = f x.
Proof.
  intros H. unfold poke.
  destruct (Z.leb_spec pos x); [|reflexivity].
  destruct (Z.ltb_spec x (pos + Z.of_nat (List.length data))); [lia|reflexivity].
Qed.

Lemma peek_poke_prefix (f : Z -> byte) (pos : Z) (data : list byte) (n : nat) :
  (n <= List.length data)%nat ->
  peek (poke f pos data) pos n = firstn n data.
Proof.
  intros Hn. apply nth_ext with (d := zero_byte) (d' := zero_byte).
  - rewrite peek_length, length_firstn. lia.
  - intros i Hi. rewrite peek_length in Hi.
    rewrite peek_nth by assumption.
    rewrite poke_inside by lia.
    now rewrite nth_firstn, (proj2 (Nat.ltb_lt i n) Hi).
Qed.

Lemma peek_poke_same (f : Z -> byte) (pos : Z) (data : list byte) :
  peek (poke f pos data) pos (List.length data) = data.
Proof. rewrite peek_poke_prefix by lia. apply firstn_all. Qed.

Lemma poke_app (f : Z -> byte) (pos : Z) (d1 d2 : list byte) (x : Z) :
  poke (poke f pos d1) (pos + Z.of_nat (List.length d1)) d2 x
  = poke f pos (d1 ++ d2) x.
Proof.
  unfold poke. rewrite length_app, Nat2Z.inj_add.
  destruct (Z.leb_spec (pos + Z.of_nat (List.length d1)) x);
    destruct (Z.ltb_spec x (pos + Z.of_nat (List.length d1) + Z.of_nat (List.length d2)));
    destruct (Z.leb_spec pos x);
    destruct (Z.ltb_spec x (pos + Z.of_nat (List.length d1)));
    destruct (Z.ltb_spec x (pos + (Z.of_nat (List.length d1) + Z.of_nat (List.length d2))));
    cbn [andb]; try lia; try reflexivity.
  - rewrite app_nth2 by lia. f_equal. lia.
  - rewrite app_nth1 by lia. reflexivity.
Qed.

Lemma poke_ext (f g : Z -> byte) (pos : Z) (data : list byte) :
  (forall x, f x = g x) -> forall x, poke f pos data x = poke g pos data x.
Proof. intros H x. unfold poke. now rewrite H. Qed.

Lemma poke_nil (f : Z -> byte) (pos x : Z) : poke f pos [] x = f x.
Proof. apply poke_outside. cbn. lia. Qed.

(** ** Traces *)

Lemma new_events_app (w w' : world) (evs : list event) :
  w_trace w' = w_trace w ++ evs -> new_events w w' = evs.
Proof.
  intros H. unfold new_events. rewrite H.
  rewrite skipn_app, Nat.sub_diag, skipn_all. reflexivity.
Qed.

Lemma new_events_refl (w : world) : new_events w w = [].
Proof. apply new_events_app. now rewrite app_nil_r. Qed.

Lemma steps_same_trace (P : event -> bool) (w w' : world) :
  w_trace w' = w_trace w -> steps P w w'.
Proof. intros H. exists []. rewrite H, app_nil_r. split; reflexivity. Qed.

Lemma steps_refl (P : event -> bool) (w : world) : steps P w w.
Proof. now apply steps_same_trace. Qed.

Lemma steps_trans (P : event -> bool) (w1 w2 w3 : world) :
  steps P w1 w2 -> steps P w2 w3 -> steps P w1 w3.
Proof.
  intros (e1 & H1 & F1) (e2 & H2 & F2). exists (e1 ++ e2).
  rewrite H2, H1, app_assoc, forallb_app, F1, F2. split; reflexivity.
Qed.

Lemma steps_weaken (P Q : event -> bool) (w w' : world) :
  (forall e, P e = true -> Q e = true) -> steps P w w' -> steps Q w w'.
Proof.
  intros HPQ (evs & H & F). exists evs. split; [assumption|].
  rewrite forallb_forall in *. auto.
Qed.

Lemma steps_log (P : event -> bool) (e : event) (w : world) :
  P e = true -> steps P w (log e w).
Proof. intros H. exists [e]. cbn. now rewrite H. Qed.

Lemma steps_new_events (P : event -> bool) (w w' : world) :
  steps P w w' ->
  w_trace w' = w_trace w ++ new_events w w'
  /\ forallb P (new_events w w') = true.
Proof.
  intros (evs & H & F). rewrite (new_events_app w w' evs H). auto.
Qed.

Lemma new_events_trans (P : event -> bool) (w1 w2 w3 : world) :
  steps P w1 w2 -> steps P w2 w3 ->
  new_events w1 w3 = new_events w1 w2 ++ new_events w2 w3.
Proof.
  intros S1 S2.
  destruct (steps_new_events P w1 w2 S1) as [H1 _].
  destruct (steps_new_events P w2 w3 S2) as [H2 _].
  apply new_events_app. now rewrite H2, H1, app_assoc.
Qed.

Lemma same_devices_refl (w : world) : same_devices w w.
Proof.
  split; [|reflexivity]. intros fd. destruct (w_dev w fd); auto.
Qed.

Lemma same_devices_trans (w1 w2 w3 : world) :
  same_devices w1 w2 -> same_devices w2 w3 -> same_devices w1 w3.
Proof.
  intros [D1 N1] [D2 N2]. split.
  - intros fd. specialize (D1 fd). specialize (D2 fd).
    destruct (w_dev w1 fd), (w_dev w2 fd), (w_dev w3 fd);
      try contradiction; auto.
    destruct D1 as [S1 E1], D2 as [S2 E2]. split; [congruence|].
    intros x. now rewrite E1.
  - intros p. now rewrite N1.
Qed.

Lemma looks_refl (w : world) : looks w w.
Proof. split; [apply steps_refl|apply same_devices_refl]. Qed.

Lemma looks_trans (w1 w2 w3 : world) :
  looks w1 w2 -> looks w2 w3 -> looks w1 w3.
Proof.
  intros [S1 D1] [S2 D2].
  split; [eapply steps_trans|eapply same_devices_trans]; eassumption.
Qed.

Lemma others_kept_refl (fd : Z) (w : world) : others_kept fd w w.
Proof. split; reflexivity. Qed.

Lemma others_kept_trans (fd : Z) (w1 w2 w3 : world) :
  others_kept fd w1 w2 -> others_kept fd w2 w3 -> others_kept fd w1 w3.
Proof.
  intros [D1 N1] [D2 N2]. split.
  - intros fd' H. now rewrite D2, D1.
  - intros p. now rewrite N2.
Qed.

Lemma touches_refl (fd : Z) (w : world) : touches fd w w.
Proof.
  split; [apply steps_refl|]. split; [apply others_kept_refl|].
  destruct (w_dev w fd); auto.
Qed.

Lemma touches_trans (fd : Z) (w1 w2 w3 : world) :
  touches fd w1 w2 -> touches fd w2 w3 -> touches fd w1 w3.
Proof.
  intros (S1 & O1 & D1) (S2 & O2 & D2).
  split; [eapply steps_trans; eassumption|].
  split; [eapply others_kept_trans; eassumption|].
  destruct (w_dev w1 fd), (w_dev w2 fd), (w_dev w3 fd);
    try contradiction; auto. congruence.
Qed.

(** A change of the file position of [fd], of the pending limits or of
    the trace alone. *)
Lemma touches_moved (fd : Z) (w : world) (d : device) (pos : Z)
  (io : list Z) (evs : list event) :
  w_dev w fd = Some d ->
  forallb (is_write_at_event fd) evs = true ->
  touches fd w
    (mkWorld (fun x => if x =? fd
                       then Some (mkDevice (dev_size d) (dev_data d) pos)
                       else w_dev w x)
             (w_node w) io (w_trace w ++ evs)).
Proof.
  intros Hd F. split; [exists evs; auto|]. split.
  - split; [|reflexivity]. intros fd' Hne. cbn.
    now rewrite (proj2 (Z.eqb_neq fd' fd) Hne).
  - cbn. rewrite Hd, Z.eqb_refl. reflexivity.
Qed.

(** ** The system call layer *)

Lemma moved_same_devices (fd : Z) (w : world) (d : device) (pos : Z)
  (io : list Z) (tr : list event) :
  w_dev w fd = Some d ->
  same_devices w
    (mkWorld (fun x => if x =? fd
                       then Some (mkDevice (dev_size d) (dev_data d) pos)
                       else w_dev w x)
             (w_node w) io tr).
Proof.
  intros Hd. split; [|reflexivity]. intros x. cbn.
  destruct (Z.eqb_spec x fd) as [->|Hne].
  - rewrite Hd. cbn. auto.
  - destruct (w_dev w x); auto.
Qed.

Lemma xfer_le_count (count room : Z) (lim : option Z) :
  xfer count room lim <= count.
Proof. unfold xfer. destruct lim; lia. Qed.

Lemma xfer_le_room (count room : Z) (lim : option Z) :
  xfer count room lim <= room.
Proof. unfold xfer. destruct lim; lia. Qed.

Lemma sys_lseek_ok (fd off : Z) (w : world) (r : Z) (w1 : world) :
  sys_lseek fd off w = (r, w1) -> (r =? -1) = false ->
  exists d, w_dev w fd = Some d /\ r = off /\ 0 <= off <= dev_size d
            /\ w1 = log (EvLseek fd off)
                        (set_dev fd (mkDevice (dev_size d) (dev_data d) off) w).
Proof.
  unfold sys_lseek. intros H Hr.
  destruct (w_dev w fd) as [d|]; [|injection H as <- <-; discriminate].
  destruct (Z.ltb_spec off 0); cbn [orb] in H;
    [injection H as <- <-; discriminate|].
  destruct (off >? dev_size d) eqn:G; cbn [orb] in H;
    [injection H as <- <-; discriminate|].
  injection H as <- <-. exists d. repeat split; lia.
Qed.

Lemma sys_lseek_fail (fd off : Z) (w : world) (r : Z) (w1 : world) :
  sys_lseek fd off w = (r, w1) -> (r =? -1) = true -> w1 = w.
Proof.
  unfold sys_lseek. intros H Hr.
  destruct (w_dev w fd) as [d|]; [|now injection H as <- <-].
  destruct ((off <? 0) || (off >? dev_size d)) eqn:G;
    [now injection H as <- <-|].
  injection H as <- <-. apply Z.eqb_eq in Hr.
  apply orb_false_iff in G. destruct G as [G _]. apply Z.ltb_ge in G. lia.
Qed.

Lemma sys_lseek_looks (fd off : Z) (w : world) :
  looks w (snd (sys_lseek fd off w)).
Proof.
  unfold sys_lseek. destruct (w_dev w fd) as [d|] eqn:Hd; [|apply looks_refl].
  destruct ((off <? 0) || (off >? dev_size d)); [apply looks_refl|].
  cbn [snd]. split.
  - exists [EvLseek fd off]. split; reflexivity.
  - exact (moved_same_devices fd w d off (w_io w) _ Hd).
Qed.

Lemma sys_lseek_touches (fd off : Z) (w : world) :
  touches fd w (snd (sys_lseek fd off w)).
Proof.
  unfold sys_lseek. destruct (w_dev w fd) as [d|] eqn:Hd; [|apply touches_refl].
  destruct ((off <? 0) || (off >? dev_size d)); [apply touches_refl|].
  cbn [snd]. refine (touches_moved fd w d off (w_io w) [EvLseek fd off] Hd _).
  cbn. now rewrite Z.eqb_refl.
Qed.

Lemma sys_lseek_end_looks (fd : Z) (w : world) :
  looks w (snd (sys_lseek_end fd w)).
Proof.
  unfold sys_lseek_end.
  destruct (w_dev w fd) as [d|] eqn:Hd; [|apply looks_refl].
  cbn [snd]. split.
  - exists [EvLseek fd (dev_size d)]. split; reflexivity.
  - exact (moved_same_devices fd w d (dev_size d) (w_io w) _ Hd).
Qed.

Lemma sys_read_looks (fd count : Z) (w : world) :
  looks w (snd (sys_read fd count w)).
Proof.
  unfold sys_read. destruct (w_dev w fd) as [d|] eqn:Hd; [|apply looks_refl].
  destruct (take_limit (w_io w)) as [lim io'].
  destruct (xfer count (dev_size d - dev_pos d) lim <=? 0); cbn [snd].
  - split; [now apply steps_same_trace|]. split; [|reflexivity].
    intros x. cbn. destruct (w_dev w x); auto.
  - split.
    + eexists [_]. split; reflexivity.
    + exact (moved_same_devices fd w d _ io' _ Hd).
Qed.

Lemma sys_read_ok (fd count : Z) (w : world) (n : Z) (data : list byte)
  (w1 : world) :
  sys_read fd count w = (n, data, w1) -> (n <=? 0) = false ->
  exists d, w_dev w fd = Some d /\ n <= count
            /\ data = peek (dev_data d) (dev_pos d) (Z.to_nat n)
            /\ w_dev w1 fd
               = Some (mkDevice (dev_size d) (dev_data d) (dev_pos d + n)).
Proof.
  unfold sys_read. intros H Hn.
  destruct (w_dev w fd) as [d|]; [|injection H as <- <- <-; discriminate].
  destruct (take_limit (w_io w)) as [lim io'].
  destruct (xfer count (dev_size d - dev_pos d) lim <=? 0) eqn:G.
  - injection H as <- <- <-.
    destruct (dev_size d - dev_pos d <=? 0); discriminate.
  - injection H as <- <- <-. exists d. repeat split.
    + apply xfer_le_count.
    + cbn. now rewrite Z.eqb_refl.
Qed.

Lemma sys_write_touches (fd : Z) (buf : list byte) (count : Z) (w : world) :
  touches fd w (snd (sys_write fd buf count w)).
Proof.
  unfold sys_write. destruct (w_dev w fd) as [d|] eqn:Hd; [|apply touches_refl].
  destruct (take_limit (w_io w)) as [lim io'].
  destruct (xfer count (dev_size d - dev_pos d) lim <=? 0); cbn [snd].
  - split; [now apply steps_same_trace|]. split; [split; reflexivity|].
    cbn. now rewrite Hd.
  - split; [eexists [_]; split; [reflexivity|cbn; now rewrite Z.eqb_refl]|].
    split.
    + split; [|reflexivity]. intros fd' Hne. cbn.
      now rewrite (proj2 (Z.eqb_neq fd' fd) Hne).
    + cbn. rewrite Hd, Z.eqb_refl. reflexivity.
Qed.

Lemma sys_write_fail (fd : Z) (buf : list byte) (count : Z) (w : world)
  (n : Z) (w1 : world) :
  sys_write fd buf count w = (n, w1) -> (n <=? 0) = true ->
  w_trace w1 = w_trace w.
Proof.
  unfold sys_write. intros H Hn.
  destruct (w_dev w fd) as [d|]; [|now injection H as <- <-].
  destruct (take_limit (w_io w)) as [lim io'].
  destruct (xfer count (dev_size d - dev_pos d) lim <=? 0) eqn:G.
  - now injection H as <- <-.
  - injection H as <- <-. congruence.
Qed.

Lemma sys_write_ok (fd : Z) (buf : list byte) (count : Z) (w : world)
  (n : Z) (w1 : world) :
  sys_write fd buf count w = (n, w1) -> (n <=? 0) = false ->
  exists d, w_dev w fd = Some d /\ 0 < n <= count
            /\ w_trace w1
               = w_trace w ++ [EvWrite fd (dev_pos d) (firstn (Z.to_nat n) buf)]
            /\ w_dev w1 fd
               = Some (mkDevice (dev_size d)
                         (poke (dev_data d) (dev_pos d)
                               (firstn (Z.to_nat n) buf))
                         (dev_pos d + n)).
Proof.
  unfold sys_write. intros H Hn.
  destruct (w_dev w fd) as [d|]; [|injection H as <- <-; discriminate].
  destruct (take_limit (w_io w)) as [lim io'].
  destruct (xfer count (dev_size d - dev_pos d) lim <=? 0) eqn:G.
  - injection H as <- <-. discriminate.
  - injection H as <- <-. exists d. apply Z.leb_gt in G.
    pose proof (xfer_le_count count (dev_size d - dev_pos d) lim).
    repeat split; try lia.
    cbn. now rewrite Z.eqb_refl.
Qed.

(** ** read_completely_at *)

(** The fuel [read_completely_at] gives its loop is enough. *)
Lemma read_loop_fuel (fuel : nat) (fd remain total : Z) (acc : list byte)
  (w : world) :
  remain <= Z.of_nat fuel -> read_loop fuel fd remain total acc w <> None.
Proof.
  revert remain total acc w.
  induction fuel as [|fuel IH]; intros remain total acc w Hf;
    cbn [read_loop]; destruct (remain <=? 0) eqn:E; try discriminate.
  - lia.
  - destruct (sys_read fd remain w) as [[n data] w1].
    destruct (n <=? 0) eqn:N; [discriminate|]. apply IH. lia.
Qed.

Lemma read_loop_looks (fuel : nat) (fd remain total : Z) (acc : list byte)
  (w : world) (r : Z) (acc' : list byte) (w' : world) :
  read_loop fuel fd remain total acc w = Some (r, acc', w') -> looks w w'.
Proof.
  revert remain total acc w.
  induction fuel as [|fuel IH]; intros remain total acc w H;
    cbn [read_loop] in H; destruct (remain <=? 0).
  - injection H as <- <- <-. apply looks_refl.
  - discriminate.
  - injection H as <- <- <-. apply looks_refl.
  - pose proof (sys_read_looks fd remain w) as L.
    destruct (sys_read fd remain w) as [[n data] w1]. cbn [snd] in L.
    destruct (n <=? 0).
    + injection H as <- <- <-. exact L.
    + eapply looks_trans; [exact L|]. eapply IH. eassumption.
Qed.

Lemma read_loop_ok (fuel : nat) (fd remain total : Z) (acc : list byte)
  (w : world) (r : Z) (acc' : list byte) (w' : world) (d : device) :
  read_loop fuel fd remain total acc w = Some (r, acc', w') ->
  0 <= r -> w_dev w fd = Some d ->
  acc' = acc ++ peek (dev_data d) (dev_pos d) (Z.to_nat remain).
Proof.
  revert remain total acc w d.
  induction fuel as [|fuel IH]; intros remain total acc w d H Hr Hd;
    cbn [read_loop] in H; destruct (remain <=? 0) eqn:E.
  - injection H as <- <- <-.
    replace (Z.to_nat remain) with 0%nat by lia. cbn. now rewrite app_nil_r.
  - discriminate.
  - injection H as <- <- <-.
    replace (Z.to_nat remain) with 0%nat by lia. cbn. now rewrite app_nil_r.
  - destruct (sys_read fd remain w) as [[n data] w1] eqn:R.
    destruct (n <=? 0) eqn:N; [injection H as <- <- <-; lia|].
    destruct (sys_read_ok fd remain w n data w1 R N) as (d0 & Hd0 & Hn & Hdata & Hd1).
    rewrite Hd in Hd0. injection Hd0 as <-.
    rewrite (IH _ _ _ _ _ H Hr Hd1). cbn [dev_data dev_pos].
    rewrite Hdata, <- app_assoc. f_equal.
    replace (Z.to_nat remain) with (Z.to_nat n + Z.to_nat (remain - n))%nat
      by lia.
    rewrite peek_app. do 2 f_equal. lia.
Qed.

Lemma read_completely_at_looks (fd : Z) (buf : list byte) (bufsiz offset : Z)
  (w : world) :
  looks w (snd (read_completely_at fd buf bufsiz offset w)).
Proof.
  unfold read_completely_at.
  pose proof (sys_lseek_looks fd offset w) as L.
  destruct (sys_lseek fd offset w) as [r w1]. cbn [snd] in L.
  destruct (r =? -1); [exact L|].
  destruct (read_loop (Z.to_nat bufsiz) fd bufsiz 0 [] w1)
    as [[[ret acc] w2]|] eqn:R; [|exact L].
  cbn [snd]. eapply looks_trans; [exact L|].
  eapply read_loop_looks. eassumption.
Qed.

(** A read that succeeds has put the bytes of the device at [offset]
    into the buffer. *)
Lemma read_completely_at_ok (fd : Z) (buf : list byte) (bufsiz offset : Z)
  (w : world) (r : Z) (buf' : list byte) (w' : world) (d : device) :
  read_completely_at fd buf bufsiz offset w = (r, buf', w') ->
  (r <? 0) = false -> w_dev w fd = Some d ->
  buf' = peek (dev_data d) offset (Z.to_nat bufsiz)
         ++ skipn (Z.to_nat bufsiz) buf.
Proof.
  unfold read_completely_at. intros H Hr Hd.
  destruct (sys_lseek fd offset w) as [r0 w1] eqn:L.
  destruct (r0 =? -1) eqn:E0; [injection H as <- <- <-; discriminate|].
  destruct (sys_lseek_ok fd offset w r0 w1 L E0) as (d0 & Hd0 & _ & _ & ->).
  rewrite Hd in Hd0. injection Hd0 as <-.
  destruct (read_loop (Z.to_nat bufsiz) fd bufsiz 0 [] _)
    as [[[ret acc] w2]|] eqn:R; [|injection H as <- <- <-; discriminate].
  injection H as <- <- <-.
  assert (Hacc : acc = [] ++ peek (dev_data d) offset (Z.to_nat bufsiz)).
  { refine (read_loop_ok _ fd bufsiz 0 [] _ ret acc w2
              (mkDevice (dev_size d) (dev_data d) offset) R _ _).
    - lia.
    - cbn. now rewrite Z.eqb_refl. }
  cbn [app] in Hacc. subst acc. now rewrite peek_length.
Qed.

(** ** write_completely_at *)

Lemma touches_kept (fd : Z) (w w' : world) : touches fd w w' -> kept fd w w'.
Proof. intros (_ & O & D). split; assumption. Qed.

Lemma is_io_on_write_at (fd : Z) (e : event) :
  is_io_on fd e = true -> is_write_at_event fd e = true.
Proof. destruct e; cbn; intros H; try discriminate; auto. Qed.

Lemma is_write_of_io_on (fd : Z) (e : event) :
  is_write_of fd e = true -> is_io_on fd e = true.
Proof. destruct e; cbn; intros H; try discriminate; auto. Qed.

Lemma write_calls_io (fd : Z) (evs : list event) :
  forallb (is_io_on fd) evs = true -> write_calls evs = [].
Proof.
  induction evs as [|e evs IH]; [reflexivity|]. cbn [forallb].
  rewrite andb_true_iff. intros [He Hr].
  destruct e; cbn in He |- *; try discriminate; auto.
Qed.

Lemma write_calls_app (a b : list event) :
  write_calls (a ++ b) = write_calls a ++ write_calls b.
Proof.
  induction a as [|e a IH]; [reflexivity|].
  destruct e; cbn; rewrite ?IH; reflexivity.
Qed.

Lemma writes_in_app (a b : list event) :
  writes_in (a ++ b) = writes_in a ++ writes_in b.
Proof. unfold writes_in. apply filter_app. Qed.

Lemma sys_lseek_io (fd off : Z) (w : world) :
  steps (is_io_on fd) w (snd (sys_lseek fd off w)).
Proof.
  unfold sys_lseek. destruct (w_dev w fd) as [d|]; [|apply steps_refl].
  destruct ((off <? 0) || (off >? dev_size d)); [apply steps_refl|].
  exists [EvLseek fd off]. split; [reflexivity|]. cbn. now rewrite Z.eqb_refl.
Qed.

Lemma sys_write_io (fd : Z) (buf : list byte) (count : Z) (w : world) :
  steps (is_write_of fd) w (snd (sys_write fd buf count w)).
Proof.
  unfold sys_write. destruct (w_dev w fd) as [d|]; [|apply steps_refl].
  destruct (take_limit (w_io w)) as [lim io'].
  destruct (xfer count (dev_size d - dev_pos d) lim <=? 0); cbn [snd].
  - now apply steps_same_trace.
  - eexists [_]. split; [reflexivity|]. cbn. now rewrite Z.eqb_refl.
Qed.

Lemma write_loop_fuel (fuel : nat) (fd : Z) (buf : list byte)
  (remain total : Z) (w : world) :
  remain <= Z.of_nat fuel -> write_loop fuel fd buf remain total w <> None.
Proof.
  revert remain total w.
  induction fuel as [|fuel IH]; intros remain total w Hf;
    cbn [write_loop]; destruct (remain <=? 0) eqn:E; try discriminate.
  - lia.
  - destruct (sys_write fd (skipn (Z.to_nat total) buf) remain w) as [n w1].
    destruct (n <=? 0) eqn:N; [discriminate|]. apply IH. lia.
Qed.

Lemma write_loop_steps (fuel : nat) (fd : Z) (buf : list byte)
  (remain total : Z) (w : world) (r : Z) (w' : world) :
  write_loop fuel fd buf remain total w = Some (r, w') ->
  steps (is_write_of fd) w w' /\ kept fd w w'.
Proof.
  revert remain total w.
  induction fuel as [|fuel IH]; intros remain total w H;
    cbn [write_loop] in H; destruct (remain <=? 0).
  - injection H as <- <-.
    split; [apply steps_refl|apply touches_kept, touches_refl].
  - discriminate.
  - injection H as <- <-.
    split; [apply steps_refl|apply touches_kept, touches_refl].
  - pose proof (sys_write_io fd (skipn (Z.to_nat total) buf) remain w) as S.
    pose proof (sys_write_touches fd (skipn (Z.to_nat total) buf) remain w) as T.
    destruct (sys_write fd (skipn (Z.to_nat total) buf) remain w) as [n w1].
    cbn [snd] in S, T. destruct (n <=? 0).
    + injection H as <- <-. split; [exact S|now apply touches_kept].
    + destruct (IH _ _ _ H) as [S2 K2].
      split; [eapply steps_trans; eassumption|].
      apply touches_kept in T. destruct T as [O1 D1], K2 as [O2 D2].
      split; [eapply others_kept_trans; eassumption|].
      destruct (w_dev w fd), (w_dev w1 fd), (w_dev w' fd);
        try contradiction; auto. congruence.
Qed.

Lemma firstn_skipn_add (A : Type) (a b : nat) (l : list A) :
  firstn (a + b) l = firstn a l ++ firstn b (skipn a l).
Proof.
  revert l. induction a as [|a IH]; intros l; [reflexivity|].
  destruct l as [|x l]; cbn; [now rewrite firstn_nil|]. now rewrite IH.
Qed.

Lemma written_from_cons (fd pos : Z) (data : list byte) (rest : list event)
  (more : list byte) :
  written_from fd (pos + Z.of_nat (List.length data)) rest = Some more ->
  written_from fd pos (EvWrite fd pos data :: rest) = Some (data ++ more).
Proof. intros H. cbn. now rewrite !Z.eqb_refl, H. Qed.

(** A write loop that succeeds has written the bytes asked for, without
    a gap, and the device holds them. *)
Lemma write_loop_ok (fuel : nat) (fd : Z) (buf : list byte)
  (remain total : Z) (w : world) (r : Z) (w' : world) (d : device) :
  write_loop fuel fd buf remain total w = Some (r, w') ->
  0 <= total -> 0 <= r -> w_dev w fd = Some d ->
  (Z.to_nat total + Z.to_nat remain <= List.length buf)%nat ->
  let bytes := firstn (Z.to_nat remain) (skipn (Z.to_nat total) buf) in
  r = total + Z.max remain 0
  /\ written_from fd (dev_pos d) (new_events w w') = Some bytes
  /\ dev_is w' fd (dev_size d) (dev_pos d + Z.max remain 0)
            (poke (dev_data d) (dev_pos d) bytes).
Proof.
  revert remain total w d.
  induction fuel as [|fuel IH]; intros remain total w d H Ht Hr Hd Hlen bytes;
    cbn [write_loop] in H; destruct (remain <=? 0) eqn:E; try discriminate.
  - injection H as <- <-. subst bytes.
    replace (Z.to_nat remain) with 0%nat by lia. cbn [firstn].
    rewrite new_events_refl. split; [lia|]. split; [reflexivity|].
    exists d. repeat split; try lia; try assumption.
    intros x. now rewrite poke_nil.
  - injection H as <- <-. subst bytes.
    replace (Z.to_nat remain) with 0%nat by lia. cbn [firstn].
    rewrite new_events_refl. split; [lia|]. split; [reflexivity|].
    exists d. repeat split; try lia; try assumption.
    intros x. now rewrite poke_nil.
  - destruct (sys_write fd (skipn (Z.to_nat total) buf) remain w)
      as [n w1] eqn:W.
    destruct (n <=? 0) eqn:N; [injection H as <- <-; lia|].
    destruct (sys_write_ok fd _ remain w n w1 W N)
      as (d0 & Hd0 & Hn & Htr & Hd1).
    rewrite Hd in Hd0. injection Hd0 as <-.
    set (data := firstn (Z.to_nat n) (skipn (Z.to_nat total) buf)) in *.
    assert (Ldata : List.length data = Z.to_nat n).
    { subst data. rewrite length_firstn, length_skipn. lia. }
    destruct (write_loop_steps _ _ _ _ _ _ _ _ H) as [S2 _].
    destruct (steps_new_events _ _ _ S2) as [Htr2 _].
    specialize (IH (remain - n) (total + n) w1 _ H ltac:(lia) Hr Hd1
                   ltac:(lia)).
    cbn [dev_size dev_data dev_pos] in IH. cbv zeta in IH.
    destruct IH as (Er & Wf & (d' & Hd' & Sz & Ps & Dt)).
    assert (Hbytes : data
                     ++ firstn (Z.to_nat (remain - n))
                               (skipn (Z.to_nat (total + n)) buf)
                     = bytes).
    { subst bytes data.
      replace (Z.to_nat remain) with (Z.to_nat n + Z.to_nat (remain - n))%nat
        by lia.
      rewrite firstn_skipn_add, skipn_skipn. do 3 f_equal. lia. }
    split; [lia|]. split.
    + rewrite (new_events_app w w' (EvWrite fd (dev_pos d) data
                                    :: new_events w1 w')).
      * rewrite <- Hbytes. apply written_from_cons.
        rewrite Ldata, Z2Nat.id by lia. exact Wf.
      * rewrite Htr2, Htr, <- app_assoc. reflexivity.
    + exists d'. repeat split; try assumption; try lia.
      intros x. rewrite Dt, <- Hbytes, <- poke_app.
      rewrite Ldata, Z2Nat.id by lia. reflexivity.
Qed.

Lemma kept_refl (fd : Z) (w : world) : kept fd w w.
Proof. apply touches_kept, touches_refl. Qed.

Lemma kept_trans (fd : Z) (w1 w2 w3 : world) :
  kept fd w1 w2 -> kept fd w2 w3 -> kept fd w1 w3.
Proof.
  intros [O1 D1] [O2 D2]. split; [eapply others_kept_trans; eassumption|].
  destruct (w_dev w1 fd), (w_dev w2 fd), (w_dev w3 fd);
    try contradiction; auto. congruence.
Qed.

Lemma kept_log (fd : Z) (e : event) (w : world) : kept fd w (log e w).
Proof.
  split; [split; reflexivity|]. cbn. destruct (w_dev w fd); auto.
Qed.

Lemma io_steps_refl (fd : Z) (w : world) : io_steps fd w w.
Proof. split; [apply steps_refl|apply kept_refl]. Qed.

Lemma io_steps_trans (fd : Z) (w1 w2 w3 : world) :
  io_steps fd w1 w2 -> io_steps fd w2 w3 -> io_steps fd w1 w3.
Proof.
  intros [S1 K1] [S2 K2].
  split; [eapply steps_trans|eapply kept_trans]; eassumption.
Qed.

Lemma sys_lseek_io_steps (fd off : Z) (w : world) :
  io_steps fd w (snd (sys_lseek fd off w)).
Proof.
  split; [apply sys_lseek_io|apply touches_kept, sys_lseek_touches].
Qed.

Lemma sys_fsync_io_steps (fd : Z) (w : world) :
  io_steps fd w (sys_fsync fd w).
Proof.
  split; [|apply kept_log]. apply steps_log. cbn. apply Z.eqb_refl.
Qed.

Lemma write_all_io_steps (fd : Z) (buf : list byte) (size : Z) (w : world) :
  io_steps fd w (snd (write_all fd buf size w)).
Proof.
  unfold write_all.
  destruct (write_loop (Z.to_nat size) fd buf size 0 w) as [[r w']|] eqn:E;
    [|apply io_steps_refl].
  destruct (write_loop_steps _ _ _ _ _ _ _ _ E) as [S K]. cbn [snd].
  split; [|assumption].
  eapply steps_weaken; [|exact S]. apply is_write_of_io_on.
Qed.

Lemma write_all_ok (fd : Z) (buf : list byte) (size : Z) (w : world)
  (r : Z) (w' : world) (d : device) :
  write_all fd buf size w = (r, w') -> (r <? 0) = false ->
  w_dev w fd = Some d -> (Z.to_nat size <= List.length buf)%nat ->
  r = Z.max size 0
  /\ written_from fd (dev_pos d) (new_events w w')
     = Some (firstn (Z.to_nat size) buf)
  /\ dev_is w' fd (dev_size d) (dev_pos d + Z.max size 0)
            (poke (dev_data d) (dev_pos d) (firstn (Z.to_nat size) buf)).
Proof.
  unfold write_all. intros H Hr Hd Hlen.
  destruct (write_loop (Z.to_nat size) fd buf size 0 w) as [[r0 w0]|] eqn:E;
    [|injection H as <- <-; discriminate].
  injection H as -> ->.
  pose proof (write_loop_ok _ fd buf size 0 w r w' d E ltac:(lia) ltac:(lia)
                Hd ltac:(cbn; lia)) as K.
  cbv zeta in K. cbn [Z.to_nat skipn] in K.
  destruct K as (K1 & K2 & K3).
  split; [lia|]. split; assumption.
Qed.

(** The trace of a call: the call record, then system calls on [fd]. *)
Lemma write_completely_at_steps (zb : list byte) (fd : Z) (buf : list byte)
  (bufsiz offset erase_size : Z) (w : world) :
  let w' := snd (write_completely_at zb fd buf bufsiz offset erase_size w) in
  (exists rest,
      w_trace w' = w_trace w ++ EvWriteAt fd offset bufsiz erase_size :: rest
      /\ forallb (is_io_on fd) rest = true)
  /\ kept fd w w'.
Proof.
  cbv zeta. unfold write_completely_at.
  set (w0 := log (EvWriteAt fd offset bufsiz erase_size) w).
  assert (G : forall w', io_steps fd w0 w' ->
                (exists rest,
                    w_trace w' = w_trace w
                                 ++ EvWriteAt fd offset bufsiz erase_size :: rest
                    /\ forallb (is_io_on fd) rest = true)
                /\ kept fd w w').
  { intros w' [(rest & Ht & F) K]. split.
    - exists rest. split; [|assumption]. rewrite Ht. subst w0. cbn.
      now rewrite <- app_assoc.
    - eapply kept_trans; [apply kept_log|exact K]. }
  pose proof (sys_lseek_io_steps fd offset w0) as L1.
  destruct (sys_lseek fd offset w0) as [r w1]. cbn [snd] in L1 |- *.
  destruct (r =? -1); cbn [snd]; [now apply G|].
  destruct (negb (erase_size =? 0)).
  - pose proof (write_all_io_steps fd zb erase_size w1) as L2.
    destruct (write_all fd zb erase_size w1) as [e w2]. cbn [snd] in L2.
    assert (S2 : io_steps fd w0 w2) by (eapply io_steps_trans; eassumption).
    destruct (e <? 0); cbn [snd]; [now apply G|].
    pose proof (sys_fsync_io_steps fd w2) as L3.
    pose proof (sys_lseek_io_steps fd offset (sys_fsync fd w2)) as L4.
    destruct (sys_lseek fd offset (sys_fsync fd w2)) as [r2 w4].
    cbn [snd] in L4.
    assert (S4 : io_steps fd w0 w4)
      by (eapply io_steps_trans; [|exact L4];
          eapply io_steps_trans; eassumption).
    destruct (r2 =? -1); cbn [snd]; [now apply G|].
    apply G. eapply io_steps_trans; [exact S4|]. apply write_all_io_steps.
  - apply G. eapply io_steps_trans; [exact L1|]. apply write_all_io_steps.
Qed.

Lemma write_completely_at_touches (zb : list byte) (fd : Z) (buf : list byte)
  (bufsiz offset erase_size : Z) (w : world) :
  touches fd w (snd (write_completely_at zb fd buf bufsiz offset erase_size w)).
Proof.
  destruct (write_completely_at_steps zb fd buf bufsiz offset erase_size w)
    as [(rest & Ht & F) [O D]].
  split; [|split; assumption].
  eexists. split; [exact Ht|]. cbn. rewrite Z.eqb_refl. cbn.
  rewrite forallb_forall in *. intros e He. apply is_io_on_write_at. auto.
Qed.

(** A call is one call: its trace holds its own call record only. *)
Lemma write_completely_at_calls (zb : list byte) (fd : Z) (buf : list byte)
  (bufsiz offset erase_size : Z) (w : world) :
  write_calls
    (new_events w
       (snd (write_completely_at zb fd buf bufsiz offset erase_size w)))
  = [(fd, offset)].
Proof.
  destruct (write_completely_at_steps zb fd buf bufsiz offset erase_size w)
    as [(rest & Ht & F) _].
  rewrite (new_events_app _ _ _ Ht). cbn. now rewrite (write_calls_io fd rest F).
Qed.

Lemma write_all_trace (fd : Z) (buf : list byte) (size : Z) (w : world) :
  let w' := snd (write_all fd buf size w) in
  w_trace w' = w_trace w ++ new_events w w'.
Proof.
  cbv zeta. destruct (write_all_io_steps fd buf size w) as [S _].
  now destruct (steps_new_events _ _ _ S).
Qed.

(** What a call that succeeds has done: after the call record and the
    seek, the erase (if asked) as a gap-free run of writes of the first
    [erase_size] bytes of the zero buffer, a flush and a seek back; then
    the payload as a gap-free run of writes, and nothing after it.  The
    device then holds the payload at [offset]. *)
Lemma write_completely_at_ok (zb : list byte) (fd : Z) (buf : list byte)
  (bufsiz offset erase_size : Z) (w : world) (r : Z) (w' : world)
  (d : device) :
  write_completely_at zb fd buf bufsiz offset erase_size w = (r, w') ->
  (r <? 0) = false -> w_dev w fd = Some d ->
  (Z.to_nat bufsiz <= List.length buf)%nat ->
  (Z.to_nat erase_size <= List.length zb)%nat ->
  (exists E P,
      new_events w w'
      = EvWriteAt fd offset bufsiz erase_size :: EvLseek fd offset
        :: (if erase_size =? 0 then []
            else E ++ [EvFsync fd; EvLseek fd offset]) ++ P
      /\ ((erase_size =? 0) = false ->
          written_from fd offset E = Some (firstn (Z.to_nat erase_size) zb))
      /\ written_from fd offset P = Some (firstn (Z.to_nat bufsiz) buf))
  /\ exists f', dev_is w' fd (dev_size d) (offset + Z.max bufsiz 0) f'
                /\ peek f' offset (Z.to_nat bufsiz)
                   = firstn (Z.to_nat bufsiz) buf.
Proof.
  unfold write_completely_at. intros H Hr Hd Lb Lz.
  set (w0 := log (EvWriteAt fd offset bufsiz erase_size) w) in *.
  assert (Hd0 : w_dev w0 fd = Some d) by exact Hd.
  assert (Lp : List.length (firstn (Z.to_nat bufsiz) buf) = Z.to_nat bufsiz)
    by (rewrite length_firstn; lia).
  destruct (sys_lseek fd offset w0) as [r1 w1] eqn:L1.
  destruct (r1 =? -1) eqn:E1; [injection H as <- <-; discriminate|].
  destruct (sys_lseek_ok fd offset w0 r1 w1 L1 E1) as (d0 & Hd0' & _ & _ & Hw1).
  rewrite Hd0 in Hd0'. injection Hd0' as <-.
  assert (Hd1 : w_dev w1 fd = Some (mkDevice (dev_size d) (dev_data d) offset))
    by (rewrite Hw1; cbn; now rewrite Z.eqb_refl).
  assert (T1 : w_trace w1
               = w_trace w ++ [EvWriteAt fd offset bufsiz erase_size;
                               EvLseek fd offset])
    by (rewrite Hw1; cbn; now rewrite <- app_assoc).
  destruct (erase_size =? 0) eqn:Ez; cbn [negb] in H.
  - (* no erase *)
    pose proof (write_all_trace fd buf bufsiz w1) as T2. rewrite H in T2.
    cbn [snd] in T2. cbv zeta in T2.
    destruct (write_all_ok fd buf bufsiz w1 r w' _ H Hr Hd1 Lb)
      as (_ & Wf & Di).
    cbn [dev_size dev_data dev_pos] in Wf, Di. split.
    + exists [], (new_events w1 w'). split; [|split; [discriminate|exact Wf]].
      apply new_events_app. rewrite T2, T1, <- app_assoc. reflexivity.
    + eexists. split; [exact Di|].
      rewrite peek_poke_prefix by lia.
      now rewrite firstn_firstn, Nat.min_id.
  - (* erase, flush, seek back, payload *)
    destruct (write_all fd zb erase_size w1) as [e w2] eqn:W2.
    pose proof (write_all_trace fd zb erase_size w1) as T2. rewrite W2 in T2.
    cbn [snd] in T2. cbv zeta in T2.
    destruct (e <? 0) eqn:Ee; [injection H as <- <-; discriminate|].
    destruct (write_all_ok fd zb erase_size w1 e w2 _ W2 Ee Hd1 Lz)
      as (_ & Wf2 & (d2 & Hd2 & Sz2 & _ & _)).
    cbn [dev_size dev_data dev_pos] in Wf2, Sz2.
    assert (Hd3 : w_dev (sys_fsync fd w2) fd = Some d2) by exact Hd2.
    destruct (sys_lseek fd offset (sys_fsync fd w2)) as [r4 w4] eqn:L4.
    destruct (r4 =? -1) eqn:E4; [injection H as <- <-; discriminate|].
    destruct (sys_lseek_ok fd offset _ r4 w4 L4 E4)
      as (d3 & Hd3' & _ & _ & Hw4).
    rewrite Hd3 in Hd3'. injection Hd3' as <-.
    assert (Hd4 : w_dev w4 fd
                  = Some (mkDevice (dev_size d2) (dev_data d2) offset))
      by (rewrite Hw4; cbn; now rewrite Z.eqb_refl).
    assert (T4 : w_trace w4 = w_trace w2 ++ [EvFsync fd; EvLseek fd offset])
      by (rewrite Hw4; cbn; now rewrite <- app_assoc).
    pose proof (write_all_trace fd buf bufsiz w4) as T5. rewrite H in T5.
    cbn [snd] in T5. cbv zeta in T5.
    destruct (write_all_ok fd buf bufsiz w4 r w' _ H Hr Hd4 Lb)
      as (_ & Wf & Di).
    cbn [dev_size dev_data dev_pos] in Wf, Di. rewrite Sz2 in Di. split.
    + exists (new_events w1 w2), (new_events w4 w').
      split; [|split; [intros _; exact Wf2|exact Wf]].
      apply new_events_app. rewrite T5, T4, T2, T1, <- !app_assoc.
      reflexivity.
    + eexists. split; [exact Di|].
      rewrite peek_poke_prefix by lia.
      now rewrite firstn_firstn, Nat.min_id.
Qed.

(** ** Flushes *)

Lemma flush_follows_app_fsync (fd : Z) (pre tail : list event) :
  forallb (write_at_only fd) pre = true -> flush_follows tail = true ->
  flush_follows (pre ++ EvFsync fd :: tail) = true.
Proof.
  intros F T. induction pre as [|e pre IH]; [exact T|].
  cbn [forallb] in F. apply andb_true_iff in F. destruct F as [Fe Fp].
  specialize (IH Fp).
  destruct e; cbn [app flush_follows]; try exact IH.
  cbn in Fe. apply Z.eqb_eq in Fe. subst fd0.
  rewrite IH, andb_true_r, existsb_app. cbn [existsb].
  rewrite Z.eqb_refl. cbn. apply orb_true_r.
Qed.

Lemma flush_follows_no_calls (evs : list event) :
  write_calls evs = [] -> flush_follows evs = true.
Proof.
  induction evs as [|e evs IH]; [reflexivity|].
  destruct e; cbn; auto. discriminate.
Qed.

Lemma rw_event_write_at_only (fd : Z) (e : event) :
  rw_event fd e = true -> write_at_only fd e = true.
Proof. destruct e; cbn; intros H; auto. Qed.

Lemma seek_or_read_rw (fd : Z) (e : event) :
  is_seek_or_read e = true -> rw_event fd e = true.
Proof. unfold rw_event. now intros ->. Qed.

Lemma write_at_rw (fd : Z) (e : event) :
  is_write_at_event fd e = true -> rw_event fd e = true.
Proof. unfold rw_event. intros ->. apply orb_true_r. Qed.

Lemma seek_or_read_no_calls (evs : list event) :
  forallb is_seek_or_read evs = true ->
  write_calls evs = [] /\ writes_in evs = [] /\ processed_in evs = [].
Proof.
  induction evs as [|e evs IH]; [auto|]. cbn [forallb].
  rewrite andb_true_iff. intros [He Hr]. specialize (IH Hr).
  destruct e; cbn in He |- *; try discriminate; exact IH.
Qed.

(** A step that only looks makes no call of [write_completely_at], no
    [write] and no call of [process_entry]. *)
Lemma looks_no_writes (w w' : world) :
  looks w w' ->
  write_calls (new_events w w') = [] /\ writes_in (new_events w w') = []
  /\ processed_in (new_events w w') = [].
Proof.
  intros [S _]. destruct (steps_new_events _ _ _ S) as [_ F].
  now apply seek_or_read_no_calls.
Qed.

Lemma flushed_intro (fd : Z) (w w1 : world) :
  steps (write_at_only fd) w w1 -> flushed fd w (sys_fsync fd w1).
Proof.
  intros (pre & Ht & F). exists pre. split; [|exact F].
  cbn. now rewrite Ht, <- app_assoc.
Qed.

Lemma flushed_prepend (fd : Z) (w w1 w' : world) :
  steps (write_at_only fd) w w1 -> flushed fd w1 w' -> flushed fd w w'.
Proof.
  intros (a & Ha & Fa) (b & Hb & Fb). exists (a ++ b). split.
  - now rewrite Hb, Ha, <- !app_assoc.
  - now rewrite forallb_app, Fa, Fb.
Qed.

Lemma flushed_append (fd : Z) (w w1 w' : world) (tail : list event) :
  flushed fd w w1 -> w_trace w' = w_trace w1 ++ tail ->
  write_calls tail = [] ->
  flush_follows (new_events w w') = true.
Proof.
  intros (pre & Ht & F) Ht' Hc.
  rewrite (new_events_app w w' (pre ++ EvFsync fd :: tail)).
  - apply flush_follows_app_fsync; [exact F|now apply flush_follows_no_calls].
  - rewrite Ht', Ht, <- !app_assoc. reflexivity.
Qed.

Lemma flushed_flush_follows (fd : Z) (w w' : world) :
  flushed fd w w' -> flush_follows (new_events w w') = true.
Proof.
  intros F. apply (flushed_append fd w w' w' [] F); [|reflexivity].
  now rewrite app_nil_r.
Qed.

Lemma looks_rw (fd : Z) (w w' : world) :
  looks w w' -> steps (write_at_only fd) w w'.
Proof.
  intros [S _]. eapply steps_weaken; [|exact S].
  intros e He. apply rw_event_write_at_only. now apply seek_or_read_rw.
Qed.

Lemma touches_rw (fd : Z) (w w' : world) :
  touches fd w w' -> steps (write_at_only fd) w w'.
Proof.
  intros (S & _). eapply steps_weaken; [|exact S].
  intros e He. apply rw_event_write_at_only. now apply write_at_rw.
Qed.

(** ** update_bct, update_bct_t210 *)

Lemma touches_steps (fd : Z) (w w' : world) :
  touches fd w w' -> steps (is_write_at_event fd) w w'.
Proof. now intros (S & _). Qed.

Lemma update_bct_loop_touches (g : globals) (bootfd : Z)
  (curbct : option (list byte)) (newbct : list byte) (ent : update_entry_s)
  (idxs : list Z) (w : world) :
  touches bootfd w (snd (update_bct_loop g bootfd curbct newbct ent idxs w)).
Proof.
  revert w. induction idxs as [|i rest IH]; intros w; cbn [update_bct_loop].
  - apply touches_refl.
  - destruct (bct_same curbct newbct _ _); [apply IH|].
    match goal with
    | |- context [write_completely_at ?zb ?fd ?buf ?n ?off ?er ?w0] =>
        pose proof (write_completely_at_touches zb fd buf n off er w0) as T;
        destruct (write_completely_at zb fd buf n off er w0) as [r w1]
    end.
    cbn [snd] in T. destruct (r <? 0); [exact T|].
    eapply touches_trans; [exact T|apply IH].
Qed.

(** The calls of a loop that went through: one for each offset at which
    the current contents differ from the new BCT. *)
Lemma update_bct_loop_calls (g : globals) (bootfd : Z)
  (curbct : option (list byte)) (newbct : list byte) (ent : update_entry_s)
  (idxs : list Z) (w : world) (r : Z) (w' : world) :
  update_bct_loop g bootfd curbct newbct ent idxs w = (r, w') ->
  (r <? 0) = false ->
  write_calls (new_events w w')
  = map (fun off => (bootfd, bct_base ent + off))
        (filter (fun off => negb (bct_same curbct newbct off (ent_length ent)))
                (map (update_bct_offset g ent) idxs)).
Proof.
  revert w. induction idxs as [|i rest IH]; intros w H Hr;
    cbn [update_bct_loop] in H.
  - injection H as <- <-. now rewrite new_events_refl.
  - cbn [map filter].
    destruct (bct_same curbct newbct (update_bct_offset g ent i) (ent_length ent));
      cbn [negb]; [now apply IH|].
    fold (bct_base ent) in H.
    match type of H with
    | context [write_completely_at ?zb ?fd ?buf ?n ?off ?er ?w0] =>
        pose proof (write_completely_at_touches zb fd buf n off er w0) as T;
        pose proof (write_completely_at_calls zb fd buf n off er w0) as C;
        destruct (write_completely_at zb fd buf n off er w0) as [r1 w1]
    end.
    cbn [snd] in T, C.
    destruct (r1 <? 0); [injection H as <- <-; discriminate|].
    pose proof (update_bct_loop_touches g bootfd curbct newbct ent rest w1) as T2.
    rewrite H in T2. cbn [snd] in T2.
    rewrite (new_events_trans _ w w1 w' (touches_steps _ _ _ T)
                              (touches_steps _ _ _ T2)).
    rewrite write_calls_app, C, (IH _ H Hr). reflexivity.
Qed.

Section UpdateLemmas.

Variable X : externals.

(** [update_bct] that returns 0 has made the calls of its loop, then one
    flush of the boot device, and has set [bct_updated]. *)
Lemma update_bct_ok (g : globals) (bootfd : Z) (curbct : option (list byte))
  (newbct : list byte) (ent : update_entry_s) (w : world)
  (r : Z) (g' : globals) (w' : world) :
  update_bct X g bootfd curbct newbct ent w = (r, g', w') -> r = 0 ->
  write_calls (new_events w w')
  = map (fun off => (bootfd, bct_base ent + off))
        (filter (fun off => negb (bct_same curbct newbct off (ent_length ent)))
                (update_bct_offsets g ent))
  /\ flushed bootfd w w'
  /\ bct_updated g' = 1.
Proof.
  unfold update_bct. intros H Hr.
  destruct (soc_eqb (soctype g) TEGRA_SOCTYPE_210);
    [injection H as <- <- <-; discriminate|].
  match type of H with
  | (if ?c then _ else _) = _ =>
      destruct c; [injection H as <- <- <-; discriminate|]
  end.
  destruct (update_bct_loop g bootfd curbct newbct ent [0; 1; 2] w)
    as [r1 w1] eqn:L.
  destruct (r1 <? 0) eqn:E1; [injection H as <- <- <-; discriminate|].
  injection H as <- <- <-.
  pose proof (update_bct_loop_touches g bootfd curbct newbct ent [0; 1; 2] w) as T.
  rewrite L in T. cbn [snd] in T.
  destruct (steps_new_events _ _ _ (touches_steps _ _ _ T)) as [Ht F].
  assert (Hn : new_events w (sys_fsync bootfd w1)
               = new_events w w1 ++ [EvFsync bootfd]).
  { apply new_events_app. cbn. now rewrite Ht, <- app_assoc. }
  rewrite Hn. split; [|split; [|reflexivity]].
  2: { apply flushed_intro. now apply touches_rw. }
  rewrite write_calls_app, app_nil_r.
  exact (update_bct_loop_calls g bootfd curbct newbct ent [0; 1; 2] w r1 w1 L E1).
Qed.

End UpdateLemmas.

Lemma update_bct_t210_loop_touches (g : globals) (bootfd : Z)
  (curbct : option (list byte)) (newbct : list byte) (ent : update_entry_s)
  (block_size bctcopies bctidx : Z) (n : nat) (w : world) :
  touches bootfd w
    (snd (update_bct_t210_loop g bootfd curbct newbct ent block_size
            bctcopies bctidx n w)).
Proof.
  revert bctidx w. induction n as [|n IH]; intros bctidx w;
    cbn [update_bct_t210_loop].
  - apply touches_refl.
  - destruct (bct_same curbct newbct _ _); [apply IH|].
    match goal with
    | |- context [write_completely_at ?zb ?fd ?buf ?k ?off ?er w] =>
        pose proof (write_completely_at_touches zb fd buf k off er w) as T;
        destruct (write_completely_at zb fd buf k off er w) as [r w1]
    end.
    cbn [snd] in T. destruct (r <? 0); [exact T|].
    destruct ((bctidx =? 0) && (bctcopies =? 2)).
    + match goal with
      | |- context [write_completely_at ?zb ?fd ?buf ?k ?off ?er w1] =>
          pose proof (write_completely_at_touches zb fd buf k off er w1) as T2;
          destruct (write_completely_at zb fd buf k off er w1) as [r2 w2]
      end.
      cbn [snd] in T2.
      assert (T12 : touches bootfd w w2)
        by (eapply touches_trans; eassumption).
      destruct (r2 <? 0); [exact T12|].
      eapply touches_trans; [exact T12|apply IH].
    + eapply touches_trans; [exact T|apply IH].
Qed.


Section T210Lemmas.

Variable X : externals.

(** [update_bct_t210] that returns 0 ends with one flush of the boot
    device. *)
Lemma update_bct_t210_flushed (g : globals) (bootfd : Z)
  (curbct : option (list byte)) (newbct : list byte) (ent : update_entry_s)
  (which : option Z) (w : world) (r : Z) (which' : option Z) (g' : globals)
  (w' : world) :
  update_bct_t210 X g bootfd curbct newbct ent which w = (r, which', g', w') ->
  r = 0 -> flushed bootfd w w'.
Proof.
  unfold update_bct_t210. intros H Hr.
  destruct (negb (soc_eqb (soctype g) TEGRA_SOCTYPE_210));
    [injection H as <- <- <- <-; discriminate|].
  destruct which as [wh|]; [|injection H as <- <- <- <-; discriminate].
  destruct (match curbct with
            | Some cur => bct_update_valid_t21x X cur newbct (bct_block_size g)
                                                (bct_page_size g)
            | None => (true, bct_block_size g, bct_page_size g)
            end) as [[valid block_size] page_size].
  destruct (negb valid); [injection H as <- <- <- <-; discriminate|].
  destruct (negb (ent_length ent mod page_size =? 0));
    [injection H as <- <- <- <-; discriminate|].
  destruct (ent_length ent * (if spiboot_platform g then 2 else 1) >? block_size);
    [injection H as <- <- <- <-; discriminate|].
  destruct (bct_phase wh (bctcount_of block_size ent)) as [[bctstart bctend] next].
  match type of H with
  | context [update_bct_t210_loop ?a ?b ?c ?d ?e ?f ?h ?i ?j ?k] =>
      pose proof (update_bct_t210_loop_touches a b c d e f h i j k) as T;
      destruct (update_bct_t210_loop a b c d e f h i j k) as [r1 w1]
  end.
  cbn [snd] in T.
  destruct (r1 <? 0); [injection H as <- <- <- <-; discriminate|].
  injection H as <- <- <- <-.
  apply flushed_intro. now apply touches_rw.
Qed.


End T210Lemmas.

(** ** maybe_update_bootpart *)

Lemma flushed_run (fd : Z) (w w' : world) :
  flushed fd w w' ->
  exists evs, w_trace w' = w_trace w ++ evs /\ flush_follows evs = true.
Proof.
  intros (pre & Ht & F). exists (pre ++ [EvFsync fd]). split; [exact Ht|].
  apply flush_follows_app_fsync; [exact F|reflexivity].
Qed.

Lemma looks_run (w w' : world) :
  looks w w' ->
  exists evs, w_trace w' = w_trace w ++ evs /\ flush_follows evs = true.
Proof.
  intros [(evs & Ht & F) _]. exists evs. split; [exact Ht|].
  apply flush_follows_no_calls. now apply seek_or_read_no_calls.
Qed.

Lemma read_completely_at_dev (fd : Z) (buf : list byte) (bufsiz offset : Z)
  (w : world) (r : Z) (buf' : list byte) (w' : world) :
  read_completely_at fd buf bufsiz offset w = (r, buf', w') ->
  (r <? 0) = false -> exists d, w_dev w fd = Some d.
Proof.
  unfold read_completely_at. intros H Hr.
  destruct (sys_lseek fd offset w) as [r0 w1] eqn:L.
  destruct (r0 =? -1) eqn:E0; [injection H as <- <- <-; discriminate|].
  destruct (sys_lseek_ok fd offset w r0 w1 L E0) as (d & Hd & _). eauto.
Qed.

Lemma same_devices_dev (w w' : world) (fd : Z) (d : device) :
  same_devices w w' -> w_dev w fd = Some d ->
  exists d', w_dev w' fd = Some d' /\ dev_size d' = dev_size d
             /\ forall x, dev_data d' x = dev_data d x.
Proof.
  intros [D _] Hd. specialize (D fd). rewrite Hd in D.
  destruct (w_dev w' fd) as [d'|]; [|contradiction].
  destruct D as [S E]. exists d'. repeat split; auto.
Qed.

Section BootpartLemmas.

Variable X : externals.

(** A payload larger than the partition is refused before anything is
    read or written. *)
Lemma maybe_update_bootpart_too_large (g : globals) (bootfd gptfd : Z)
  (ent : update_entry_s) (p : gpt_entry_t) (is_bct : bool) (initialize : Z)
  (bctctx : option Z) (w : world) :
  partsize_of p < ent_length ent ->
  maybe_update_bootpart X g bootfd gptfd ent p is_bct initialize bctctx w
  = (-1, bctctx, g, w).
Proof.
  intros H. unfold maybe_update_bootpart. now rewrite gtb_true by assumption.
Qed.

(** Whenever [maybe_update_bootpart] returns 0, every call of
    [write_completely_at] it made is followed by a flush of the same
    descriptor. *)
Lemma maybe_update_bootpart_flush (g : globals) (bootfd gptfd : Z)
  (ent : update_entry_s) (p : gpt_entry_t) (is_bct : bool) (initialize : Z)
  (bctctx : option Z) (w : world) (r : Z) (b : option Z) (g' : globals)
  (w' : world) :
  maybe_update_bootpart X g bootfd gptfd ent p is_bct initialize bctctx w
  = (r, b, g', w') ->
  r = 0 ->
  exists evs, w_trace w' = w_trace w ++ evs /\ flush_follows evs = true.
Proof.
  unfold maybe_update_bootpart. intros H Hr.
  destruct (ent_length ent >? partsize_of p);
    [injection H as <- <- <- <-; discriminate|].
  destruct (part_past g p && (gptfd <? 0));
    [injection H as <- <- <- <-; discriminate|].
  match type of H with
  | context [read_completely_at ?fd ?buf ?n ?off w] =>
      pose proof (read_completely_at_looks fd buf n off w) as L;
      destruct (read_completely_at fd buf n off w) as [[r0 sb] w1]
  end.
  cbn [snd] in L.
  destruct (r0 <? 0); [injection H as <- <- <- <-; discriminate|].
  destruct is_bct.
  - destruct (soc_eqb (soctype (set_slotbuf sb g)) TEGRA_SOCTYPE_210).
    + apply (flushed_run bootfd).
      eapply flushed_prepend; [apply looks_rw; exact L|].
      eapply update_bct_t210_flushed; eassumption.
    + match type of H with
      | context [update_bct X ?a ?b ?c ?d ?e ?f] =>
          pose proof (update_bct_ok X a b c d e f) as U;
          destruct (update_bct X a b c d e f) as [[r2 g2] w2]
      end.
      injection H as <- <- <- <-.
      destruct (U _ _ _ eq_refl Hr) as (_ & F & _).
      apply (flushed_run bootfd).
      eapply flushed_prepend; [apply looks_rw; exact L|exact F].
  - destruct (memcmp_eq _ _ _).
    + injection H as <- <- <- <-. now apply looks_run.
    + match type of H with
      | context [write_completely_at ?zb ?fd ?buf ?n ?off ?er w1] =>
          pose proof (write_completely_at_touches zb fd buf n off er w1) as T;
          destruct (write_completely_at zb fd buf n off er w1) as [r3 w3]
      end.
      cbn [snd] in T.
      destruct (r3 <? 0); [injection H as <- <- <- <-; discriminate|].
      injection H as <- <- <- <-.
      apply (flushed_run (part_fd g bootfd gptfd p)).
      apply flushed_intro.
      eapply steps_trans; [apply looks_rw; exact L|apply touches_rw; exact T].
Qed.

(** Compare and skip: when the partition already holds the payload, an
    entry that is not the BCT is only read. *)
Lemma maybe_update_bootpart_skip (g : globals) (bootfd gptfd : Z)
  (ent : update_entry_s) (p : gpt_entry_t) (initialize : Z)
  (bctctx : option Z) (w : world) (r : Z) (b : option Z) (g' : globals)
  (w' : world) :
  maybe_update_bootpart X g bootfd gptfd ent p false initialize bctctx w
  = (r, b, g', w') ->
  device_bytes w (part_fd g bootfd gptfd p) (part_offset g p) (ent_length ent)
  = Some (firstn (Z.to_nat (ent_length ent)) (contentbuf g)) ->
  looks w w'.
Proof.
  unfold maybe_update_bootpart, device_bytes. intros H Hdev.
  destruct (ent_length ent >? partsize_of p) eqn:Hsz;
    [injection H as <- <- <- <-; apply looks_refl|].
  destruct (part_past g p && (gptfd <? 0));
    [injection H as <- <- <- <-; apply looks_refl|].
  destruct (w_dev w (part_fd g bootfd gptfd p)) as [d|] eqn:Hd; [|discriminate].
  injection Hdev as Hdev.
  match type of H with
  | context [read_completely_at ?fd ?buf ?n ?off w] =>
      pose proof (read_completely_at_looks fd buf n off w) as L;
      pose proof (read_completely_at_ok fd buf n off w) as R;
      destruct (read_completely_at fd buf n off w) as [[r0 sb] w1]
  end.
  cbn [snd] in L. specialize (R r0 sb w1 d eq_refl).
  destruct (r0 <? 0); [injection H as <- <- <- <-; exact L|].
  specialize (R eq_refl Hd).
  replace (memcmp_eq (contentbuf (set_slotbuf sb g)) (slotbuf (set_slotbuf sb g))
                     (ent_length ent)) with true in H.
  - injection H as <- <- <- <-. exact L.
  - symmetry. apply memcmp_eq_iff. cbn [contentbuf slotbuf set_slotbuf].
    rewrite R, firstn_app, peek_length.
    replace (Z.to_nat (ent_length ent) - Z.to_nat (partsize_of p))%nat
      with 0%nat by lia.
    cbn [firstn]. rewrite app_nil_r, firstn_peek by lia. now rewrite Hdev.
Qed.

(** After [maybe_update_bootpart] has returned 0 for an entry that is not
    the BCT, the partition holds the payload. *)
Lemma maybe_update_bootpart_holds (g : globals) (bootfd gptfd : Z)
  (ent : update_entry_s) (p : gpt_entry_t) (initialize : Z)
  (bctctx : option Z) (w : world) (r : Z) (b : option Z) (g' : globals)
  (w' : world) :
  maybe_update_bootpart X g bootfd gptfd ent p false initialize bctctx w
  = (r, b, g', w') ->
  r = 0 ->
  (Z.to_nat (ent_length ent) <= List.length (contentbuf g))%nat ->
  (Z.to_nat (partsize_of p) <= List.length (zerobuf g))%nat ->
  device_bytes w' (part_fd g bootfd gptfd p) (part_offset g p) (ent_length ent)
  = Some (firstn (Z.to_nat (ent_length ent)) (contentbuf g))
  /\ exists sb, g' = set_slotbuf sb g.
Proof.
  unfold maybe_update_bootpart, device_bytes. intros H Hr Lc Lz.
  destruct (ent_length ent >? partsize_of p) eqn:Hsz;
    [injection H as <- <- <- <-; discriminate|].
  destruct (part_past g p && (gptfd <? 0));
    [injection H as <- <- <- <-; discriminate|].
  match type of H with
  | context [read_completely_at ?fd ?buf ?n ?off w] =>
      pose proof (read_completely_at_looks fd buf n off w) as L;
      pose proof (read_completely_at_ok fd buf n off w) as R;
      pose proof (read_completely_at_dev fd buf n off w) as D;
      destruct (read_completely_at fd buf n off w) as [[r0 sb] w1]
  end.
  cbn [snd] in L.
  destruct (r0 <? 0) eqn:E0; [injection H as <- <- <- <-; discriminate|].
  destruct (D r0 sb w1 eq_refl E0) as [d Hd].
  specialize (R r0 sb w1 d eq_refl E0 Hd).
  destruct L as [_ SD].
  destruct (same_devices_dev w w1 _ d SD Hd) as (d1 & Hd1 & Sz1 & Dt1).
  assert (Hfirst : firstn (Z.to_nat (ent_length ent)) sb
                   = peek (dev_data d1) (part_offset g p)
                          (Z.to_nat (ent_length ent))).
  { rewrite R, firstn_app, peek_length.
    replace (Z.to_nat (ent_length ent) - Z.to_nat (partsize_of p))%nat
      with 0%nat by lia.
    cbn [firstn]. rewrite app_nil_r, firstn_peek by lia.
    apply peek_ext. intros x. now rewrite Dt1. }
  destruct (memcmp_eq (contentbuf (set_slotbuf sb g))
                      (slotbuf (set_slotbuf sb g)) (ent_length ent)) eqn:M.
  - injection H as <- <- <- <-. rewrite Hd1. split; [|eexists; reflexivity].
    apply memcmp_eq_iff in M. unfold set_slotbuf in M. cbn in M.
    now rewrite M, Hfirst.
  - match type of H with
    | context [write_completely_at ?zb ?fd ?buf ?n ?off ?er w1] =>
        pose proof (write_completely_at_ok zb fd buf n off er w1) as W;
        destruct (write_completely_at zb fd buf n off er w1) as [r3 w3]
    end.
    specialize (W r3 w3 d1 eq_refl).
    destruct (r3 <? 0); [injection H as <- <- <- <-; discriminate|].
    injection H as <- <- <- <-.
    destruct (W eq_refl Hd1 Lc Lz) as (_ & f' & (d3 & Hd3 & _ & _ & Dt3) & Pk).
    cbn [sys_fsync log w_dev]. rewrite Hd3. split; [|eexists; reflexivity].
    change (contentbuf (set_slotbuf sb g)) with (contentbuf g) in Pk.
    f_equal. rewrite <- Pk. apply peek_ext. exact Dt3.
Qed.

End BootpartLemmas.

(** ** process_entry *)

Lemma sys_open_steps (fd' : Z) (path : string) (w : world) :
  steps (write_at_only fd') w (snd (sys_open path w)).
Proof.
  unfold sys_open. destruct (w_node w path <? 0); [apply steps_refl|].
  destruct (w_dev w (w_node w path)); [|apply steps_refl].
  eexists [_]. split; reflexivity.
Qed.

Section ProcessLemmas.

Variable X : externals.

(** Whenever [process_entry] returns 0, every call of
    [write_completely_at] it made, directly or through the partition and
    BCT writers, is followed by a flush of the same descriptor. *)
Lemma process_entry_flush (ctx : bup_context X) (g : globals)
  (bootfd gptfd : Z) (ent : update_entry_s) (dryrun : bool) (initialize : Z)
  (bctctx : option Z) (w : world) (r : Z) (b : option Z)
  (ctx' : bup_context X) (g' : globals) (w' : world) :
  process_entry X ctx g bootfd gptfd ent dryrun initialize bctctx w
  = (r, b, ctx', g', w') ->
  r = 0 -> flush_follows (new_events w w') = true.
Proof.
  unfold process_entry. intros H Hr.
  set (w0 := log (EvProcess (partname ent)) w) in *.
  assert (S0 : forall f, steps (write_at_only f) w w0)
    by (intros f; now apply steps_log).
  destruct (bup_setpos X ctx (bup_offset ent)) as [sp ctx1].
  destruct (sp =? -1); [injection H as <- <- <- <- <-; discriminate|].
  destruct (bup_read_content X ctx1 g (ent_length ent)) as [[rr g1] ctx2].
  destruct (rr <? 0); [injection H as <- <- <- <- <-; discriminate|].
  destruct dryrun.
  { injection H as <- <- <- <- <-.
    now rewrite (new_events_app w w0 [EvProcess (partname ent)]). }
  destruct (part ent) as [p|].
  - destruct (maybe_update_bootpart X g1 bootfd gptfd ent p _ initialize
                                    bctctx w0) as [[[r1 b1] g2] w1] eqn:M.
    injection H as <- <- <- <- <-.
    destruct (maybe_update_bootpart_flush X _ _ _ _ _ _ _ _ _ _ _ _ _ M Hr)
      as (evs & Ht & F).
    rewrite (new_events_app w w1 (EvProcess (partname ent) :: evs)).
    + exact F.
    + rewrite Ht. subst w0. cbn. now rewrite <- app_assoc.
  - pose proof (fun f => sys_open_steps f (devname ent) w0) as S1.
    destruct (sys_open (devname ent) w0) as [fd w1]. cbn [snd] in S1.
    destruct (fd <? 0); [injection H as <- <- <- <- <-; discriminate|].
    pose proof (sys_lseek_end_looks fd w1) as S2.
    destruct (sys_lseek_end fd w1) as [e w2]. cbn [snd] in S2.
    destruct (u32 e <? 0); [injection H as <- <- <- <- <-; discriminate|].
    pose proof (sys_lseek_looks fd 0 w2) as S3.
    destruct (sys_lseek fd 0 w2) as [s0 w3]. cbn [snd] in S3.
    destruct (s0 <? 0); [injection H as <- <- <- <- <-; discriminate|].
    match type of H with
    | context [write_completely_at ?zb ?f ?buf ?n ?off ?er w3] =>
        pose proof (write_completely_at_touches zb f buf n off er w3) as S4;
        destruct (write_completely_at zb f buf n off er w3) as [r4 w4]
    end.
    cbn [snd] in S4.
    destruct (r4 <? 0); [injection H as <- <- <- <- <-; discriminate|].
    injection H as <- <- <- <- <-.
    apply (flushed_append fd w (sys_fsync fd w4) _ [EvClose fd]);
      [|reflexivity|reflexivity].
    apply flushed_intro.
    eapply steps_trans; [apply S0|].
    eapply steps_trans; [apply S1|].
    eapply steps_trans; [apply looks_rw; exact S2|].
    eapply steps_trans; [apply looks_rw; exact S3|].
    apply touches_rw. exact S4.
Qed.

End ProcessLemmas.

Lemma firstn_repeat_le (A : Type) (x : A) (n m : nat) :
  (n <= m)%nat -> firstn n (repeat x m) = repeat x n.
Proof.
  revert m. induction n as [|n IH]; intros m H; [reflexivity|].
  destruct m as [|m]; [lia|]. cbn. f_equal. apply IH. lia.
Qed.

Lemma written_from_no_fsync (fd pos : Z) (evs : list event)
  (data : list byte) :
  written_from fd pos evs = Some data ->
  forallb (is_write_of fd) evs = true.
Proof.
  revert pos data. induction evs as [|e evs IH]; intros pos data H;
    [reflexivity|].
  destruct e; cbn in H; try discriminate.
  destruct ((fd0 =? fd) && (pos0 =? pos)) eqn:E; [|discriminate].
  destruct (written_from fd (pos + Z.of_nat (List.length data0)) evs) eqn:R;
    [|discriminate].
  apply andb_true_iff in E. destruct E as [E _].
  cbn. rewrite E. cbn. eapply IH. eassumption.
Qed.

Lemma ends_with_fsync_writes (fd : Z) (pre P : list event) (e : event) :
  forallb (is_write_of fd) P = true ->
  (match e with EvFsync _ => false | _ => true end) = true ->
  ends_with_fsync (pre ++ e :: P) = false.
Proof.
  intros F He. unfold ends_with_fsync. rewrite rev_app_distr. cbn [rev].
  destruct (rev P) as [|x xs] eqn:R.
  - cbn. destruct e; try reflexivity. discriminate.
  - rewrite <- !app_assoc. cbn.
    assert (Hx : In x P) by (apply in_rev; rewrite R; now left).
    rewrite forallb_forall in F. specialize (F x Hx).
    destruct x; try reflexivity. discriminate.
Qed.

(** ** What is written is flushed *)

Lemma writes_flushed_app (a b : list event) :
  writes_flushed a = true -> writes_flushed b = true ->
  writes_flushed (a ++ b) = true.
Proof.
  intros Ha Hb. induction a as [|e a IH]; [exact Hb|].
  destruct e; cbn [app writes_flushed] in *; try (now apply IH).
  apply andb_true_iff in Ha. destruct Ha as [Ex Ha].
  rewrite existsb_app, Ex. cbn. now apply IH.
Qed.

Lemma writes_flushed_fsync (fd : Z) (pre tail : list event) :
  forallb (writes_only fd) pre = true -> writes_flushed tail = true ->
  writes_flushed (pre ++ EvFsync fd :: tail) = true.
Proof.
  intros F Ht. induction pre as [|e pre IH]; [exact Ht|].
  cbn [forallb] in F. apply andb_true_iff in F. destruct F as [He F].
  specialize (IH F).
  destruct e; cbn [app writes_flushed]; try exact IH.
  cbn in He. apply Z.eqb_eq in He. subst fd0.
  rewrite IH, andb_true_r, existsb_app. cbn. rewrite Z.eqb_refl.
  apply orb_true_r.
Qed.

Lemma writes_flushed_no_writes (evs : list event) :
  writes_in evs = [] -> writes_flushed evs = true.
Proof.
  induction evs as [|e evs IH]; [reflexivity|].
  destruct e; cbn; auto. discriminate.
Qed.

(** A trace that ends with [write] calls: the last of them has no flush
    after it. *)
Lemma writes_unflushed (fd : Z) (pre P : list event) :
  forallb (is_write_of fd) P = true -> P <> [] ->
  writes_flushed (pre ++ P) = false.
Proof.
  intros F Hne.
  assert (B : writes_flushed P = false).
  { clear pre. induction P as [|e P IH]; [now contradiction Hne|].
    cbn [forallb] in F. apply andb_true_iff in F. destruct F as [He F].
    destruct e; try discriminate He. cbn [writes_flushed].
    destruct P as [|e' P]; [reflexivity|].
    rewrite IH; [apply andb_false_r|exact F|discriminate]. }
  induction pre as [|e pre IH]; [exact B|].
  destruct e; cbn [app writes_flushed]; try exact IH.
  rewrite IH. apply andb_false_r.
Qed.

Lemma written_from_nonempty (fd pos : Z) (P : list event) (data : list byte) :
  written_from fd pos P = Some data -> data <> [] -> P <> [].
Proof. intros H Hd ->. cbn in H. injection H as <-. now contradiction Hd. Qed.

Lemma settled_refl (w : world) : settled w w.
Proof. exists []. split; [now rewrite app_nil_r|reflexivity]. Qed.

Lemma settled_trans (w1 w2 w3 : world) :
  settled w1 w2 -> settled w2 w3 -> settled w1 w3.
Proof.
  intros (a & Ha & Fa) (b & Hb & Fb). exists (a ++ b). split.
  - now rewrite Hb, Ha, <- app_assoc.
  - now apply writes_flushed_app.
Qed.

Lemma steps_settled (P : event -> bool) (w w' : world) :
  (forall e, P e = true -> is_write e = false) ->
  steps P w w' -> settled w w'.
Proof.
  intros HP (evs & Ht & F). exists evs. split; [exact Ht|].
  apply writes_flushed_no_writes. clear Ht.
  induction evs as [|e evs IH]; [reflexivity|].
  cbn [forallb] in F. apply andb_true_iff in F. destruct F as [He F].
  unfold writes_in in *. cbn [filter]. rewrite (HP e He). now apply IH.
Qed.

Lemma settled_fsync (fd : Z) (w w1 : world) :
  steps (writes_only fd) w w1 -> settled w (sys_fsync fd w1).
Proof.
  intros (pre & Ht & F). exists (pre ++ [EvFsync fd]). split.
  - cbn. now rewrite Ht, <- app_assoc.
  - now apply writes_flushed_fsync.
Qed.

Lemma touches_writes_only (fd : Z) (w w' : world) :
  touches fd w w' -> steps (writes_only fd) w w'.
Proof.
  intros (S & _). eapply steps_weaken; [|exact S].
  intros e. destruct e; cbn; try discriminate; auto.
Qed.

Lemma looks_writes_only (fd : Z) (w w' : world) :
  looks w w' -> steps (writes_only fd) w w'.
Proof.
  intros (S & _). eapply steps_weaken; [|exact S].
  intros e. destruct e; cbn; try discriminate; auto.
Qed.

Lemma looks_settled (w w' : world) : looks w w' -> settled w w'.
Proof.
  intros [S _]. revert S. apply steps_settled.
  intros e. destruct e; cbn; try discriminate; auto.
Qed.

Lemma settled_log (e : event) (w : world) :
  is_write e = false -> settled w (log e w).
Proof.
  intros He. exists [e]. split; [reflexivity|]. now destruct e.
Qed.

Lemma sys_open_writes_only (fd : Z) (path : string) (w : world) :
  steps (writes_only fd) w (snd (sys_open path w)).
Proof.
  unfold sys_open. destruct (w_node w path <? 0); [apply steps_refl|].
  destruct (w_dev w (w_node w path)); [|apply steps_refl].
  eexists [_]. split; reflexivity.
Qed.

Section Settled.

Variable X : externals.

Lemma update_bct_settled (g : globals) (bootfd : Z)
  (curbct : option (list byte)) (newbct : list byte) (ent : update_entry_s)
  (w : world) (r : Z) (g' : globals) (w' : world) :
  update_bct X g bootfd curbct newbct ent w = (r, g', w') -> r = 0 ->
  exists pre, w_trace w' = w_trace w ++ pre ++ [EvFsync bootfd]
              /\ forallb (writes_only bootfd) pre = true.
Proof.
  unfold update_bct. intros H Hr.
  destruct (soc_eqb (soctype g) TEGRA_SOCTYPE_210);
    [injection H as <- <- <-; discriminate|].
  match type of H with
  | (if ?c then _ else _) = _ => destruct c
  end; [injection H as <- <- <-; discriminate|].
  pose proof (update_bct_loop_touches g bootfd curbct newbct ent [0; 1; 2] w)
    as T.
  destruct (update_bct_loop g bootfd curbct newbct ent [0; 1; 2] w) as [r1 w1].
  cbn [snd] in T. apply touches_writes_only in T.
  destruct (r1 <? 0); [injection H as <- <- <-; discriminate|].
  injection H as <- <- <-. destruct T as (pre & Ht & F).
  exists pre. split; [cbn; now rewrite Ht, <- app_assoc|exact F].
Qed.

Lemma update_bct_t210_settled (g : globals) (bootfd : Z)
  (curbct : option (list byte)) (newbct : list byte) (ent : update_entry_s)
  (which : option Z) (w : world) (r : Z) (which' : option Z) (g' : globals)
  (w' : world) :
  update_bct_t210 X g bootfd curbct newbct ent which w = (r, which', g', w') ->
  r = 0 ->
  exists pre, w_trace w' = w_trace w ++ pre ++ [EvFsync bootfd]
              /\ forallb (writes_only bootfd) pre = true.
Proof.
  unfold update_bct_t210. intros H Hr.
  destruct (negb (soc_eqb (soctype g) TEGRA_SOCTYPE_210));
    [injection H as <- <- <- <-; discriminate|].
  destruct which as [wh|]; [|injection H as <- <- <- <-; discriminate].
  destruct (match curbct with
            | Some cur => bct_update_valid_t21x X cur newbct (bct_block_size g)
                                                (bct_page_size g)
            | None => (true, bct_block_size g, bct_page_size g)
            end) as [[valid block_size] page_size].
  destruct (negb valid); [injection H as <- <- <- <-; discriminate|].
  destruct (negb (ent_length ent mod page_size =? 0));
    [injection H as <- <- <- <-; discriminate|].
  destruct (ent_length ent * (if spiboot_platform g then 2 else 1) >? block_size);
    [injection H as <- <- <- <-; discriminate|].
  destruct (bct_phase wh (bctcount_of block_size ent)) as [[bctstart bctend] next].
  match type of H with
  | context [update_bct_t210_loop ?a ?b ?c ?d ?e ?f ?h ?i ?j ?k] =>
      pose proof (update_bct_t210_loop_touches a b c d e f h i j k) as T;
      destruct (update_bct_t210_loop a b c d e f h i j k) as [r1 w1]
  end.
  cbn [snd] in T. apply touches_writes_only in T.
  destruct (r1 <? 0); [injection H as <- <- <- <-; discriminate|].
  injection H as <- <- <- <-. destruct T as (pre & Ht & F).
  exists pre. split; [cbn; now rewrite Ht, <- app_assoc|exact F].
Qed.

(** What [maybe_update_bootpart] has done when it returns 0: nothing but
    seeks and reads, or seeks, reads and writes to one descriptor that
    end with the flush of that descriptor. *)
Lemma maybe_update_bootpart_settled (g : globals) (bootfd gptfd : Z)
  (ent : update_entry_s) (p : gpt_entry_t) (is_bct : bool) (initialize : Z)
  (bctctx : option Z) (w : world) (r : Z) (b : option Z) (g' : globals)
  (w' : world) :
  maybe_update_bootpart X g bootfd gptfd ent p is_bct initialize bctctx w
  = (r, b, g', w') ->
  r = 0 ->
  (writes_in (new_events w w') = [] /\ looks w w')
  \/ exists fd pre,
       w_trace w' = w_trace w ++ pre ++ [EvFsync fd]
       /\ forallb (writes_only fd) pre = true
       /\ fd = (if is_bct then bootfd else part_fd g bootfd gptfd p).
Proof.
  unfold maybe_update_bootpart. intros H Hr.
  destruct (ent_length ent >? partsize_of p);
    [injection H as <- <- <- <-; discriminate|].
  destruct (part_past g p && (gptfd <? 0));
    [injection H as <- <- <- <-; discriminate|].
  match type of H with
  | context [read_completely_at ?fd ?buf ?n ?off w] =>
      pose proof (read_completely_at_looks fd buf n off w) as L;
      destruct (read_completely_at fd buf n off w) as [[r0 sb] w1]
  end.
  cbn [snd] in L.
  destruct (r0 <? 0); [injection H as <- <- <- <-; discriminate|].
  assert (J : forall fd w2 pre,
             w_trace w2 = w_trace w1 ++ pre ++ [EvFsync fd] ->
             forallb (writes_only fd) pre = true ->
             exists pre', w_trace w2 = w_trace w ++ pre' ++ [EvFsync fd]
                          /\ forallb (writes_only fd) pre' = true).
  { intros fd w2 pre Ht F.
    destruct (looks_writes_only fd _ _ L) as (a & Ha & Fa).
    exists (a ++ pre). split.
    - rewrite Ht, Ha, <- !app_assoc. reflexivity.
    - now rewrite forallb_app, Fa, F. }
  destruct is_bct.
  - right. destruct (soc_eqb (soctype (set_slotbuf sb g)) TEGRA_SOCTYPE_210).
    + destruct (update_bct_t210_settled _ _ _ _ _ _ _ _ _ _ _ H Hr)
        as (pre & Ht & F).
      destruct (J bootfd w' pre Ht F) as (pre' & Hn & F').
      exists bootfd, pre'. now split.
    + match type of H with
      | context [update_bct X ?a ?b ?c ?d ?e ?f] =>
          pose proof (update_bct_settled a b c d e f) as U;
          destruct (update_bct X a b c d e f) as [[r2 g2] w2]
      end.
      injection H as <- <- <- <-.
      destruct (U _ _ _ eq_refl Hr) as (pre & Ht & F).
      destruct (J bootfd w2 pre Ht F) as (pre' & Hn & F').
      exists bootfd, pre'. now split.
  - destruct (memcmp_eq _ _ _).
    + injection H as <- <- <- <-. left. split; [|exact L].
      exact (proj1 (proj2 (looks_no_writes _ _ L))).
    + match type of H with
      | context [write_completely_at ?zb ?fd ?buf ?n ?off ?er w1] =>
          pose proof (write_completely_at_touches zb fd buf n off er w1) as T;
          destruct (write_completely_at zb fd buf n off er w1) as [r3 w3]
      end.
      cbn [snd] in T. apply touches_writes_only in T.
      destruct (r3 <? 0); [injection H as <- <- <- <-; discriminate|].
      injection H as <- <- <- <-. right.
      destruct T as (pre & Ht & F).
      destruct (J (part_fd g bootfd gptfd p)
                  (sys_fsync (part_fd g bootfd gptfd p) w3) pre) as (pre' & Hn & F').
      * cbn. now rewrite Ht, <- app_assoc.
      * exact F.
      * exists (part_fd g bootfd gptfd p), pre'. now split.
Qed.

Lemma process_entry_settled (ctx : bup_context X) (g : globals)
  (bootfd gptfd : Z) (ent : update_entry_s) (dryrun : bool) (initialize : Z)
  (bctctx : option Z) (w : world) (r : Z) (b : option Z)
  (ctx' : bup_context X) (g' : globals) (w' : world) :
  process_entry X ctx g bootfd gptfd ent dryrun initialize bctctx w
  = (r, b, ctx', g', w') ->
  r = 0 -> settled w w'.
Proof.
  unfold process_entry. intros H Hr.
  set (w0 := log (EvProcess (partname ent)) w) in *.
  assert (S0 : settled w w0) by now apply settled_log.
  destruct (bup_setpos X ctx (bup_offset ent)) as [sp ctx1].
  destruct (sp =? -1); [injection H as <- <- <- <- <-; discriminate|].
  destruct (bup_read_content X ctx1 g (ent_length ent)) as [[rr g1] ctx2].
  destruct (rr <? 0); [injection H as <- <- <- <- <-; discriminate|].
  destruct dryrun; [injection H as <- <- <- <- <-; exact S0|].
  apply (settled_trans _ w0); [exact S0|].
  destruct (part ent) as [p|].
  - destruct (maybe_update_bootpart X g1 bootfd gptfd ent p _ initialize
                                    bctctx w0) as [[[r1 b1] g2] w1] eqn:M.
    injection H as <- <- <- <- <-.
    destruct (maybe_update_bootpart_settled _ _ _ _ _ _ _ _ _ _ _ _ _ M Hr)
      as [[_ L]|(fd & pre & Hn & F & _)].
    + now apply looks_settled.
    + exists (pre ++ [EvFsync fd]). split; [exact Hn|].
      now apply writes_flushed_fsync.
  - pose proof (fun f => sys_open_writes_only f (devname ent) w0) as S1.
    destruct (sys_open (devname ent) w0) as [fd w1]. cbn [snd] in S1.
    destruct (fd <? 0); [injection H as <- <- <- <- <-; discriminate|].
    pose proof (sys_lseek_end_looks fd w1) as S2.
    destruct (sys_lseek_end fd w1) as [e w2]. cbn [snd] in S2.
    destruct (u32 e <? 0); [injection H as <- <- <- <- <-; discriminate|].
    pose proof (sys_lseek_looks fd 0 w2) as S3.
    destruct (sys_lseek fd 0 w2) as [s0 w3]. cbn [snd] in S3.
    destruct (s0 <? 0); [injection H as <- <- <- <- <-; discriminate|].
    match type of H with
    | context [write_completely_at ?zb ?f ?buf ?n ?off ?er w3] =>
        pose proof (write_completely_at_touches zb f buf n off er w3) as S4;
        destruct (write_completely_at zb f buf n off er w3) as [r4 w4]
    end.
    cbn [snd] in S4.
    destruct (r4 <? 0); [injection H as <- <- <- <- <-; discriminate|].
    injection H as <- <- <- <- <-.
    apply (settled_trans _ (sys_fsync fd w4));
      [|apply (settled_log (EvClose fd)); reflexivity].
    apply settled_fsync.
    eapply steps_trans; [apply S1|].
    eapply steps_trans; [apply looks_writes_only; exact S2|].
    eapply steps_trans; [apply looks_writes_only; exact S3|].
    now apply touches_writes_only.
Qed.

End Settled.

(** C5 (as amended): with [erase_size > 0], [write_completely_at] first
    writes [erase_size] zero bytes from the target offset on and flushes,
    then seeks back to the offset and writes the payload.  The primitive
    itself issues no flush after the payload: on every call that
    succeeds, with or without erase, the call's last event is not a
    flush, and when the payload is not empty its last [write] has no
    [fsync] after it.  The flush after the payload is the caller's:
    whenever [process_entry] returns 0, every [write] made for the entry
    - the erase and the payload, by [process_entry] itself,
    [maybe_update_bootpart], [update_bct] or [update_bct_t210] - is
    followed by an [fsync] of the descriptor written to (and so is every
    call of [write_completely_at]). *)
Theorem write_completely_at_erase_then_payload (X : externals) :
  (forall (k : Z) (fd : Z) (buf : list byte) (bufsiz offset erase_size : Z)
          (w : world) (r : Z) (w' : world) (d : device),
      write_completely_at (zeros k) fd buf bufsiz offset erase_size w = (r, w') ->
      (r <? 0) = false -> w_dev w fd = Some d ->
      (Z.to_nat bufsiz <= List.length buf)%nat -> erase_size <= k ->
      (0 < erase_size ->
       exists E P,
         new_events w w'
         = [EvWriteAt fd offset bufsiz erase_size; EvLseek fd offset]
           ++ E ++ [EvFsync fd; EvLseek fd offset] ++ P
         /\ written_from fd offset E = Some (zeros erase_size)
         /\ written_from fd offset P = Some (firstn (Z.to_nat bufsiz) buf))
      /\ ends_with_fsync (new_events w w') = false
      /\ (0 < bufsiz -> writes_flushed (new_events w w') = false))
  /\ (forall (ctx : bup_context X) (g : globals) (bootfd gptfd : Z)
             (ent : update_entry_s) (dryrun : bool) (initialize : Z)
             (bctctx : option Z) (w : world) (b : option Z)
             (ctx' : bup_context X) (g' : globals) (w' : world),
         process_entry X ctx g bootfd gptfd ent dryrun initialize bctctx w
         = (0, b, ctx', g', w') ->
         writes_flushed (new_events w w') = true
         /\ flush_follows (new_events w w') = true).
Proof.
  split.
  - intros k fd buf bufsiz offset erase_size w r w' d H Hr Hd Lb Le.
    assert (Lz : (Z.to_nat erase_size <= List.length (zeros k))%nat)
      by (unfold zeros; rewrite repeat_length; lia).
    destruct (write_completely_at_ok _ _ _ _ _ _ _ _ _ _ H Hr Hd Lb Lz)
      as ((E & P & Hn & HE & HP) & _).
    pose proof (written_from_no_fsync _ _ _ _ HP) as FP.
    split.
    + intros Hpos. exists E, P.
      replace (erase_size =? 0) with false in * by (symmetry; lia).
      split; [rewrite Hn, <- app_assoc; reflexivity|]. split; [|exact HP].
      rewrite (HE eq_refl). unfold zeros.
      now rewrite firstn_repeat_le by lia.
    + rewrite Hn. split.
      * destruct (erase_size =? 0).
        -- cbn [app].
           exact (ends_with_fsync_writes fd
                    [EvWriteAt fd offset bufsiz erase_size]
                    P (EvLseek fd offset) FP eq_refl).
        -- assert (Heq : EvWriteAt fd offset bufsiz erase_size
                         :: EvLseek fd offset
                         :: (E ++ [EvFsync fd; EvLseek fd offset]) ++ P
                         = (EvWriteAt fd offset bufsiz erase_size
                            :: EvLseek fd offset :: E ++ [EvFsync fd])
                           ++ EvLseek fd offset :: P)
             by (cbn; rewrite <- !app_assoc; reflexivity).
           rewrite Heq. now apply (ends_with_fsync_writes fd).
      * intros Hb.
        assert (Pne : P <> []).
        { apply (written_from_nonempty _ _ _ _ HP). intros C.
          apply (f_equal (@List.length byte)) in C.
          rewrite length_firstn in C. cbn in C. lia. }
        exact (writes_unflushed fd
                 (EvWriteAt fd offset bufsiz erase_size :: EvLseek fd offset
                  :: (if erase_size =? 0 then []
                      else E ++ [EvFsync fd; EvLseek fd offset]))
                 P FP Pne).
  - intros ctx g bootfd gptfd ent dryrun initialize bctctx w b ctx' g' w' H.
    split; [|eapply process_entry_flush; eauto].
    destruct (process_entry_settled X _ _ _ _ _ _ _ _ _ _ _ _ _ _ H eq_refl)
      as (evs & Ht & F).
    now rewrite (new_events_app w w' evs Ht).
Qed.

Lemma write_completely_at_erase_then_payload_witness :
  (fst (write_completely_at (zeros 8) 3 sample_payload 4 8 8 (small_world []))
   <? 0) = false
  /\ ends_with_fsync
       (new_events (small_world [])
          (snd (write_completely_at (zeros 8) 3 sample_payload 4 8 8
                                    (small_world []))))
     = false
  /\ fst (fst (fst (fst (process_entry sample_ext (sample_payload, 0)
                           small_globals 3 4 (node_entry 4) false 0 None
                           (small_world []))))) = 0
  /\ writes_flushed
       (new_events (small_world [])
          (snd (process_entry sample_ext (sample_payload, 0) small_globals
                              3 4 (node_entry 4) false 0 None (small_world []))))
     = true
  /\ writes_flushed
       (new_events (small_world [])
          (snd (write_completely_at (zeros 8) 3 sample_payload 4 8 8
                                    (small_world []))))
     = false.
Proof.
  destruct (write_completely_at_erase_then_payload sample_ext) as [A B].
  assert (A1 : ends_with_fsync
                 (new_events (small_world [])
                    (snd (write_completely_at (zeros 8) 3 sample_payload 4 8 8
                                              (small_world [])))) = false
               /\ (0 < 4 ->
                   writes_flushed
                     (new_events (small_world [])
                        (snd (write_completely_at (zeros 8) 3 sample_payload
                                4 8 8 (small_world [])))) = false)).
  { refine (proj2 (A 8 3 sample_payload 4 8 8 (small_world []) 4
                     (snd (write_completely_at (zeros 8) 3 sample_payload 4 8 8
                                               (small_world [])))
                     (sample_device 64 xff) _ _ _ _ _)).
    + vm_compute. reflexivity.
    + reflexivity.
    + reflexivity.
    + cbn. lia.
    + lia. }
  split; [vm_compute; reflexivity|]. split; [exact (proj1 A1)|].
  assert (A2 := proj2 A1 ltac:(lia)).
  cut (fst (fst (fst (fst (process_entry sample_ext (sample_payload, 0)
                           small_globals 3 4 (node_entry 4) false 0 None
                           (small_world []))))) = 0
       /\ writes_flushed
            (new_events (small_world [])
               (snd (process_entry sample_ext (sample_payload, 0)
                       small_globals 3 4 (node_entry 4) false 0 None
                       (small_world [])))) = true).
  { intros [C1 C2]. split; [exact C1|]. split; [exact C2|exact A2]. }
  clear A1 A2.
  - assert (Hr : fst (fst (fst (fst (process_entry sample_ext
                         (sample_payload, 0) small_globals 3 4 (node_entry 4)
                         false 0 None (small_world []))))) = 0)
      by (vm_compute; reflexivity).
    split; [exact Hr|].
    destruct (process_entry sample_ext (sample_payload, 0) small_globals 3 4
                            (node_entry 4) false 0 None (small_world []))
      as [[[[r b] c] g'] w'] eqn:E.
    cbn [fst snd] in Hr |- *. subst r.
    exact (proj1 (B _ _ _ _ _ _ _ _ _ _ _ _ _ E)).
Defined.

(** C5, the claim as stated fails: a call of [write_completely_at] that
    succeeds, with or without erase, ends with the write of the payload;
    no flush follows it. *)
Lemma write_completely_at_no_final_flush :
  write_completely_at (zeros 8) 3 sample_payload 4 8 8 (small_world [])
  = (4, snd (write_completely_at (zeros 8) 3 sample_payload 4 8 8
                                 (small_world [])))
  /\ w_trace (snd (write_completely_at (zeros 8) 3 sample_payload 4 8 8
                                       (small_world [])))
     = [EvWriteAt 3 8 4 8; EvLseek 3 8; EvWrite 3 8 (zeros 8); EvFsync 3;
        EvLseek 3 8; EvWrite 3 8 sample_payload]
  /\ write_completely_at (zeros 8) 3 sample_payload 4 8 0 (small_world [])
     = (4, snd (write_completely_at (zeros 8) 3 sample_payload 4 8 0
                                    (small_world [])))
  /\ w_trace (snd (write_completely_at (zeros 8) 3 sample_payload 4 8 0
                                       (small_world [])))
     = [EvWriteAt 3 8 4 0; EvLseek 3 8; EvWrite 3 8 sample_payload].
Proof. repeat split; vm_compute; reflexivity. Qed.

(** ** Compare and skip *)

Lemma skipn_peek (f : Z -> byte) (pos : Z) (k n : nat) :
  (k <= n)%nat ->
  skipn k (peek f pos n) = peek f (pos + Z.of_nat k) (n - k).
Proof.
  intros H. replace n with (k + (n - k))%nat at 1 by lia.
  rewrite peek_app, skipn_app, peek_length, Nat.sub_diag.
  rewrite skipn_all2 by (rewrite peek_length; lia). reflexivity.
Qed.

Lemma update_bct_loop_same (g : globals) (bootfd : Z) (cur newbct : list byte)
  (ent : update_entry_s) (idxs : list Z) (w : world) :
  (forall i, In i idxs ->
             bct_same (Some cur) newbct (update_bct_offset g ent i)
                      (ent_length ent) = true) ->
  update_bct_loop g bootfd (Some cur) newbct ent idxs w = (0, w).
Proof.
  induction idxs as [|i rest IH]; intros H; [reflexivity|].
  cbn [update_bct_loop]. rewrite (H i (or_introl eq_refl)).
  apply IH. intros j Hj. apply H. now right.
Qed.

Section SkipLemmas.

Variable X : externals.

(** The BCT of tegra186/tegra194 when the three places already hold the
    new BCT: nothing is written. *)
Lemma update_bct_same (g : globals) (bootfd : Z) (cur newbct : list byte)
  (ent : update_entry_s) (w : world) (r : Z) (g' : globals) (w' : world) :
  update_bct X g bootfd (Some cur) newbct ent w = (r, g', w') ->
  (forall off, In off (update_bct_offsets g ent) ->
               bct_same (Some cur) newbct off (ent_length ent) = true) ->
  writes_in (new_events w w') = [] /\ write_calls (new_events w w') = [].
Proof.
  unfold update_bct. intros H Hs.
  destruct (soc_eqb (soctype g) TEGRA_SOCTYPE_210);
    [injection H as <- <- <-; now rewrite new_events_refl|].
  match type of H with
  | (if ?c then _ else _) = _ =>
      destruct c; [injection H as <- <- <-; now rewrite new_events_refl|]
  end.
  rewrite update_bct_loop_same in H.
  - cbn in H. injection H as <- <- <-.
    rewrite (new_events_app w (sys_fsync bootfd w) [EvFsync bootfd]);
      [split; reflexivity|reflexivity].
  - intros i Hi. apply Hs. unfold update_bct_offsets.
    cbn in Hi. destruct Hi as [<-|[<-|[<-|[]]]]; cbn; auto.
Qed.

(** The same from the contents of the device: a BCT entry that is
    processed without [initialize] on tegra186/tegra194 is only read when
    the partition holds the new BCT at the three offsets. *)
Lemma maybe_update_bootpart_bct_skip (g : globals) (bootfd gptfd : Z)
  (ent : update_entry_s) (p : gpt_entry_t) (bctctx : option Z) (w : world)
  (r : Z) (b : option Z) (g' : globals) (w' : world) :
  maybe_update_bootpart X g bootfd gptfd ent p true 0 bctctx w
  = (r, b, g', w') ->
  soc_eqb (soctype g) TEGRA_SOCTYPE_210 = false ->
  0 <= ent_length ent ->
  (forall off, In off (update_bct_offsets g ent) ->
     0 <= off /\ off + ent_length ent <= partsize_of p
     /\ device_bytes w (part_fd g bootfd gptfd p) (part_offset g p + off)
                     (ent_length ent)
        = Some (firstn (Z.to_nat (ent_length ent)) (contentbuf g))) ->
  writes_in (new_events w w') = [] /\ write_calls (new_events w w') = [].
Proof.
  unfold maybe_update_bootpart. intros H Hsoc Hlen Hdev.
  destruct (ent_length ent >? partsize_of p) eqn:Hsz;
    [injection H as <- <- <- <-; now rewrite new_events_refl|].
  destruct (part_past g p && (gptfd <? 0));
    [injection H as <- <- <- <-; now rewrite new_events_refl|].
  match type of H with
  | context [read_completely_at ?fd ?buf ?n ?off w] =>
      pose proof (read_completely_at_looks fd buf n off w) as L;
      pose proof (read_completely_at_ok fd buf n off w) as R;
      destruct (read_completely_at fd buf n off w) as [[r0 sb] w1]
  end.
  cbn [snd] in L.
  destruct (looks_no_writes w w1 L) as (C1 & W1 & _).
  destruct (r0 <? 0) eqn:E0;
    [injection H as <- <- <- <-; split; assumption|].
  change (soctype (set_slotbuf sb g)) with (soctype g) in H.
  rewrite Hsoc in H. cbn [Z.eqb] in H.
  destruct (update_bct X (set_slotbuf sb g) bootfd
              (Some (slotbuf (set_slotbuf sb g)))
              (contentbuf (set_slotbuf sb g)) ent w1) as [[r2 g2] w2] eqn:U.
  injection H as <- <- <- <-.
  assert (Hsame : writes_in (new_events w1 w2) = []
                  /\ write_calls (new_events w1 w2) = []).
  { apply (update_bct_same _ _ _ _ _ _ _ _ _ U).
    intros off Hoff. destruct (Hdev off Hoff) as (H0 & Hin & Hb).
    unfold device_bytes in Hb.
    destruct (w_dev w (part_fd g bootfd gptfd p)) as [d|] eqn:Hd;
      [|discriminate].
    injection Hb as Hb. specialize (R r0 sb w1 d eq_refl E0 eq_refl).
    unfold bct_same. apply memcmp_eq_iff.
    cbn [contentbuf slotbuf set_slotbuf]. rewrite <- Hb, R.
    rewrite skipn_app, peek_length.
    replace (Z.to_nat off - Z.to_nat (partsize_of p))%nat with 0%nat by lia.
    cbn [skipn]. rewrite skipn_peek by lia.
    rewrite firstn_app, peek_length.
    replace (Z.to_nat (ent_length ent)
             - (Z.to_nat (partsize_of p) - Z.to_nat off))%nat
      with 0%nat by lia.
    cbn [firstn]. rewrite app_nil_r, firstn_peek by lia.
    f_equal. lia. }
  assert (T : exists evs, w_trace w2 = w_trace w1 ++ evs).
  { unfold update_bct in U.
    destruct (soc_eqb (soctype (set_slotbuf sb g)) TEGRA_SOCTYPE_210);
      [injection U as <- <- <-; exists []; now rewrite app_nil_r|].
    match type of U with
    | (if ?c then _ else _) = _ =>
        destruct c;
        [injection U as <- <- <-; exists []; now rewrite app_nil_r|]
    end.
    match type of U with
    | context [update_bct_loop ?a ?b ?c ?d ?e ?f ?h] =>
        pose proof (update_bct_loop_touches a b c d e f h) as T;
        destruct (update_bct_loop a b c d e f h) as [r1 w3]
    end.
    cbn [snd] in T. destruct T as ((evs & Ht & _) & _).
    destruct (r1 <? 0); injection U as <- <- <-.
    - eauto.
    - exists (evs ++ [EvFsync bootfd]). cbn. now rewrite Ht, <- app_assoc. }
  destruct T as (evs & Ht). destruct L as [(e1 & Ht1 & _) _].
  destruct Hsame as [HW HC].
  rewrite (new_events_app w1 w2 evs Ht) in HW, HC.
  rewrite (new_events_app w w1 e1 Ht1) in C1, W1.
  rewrite (new_events_app w w2 (e1 ++ evs))
    by (now rewrite Ht, Ht1, <- app_assoc).
  now rewrite writes_in_app, write_calls_app, HW, HC, C1, W1.
Qed.

End SkipLemmas.

(** C4 (as amended): for an entry that targets a GPT partition and is
    not the BCT, the partition's current contents are compared to the
    payload and the write is skipped when they are equal; so processing
    the entry again right after it was processed with success writes
    nothing.  A BCT entry is compared, place by place, only when not
    initializing (on tegra186/tegra194): then nothing is written when the
    three places hold the new BCT. *)
Theorem second_run_skips_equal_partitions (X : externals) :
  (forall (g : globals) (bootfd gptfd : Z) (ent : update_entry_s)
          (p : gpt_entry_t) (initialize : Z) (bctctx : option Z) (w : world)
          (r : Z) (b : option Z) (g' : globals) (w' : world),
      maybe_update_bootpart X g bootfd gptfd ent p false initialize bctctx w
      = (r, b, g', w') ->
      device_bytes w (part_fd g bootfd gptfd p) (part_offset g p)
                   (ent_length ent)
      = Some (firstn (Z.to_nat (ent_length ent)) (contentbuf g)) ->
      writes_in (new_events w w') = [] /\ write_calls (new_events w w') = [])
  /\ (forall (g : globals) (bootfd gptfd : Z) (ent : update_entry_s)
             (p : gpt_entry_t) (initialize : Z) (bctctx : option Z)
             (w : world) (b1 : option Z) (g1 : globals) (w1 : world)
             (r2 : Z) (b2 : option Z) (g2 : globals) (w2 : world),
         (Z.to_nat (ent_length ent) <= List.length (contentbuf g))%nat ->
         (Z.to_nat (partsize_of p) <= List.length (zerobuf g))%nat ->
         maybe_update_bootpart X g bootfd gptfd ent p false initialize bctctx w
         = (0, b1, g1, w1) ->
         maybe_update_bootpart X g1 bootfd gptfd ent p false initialize bctctx w1
         = (r2, b2, g2, w2) ->
         writes_in (new_events w1 w2) = []
         /\ write_calls (new_events w1 w2) = [])
  /\ (forall (g : globals) (bootfd gptfd : Z) (ent : update_entry_s)
             (p : gpt_entry_t) (bctctx : option Z) (w : world)
             (r : Z) (b : option Z) (g' : globals) (w' : world),
         maybe_update_bootpart X g bootfd gptfd ent p true 0 bctctx w
         = (r, b, g', w') ->
         soc_eqb (soctype g) TEGRA_SOCTYPE_210 = false ->
         0 <= ent_length ent ->
         (forall off, In off (update_bct_offsets g ent) ->
            0 <= off /\ off + ent_length ent <= partsize_of p
            /\ device_bytes w (part_fd g bootfd gptfd p)
                            (part_offset g p + off) (ent_length ent)
               = Some (firstn (Z.to_nat (ent_length ent)) (contentbuf g))) ->
         writes_in (new_events w w') = []
         /\ write_calls (new_events w w') = []).
Proof.
  split; [|split].
  - intros g bootfd gptfd ent p initialize bctctx w r b g' w' H Hdev.
    pose proof (maybe_update_bootpart_skip X _ _ _ _ _ _ _ _ _ _ _ _ H Hdev) as L.
    destruct (looks_no_writes _ _ L) as (C & W & _). now split.
  - intros g bootfd gptfd ent p initialize bctctx w b1 g1 w1 r2 b2 g2 w2
           Lc Lz H1 H2.
    destruct (maybe_update_bootpart_holds X _ _ _ _ _ _ _ _ _ _ _ _ H1
                eq_refl Lc Lz) as (Hdev & sb & ->).
    pose proof (maybe_update_bootpart_skip X _ _ _ _ _ _ _ _ _ _ _ _ H2 Hdev)
      as L.
    destruct (looks_no_writes _ _ L) as (C & W & _). now split.
  - intros. eapply maybe_update_bootpart_bct_skip; eassumption.
Qed.

Lemma second_run_skips_equal_partitions_witness :
  (Z.to_nat (ent_length sector_entry)
   <= List.length (contentbuf sector_globals))%nat
  /\ (Z.to_nat (partsize_of (mkGptEntry 0 0))
      <= List.length (zerobuf sector_globals))%nat
  /\ (let first := maybe_update_bootpart sample_ext sector_globals 3 4
                     sector_entry (mkGptEntry 0 0) false 0 None
                     (sector_world []) in
      let second := maybe_update_bootpart sample_ext (snd (fst first)) 3 4
                      sector_entry (mkGptEntry 0 0) false 0 None (snd first) in
      fst (fst (fst first)) = 0
      /\ write_calls (new_events (sector_world []) (snd first)) = [(3, 0)]
      /\ writes_in (new_events (snd first) (snd second)) = []
      /\ write_calls (new_events (snd first) (snd second)) = []).
Proof.
  assert (Lc : (Z.to_nat (ent_length sector_entry)
                <= List.length (contentbuf sector_globals))%nat)
    by (vm_compute; lia).
  assert (Lz : (Z.to_nat (partsize_of (mkGptEntry 0 0))
                <= List.length (zerobuf sector_globals))%nat)
    by (vm_compute; lia).
  split; [exact Lc|]. split; [exact Lz|]. cbv zeta.
  assert (Hr : fst (fst (fst (maybe_update_bootpart sample_ext sector_globals
                               3 4 sector_entry (mkGptEntry 0 0) false 0 None
                               (sector_world [])))) = 0)
    by (vm_compute; reflexivity).
  split; [exact Hr|]. split; [vm_compute; reflexivity|].
  destruct (maybe_update_bootpart sample_ext sector_globals 3 4 sector_entry
              (mkGptEntry 0 0) false 0 None (sector_world []))
    as [[[r1 b1] g1] w1] eqn:E1.
  cbn [fst snd] in Hr |- *. subst r1.
  destruct (maybe_update_bootpart sample_ext g1 3 4 sector_entry
              (mkGptEntry 0 0) false 0 None w1) as [[[r2 b2] g2] w2] eqn:E2.
  cbn [fst snd].
  destruct (second_run_skips_equal_partitions sample_ext) as (_ & B & _).
  exact (B _ _ _ _ _ _ _ _ _ _ _ _ _ _ _ Lc Lz E1 E2).
Defined.

(** C4, the claim as stated fails: not every target is compared.  On
    tegra210 ([initialize] is never 0 there) a second pass over the BCT
    entry writes the copy again over equal contents; and an entry that
    targets a device node is written on every run, without a read. *)
Lemma second_run_writes_again :
  (let first := process_entry sample_ext (t210_payload, 0) t210_globals 3 4
                  t210_bct_entry false 1 (Some (-1)) t210_world in
   let second := process_entry sample_ext (t210_payload, 0) t210_globals 3 4
                   t210_bct_entry false 1 (Some (-1)) (snd first) in
   fst (fst (fst (fst first))) = 0
   /\ device_bytes (snd first) 3 0 512 = Some t210_payload
   /\ fst (fst (fst (fst second))) = 0
   /\ write_calls (new_events (snd first) (snd second)) = [(3, 0)]
   /\ writes_in (new_events (snd first) (snd second))
      = [EvWrite 3 0 (zeros 512); EvWrite 3 0 t210_payload])
  /\ (let first := process_entry sample_ext (sample_payload, 0) small_globals
                     3 4 (node_entry 4) false 0 None (small_world []) in
      let second := process_entry sample_ext (sample_payload, 0) small_globals
                      3 4 (node_entry 4) false 0 None (snd first) in
      fst (fst (fst (fst first))) = 0
      /\ device_bytes (snd first) 5 0 4 = Some sample_payload
      /\ fst (fst (fst (fst second))) = 0
      /\ writes_in (new_events (snd first) (snd second))
         = [EvWrite 5 0 (zeros 4); EvWrite 5 0 sample_payload]).
Proof. cbv zeta. repeat split; vm_compute; reflexivity. Qed.

(** C6, the code at the failing input: an entry that targets a device
    node of 4 bytes with a payload of 8 bytes.  [process_entry] makes no
    test of the payload length against the size it has just obtained by
    seeking to the end: it erases the 4 bytes, writes the first 4 bytes
    of the payload over them and fails only when the device is full. *)
Theorem device_node_written_before_size_is_known_to_fit :
  let run := process_entry sample_ext (long_payload, 0) small_globals 3 4
               (node_entry 8) false 0 None (small_world []) in
  ent_length (node_entry 8) = 8
  /\ device_bytes (small_world []) 5 0 4 = Some [xff; xff; xff; xff]
  /\ pe_ret run = -1
  /\ new_events (small_world []) (pe_world run)
     = [EvProcess "kernel"; EvOpen "/dev/disk/by-partlabel/kernel" 5;
        EvLseek 5 4; EvLseek 5 0; EvWriteAt 5 0 8 4; EvLseek 5 0;
        EvWrite 5 0 (zeros 4); EvFsync 5; EvLseek 5 0;
        EvWrite 5 0 sample_payload; EvClose 5]
  /\ device_bytes (pe_world run) 5 0 4 = Some sample_payload.
Proof. cbv zeta. repeat split; vm_compute; reflexivity. Qed.

(** C1, the code at the failing input: a tegra210 BCT partition smaller
    than one block, so that [bctcount] is 0.  The three calls for the BCT
    entry ([*which] = -1, 1, 0) all return 0; the first one runs its loop
    once with [bctidx = -1] and writes at offset [(unsigned) -1 * 16384 =
    4294950912] of the partition, the last one writes at offset 0. *)
Theorem update_bct_t210_small_partition :
  let run1 := process_entry sample_ext (t210_payload, 0) tiny_bct_globals 3 4
                tiny_bct_entry false 1 (Some (-1)) tiny_bct_world in
  let run2 := process_entry sample_ext (t210_payload, 0) tiny_bct_globals 3 4
                tiny_bct_entry false 1 (pe_which run1) (pe_world run1) in
  let run3 := process_entry sample_ext (t210_payload, 0) tiny_bct_globals 3 4
                tiny_bct_entry false 1 (pe_which run2) (pe_world run2) in
  bctcount_of (bct_block_size tiny_bct_globals) tiny_bct_entry = 0
  /\ (pe_ret run1, pe_ret run2, pe_ret run3) = (0, 0, 0)
  /\ (pe_which run1, pe_which run2, pe_which run3)
     = (Some 1, Some 0, Some (-1))
  /\ write_calls (new_events tiny_bct_world (pe_world run3))
     = [(3, 4294950912); (3, 0)]
  /\ writes_in (new_events tiny_bct_world (pe_world run1))
     = [EvWrite 3 4294950912 (zeros 512); EvWrite 3 4294950912 t210_payload].
Proof. cbv zeta. repeat split; vm_compute; reflexivity. Qed.

(** ** The version gate *)

Section GateLemmas.

Variable X : externals.

Lemma bup_read_content_globals (ctx : bup_context X) (g : globals) (len : Z) :
  exists cb, snd (fst (bup_read_content X ctx g len)) = set_contentbuf cb g.
Proof.
  unfold bup_read_content.
  destruct (bup_read_loop X _ ctx (contentbuf g) (contentbuf_size g) len 0)
    as [[[r cb] ctx1]|]; cbn [fst snd]; [eauto|].
  exists (contentbuf g). now destruct g.
Qed.

Lemma gate_bup_verinfo_globals (ctx : bup_context X) (g : globals)
  (ver0 : update_entry_s) :
  exists cb, snd (gate_bup_verinfo X ctx g ver0) = set_contentbuf cb g.
Proof.
  unfold gate_bup_verinfo.
  destruct (bup_setpos X ctx (bup_offset ver0)) as [sp ctx1].
  destruct (sp =? -1); cbn [snd];
    [exists (contentbuf g); now destruct g|].
  destruct (bup_read_content_globals ctx1 g (ent_length ver0)) as [cb Hcb].
  destruct (bup_read_content X ctx1 g (ent_length ver0)) as [[rr g1] ctx2].
  cbn [fst snd] in Hcb. subst g1.
  destruct (rr <? 0); cbn [snd]; eauto.
Qed.

Lemma nvc_read_crc_looks (g : globals) (bootfd gptfd : Z) (p : gpt_entry_t)
  (w : world) :
  looks w (snd (nvc_read_crc X g bootfd gptfd p w)).
Proof.
  unfold nvc_read_crc.
  match goal with
  | |- context [read_completely_at ?fd ?buf ?n ?off w] =>
      pose proof (read_completely_at_looks fd buf n off w) as L;
      destruct (read_completely_at fd buf n off w) as [[r sb] w1]
  end.
  cbn [snd] in L. now destruct (r <? 0).
Qed.

Lemma nvc_parts_match_looks (g : globals) (bootfd gptfd : Z)
  (nvc0 nvc1 : option update_entry_s) (w : world) :
  looks w (snd (nvc_parts_match X g bootfd gptfd nvc0 nvc1 w)).
Proof.
  unfold nvc_parts_match.
  destruct nvc0 as [e0|]; [|apply looks_refl].
  destruct nvc1 as [e1|]; [|apply looks_refl].
  destruct (part e0) as [p0|]; [|apply looks_refl].
  destruct (part e1) as [p1|]; [|apply looks_refl].
  pose proof (nvc_read_crc_looks g bootfd gptfd p0 w) as L0.
  destruct (nvc_read_crc X g bootfd gptfd p0 w) as [[c0 g1] w1].
  cbn [snd] in L0. destruct c0 as [crc0|]; [|exact L0].
  pose proof (nvc_read_crc_looks g1 bootfd gptfd p1 w1) as L1.
  destruct (nvc_read_crc X g1 bootfd gptfd p1 w1) as [[c1 g2] w2].
  cbn [snd] in L1.
  destruct c1; cbn [snd]; eapply looks_trans; eassumption.
Qed.

Lemma gate_read_ver_looks (g : globals) (bootfd gptfd : Z)
  (v : option update_entry_s) (w : world) :
  looks w (snd (gate_read_ver X g bootfd gptfd v w)).
Proof.
  unfold gate_read_ver. destruct v as [e|]; [|apply looks_refl].
  destruct (part e) as [p|]; [|apply looks_refl].
  match goal with
  | |- context [read_completely_at ?fd ?buf ?n ?off w] =>
      pose proof (read_completely_at_looks fd buf n off w) as L;
      destruct (read_completely_at fd buf n off w) as [[r sb] w1]
  end.
  cbn [snd] in L. destruct (r <? 0); [exact L|].
  now destruct (ver_extract_info X _).
Qed.

Lemma gate_decide_looks (g : globals) (bootfd gptfd : Z) (vars : gate_vars)
  (v0 v1 b : ver_info_s) (force : bool) (w : world) :
  looks w (snd (gate_decide X g bootfd gptfd vars v0 v1 b force w)).
Proof.
  unfold gate_decide.
  destruct ((bsp_version v0 =? bsp_version v1) && negb (bsp_version v0 =? 0)).
  - destruct (bsp_version v0 >? bsp_version b); [apply looks_refl|].
    destruct (crc v0 =? crc v1); [|apply looks_refl].
    pose proof (nvc_parts_match_looks g bootfd gptfd (gv_nvc0 vars)
                  (gv_nvc1 vars) w) as L.
    destruct (nvc_parts_match X g bootfd gptfd (gv_nvc0 vars) (gv_nvc1 vars) w)
      as [[m g1] w1].
    cbn [snd] in L. now destruct (negb m).
  - repeat match goal with
           | |- context [if ?c then _ else _] => destruct c
           end; apply looks_refl.
Qed.

(** The version gate writes nothing and processes nothing. *)
Lemma invalid_version_or_downgrade_looks (ctx : bup_context X) (g : globals)
  (bootfd gptfd : Z) (entry_list : list update_entry_s) (force : bool)
  (w : world) :
  looks w (snd (invalid_version_or_downgrade X ctx g bootfd gptfd entry_list
                                             force w)).
Proof.
  unfold invalid_version_or_downgrade.
  destruct (gv_ver0 (gate_scan g entry_list)) as [ver0|]; [|apply looks_refl].
  destruct (gate_bup_verinfo X ctx g ver0) as [[bv ctx2] g1].
  destruct bv as [b|]; [|apply looks_refl].
  pose proof (gate_read_ver_looks g1 bootfd gptfd (Some ver0) w) as L0.
  destruct (gate_read_ver X g1 bootfd gptfd (Some ver0) w) as [[i0 g2] w1].
  cbn [snd] in L0. destruct i0 as [v0|]; [|exact L0].
  pose proof (gate_read_ver_looks g2 bootfd gptfd
                (gv_ver1 (gate_scan g entry_list)) w1) as L1.
  destruct (gate_read_ver X g2 bootfd gptfd (gv_ver1 (gate_scan g entry_list)) w1)
    as [[i1 g3] w2].
  cbn [snd] in L1.
  destruct i1 as [v1|]; [|eapply looks_trans; eassumption].
  pose proof (gate_decide_looks g3 bootfd gptfd (gate_scan g entry_list)
                v0 v1 b force w2) as L2.
  destruct (gate_decide X g3 bootfd gptfd (gate_scan g entry_list) v0 v1 b
                        force w2) as [[rej g4] w3].
  cbn [snd] in L2 |- *.
  eapply looks_trans; [exact L0|]. eapply looks_trans; eassumption.
Qed.

(** Reading a VER partition that parses gives its version info, or
    fails. *)
Lemma gate_read_ver_parses (g : globals) (bootfd gptfd : Z)
  (e : update_entry_s) (p : gpt_entry_t) (v : ver_info_s) (w : world)
  (i : option ver_info_s) (g' : globals) (w' : world) :
  part e = Some p -> partition_parses X g bootfd gptfd w p v ->
  gate_read_ver X g bootfd gptfd (Some e) w = (i, g', w') ->
  (i = None \/ i = Some v) /\ (exists sb, g' = set_slotbuf sb g).
Proof.
  unfold gate_read_ver. intros Hp (d & Hd & Hv) H. rewrite Hp in H.
  match type of H with
  | context [read_completely_at ?fd ?buf ?n ?off w] =>
      pose proof (read_completely_at_ok fd buf n off w) as R;
      destruct (read_completely_at fd buf n off w) as [[r sb] w1]
  end.
  specialize (R r sb w1 d eq_refl).
  destruct (r <? 0); [injection H as <- <- <-; eauto|].
  rewrite (R eq_refl Hd) in H.
  rewrite firstn_app, peek_length, Nat.sub_diag in H. cbn [firstn] in H.
  rewrite app_nil_r, firstn_all2 in H by (rewrite peek_length; lia).
  rewrite Hv in H. injection H as <- <- <-. eauto.
Qed.

Lemma partition_parses_later (g g' : globals) (bootfd gptfd : Z)
  (w w' : world) (p : gpt_entry_t) (v : ver_info_s) :
  bootdev_size g' = bootdev_size g -> same_devices w w' ->
  partition_parses X g bootfd gptfd w p v ->
  partition_parses X g' bootfd gptfd w' p v.
Proof.
  intros Hb SD (d & Hd & Hv).
  unfold partition_parses, part_fd, part_offset, part_past in *.
  rewrite Hb.
  destruct (same_devices_dev w w' _ d SD Hd) as (d' & Hd' & _ & Dt).
  exists d'. split; [exact Hd'|]. rewrite <- Hv. f_equal.
  apply peek_ext. exact Dt.
Qed.

(** The first row of the decision: equal valid versions above the
    version of the package. *)
Lemma gate_decide_rollback (g : globals) (bootfd gptfd : Z) (vars : gate_vars)
  (v0 v1 b : ver_info_s) (force : bool) (w : world) :
  bsp_version v0 = bsp_version v1 -> bsp_version v0 <> 0 ->
  bsp_version b < bsp_version v0 ->
  gate_decide X g bootfd gptfd vars v0 v1 b force w = (true, g, w).
Proof.
  intros He Hn Hb. unfold gate_decide.
  rewrite He, Z.eqb_refl. rewrite <- He.
  rewrite (proj2 (Z.eqb_neq _ _) Hn). cbn [negb andb].
  now rewrite gtb_true by assumption.
Qed.

(** The gate refuses a rollback, whatever else happens on its way. *)
Lemma invalid_version_or_downgrade_rollback (ctx : bup_context X)
  (g : globals) (bootfd gptfd : Z) (entry_list : list update_entry_s)
  (force : bool) (w : world) (e0 e1 : update_entry_s) (p0 p1 : gpt_entry_t)
  (v0 v1 : ver_info_s) :
  gv_ver0 (gate_scan g entry_list) = Some e0 -> part e0 = Some p0 ->
  gv_ver1 (gate_scan g entry_list) = Some e1 -> part e1 = Some p1 ->
  partition_parses X g bootfd gptfd w p0 v0 ->
  partition_parses X g bootfd gptfd w p1 v1 ->
  bsp_version v0 = bsp_version v1 -> bsp_version v0 <> 0 ->
  (forall b ctx' g', gate_bup_verinfo X ctx g e0 = (Some b, ctx', g') ->
                     bsp_version b < bsp_version v0) ->
  fst (fst (fst (invalid_version_or_downgrade X ctx g bootfd gptfd entry_list
                                              force w))) = true.
Proof.
  intros H0 Hp0 H1 Hp1 P0 P1 He Hn Hb.
  unfold invalid_version_or_downgrade. rewrite H0, H1.
  destruct (gate_bup_verinfo_globals ctx g e0) as [cb Hcb].
  destruct (gate_bup_verinfo X ctx g e0) as [[bv ctx2] g1] eqn:B.
  cbn [snd] in Hcb. subst g1.
  destruct bv as [b|]; [|reflexivity].
  specialize (Hb b _ _ eq_refl).
  assert (P0' : partition_parses X (set_contentbuf cb g) bootfd gptfd w p0 v0)
    by (eapply partition_parses_later; [reflexivity|apply same_devices_refl|exact P0]).
  pose proof (gate_read_ver_looks (set_contentbuf cb g) bootfd gptfd (Some e0) w)
    as L0.
  destruct (gate_read_ver X (set_contentbuf cb g) bootfd gptfd (Some e0) w)
    as [[i0 g2] w1] eqn:R0.
  cbn [snd] in L0.
  destruct (gate_read_ver_parses _ _ _ _ _ _ _ _ _ _ Hp0 P0' R0)
    as ([->| ->] & sb & ->); [reflexivity|].
  assert (P1' : partition_parses X (set_slotbuf sb (set_contentbuf cb g))
                                 bootfd gptfd w1 p1 v1)
    by (eapply partition_parses_later; [reflexivity|apply L0|exact P1]).
  destruct (gate_read_ver X (set_slotbuf sb (set_contentbuf cb g)) bootfd gptfd
                          (Some e1) w1) as [[i1 g3] w2] eqn:R1.
  destruct (gate_read_ver_parses _ _ _ _ _ _ _ _ _ _ Hp1 P1' R1)
    as ([->| ->] & sb' & ->); [reflexivity|].
  now rewrite gate_decide_rollback.
Qed.

End GateLemmas.

(** ** Claim C3 *)

(** C3: on tegra210, when the two VER partitions in the plan parse to
    the same BSP version [v0 = v1 <> 0] and the version [b] read from
    the package is smaller, [invalid_version_or_downgrade] answers
    [true] and the run from the version check on ends with [ret = 1]:
    [process_entry] is never entered, [write_completely_at] is never
    called, no [write] is made, and every device holds the bytes it
    held. *)
Theorem rollback_is_refused (X : externals) (env : main_env X)
  (ctx : bup_context X) (g : globals) (fd gptfd : Z)
  (slot_specified dryrun : bool) (initialize curslot : Z) (p : plan)
  (w : world) (e0 e1 : update_entry_s) (p0 p1 : gpt_entry_t)
  (v0 v1 b : ver_info_s) :
  soctype g = TEGRA_SOCTYPE_210 ->
  gv_ver0 (gate_scan g (redundant_entries p)) = Some e0 -> part e0 = Some p0 ->
  gv_ver1 (gate_scan g (redundant_entries p)) = Some e1 -> part e1 = Some p1 ->
  partition_parses X g fd gptfd w p0 v0 ->
  partition_parses X g fd gptfd w p1 v1 ->
  fst (fst (gate_bup_verinfo X ctx g e0)) = Some b ->
  bsp_version v0 = bsp_version v1 -> bsp_version v0 <> 0 ->
  bsp_version b < bsp_version v0 ->
  fst (fst (fst (invalid_version_or_downgrade X ctx g fd gptfd
                   (redundant_entries p) (initialize >? 1) w))) = true
  /\ exists w',
       main_execute X env ctx g fd gptfd slot_specified dryrun initialize
                    curslot p w = Exited 1 w'
       /\ processed_in (new_events w w') = []
       /\ write_calls (new_events w w') = []
       /\ writes_in (new_events w w') = []
       /\ same_devices w w'.
Proof.
  intros Hs H0 Hp0 H1 Hp1 P0 P1 Hb He Hn Hlt.
  assert (R : fst (fst (fst (invalid_version_or_downgrade X ctx g fd gptfd
                   (redundant_entries p) (initialize >? 1) w))) = true).
  { apply (invalid_version_or_downgrade_rollback X ctx g fd gptfd
             (redundant_entries p) (initialize >? 1) w e0 e1 p0 p1 v0 v1);
      try assumption.
    intros b' ctx' g' Hg. rewrite Hg in Hb. cbn [fst] in Hb.
    injection Hb as ->. exact Hlt. }
  split; [exact R|].
  pose proof (invalid_version_or_downgrade_looks X ctx g fd gptfd
                (redundant_entries p) (initialize >? 1) w) as L.
  unfold main_execute. rewrite Hs. cbn [soc_eqb].
  destruct (invalid_version_or_downgrade X ctx g fd gptfd
              (redundant_entries p) (initialize >? 1) w)
    as [[[rej ctx1] g1] w1].
  cbn [fst snd] in R, L. subst rej.
  exists w1. split; [reflexivity|].
  destruct (looks_no_writes w w1 L) as (C & W & P).
  split; [exact P|]. split; [exact C|]. split; [exact W|]. exact (proj2 L).
Qed.

Lemma rollback_is_refused_witness :
  fst (fst (fst (invalid_version_or_downgrade sample_ext ver_package
                   ver_globals 3 4 (redundant_entries ver_plan) (0 >? 1)
                   ver_world))) = true
  /\ exists w',
       main_execute sample_ext (slot_env TEGRA_SOCTYPE_210 0 0)
         ver_package ver_globals 3 4 false false 0 0 ver_plan ver_world
       = Exited 1 w'
       /\ processed_in (new_events ver_world w') = []
       /\ write_calls (new_events ver_world w') = []
       /\ writes_in (new_events ver_world w') = []
       /\ same_devices ver_world w'.
Proof.
  apply (rollback_is_refused sample_ext _ ver_package ver_globals 3 4 false
           false 0 0 ver_plan ver_world ver_entry ver_b_entry
           (mkGptEntry 0 0) (mkGptEntry 1 1) (mkVerInfo 5 5) (mkVerInfo 5 5)
           (mkVerInfo 3 0));
    try reflexivity; try discriminate.
  - exists (sample_device 16384 x05). split; vm_compute; reflexivity.
  - exists (sample_device 16384 x05). split; vm_compute; reflexivity.
Defined.

(** ** Claim C8 *)

Section CommitLemmas.

Variable X : externals.

(** A failure of [smd_slot_mark_active] is mapped to 1. *)
Lemma main_commit_mark_active_fails (env : main_env X) (initialize curslot : Z)
  (w : world) :
  smd_slot_mark_active X env
    (u32 (if negb (initialize =? 0) then 0 else 1 - curslot)) < 0 ->
  fst (main_commit X env false false initialize curslot w) = 1.
Proof.
  intros H. unfold main_commit. cbn [negb].
  apply Z.ltb_lt in H. now rewrite H.
Qed.

(** A failure of [smd_update] is not: the result of the commit is 0
    whatever [smd_update] answers. *)
Lemma main_commit_ignores_smd_update (env : main_env X)
  (initialize curslot : Z) (w : world) :
  0 <= smd_slot_mark_active X env
         (u32 (if negb (initialize =? 0) then 0 else 1 - curslot)) ->
  main_commit X env false false initialize curslot w
  = (0, log (EvSmdUpdate initialize)
          (log (EvSmdMarkActive
                  (u32 (if negb (initialize =? 0) then 0 else 1 - curslot)))
               w)).
Proof.
  intros H. unfold main_commit. cbn [negb].
  apply Z.ltb_ge in H. rewrite H.
  now destruct (smd_update X env initialize <? 0).
Qed.

End CommitLemmas.

(** C8: the run of [main] on tegra186 with no option but the path of
    the package, current slot 0, one entry [cboot] to update, every call
    into the other modules successful but [smd_update], which returns
    -1: the payload is written to [cboot_b], slot 1 is marked active,
    [smd_update] is called and fails, and [main] returns 0.  The same
    run with a successful [smd_update] returns 0 as well. *)
Theorem smd_update_failure_exits_0 :
  let failing := main sample_ext slot_options
                      (slot_env TEGRA_SOCTYPE_186 0 (-1)) slot_world in
  let passing := main sample_ext slot_options
                      (slot_env TEGRA_SOCTYPE_186 0 0) slot_world in
  smd_update sample_ext (slot_env TEGRA_SOCTYPE_186 0 (-1)) 0 = -1
  /\ exit_status failing = Some 0
  /\ filter is_smd_event (run_trace failing)
     = [EvSmdMarkActive 1; EvSmdUpdate 0]
  /\ processed_in (run_trace failing) = ["cboot_b"]
  /\ write_calls (run_trace failing) = [(3, 512)]
  /\ exit_status passing = Some 0.
Proof. cbv zeta. repeat split; vm_compute; reflexivity. Qed.

(** ** Claim C7 *)

Lemma same_platform_refl (g : globals) : same_platform g g.
Proof. now repeat split. Qed.

Lemma same_platform_trans (g1 g2 g3 : globals) :
  same_platform g1 g2 -> same_platform g2 g3 -> same_platform g1 g3.
Proof.
  intros (A1 & B1 & C1) (A2 & B2 & C2).
  repeat split; congruence.
Qed.

Lemma same_platform_slotbuf (g : globals) (sb : list byte) :
  same_platform g (set_slotbuf sb g).
Proof. now repeat split. Qed.

Lemma same_platform_contentbuf (g : globals) (cb : list byte) :
  same_platform g (set_contentbuf cb g).
Proof. now repeat split. Qed.

Lemma slotbuf_only_refl (g : globals) : slotbuf_only g g.
Proof. now repeat split. Qed.

Lemma slotbuf_only_trans (g1 g2 g3 : globals) :
  slotbuf_only g1 g2 -> slotbuf_only g2 g3 -> slotbuf_only g1 g3.
Proof.
  intros [P1 [A1 B1]] [P2 [A2 B2]]. split.
  - eapply same_platform_trans; eassumption.
  - split; congruence.
Qed.

Lemma slotbuf_only_slotbuf (g : globals) (sb : list byte) :
  slotbuf_only g (set_slotbuf sb g).
Proof. now repeat split. Qed.

Section PlatformLemmas.

Variable X : externals.

Lemma nvc_read_crc_slotbuf_only (g : globals) (bootfd gptfd : Z) (p : gpt_entry_t)
  (w : world) :
  slotbuf_only g (snd (fst (nvc_read_crc X g bootfd gptfd p w))).
Proof.
  unfold nvc_read_crc.
  match goal with
  | |- context [read_completely_at ?fd ?buf ?n ?off w] =>
      destruct (read_completely_at fd buf n off w) as [[r sb] w1]
  end.
  destruct (r <? 0); cbn [fst snd]; apply slotbuf_only_slotbuf.
Qed.

Lemma nvc_parts_match_slotbuf_only (g : globals) (bootfd gptfd : Z)
  (nvc0 nvc1 : option update_entry_s) (w : world) :
  slotbuf_only g (snd (fst (nvc_parts_match X g bootfd gptfd nvc0 nvc1 w))).
Proof.
  unfold nvc_parts_match.
  destruct nvc0 as [e0|]; [|apply slotbuf_only_refl].
  destruct nvc1 as [e1|]; [|apply slotbuf_only_refl].
  destruct (part e0) as [p0|]; [|apply slotbuf_only_refl].
  destruct (part e1) as [p1|]; [|apply slotbuf_only_refl].
  pose proof (nvc_read_crc_slotbuf_only g bootfd gptfd p0 w) as L0.
  destruct (nvc_read_crc X g bootfd gptfd p0 w) as [[c0 g1] w1].
  cbn [fst snd] in L0. destruct c0 as [crc0|]; [|exact L0].
  pose proof (nvc_read_crc_slotbuf_only g1 bootfd gptfd p1 w1) as L1.
  destruct (nvc_read_crc X g1 bootfd gptfd p1 w1) as [[c1 g2] w2].
  cbn [fst snd] in L1.
  destruct c1; cbn [fst snd]; eapply slotbuf_only_trans; eassumption.
Qed.

Lemma gate_read_ver_slotbuf_only (g : globals) (bootfd gptfd : Z)
  (v : option update_entry_s) (w : world) :
  slotbuf_only g (snd (fst (gate_read_ver X g bootfd gptfd v w))).
Proof.
  unfold gate_read_ver. destruct v as [e|]; [|apply slotbuf_only_refl].
  destruct (part e) as [p|]; [|apply slotbuf_only_refl].
  match goal with
  | |- context [read_completely_at ?fd ?buf ?n ?off w] =>
      destruct (read_completely_at fd buf n off w) as [[r sb] w1]
  end.
  destruct (r <? 0); [apply slotbuf_only_slotbuf|].
  destruct (ver_extract_info X _); apply slotbuf_only_slotbuf.
Qed.

Lemma gate_decide_slotbuf_only (g : globals) (bootfd gptfd : Z) (vars : gate_vars)
  (v0 v1 b : ver_info_s) (force : bool) (w : world) :
  slotbuf_only g (snd (fst (gate_decide X g bootfd gptfd vars v0 v1 b force w))).
Proof.
  unfold gate_decide.
  destruct ((bsp_version v0 =? bsp_version v1) && negb (bsp_version v0 =? 0)).
  - destruct (bsp_version v0 >? bsp_version b); [apply slotbuf_only_refl|].
    destruct (crc v0 =? crc v1); [|apply slotbuf_only_refl].
    pose proof (nvc_parts_match_slotbuf_only g bootfd gptfd (gv_nvc0 vars)
                  (gv_nvc1 vars) w) as L.
    destruct (nvc_parts_match X g bootfd gptfd (gv_nvc0 vars) (gv_nvc1 vars) w)
      as [[m g1] w1].
    cbn [fst snd] in L. now destruct (negb m).
  - repeat match goal with
           | |- context [if ?c then _ else _] => destruct c
           end; apply slotbuf_only_refl.
Qed.

(** The version gate leaves the platform as it found it. *)
Lemma invalid_version_or_downgrade_platform (ctx : bup_context X)
  (g : globals) (bootfd gptfd : Z) (entry_list : list update_entry_s)
  (force : bool) (w : world) :
  same_platform g
    (snd (fst (invalid_version_or_downgrade X ctx g bootfd gptfd entry_list
                                            force w))).
Proof.
  unfold invalid_version_or_downgrade.
  destruct (gv_ver0 (gate_scan g entry_list)) as [ver0|];
    [|apply same_platform_refl].
  destruct (gate_bup_verinfo_globals X ctx g ver0) as [cb Hcb].
  destruct (gate_bup_verinfo X ctx g ver0) as [[bv ctx2] g1].
  cbn [snd] in Hcb. subst g1.
  destruct bv as [b|]; [|apply same_platform_contentbuf].
  pose proof (gate_read_ver_slotbuf_only (set_contentbuf cb g) bootfd gptfd
                (Some ver0) w) as [L0 _].
  destruct (gate_read_ver X (set_contentbuf cb g) bootfd gptfd (Some ver0) w)
    as [[i0 g2] w1].
  cbn [fst snd] in L0.
  assert (L0' : same_platform g g2)
    by (eapply same_platform_trans; [apply same_platform_contentbuf|exact L0]).
  destruct i0 as [v0|]; [|exact L0'].
  pose proof (gate_read_ver_slotbuf_only g2 bootfd gptfd
                (gv_ver1 (gate_scan g entry_list)) w1) as [L1 _].
  destruct (gate_read_ver X g2 bootfd gptfd (gv_ver1 (gate_scan g entry_list)) w1)
    as [[i1 g3] w2].
  cbn [fst snd] in L1.
  destruct i1 as [v1|]; [|eapply same_platform_trans; eassumption].
  pose proof (gate_decide_slotbuf_only g3 bootfd gptfd (gate_scan g entry_list)
                v0 v1 b force w2) as [L2 _].
  destruct (gate_decide X g3 bootfd gptfd (gate_scan g entry_list) v0 v1 b
                        force w2) as [[rej g4] w3].
  cbn [fst snd] in L2 |- *.
  eapply same_platform_trans; [exact L0'|].
  eapply same_platform_trans; eassumption.
Qed.

(** A run on tegra210 whose update tasks lack a template name that is
    not an EKS name ends with [ret = 1] before any task is processed. *)
Lemma main_execute_t210_fatal (env : main_env X) (ctx : bup_context X)
  (g : globals) (fd gptfd : Z) (slot_specified dryrun : bool)
  (initialize curslot : Z) (p : plan) (w : world) (name : string) :
  soctype g = TEGRA_SOCTYPE_210 ->
  In name (t210_update_list g) ->
  has_name (redundant_entries p) name = false -> is_eks name = false ->
  exists w',
    main_execute X env ctx g fd gptfd slot_specified dryrun initialize
                 curslot p w = Exited 1 w'
    /\ processed_in (new_events w w') = []
    /\ write_calls (new_events w w') = []
    /\ writes_in (new_events w w') = [].
Proof.
  intros Hs Hin Hno Heks.
  pose proof (invalid_version_or_downgrade_looks X ctx g fd gptfd
                (redundant_entries p) (initialize >? 1) w) as L.
  pose proof (invalid_version_or_downgrade_platform ctx g fd gptfd
                (redundant_entries p) (initialize >? 1) w) as (_ & Hspi & _).
  unfold main_execute. rewrite Hs. cbn [soc_eqb].
  destruct (invalid_version_or_downgrade X ctx g fd gptfd
              (redundant_entries p) (initialize >? 1) w)
    as [[[rej ctx1] g1] w1].
  cbn [fst snd] in L, Hspi.
  destruct (looks_no_writes w w1 L) as (C & W & P).
  exists w1. split; [|auto].
  destruct rej; [reflexivity|].
  assert (Hin1 : In name (t210_update_list g1))
    by (unfold t210_update_list in *; now rewrite Hspi).
  now rewrite (order_entries_t210_fatal g1 (redundant_entries p) name Hin1
                 Hno Heks).
Qed.

End PlatformLemmas.

(** C7: [order_entries_t210] walks the template of the boot medium
    ([t210_update_list]: eMMC or SPI/SD).  When every template name
    without an entry in [orig] begins with EKS (and [orig] has at most
    128 entries), the result is the first entry of each template name
    that has one, in template order, followed by the entries of [orig]
    that the template did not use, in input order.  When a template name
    that does not begin with EKS has no entry, the function returns 0,
    and a tegra210 run over these update tasks ends with [ret = 1]
    before any task is processed. *)
Theorem order_entries_t210_template (X : externals) (g : globals)
  (orig : list update_entry_s) :
  let names := t210_update_list g in
  let found := template_matches orig names in
  let others := not_consumed orig (template_indices orig names) in
  (Z.of_nat (List.length orig) <= 128 ->
   (forall name, In name names -> has_name orig name = false ->
                 is_eks name = true) ->
   order_entries_t210 g orig
   = (Z.of_nat (List.length (found ++ others)), found ++ others)
   /\ found ++ others <> [])
  /\ (forall name, In name names -> has_name orig name = false ->
                   is_eks name = false ->
      order_entries_t210 g orig = (0, [])
      /\ forall (env : main_env X) (ctx : bup_context X) (fd gptfd : Z)
                (slot_specified dryrun : bool) (initialize curslot : Z)
                (p : plan) (w : world),
           soctype g = TEGRA_SOCTYPE_210 -> redundant_entries p = orig ->
           exists w',
             main_execute X env ctx g fd gptfd slot_specified dryrun
                          initialize curslot p w = Exited 1 w'
             /\ processed_in (new_events w w') = []
             /\ write_calls (new_events w w') = []
             /\ writes_in (new_events w w') = []).
Proof.
  intros names found others. split.
  - intros Hlen Hopt. exact (order_entries_t210_ok g orig Hlen Hopt).
  - intros name Hin Hno Heks. split.
    + exact (order_entries_t210_fatal g orig name Hin Hno Heks).
    + intros env ctx fd gptfd ss dryrun initialize curslot p w Hs Hp.
      subst orig.
      exact (main_execute_t210_fatal X env ctx g fd gptfd ss dryrun initialize
               curslot p w name Hs Hin Hno Heks).
Qed.

Lemma order_entries_t210_template_witness :
  order_entries_t210 spi_globals spi_entries
  = (18, map named_entry
           ["VER_b"; "BCT"; "NVC_R"; "BCT"; "BCT"; "PT"; "TBC"; "RP1"; "EBT";
            "WB0"; "BPF"; "DTB"; "TOS"; "LNX"; "NVC"; "VER"; "xusb"; "kernel"])
  /\ order_entries_t210 t210_globals [t210_bct_entry] = (0, [])
  /\ exists w',
       main_execute sample_ext (slot_env TEGRA_SOCTYPE_210 0 0)
         (t210_payload, 0) t210_globals 3 4 false false 1 (-1)
         (mkPlan [t210_bct_entry] [] 512 empty_entry) t210_world
       = Exited 1 w'
       /\ processed_in (new_events t210_world w') = []
       /\ write_calls (new_events t210_world w') = []
       /\ writes_in (new_events t210_world w') = [].
Proof.
  split.
  - refine (proj1 (proj1 (order_entries_t210_template sample_ext spi_globals
                            spi_entries) _ _)).
    + vm_compute. discriminate.
    + intros name Hin.
      repeat (destruct Hin as [<-|Hin]; [vm_compute; congruence|]).
      destruct Hin.
  - destruct (proj2 (order_entries_t210_template sample_ext t210_globals
                       [t210_bct_entry]) "VER_b") as [A B].
    + vm_compute. auto.
    + reflexivity.
    + reflexivity.
    + split; [exact A|].
      exact (B (slot_env TEGRA_SOCTYPE_210 0 0) (t210_payload, 0) 3 4 false
               false 1 (-1) (mkPlan [t210_bct_entry] [] 512 empty_entry)
               t210_world eq_refl eq_refl).
Defined.

(** ** Claim C9 *)

Lemma other_slot_is_1 (curslot : Z) : (1 - curslot =? 1) = (curslot =? 0).
Proof. destruct (curslot =? 0) eqn:E; lia. Qed.

Lemma suffix_empty_derived (curslot : Z) :
  suffix_empty (Some (derived_suffix curslot)) = negb (curslot =? 0).
Proof. unfold suffix_empty, derived_suffix. now destruct (curslot =? 0). Qed.

(** One enumerated entry, in update mode with the derived suffix. *)
Lemma plan_step_update (g : globals) (E : plan_env) (curslot : Z)
  (p : plan) (item : string * Z * Z) (p' : plan) :
  plan_step g E 0 (Some (derived_suffix curslot)) p item = PlanOk p' ->
  redundant_entries p'
  = redundant_entries p ++ slot_entry g E (1 - curslot) item
  /\ nonredundant_entries p' = nonredundant_entries p.
Proof.
  destruct item as [[name offset] len].
  unfold plan_step, slot_entry, slot_copy_name, push, is_full.
  rewrite suffix_empty_derived, other_slot_is_1. cbn [Z.eqb negb].
  destruct (gpt_find_by_name E name) as [pt|] eqn:Ept.
  - destruct (gpt_find_by_name E (other_copy_name g name)) as [pb|] eqn:Epb;
      cbn [orb negb].
    + destruct (Z.of_nat (List.length (redundant_entries p)) >=? MAX_ENTRIES);
        [discriminate|].
      destruct (curslot =? 0); cbn [negb]; rewrite ?Ept, ?Epb;
        intros H; injection H as <-; cbn; auto.
    + destruct (String.eqb name "BCT").
      * destruct (Z.of_nat (List.length (redundant_entries p)) >=? MAX_ENTRIES);
          [discriminate|].
        intros H; injection H as <-; cbn; auto.
      * intros H; injection H as <-; cbn. now rewrite app_nil_r.
  - destruct (access_ok E (partlabel_path name)); cbn [negb andb].
    + destruct (access_ok E (partlabel_path (other_copy_name g name))).
      * destruct (Z.of_nat (List.length (redundant_entries p)) >=? MAX_ENTRIES);
          [discriminate|].
        destruct (curslot =? 0); cbn [negb];
          intros H; injection H as <-; cbn; auto.
      * intros H; injection H as <-; cbn. now rewrite app_nil_r.
    + destruct (partition_should_be_present E name); [discriminate|].
      intros H; injection H as <-; cbn. now rewrite app_nil_r.
Qed.

Lemma build_plan_update (g : globals) (E : plan_env) (curslot : Z)
  (items : list (string * Z * Z)) (p0 p : plan) :
  build_plan g E 0 (Some (derived_suffix curslot)) items p0 = PlanOk p ->
  redundant_entries p
  = redundant_entries p0 ++ flat_map (slot_entry g E (1 - curslot)) items
  /\ nonredundant_entries p = nonredundant_entries p0.
Proof.
  revert p0. induction items as [|item rest IH]; intros p0 H; cbn in H.
  - injection H as <-. cbn. now rewrite app_nil_r.
  - destruct (plan_step g E 0 (Some (derived_suffix curslot)) p0 item)
      as [p1| |] eqn:S; try discriminate.
    destruct (plan_step_update g E curslot p0 item p1 S) as [R1 N1].
    destruct (IH p1 H) as [R N].
    split; [|congruence].
    rewrite R, R1. cbn [flat_map]. now rewrite app_assoc.
Qed.

Section SlotLemmas.

Variable X : externals.

(** The commit of an update run marks the slot [1 - curslot], as an
    [unsigned int], and no other. *)
Lemma main_commit_marks (env : main_env X) (curslot : Z) (w : world) :
  marked_active (new_events w (snd (main_commit X env false false 0 curslot w)))
  = [u32 (1 - curslot)].
Proof.
  unfold main_commit. cbn [negb Z.eqb].
  destruct (smd_slot_mark_active X env (u32 (1 - curslot)) <? 0); cbn [snd].
  - now rewrite (new_events_app w _ [EvSmdMarkActive (u32 (1 - curslot))]).
  - destruct (smd_update X env 0 <? 0); cbn [snd];
      now rewrite (new_events_app w _ [EvSmdMarkActive (u32 (1 - curslot));
                                       EvSmdUpdate 0])
        by (cbn; now rewrite <- app_assoc).
Qed.

End SlotLemmas.

(** C9: on tegra186/tegra194, in update mode without a slot suffix,
    [main] takes the current slot [cs] from the slot metadata and derives
    the suffix from it: ["_b"] for slot 0, the empty suffix for every
    other slot.  With that suffix the redundant update tasks are, entry
    by entry of the package, the tasks for the copies of slot [1 - cs]
    (the base name for slot 0, the [_b] name for slot 1), a BCT without
    a second copy being its own target; and the commit of the run marks
    slot [1 - cs] active and no other. *)
Theorem update_targets_the_other_slot (X : externals) :
  (forall (o : options) (soc : tegra_soctype_t) (cs : Z),
      soc = TEGRA_SOCTYPE_186 \/ soc = TEGRA_SOCTYPE_194 ->
      opt_slot_specified o = false -> opt_initialize o = 0 -> 0 <= cs ->
      select_slot o soc cs = Some (cs, Some (derived_suffix cs), 0)
      /\ derived_suffix cs = (if cs =? 0 then "_b" else ""))
  /\ (forall (g : globals) (E : plan_env) (cs : Z)
             (items : list (string * Z * Z)) (p : plan),
         build_plan g E 0 (Some (derived_suffix cs)) items empty_plan
         = PlanOk p ->
         redundant_entries p = flat_map (slot_entry g E (1 - cs)) items
         /\ (soc_eqb (soctype g) TEGRA_SOCTYPE_210 = false ->
             forall name, slot_copy_name g (1 - cs) name
                          = (name ++ derived_suffix cs)%string))
  /\ (forall (env : main_env X) (cs : Z) (w : world),
         0 <= cs <= 1 ->
         marked_active
           (new_events w (snd (main_commit X env false false 0 cs w)))
         = [1 - cs]).
Proof.
  split; [|split].
  - intros o soc cs Hsoc Hs Hi Hcs. split; [|reflexivity].
    unfold select_slot. rewrite Hs, Hi. cbn [negb andb Z.eqb].
    replace (cs <? 0) with false by (symmetry; lia).
    now destruct Hsoc as [-> | ->].
  - intros g E cs items p H. split.
    + now destruct (build_plan_update g E cs items empty_plan p H) as [-> _].
    + intros Hsoc name.
      unfold slot_copy_name, other_copy_name, redundant_part_format,
        derived_suffix.
      rewrite other_slot_is_1, Hsoc. cbn [negb].
      destruct (cs =? 0); [reflexivity|].
      clear. induction name as [|c s IH]; cbn; [reflexivity|].
      now rewrite <- IH.
  - intros env cs w Hcs. rewrite main_commit_marks.
    unfold u32. now rewrite Z.mod_small by lia.
Qed.

Lemma update_targets_the_other_slot_witness :
  select_slot slot_options TEGRA_SOCTYPE_186 0 = Some (0, Some "_b", 0)
  /\ (exists p,
         build_plan sector_globals slot_plan_env 0 (Some "_b")
                    [("cboot", 0, 4)] empty_plan = PlanOk p
         /\ redundant_entries p
            = [mkEntry "cboot_b" (Some (mkGptEntry 1 1)) "" 0 4])
  /\ marked_active
       (new_events slot_world
          (snd (main_commit sample_ext (slot_env TEGRA_SOCTYPE_186 0 0)
                            false false 0 0 slot_world)))
     = [1]
  /\ processed_in
       (run_trace (main sample_ext slot_options
                        (slot_env TEGRA_SOCTYPE_186 0 0) slot_world))
     = ["cboot_b"]
  /\ marked_active
       (run_trace (main sample_ext slot_options
                        (slot_env TEGRA_SOCTYPE_186 0 0) slot_world))
     = [1]
  /\ processed_in
       (run_trace (main sample_ext slot_options
                        (slot_env TEGRA_SOCTYPE_186 1 0) slot_world))
     = ["cboot"]
  /\ marked_active
       (run_trace (main sample_ext slot_options
                        (slot_env TEGRA_SOCTYPE_186 1 0) slot_world))
     = [0].
Proof.
  destruct (update_targets_the_other_slot sample_ext) as (A & B & C).
  split.
  - refine (proj1 (A slot_options TEGRA_SOCTYPE_186 0 _ _ _ _));
      [now left|reflexivity|reflexivity|lia].
  - split.
    + eexists. split; [vm_compute; reflexivity|].
      refine (proj1 (B sector_globals slot_plan_env 0 [("cboot", 0, 4)] _ _)).
      vm_compute. reflexivity.
    + split.
      * refine (C (slot_env TEGRA_SOCTYPE_186 0 0) 0 slot_world _). lia.
      * repeat split; vm_compute; reflexivity.
Defined.

(** ** Claim C10 *)

Lemma lengths_fit_mono (m m' : Z) (l : list update_entry_s) :
  m <= m' -> lengths_fit m l -> lengths_fit m' l.
Proof.
  intros H F. eapply Forall_impl; [|exact F]. cbn. intros e He. lia.
Qed.

Lemma lengths_fit_snoc (m : Z) (l : list update_entry_s) (e : update_entry_s) :
  lengths_fit m l -> ent_length e <= m -> lengths_fit m (l ++ [e]).
Proof.
  intros F H. apply Forall_app. split; [exact F|]. now constructor.
Qed.

Ltac plan_branch :=
  match goal with
  | H : PlanOk _ = PlanOk _ |- _ => injection H as <-
  | H : PlanFail = PlanOk _ |- _ => discriminate H
  | H : PlanOverrun = PlanOk _ |- _ => discriminate H
  | H : context [if ?c then _ else _] |- _ => destruct c
  | H : context [match ?x with Some _ => _ | None => _ end] |- _ => destruct x
  end.

Lemma plan_step_fits (g : globals) (E : plan_env) (initialize : Z)
  (suffix : option string) (p : plan) (item : string * Z * Z) (p' : plan) :
  plan_step g E initialize suffix p item = PlanOk p' ->
  plan_fits p ->
  plan_fits p' /\ largest_length p' = Z.max (largest_length p) (snd item).
Proof.
  destruct item as [[name offset] len].
  unfold plan_step, push, is_full. intros H (L0 & R & N & M).
  assert (Hmax : (if len >? largest_length p then len else largest_length p)
                 = Z.max (largest_length p) len)
    by (destruct (len >? largest_length p) eqn:C; lia).
  rewrite Hmax in H. cbn [snd].
  pose proof (Z.le_max_l (largest_length p) len) as Ml.
  pose proof (Z.le_max_r (largest_length p) len) as Mr.
  pose proof (lengths_fit_mono _ _ _ Ml R) as R'.
  pose proof (lengths_fit_mono _ _ _ Ml N) as N'.
  repeat plan_branch; (split; [|reflexivity]); unfold plan_fits;
    cbn [largest_length redundant_entries nonredundant_entries mb1_other
         ent_length];
    repeat split;
    repeat (apply lengths_fit_snoc; cbn [ent_length]);
    try assumption; try lia.
Qed.

Lemma fold_max_out (items : list (string * Z * Z)) (a b : Z) :
  fold_left (fun m item => Z.max m (snd item)) items (Z.max a b)
  = Z.max a (fold_left (fun m item => Z.max m (snd item)) items b).
Proof.
  revert b. induction items as [|it rest IH]; intros b; cbn; [reflexivity|].
  rewrite <- Z.max_assoc. apply IH.
Qed.

Lemma largest_item_from (items : list (string * Z * Z)) (m : Z) :
  0 <= m ->
  fold_left (fun m item => Z.max m (snd item)) items m
  = Z.max m (largest_item items).
Proof.
  intros Hm. unfold largest_item. rewrite <- fold_max_out.
  now rewrite Z.max_l by assumption.
Qed.

Lemma build_plan_fits (g : globals) (E : plan_env) (initialize : Z)
  (suffix : option string) (items : list (string * Z * Z)) (p0 p : plan) :
  build_plan g E initialize suffix items p0 = PlanOk p ->
  plan_fits p0 ->
  plan_fits p
  /\ largest_length p
     = fold_left (fun m item => Z.max m (snd item)) items (largest_length p0).
Proof.
  revert p0. induction items as [|item rest IH]; intros p0 H F; cbn in H.
  - injection H as <-. now split.
  - destruct (plan_step g E initialize suffix p0 item) as [p1| |] eqn:S;
      try discriminate.
    destruct (plan_step_fits g E initialize suffix p0 item p1 S F) as [F1 L1].
    destruct (IH p1 H F1) as [Fp Lp].
    split; [exact Fp|]. cbn [fold_left]. now rewrite <- L1.
Qed.

Lemma merge_t210_fits (g : globals) (p p' : plan) :
  merge_t210 g p = PlanOk p' -> plan_fits p ->
  plan_fits p' /\ largest_length p' = largest_length p.
Proof.
  unfold merge_t210. intros H (L0 & R & N & M).
  destruct (soc_eqb (soctype g) TEGRA_SOCTYPE_210).
  - destruct (_ >? MAX_ENTRIES); [discriminate|]. injection H as <-.
    split; [|reflexivity]. unfold plan_fits. cbn.
    repeat split; try assumption.
    + apply Forall_app. now split.
    + constructor.
  - injection H as <-. now split.
Qed.

Lemma plan_fits_entries (p : plan) :
  plan_fits p -> lengths_fit (largest_length p) (plan_entries p).
Proof.
  intros (L0 & R & N & M). unfold plan_entries.
  apply Forall_app. split; [exact R|].
  apply Forall_app. split; [exact N|].
  destruct (String.eqb (partname (mb1_other p)) ""); now repeat constructor.
Qed.

Lemma store_length (buf : list byte) (at_ : Z) (data : list byte) :
  0 <= at_ ->
  at_ + Z.of_nat (List.length data) <= Z.of_nat (List.length buf) ->
  List.length (store buf at_ data) = List.length buf.
Proof.
  intros H0 H. unfold store.
  rewrite !length_app, length_firstn, length_skipn. lia.
Qed.

Section LoopLemmas.

Variable X : externals.

(** [len - total] iterations are enough for the loop to come to its
    end. *)
Lemma bup_read_loop_fuel (fuel : nat) (ctx : bup_context X)
  (cbuf : list byte) (cbuf_size len total : Z) :
  (Z.to_nat (len - total) <= fuel)%nat ->
  exists r cb ctx',
    bup_read_loop X fuel ctx cbuf cbuf_size len total = Some (r, cb, ctx').
Proof.
  revert ctx cbuf total.
  induction fuel as [|fuel IH]; intros ctx cbuf total Hf; cbn [bup_read_loop].
  - rewrite (proj2 (Z.leb_le len total)) by lia. eauto.
  - destruct (len <=? total) eqn:Hl; [eauto|].
    destruct (bup_read_body X ctx cbuf cbuf_size total) as [[n cbuf1] ctx1].
    destruct (n <=? 0) eqn:Hn; [eauto|].
    apply IH. lia.
Qed.

Hypothesis bup_read_ok : bup_read_contract X.

(** One call of [bup_read] from the loop: the bound is not negative and
    the bytes stay in the buffer. *)
Lemma bup_read_body_safe (ctx : bup_context X) (cbuf : list byte)
  (cbuf_size total n : Z) (cbuf1 : list byte) (ctx1 : bup_context X) :
  Z.of_nat (List.length cbuf) = cbuf_size -> 0 <= total <= cbuf_size ->
  bup_read_body X ctx cbuf cbuf_size total = (n, cbuf1, ctx1) ->
  total + n <= cbuf_size /\ Z.of_nat (List.length cbuf1) = cbuf_size.
Proof.
  unfold bup_read_body. intros Hl Ht H.
  destruct (bup_read X ctx (u64 (cbuf_size - total))) as [[n' data] ctx']
    eqn:B.
  injection H as -> <- <-.
  assert (U0 : 0 <= u64 (cbuf_size - total))
    by (unfold u64; apply Z.mod_pos_bound; lia).
  assert (U1 : u64 (cbuf_size - total) <= cbuf_size - total)
    by (unfold u64; apply Z.mod_le; lia).
  destruct (bup_read_ok ctx _ n data ctx' U0 B) as [Hn Hd].
  split; [lia|]. rewrite store_length; lia.
Qed.

Lemma bup_read_loop_safe (fuel : nat) (ctx : bup_context X)
  (cbuf : list byte) (cbuf_size len total : Z) :
  Z.of_nat (List.length cbuf) = cbuf_size -> 0 <= total <= cbuf_size ->
  len <= cbuf_size ->
  Forall (fun b => 0 < b <= cbuf_size)
         (bup_read_bounds X fuel ctx cbuf cbuf_size len total)
  /\ (forall r cb ctx',
         bup_read_loop X fuel ctx cbuf cbuf_size len total = Some (r, cb, ctx') ->
         Z.of_nat (List.length cb) = cbuf_size).
Proof.
  revert ctx cbuf total.
  induction fuel as [|fuel IH]; intros ctx cbuf total Hl Ht Hlen;
    cbn [bup_read_bounds bup_read_loop];
    destruct (len <=? total) eqn:Hc.
  - split; [constructor|]. intros r cb ctx' H. now injection H as _ <- _.
  - split; [constructor|]. discriminate.
  - split; [constructor|]. intros r cb ctx' H. now injection H as _ <- _.
  - destruct (bup_read_body X ctx cbuf cbuf_size total) as [[n cbuf1] ctx1]
      eqn:B.
    destruct (bup_read_body_safe ctx cbuf cbuf_size total n cbuf1 ctx1 Hl Ht B)
      as [Hn Hl1].
    destruct (n <=? 0) eqn:Hn0.
    + split; [constructor; [lia|constructor]|].
      intros r cb ctx' H. now injection H as _ <- _.
    + destruct (IH ctx1 cbuf1 (total + n) Hl1 ltac:(lia) Hlen) as [F R].
      split; [constructor; [lia|exact F]|exact R].
Qed.

(** The loop as [process_entry] and the version gate run it. *)
Lemma bup_read_content_safe (ctx : bup_context X) (g : globals) (len : Z) :
  buffer_ok g -> len <= contentbuf_size g ->
  Forall (fun b => 0 < b <= contentbuf_size g)
         (bup_read_bounds X (Z.to_nat len) ctx (contentbuf g)
                          (contentbuf_size g) len 0)
  /\ buffer_ok (snd (fst (bup_read_content X ctx g len)))
  /\ contentbuf_size (snd (fst (bup_read_content X ctx g len)))
     = contentbuf_size g
  /\ bup_read_loop X (Z.to_nat len) ctx (contentbuf g) (contentbuf_size g)
                   len 0 <> None.
Proof.
  intros Hb Hlen.
  assert (H0 : 0 <= contentbuf_size g) by (unfold buffer_ok in Hb; lia).
  destruct (bup_read_loop_safe (Z.to_nat len) ctx (contentbuf g)
              (contentbuf_size g) len 0 Hb ltac:(lia) Hlen) as [F R].
  destruct (bup_read_loop_fuel (Z.to_nat len) ctx (contentbuf g)
              (contentbuf_size g) len 0 ltac:(lia)) as (r & cb & ctx' & E).
  pose proof (R r cb ctx' E) as Hcb.
  split; [exact F|]. unfold bup_read_content. rewrite E. cbn [fst snd].
  split; [exact Hcb|]. split; [reflexivity|discriminate].
Qed.

End LoopLemmas.

Lemma content_kept_refl (g : globals) : content_kept g g.
Proof. now split. Qed.

Lemma content_kept_trans (g1 g2 g3 : globals) :
  content_kept g1 g2 -> content_kept g2 g3 -> content_kept g1 g3.
Proof. intros [A1 B1] [A2 B2]. split; congruence. Qed.

Section BufferLemmas.

Variable X : externals.

Lemma update_bct_content (g : globals) (bootfd : Z)
  (curbct : option (list byte)) (newbct : list byte) (ent : update_entry_s)
  (w : world) :
  content_kept g (snd (fst (update_bct X g bootfd curbct newbct ent w))).
Proof.
  unfold update_bct.
  destruct (soc_eqb (soctype g) TEGRA_SOCTYPE_210); [apply content_kept_refl|].
  match goal with
  | |- context [if ?c then (-1, g, w) else _] => destruct c
  end; [apply content_kept_refl|].
  destruct (update_bct_loop g bootfd curbct newbct ent [0; 1; 2] w) as [r w1].
  destruct (r <? 0); cbn [fst snd]; now split.
Qed.

Lemma update_bct_t210_content (g : globals) (bootfd : Z)
  (curbct : option (list byte)) (newbct : list byte) (ent : update_entry_s)
  (which : option Z) (w : world) :
  content_kept g
    (snd (fst (update_bct_t210 X g bootfd curbct newbct ent which w))).
Proof.
  unfold update_bct_t210.
  destruct (negb (soc_eqb (soctype g) TEGRA_SOCTYPE_210));
    [apply content_kept_refl|].
  destruct which as [wh|]; [|apply content_kept_refl].
  assert (V : exists valid bs ps,
             match curbct with
             | None => (true, bct_block_size g, bct_page_size g)
             | Some cur =>
                 bct_update_valid_t21x X cur newbct (bct_block_size g)
                                       (bct_page_size g)
             end = (valid, bs, ps)).
  { destruct curbct as [cur|]; [|eauto].
    destruct (bct_update_valid_t21x X cur newbct (bct_block_size g)
                                    (bct_page_size g)) as [[v b] q]. eauto. }
  destruct V as (valid & bs & ps & ->).
  destruct (negb valid); [apply content_kept_refl|].
  destruct (negb (ent_length ent mod ps =? 0)); [apply content_kept_refl|].
  destruct (_ >? bs); [apply content_kept_refl|].
  destruct (bct_phase wh (bctcount_of bs ent)) as [[bctstart bctend] next].
  match goal with
  | |- context [update_bct_t210_loop ?a ?b ?c ?d ?e ?f ?h ?i ?j ?k] =>
      destruct (update_bct_t210_loop a b c d e f h i j k) as [r w1]
  end.
  destruct (r <? 0); cbn [fst snd]; now split.
Qed.

Lemma maybe_update_bootpart_content (g : globals) (bootfd gptfd : Z)
  (ent : update_entry_s) (p : gpt_entry_t) (is_bct : bool) (initialize : Z)
  (bctctx : option Z) (w : world) :
  content_kept g
    (snd (fst (maybe_update_bootpart X g bootfd gptfd ent p is_bct initialize
                                     bctctx w))).
Proof.
  unfold maybe_update_bootpart.
  destruct (ent_length ent >? partsize_of p); [apply content_kept_refl|].
  destruct (part_past g p && (gptfd <? 0)); [apply content_kept_refl|].
  match goal with
  | |- context [read_completely_at ?fd ?buf ?n ?off w] =>
      destruct (read_completely_at fd buf n off w) as [[r sb] w1]
  end.
  assert (K : content_kept g (set_slotbuf sb g)) by now split.
  destruct (r <? 0); [exact K|].
  destruct is_bct.
  - destruct (soc_eqb (soctype (set_slotbuf sb g)) TEGRA_SOCTYPE_210).
    + eapply content_kept_trans; [exact K|]. apply update_bct_t210_content.
    + match goal with
      | |- context [update_bct X ?a ?b ?c ?d ?e ?f] =>
          pose proof (update_bct_content a b c d e f) as U;
          destruct (update_bct X a b c d e f) as [[r2 g2] w2]
      end.
      cbn [fst snd] in U. exact (content_kept_trans _ _ _ K U).
  - destruct (memcmp_eq _ _ _); [exact K|].
    match goal with
    | |- context [write_completely_at ?a ?b ?c ?d ?e ?f ?h] =>
        destruct (write_completely_at a b c d e f h) as [r3 w3]
    end.
    now destruct (r3 <? 0).
Qed.

Hypothesis bup_read_ok : bup_read_contract X.

(** [process_entry] leaves [contentbuf] a buffer of [contentbuf_size]
    bytes. *)
Lemma process_entry_buffer (ctx : bup_context X) (g : globals)
  (bootfd gptfd : Z) (ent : update_entry_s) (dryrun : bool) (initialize : Z)
  (bctctx : option Z) (w : world) :
  buffer_ok g -> ent_length ent <= contentbuf_size g ->
  let g' := snd (fst (process_entry X ctx g bootfd gptfd ent dryrun initialize
                                    bctctx w)) in
  buffer_ok g' /\ contentbuf_size g' = contentbuf_size g.
Proof.
  intros Hb Hl. unfold process_entry.
  destruct (bup_setpos X ctx (bup_offset ent)) as [sp ctx1].
  destruct (sp =? -1); [now split|].
  destruct (bup_read_content_safe X bup_read_ok ctx1 g (ent_length ent) Hb Hl)
    as (_ & Hb1 & Hs1 & _).
  destruct (bup_read_content X ctx1 g (ent_length ent)) as [[rr g1] ctx2].
  cbn [fst snd] in Hb1, Hs1.
  destruct (rr <? 0); [now split|]. destruct dryrun; [now split|].
  destruct (part ent) as [p|].
  - match goal with
    | |- context [maybe_update_bootpart X ?a ?b ?c ?d ?e ?f ?h ?i ?j] =>
        pose proof (maybe_update_bootpart_content a b c d e f h i j) as [Kc Ks];
        destruct (maybe_update_bootpart X a b c d e f h i j)
          as [[[r b'] g2] w1]
    end.
    cbn [fst snd] in Kc, Ks |- *. unfold buffer_ok in *.
    rewrite Kc, Ks. now split.
  - repeat match goal with
           | |- context [let (_, _) := ?v in _] => destruct v
           | |- context [if ?c then _ else _] => destruct c
           end; now split.
Qed.

End BufferLemmas.

(** The two orders hold entries of the list they order, and no other. *)
Lemma order_step_ordered (e : update_entry_s) (i : Z) (v : order_vars) :
  ov_ordered (order_step e i v) = ov_ordered v
  \/ ov_ordered (order_step e i v) = ov_ordered v ++ [e].
Proof.
  destruct v. unfold order_step.
  repeat match goal with
         | |- context [if ?c then _ else _] => destruct c
         end; cbn; auto.
Qed.

Lemma order_scan_ordered (rest : list update_entry_s) (i : Z) (v : order_vars) :
  incl (ov_ordered (order_scan rest i v)) (ov_ordered v ++ rest).
Proof.
  revert i v. induction rest as [|e rest IH]; intros i v; cbn [order_scan].
  - rewrite app_nil_r. apply incl_refl.
  - intros x Hx. apply IH in Hx.
    destruct (order_step_ordered e i v) as [E|E]; rewrite E in Hx.
    + apply in_app_iff in Hx. apply in_app_iff.
      destruct Hx; [now left|right; now right].
    + rewrite <- app_assoc in Hx. exact Hx.
Qed.

Lemma pick_incl (l : list update_entry_s) (k : Z) : incl (pick l k) l.
Proof.
  unfold pick, append_at. destruct (k >=? 0); [|intros x []].
  destruct (nth_error l (Z.to_nat k)) eqn:E; [|intros x []].
  intros x [<-|[]]. eapply nth_error_In. exact E.
Qed.

Lemma order_entries_incl (orig : list update_entry_s) :
  incl (order_entries orig) orig.
Proof.
  unfold order_entries. rewrite !append_at_pick.
  repeat (apply incl_app; [|apply pick_incl]).
  exact (order_scan_ordered orig 0 _).
Qed.

Lemma t210_template_incl (orig : list update_entry_s) (names : list string)
  (ordered : list update_entry_s) (used : list nat)
  (o : list update_entry_s) (u : list nat) :
  t210_template orig names ordered used = Some (o, u) ->
  incl ordered orig -> incl o orig.
Proof.
  revert ordered used. induction names as [|name rest IH];
    intros ordered used H I; cbn [t210_template] in H.
  - now injection H as <- _.
  - destruct (find_entry_by_name orig name) as [k|].
    + destruct (nth_error orig k) as [e|] eqn:E; [|discriminate].
      apply (IH _ _ H). apply incl_app; [exact I|].
      intros x [<-|[]]. eapply nth_error_In. exact E.
    + destruct (is_eks name); [|discriminate]. exact (IH _ _ H I).
Qed.

Lemma t210_unused_incl (rest : list update_entry_s) (i : nat)
  (used : list nat) :
  incl (t210_unused rest i used) rest.
Proof.
  revert i. induction rest as [|e rest IH]; intros i; cbn [t210_unused].
  - apply incl_refl.
  - destruct (is_used used i).
    + apply incl_tl. apply IH.
    + apply incl_cons; [now left|]. apply incl_tl. apply IH.
Qed.

Lemma order_entries_t210_incl (g : globals) (orig : list update_entry_s) :
  incl (snd (order_entries_t210 g orig)) orig.
Proof.
  unfold order_entries_t210.
  destruct (_ >? 128); [intros x []|].
  destruct (t210_template orig _ [] []) as [[o u]|] eqn:T; [|intros x []].
  cbn [snd]. apply incl_app.
  - apply (t210_template_incl _ _ _ _ _ _ T). intros x [].
  - apply t210_unused_incl.
Qed.

Lemma lengths_fit_incl (m : Z) (l l' : list update_entry_s) :
  incl l' l -> lengths_fit m l -> lengths_fit m l'.
Proof.
  intros I F. apply Forall_forall. intros e He.
  exact (proj1 (Forall_forall _ _) F e (I e He)).
Qed.

(** [ver[0]] is an entry of the list. *)
Lemma gate_scan_ver0_in (g : globals) (l : list update_entry_s)
  (e : update_entry_s) :
  gv_ver0 (gate_scan g l) = Some e -> In e l.
Proof.
  unfold gate_scan.
  assert (G : forall v, gv_ver0 (fold_left
                (gate_scan_step (other_copy_name g "VER")
                                (other_copy_name g "NVC")) l v) = Some e ->
              In e l \/ gv_ver0 v = Some e).
  { induction l as [|x l IH]; intros v H; cbn [fold_left] in H; [now right|].
    destruct (IH _ H) as [I|S]; [left; now right|].
    unfold gate_scan_step in S.
    repeat match type of S with
           | context [if ?c then _ else _] => destruct c
           end; cbn [gv_ver0] in S; auto.
    injection S as ->. left. now left. }
  intros H. destruct (G _ H) as [I|S]; [exact I|discriminate].
Qed.

Lemma buffer_ok_kept (g g' : globals) :
  content_kept g g' -> buffer_ok g ->
  buffer_ok g' /\ contentbuf_size g' = contentbuf_size g.
Proof. unfold buffer_ok. intros [C S] B. rewrite C, S. now split. Qed.

Section ExecutorLemmas.

Variable X : externals.

(** The executor's loop over a list is the loop over its head part
    followed, when that returned 0, by the loop over the rest. *)
Lemma process_all_app (ctx : bup_context X) (g : globals) (bootfd gptfd : Z)
  (pre post : list update_entry_s) (dryrun : bool) (initialize : Z)
  (bctctx : option Z) (w : world) :
  process_all X ctx g bootfd gptfd (pre ++ post) dryrun initialize bctctx w
  = let '(r, b1, ctx1, g1, w1) :=
      process_all X ctx g bootfd gptfd pre dryrun initialize bctctx w in
    if negb (r =? 0) then (r, b1, ctx1, g1, w1)
    else process_all X ctx1 g1 bootfd gptfd post dryrun initialize b1 w1.
Proof.
  revert ctx g bctctx w.
  induction pre as [|e pre IH]; intros ctx g bctctx w; cbn [app process_all].
  - reflexivity.
  - destruct (process_entry X ctx g bootfd gptfd e dryrun initialize bctctx w)
      as [[[[r b1] ctx1] g1] w1].
    destruct (negb (r =? 0)) eqn:E; [now rewrite E|]. apply IH.
Qed.

Hypothesis bup_read_ok : bup_read_contract X.

Lemma process_all_buffer (ctx : bup_context X) (g : globals)
  (bootfd gptfd : Z) (entries : list update_entry_s) (dryrun : bool)
  (initialize : Z) (bctctx : option Z) (w : world) :
  buffer_ok g -> lengths_fit (contentbuf_size g) entries ->
  let g' := snd (fst (process_all X ctx g bootfd gptfd entries dryrun
                                  initialize bctctx w)) in
  buffer_ok g' /\ contentbuf_size g' = contentbuf_size g.
Proof.
  revert ctx g bctctx w.
  induction entries as [|e rest IH]; intros ctx g bctctx w Hb Hl;
    cbn [process_all].
  - now split.
  - inversion Hl as [|e' rest' He Hrest]; subst.
    pose proof (process_entry_buffer X bup_read_ok ctx g bootfd gptfd e dryrun
                  initialize bctctx w Hb He) as P.
    destruct (process_entry X ctx g bootfd gptfd e dryrun initialize bctctx w)
      as [[[[r b1] ctx1] g1] w1].
    cbn [fst snd] in P. destruct P as [Hb1 Hs1].
    destruct (negb (r =? 0)); [now split|].
    rewrite <- Hs1 in Hrest.
    destruct (IH ctx1 g1 b1 w1 Hb1 Hrest) as [Hb2 Hs2].
    split; [exact Hb2|]. cbn zeta in *. congruence.
Qed.

Lemma gate_bup_verinfo_buffer (ctx : bup_context X) (g : globals)
  (ver0 : update_entry_s) :
  buffer_ok g -> ent_length ver0 <= contentbuf_size g ->
  buffer_ok (snd (gate_bup_verinfo X ctx g ver0))
  /\ contentbuf_size (snd (gate_bup_verinfo X ctx g ver0)) = contentbuf_size g.
Proof.
  intros Hb Hl. unfold gate_bup_verinfo.
  destruct (bup_setpos X ctx (bup_offset ver0)) as [sp ctx1].
  destruct (sp =? -1); [now split|].
  destruct (bup_read_content_safe X bup_read_ok ctx1 g (ent_length ver0) Hb Hl)
    as (_ & Hb1 & Hs1 & _).
  destruct (bup_read_content X ctx1 g (ent_length ver0)) as [[rr g1] ctx2].
  cbn [fst snd] in Hb1, Hs1. now destruct (rr <? 0).
Qed.

Lemma invalid_version_or_downgrade_buffer (ctx : bup_context X) (g : globals)
  (bootfd gptfd : Z) (entry_list : list update_entry_s) (force : bool)
  (w : world) :
  buffer_ok g -> lengths_fit (contentbuf_size g) entry_list ->
  let g' := snd (fst (invalid_version_or_downgrade X ctx g bootfd gptfd
                        entry_list force w)) in
  buffer_ok g' /\ contentbuf_size g' = contentbuf_size g.
Proof.
  intros Hb Hl. unfold invalid_version_or_downgrade.
  destruct (gv_ver0 (gate_scan g entry_list)) as [ver0|] eqn:V; [|now split].
  assert (Hv : ent_length ver0 <= contentbuf_size g)
    by exact (proj1 (Forall_forall _ _) Hl ver0
                (gate_scan_ver0_in g entry_list ver0 V)).
  destruct (gate_bup_verinfo_buffer ctx g ver0 Hb Hv) as [Hb1 Hs1].
  destruct (gate_bup_verinfo X ctx g ver0) as [[bv ctx2] g1].
  cbn [snd] in Hb1, Hs1.
  destruct bv as [b|]; [|now split].
  pose proof (gate_read_ver_slotbuf_only X g1 bootfd gptfd (Some ver0) w)
    as [_ K0].
  destruct (gate_read_ver X g1 bootfd gptfd (Some ver0) w) as [[i0 g2] w1].
  cbn [fst snd] in K0.
  destruct (buffer_ok_kept g1 g2 K0 Hb1) as [Hb2 Hs2].
  destruct i0 as [v0|]; [|cbn; split; [exact Hb2|congruence]].
  pose proof (gate_read_ver_slotbuf_only X g2 bootfd gptfd
                (gv_ver1 (gate_scan g entry_list)) w1) as [_ K1].
  destruct (gate_read_ver X g2 bootfd gptfd (gv_ver1 (gate_scan g entry_list)) w1)
    as [[i1 g3] w2].
  cbn [fst snd] in K1.
  destruct (buffer_ok_kept g2 g3 K1 Hb2) as [Hb3 Hs3].
  destruct i1 as [v1|]; [|cbn; split; [exact Hb3|congruence]].
  pose proof (gate_decide_slotbuf_only X g3 bootfd gptfd
                (gate_scan g entry_list) v0 v1 b force w2) as [_ K2].
  destruct (gate_decide X g3 bootfd gptfd (gate_scan g entry_list) v0 v1 b
                        force w2) as [[rej g4] w3].
  cbn [fst snd] in K2 |- *.
  destruct (buffer_ok_kept g3 g4 K2 Hb3) as [Hb4 Hs4].
  split; [exact Hb4|congruence].
Qed.

End ExecutorLemmas.

Lemma empty_plan_fits : plan_fits empty_plan.
Proof. unfold plan_fits, empty_plan. cbn. repeat split; try constructor; lia. Qed.

Lemma zeros_length (n : Z) : 0 <= n -> Z.of_nat (List.length (zeros n)) = n.
Proof. intros H. unfold zeros. rewrite repeat_length. lia. Qed.

(** The stand-in for the BUP module keeps the contract of [bup_read]. *)
Lemma sample_ext_bup_read_contract : bup_read_contract sample_ext.
Proof.
  intros ctx count n data ctx' Hc H. cbn in H. unfold sample_bup_read in H.
  set (avail := skipn (Z.to_nat (snd ctx)) (fst ctx)) in *.
  destruct (Z.min count (Z.of_nat (List.length avail)) <=? 0) eqn:E.
  - injection H as <- <- <-. cbn. lia.
  - injection H as <- <- <-. rewrite length_firstn. lia.
Qed.

(** C10: the buffer [contentbuf] is allocated with [contentbuf_size] =
    the largest length among the entries the package enumerates, and
    every update task of the plan has a length of at most that.  The
    lists the executor walks hold tasks of the plan only, [contentbuf]
    and [contentbuf_size] are as the allocation left them when a task is
    processed or when the version gate reads the VER payload, and so in
    every pass of the loops that read the package into [contentbuf] the
    bound [contentbuf_size - total] given to [bup_read] is positive, and
    the bytes read are stored inside the buffer ([bup_read] returning at
    most as many bytes as it is asked for). *)
Theorem bup_reads_stay_in_contentbuf (X : externals) :
  bup_read_contract X ->
  (forall (g : globals) (E : plan_env) (initialize : Z)
          (suffix : option string) (items : list (string * Z * Z))
          (p0 p : plan) (soc : tegra_soctype_t) (spi : bool)
          (bootdev_end size : Z),
      build_plan g E initialize suffix items empty_plan = PlanOk p0 ->
      merge_t210 g p0 = PlanOk p ->
      contentbuf_size (alloc_globals soc spi bootdev_end p size)
      = largest_item items
      /\ buffer_ok (alloc_globals soc spi bootdev_end p size)
      /\ lengths_fit (largest_item items) (plan_entries p))
  /\ (forall (g : globals) (orig : list update_entry_s),
         incl (order_entries orig) orig
         /\ incl (snd (order_entries_t210 g orig)) orig)
  /\ (forall (ctx : bup_context X) (g : globals) (len : Z),
         buffer_ok g -> len <= contentbuf_size g ->
         Forall (fun b => 0 < b <= contentbuf_size g)
                (bup_read_bounds X (Z.to_nat len) ctx (contentbuf g)
                                 (contentbuf_size g) len 0)
         /\ buffer_ok (snd (fst (bup_read_content X ctx g len)))
         /\ contentbuf_size (snd (fst (bup_read_content X ctx g len)))
            = contentbuf_size g
         /\ bup_read_loop X (Z.to_nat len) ctx (contentbuf g)
                          (contentbuf_size g) len 0 <> None)
  /\ (forall (ctx : bup_context X) (g : globals) (bootfd gptfd : Z)
             (pre : list update_entry_s) (ent : update_entry_s)
             (post : list update_entry_s) (dryrun : bool) (initialize : Z)
             (bctctx : option Z) (w : world),
         buffer_ok g ->
         lengths_fit (contentbuf_size g) (pre ++ ent :: post) ->
         buffer_ok (snd (fst (process_all X ctx g bootfd gptfd pre dryrun
                                          initialize bctctx w)))
         /\ ent_length ent
            <= contentbuf_size
                 (snd (fst (process_all X ctx g bootfd gptfd pre dryrun
                                        initialize bctctx w))))
  /\ (forall (ctx : bup_context X) (g : globals) (bootfd gptfd : Z)
             (entry_list : list update_entry_s) (force : bool) (w : world)
             (ver0 : update_entry_s),
         buffer_ok g -> lengths_fit (contentbuf_size g) entry_list ->
         gv_ver0 (gate_scan g entry_list) = Some ver0 ->
         ent_length ver0 <= contentbuf_size g
         /\ buffer_ok (snd (fst (invalid_version_or_downgrade X ctx g bootfd
                                   gptfd entry_list force w)))
         /\ contentbuf_size
              (snd (fst (invalid_version_or_downgrade X ctx g bootfd gptfd
                           entry_list force w)))
            = contentbuf_size g).
Proof.
  intros Hread. split; [|split; [|split; [|split]]].
  - intros g E initialize suffix items p0 p soc spi bootdev_end size Hb Hm.
    destruct (build_plan_fits g E initialize suffix items empty_plan p0 Hb
                empty_plan_fits) as [F0 L0].
    destruct (merge_t210_fits g p0 p Hm F0) as [F L].
    assert (Hl : largest_length p = largest_item items)
      by (rewrite L, L0; reflexivity).
    split; [exact Hl|]. split.
    + unfold buffer_ok, alloc_globals. cbn [contentbuf contentbuf_size].
      apply zeros_length. apply F.
    + rewrite <- Hl. now apply plan_fits_entries.
  - intros g orig. split;
      [apply order_entries_incl|apply order_entries_t210_incl].
  - intros ctx g len Hb Hl. exact (bup_read_content_safe X Hread ctx g len Hb Hl).
  - intros ctx g bootfd gptfd pre ent post dryrun initialize bctctx w Hb Hl.
    apply Forall_app in Hl. destruct Hl as [Hpre Hrest].
    inversion Hrest as [|e' r' He Hpost]; subst.
    destruct (process_all_buffer X Hread ctx g bootfd gptfd pre dryrun
                initialize bctctx w Hb Hpre) as [B S].
    split; [exact B|]. cbn zeta in S. rewrite S. exact He.
  - intros ctx g bootfd gptfd entry_list force w ver0 Hb Hl Hv.
    split.
    + exact (proj1 (Forall_forall _ _) Hl ver0
               (gate_scan_ver0_in g entry_list ver0 Hv)).
    + exact (invalid_version_or_downgrade_buffer X Hread ctx g bootfd gptfd
               entry_list force w Hb Hl).
Qed.

Lemma bup_reads_stay_in_contentbuf_witness :
  (exists p,
      build_plan sector_globals slot_plan_env 0 (Some "_b") [("cboot", 0, 4)]
                 empty_plan = PlanOk p
      /\ contentbuf_size (alloc_globals TEGRA_SOCTYPE_186 false 1024 p 512) = 4
      /\ buffer_ok (alloc_globals TEGRA_SOCTYPE_186 false 1024 p 512)
      /\ lengths_fit 4 (plan_entries p))
  /\ buffer_ok sector_globals
  /\ 4 <= contentbuf_size sector_globals
  /\ Forall (fun b => 0 < b <= contentbuf_size sector_globals)
            (bup_read_bounds sample_ext (Z.to_nat 4) (sample_payload, 0)
               (contentbuf sector_globals) (contentbuf_size sector_globals)
               4 0)
  /\ bup_read_bounds sample_ext (Z.to_nat 4) (sample_payload, 0)
       (contentbuf sector_globals) (contentbuf_size sector_globals) 4 0
     = [8].
Proof.
  destruct (bup_reads_stay_in_contentbuf sample_ext
              sample_ext_bup_read_contract) as (A & _ & C & _).
  assert (Hb : buffer_ok sector_globals) by reflexivity.
  assert (Hl : 4 <= contentbuf_size sector_globals) by (cbn; lia).
  split.
  - eexists. split; [vm_compute; reflexivity|].
    refine (A sector_globals slot_plan_env 0 (Some "_b") [("cboot", 0, 4)]
              _ _ TEGRA_SOCTYPE_186 false 1024 512 _ _);
      vm_compute; reflexivity.
  - split; [exact Hb|]. split; [exact Hl|]. split.
    + exact (proj1 (C (sample_payload, 0) sector_globals 4 Hb Hl)).
    + vm_compute. reflexivity.
Defined.

(** * More of the program *)

(** ** read_completely_at: what a successful read has done *)

Lemma sys_read_room (fd count : Z) (w : world) (n : Z) (data : list byte)
  (w1 : world) (d : device) :
  sys_read fd count w = (n, data, w1) -> (n <=? 0) = false ->
  w_dev w fd = Some d -> dev_pos d + n <= dev_size d.
Proof.
  unfold sys_read. intros H Hn Hd. rewrite Hd in H.
  destruct (take_limit (w_io w)) as [lim io'].
  pose proof (xfer_le_room count (dev_size d - dev_pos d) lim) as R.
  destruct (xfer count (dev_size d - dev_pos d) lim <=? 0) eqn:G.
  - injection H as <- <- <-.
    destruct (dev_size d - dev_pos d <=? 0); discriminate.
  - injection H as <- <- <-. lia.
Qed.

(** A loop that comes to its end has read [remain] bytes, all of them
    inside the device. *)
Lemma read_loop_total (fuel : nat) (fd remain total : Z) (acc : list byte)
  (w : world) (r : Z) (acc' : list byte) (w' : world) (d : device) :
  read_loop fuel fd remain total acc w = Some (r, acc', w') ->
  0 <= total -> 0 <= r -> w_dev w fd = Some d ->
  r = total + Z.max remain 0
  /\ (0 < remain -> dev_pos d + remain <= dev_size d).
Proof.
  revert remain total acc w d.
  induction fuel as [|fuel IH]; intros remain total acc w d H Ht Hr Hd;
    cbn [read_loop] in H; destruct (remain <=? 0) eqn:E; try discriminate.
  - injection H as <- <- <-. split; lia.
  - injection H as <- <- <-. split; lia.
  - destruct (sys_read fd remain w) as [[n data] w1] eqn:R.
    destruct (n <=? 0) eqn:N; [injection H as <- <- <-; lia|].
    destruct (sys_read_ok fd remain w n data w1 R N)
      as (d0 & Hd0 & Hn & _ & Hd1).
    rewrite Hd in Hd0. injection Hd0 as <-.
    pose proof (sys_read_room fd remain w n data w1 d R N Hd) as Room.
    destruct (IH _ _ _ _ _ H ltac:(lia) Hr Hd1) as [Hr' Hroom].
    cbn [dev_pos dev_size] in Hroom. split; [lia|]. intros _.
    destruct (Z.ltb_spec 0 (remain - n)); [specialize (Hroom ltac:(lia))|];
      lia.
Qed.

Lemma read_completely_at_total (fd : Z) (buf : list byte) (bufsiz offset : Z)
  (w : world) (r : Z) (buf' : list byte) (w' : world) (d : device) :
  read_completely_at fd buf bufsiz offset w = (r, buf', w') ->
  (r <? 0) = false -> w_dev w fd = Some d ->
  r = Z.max bufsiz 0
  /\ 0 <= offset <= dev_size d
  /\ (0 < bufsiz -> offset + bufsiz <= dev_size d).
Proof.
  unfold read_completely_at. intros H Hr Hd.
  destruct (sys_lseek fd offset w) as [r0 w1] eqn:L.
  destruct (r0 =? -1) eqn:E0; [injection H as <- <- <-; discriminate|].
  destruct (sys_lseek_ok fd offset w r0 w1 L E0) as (d0 & Hd0 & _ & Ho & ->).
  rewrite Hd in Hd0. injection Hd0 as <-.
  destruct (read_loop (Z.to_nat bufsiz) fd bufsiz 0 [] _)
    as [[[ret acc] w2]|] eqn:R; [|injection H as <- <- <-; discriminate].
  injection H as <- <- <-.
  destruct (read_loop_total _ fd bufsiz 0 [] _ ret acc w2
              (mkDevice (dev_size d) (dev_data d) offset) R ltac:(lia)
              ltac:(lia) ltac:(cbn; now rewrite Z.eqb_refl)) as [T Room].
  cbn [dev_pos dev_size] in Room. repeat split; lia.
Qed.

(** X1: a call of [read_completely_at] that does not return -1 returns
    [bufsiz]; the bytes [offset .. offset + bufsiz - 1] it has put at the
    start of the buffer are bytes of the device, all of them before its
    end, and the rest of the buffer is as it was; the call has made
    seeks and reads only, and the devices hold what they held.  This is
    so however short the single [read] calls fall. *)
Theorem read_completely_at_reads_the_range (fd : Z) (buf : list byte)
  (bufsiz offset : Z) (w : world) (r : Z) (buf' : list byte) (w' : world)
  (d : device) :
  read_completely_at fd buf bufsiz offset w = (r, buf', w') ->
  0 <= r -> 0 <= bufsiz -> w_dev w fd = Some d ->
  (Z.to_nat bufsiz <= List.length buf)%nat ->
  r = bufsiz
  /\ 0 <= offset /\ offset + bufsiz <= dev_size d
  /\ firstn (Z.to_nat bufsiz) buf' = peek (dev_data d) offset (Z.to_nat bufsiz)
  /\ skipn (Z.to_nat bufsiz) buf' = skipn (Z.to_nat bufsiz) buf
  /\ List.length buf' = List.length buf
  /\ forallb is_seek_or_read (new_events w w') = true
  /\ same_devices w w'.
Proof.
  intros H Hr Hb Hd Hl.
  assert (Hr' : (r <? 0) = false) by lia.
  destruct (read_completely_at_total fd buf bufsiz offset w r buf' w' d H Hr' Hd)
    as (T & Ho & Room).
  pose proof (read_completely_at_ok fd buf bufsiz offset w r buf' w' d H Hr' Hd)
    as B.
  pose proof (read_completely_at_looks fd buf bufsiz offset w) as L.
  rewrite H in L. cbn [snd] in L. destruct L as [S SD].
  destruct (steps_new_events _ _ _ S) as [_ F].
  assert (Lp : List.length (peek (dev_data d) offset (Z.to_nat bufsiz))
               = Z.to_nat bufsiz) by apply peek_length.
  split; [lia|]. split; [lia|]. split.
  { destruct (Z.ltb_spec 0 bufsiz); [apply Room; lia|lia]. }
  subst buf'. split.
  { rewrite firstn_app, Lp, Nat.sub_diag, firstn_all2 by lia.
    cbn [firstn]. now rewrite app_nil_r. }
  split.
  { rewrite skipn_app, Lp, Nat.sub_diag, skipn_all2 by lia. reflexivity. }
  split; [|split; assumption].
  rewrite length_app, Lp, length_skipn. lia.
Qed.

Lemma read_completely_at_reads_the_range_witness :
  let run := read_completely_at 3 (zeros 8) 4 8 (small_world [1; 2]) in
  fst (fst run) = 4
  /\ firstn 4 (snd (fst run)) = [xff; xff; xff; xff]
  /\ skipn 4 (snd (fst run)) = zeros 4
  /\ same_devices (small_world [1; 2]) (snd run).
Proof.
  cbv zeta.
  assert (Hr : 0 <= fst (fst (read_completely_at 3 (zeros 8) 4 8
                                                  (small_world [1; 2]))))
    by (vm_compute; intro C; discriminate C).
  destruct (read_completely_at 3 (zeros 8) 4 8 (small_world [1; 2]))
    as [[r b] w'] eqn:E.
  cbn [fst snd] in *.
  destruct (read_completely_at_reads_the_range 3 (zeros 8) 4 8
              (small_world [1; 2]) r b w' (sample_device 64 xff) E Hr
              ltac:(lia) eq_refl ltac:(vm_compute; lia))
    as (A & _ & _ & B & C & _ & _ & D).
  split; [exact A|]. split; [exact B|]. split; [exact C|exact D].
Defined.

(** ** write_completely_at: what a successful write has done *)

Lemma sys_write_room (fd : Z) (buf : list byte) (count : Z) (w : world)
  (n : Z) (w1 : world) (d : device) :
  sys_write fd buf count w = (n, w1) -> (n <=? 0) = false ->
  w_dev w fd = Some d -> dev_pos d + n <= dev_size d.
Proof.
  unfold sys_write. intros H Hn Hd. rewrite Hd in H.
  destruct (take_limit (w_io w)) as [lim io'].
  pose proof (xfer_le_room count (dev_size d - dev_pos d) lim) as R.
  destruct (xfer count (dev_size d - dev_pos d) lim <=? 0) eqn:G.
  - injection H as <- <-. discriminate.
  - injection H as <- <-. lia.
Qed.

Lemma write_loop_room (fuel : nat) (fd : Z) (buf : list byte)
  (remain total : Z) (w : world) (r : Z) (w' : world) (d : device) :
  write_loop fuel fd buf remain total w = Some (r, w') ->
  0 <= total -> 0 <= r -> w_dev w fd = Some d ->
  0 < remain -> dev_pos d + remain <= dev_size d.
Proof.
  revert remain total w d.
  induction fuel as [|fuel IH]; intros remain total w d H Ht Hr Hd Hpos;
    cbn [write_loop] in H; destruct (remain <=? 0) eqn:E; try discriminate;
    try lia.
  destruct (sys_write fd (skipn (Z.to_nat total) buf) remain w) as [n w1]
    eqn:W.
  destruct (n <=? 0) eqn:N; [injection H as <- <-; lia|].
  destruct (sys_write_ok fd _ remain w n w1 W N) as (d0 & Hd0 & Hn & _ & Hd1).
  rewrite Hd in Hd0. injection Hd0 as <-.
  pose proof (sys_write_room fd _ remain w n w1 d W N Hd) as Room.
  destruct (Z.ltb_spec 0 (remain - n)) as [Hm|Hm]; [|lia].
  pose proof (IH _ _ _ _ H ltac:(lia) Hr Hd1 Hm) as R.
  cbn [dev_pos dev_size] in R. lia.
Qed.

Lemma write_all_room (fd : Z) (buf : list byte) (size : Z) (w : world)
  (r : Z) (w' : world) (d : device) :
  write_all fd buf size w = (r, w') -> (r <? 0) = false ->
  w_dev w fd = Some d -> 0 < size -> dev_pos d + size <= dev_size d.
Proof.
  unfold write_all. intros H Hr Hd Hs.
  destruct (write_loop (Z.to_nat size) fd buf size 0 w) as [[r0 w0]|] eqn:E;
    [|injection H as <- <-; discriminate].
  injection H as -> ->.
  exact (write_loop_room _ fd buf size 0 w r w' d E ltac:(lia) ltac:(lia) Hd Hs).
Qed.

Lemma nth_firstn_repeat (a : byte) (n k i : nat) :
  nth i (firstn n (repeat a k)) a = a.
Proof.
  revert k i. induction n as [|n IH]; intros k i; [now destruct i|].
  destruct k as [|k]; [now destruct i|]. cbn.
  destruct i as [|i]; [reflexivity|apply IH].
Qed.

(** The contents of the device after a call that succeeds: the erase,
    when there is one, and the payload over it. *)
Lemma write_completely_at_contents (zb : list byte) (fd : Z) (buf : list byte)
  (bufsiz offset erase_size : Z) (w : world) (r : Z) (w' : world)
  (d : device) :
  write_completely_at zb fd buf bufsiz offset erase_size w = (r, w') ->
  (r <? 0) = false -> w_dev w fd = Some d ->
  (Z.to_nat bufsiz <= List.length buf)%nat ->
  (Z.to_nat erase_size <= List.length zb)%nat ->
  r = Z.max bufsiz 0
  /\ 0 <= offset <= dev_size d
  /\ (0 < bufsiz -> offset + bufsiz <= dev_size d)
  /\ (0 < erase_size -> offset + erase_size <= dev_size d)
  /\ dev_is w' fd (dev_size d) (offset + Z.max bufsiz 0)
       (poke (poke (dev_data d) offset (firstn (Z.to_nat erase_size) zb))
             offset (firstn (Z.to_nat bufsiz) buf)).
Proof.
  unfold write_completely_at. intros H Hr Hd Lb Lz.
  set (w0 := log (EvWriteAt fd offset bufsiz erase_size) w) in *.
  assert (Hd0 : w_dev w0 fd = Some d) by exact Hd.
  destruct (sys_lseek fd offset w0) as [r1 w1] eqn:L1.
  destruct (r1 =? -1) eqn:E1; [injection H as <- <-; discriminate|].
  destruct (sys_lseek_ok fd offset w0 r1 w1 L1 E1) as (d0 & Hd0' & _ & Ho & Hw1).
  rewrite Hd0 in Hd0'. injection Hd0' as <-.
  assert (Hd1 : w_dev w1 fd = Some (mkDevice (dev_size d) (dev_data d) offset))
    by (rewrite Hw1; cbn; now rewrite Z.eqb_refl).
  destruct (erase_size =? 0) eqn:Ez; cbn [negb] in H.
  - destruct (write_all_ok fd buf bufsiz w1 r w' _ H Hr Hd1 Lb)
      as (R & _ & (d' & Hd' & Sz & Ps & Dt)).
    cbn [dev_size dev_data dev_pos] in Sz, Ps, Dt.
    split; [exact R|]. split; [exact Ho|]. split.
    { intros Hb. exact (write_all_room fd buf bufsiz w1 r w' _ H Hr Hd1 Hb). }
    split; [lia|].
    exists d'. repeat split; try assumption.
    intros x. rewrite Dt. apply poke_ext. intros y.
    replace (Z.to_nat erase_size) with 0%nat by lia. cbn [firstn].
    symmetry. apply poke_nil.
  - destruct (write_all fd zb erase_size w1) as [e w2] eqn:W2.
    destruct (e <? 0) eqn:Ee; [injection H as <- <-; discriminate|].
    destruct (write_all_ok fd zb erase_size w1 e w2 _ W2 Ee Hd1 Lz)
      as (_ & _ & (d2 & Hd2 & Sz2 & _ & Dt2)).
    cbn [dev_size dev_data dev_pos] in Sz2, Dt2.
    assert (Hd3 : w_dev (sys_fsync fd w2) fd = Some d2) by exact Hd2.
    destruct (sys_lseek fd offset (sys_fsync fd w2)) as [r4 w4] eqn:L4.
    destruct (r4 =? -1) eqn:E4; [injection H as <- <-; discriminate|].
    destruct (sys_lseek_ok fd offset _ r4 w4 L4 E4)
      as (d3 & Hd3' & _ & _ & Hw4).
    rewrite Hd3 in Hd3'. injection Hd3' as <-.
    assert (Hd4 : w_dev w4 fd
                  = Some (mkDevice (dev_size d2) (dev_data d2) offset))
      by (rewrite Hw4; cbn; now rewrite Z.eqb_refl).
    destruct (write_all_ok fd buf bufsiz w4 r w' _ H Hr Hd4 Lb)
      as (R & _ & (d' & Hd' & Sz & Ps & Dt)).
    cbn [dev_size dev_data dev_pos] in Sz, Ps, Dt.
    split; [exact R|]. split; [exact Ho|]. split.
    { intros Hb.
      pose proof (write_all_room fd buf bufsiz w4 r w' _ H Hr Hd4 Hb) as Q.
      cbn [dev_size dev_pos] in Q. lia. }
    split.
    { intros He.
      exact (write_all_room fd zb erase_size w1 e w2 _ W2 Ee Hd1 He). }
    exists d'. repeat split; try congruence.
    intros x. rewrite Dt. apply poke_ext. exact Dt2.
Qed.

Lemma poke_twice_outside (f : Z -> byte) (pos : Z) (a b : list byte) (x : Z) :
  x < pos \/ pos + Z.max (Z.of_nat (List.length a)) (Z.of_nat (List.length b))
             <= x ->
  poke (poke f pos a) pos b x = f x.
Proof. intros H. rewrite !poke_outside by lia. reflexivity. Qed.

Lemma poke_twice_between (f : Z -> byte) (pos : Z) (a b : list byte) (x : Z) :
  pos + Z.of_nat (List.length b) <= x < pos + Z.of_nat (List.length a) ->
  poke (poke f pos a) pos b x = nth (Z.to_nat (x - pos)) a zero_byte.
Proof.
  intros H. rewrite poke_outside by lia.
  replace x with (pos + Z.of_nat (Z.to_nat (x - pos))) at 1 by lia.
  apply poke_inside. lia.
Qed.

(** X2: a call of [write_completely_at] that does not return -1 (with
    [zerobuf] zero-filled and at least [erase_size] long) returns
    [bufsiz] and leaves the device with the payload at [offset ..
    offset + bufsiz - 1], zeros from there to [offset + erase_size - 1],
    and every byte outside [offset .. offset + max(bufsiz, erase_size) -
    1] as it was; the range written lies inside the device, the device
    has kept its size, and no other device is changed.  This is so
    however short the single [write] calls fall. *)
Theorem write_completely_at_writes_the_range (k : Z) (fd : Z)
  (buf : list byte) (bufsiz offset erase_size : Z) (w : world) (r : Z)
  (w' : world) (d : device) :
  write_completely_at (zeros k) fd buf bufsiz offset erase_size w = (r, w') ->
  0 <= r -> 0 <= bufsiz -> 0 <= erase_size <= k -> w_dev w fd = Some d ->
  (Z.to_nat bufsiz <= List.length buf)%nat ->
  r = bufsiz
  /\ 0 <= offset
  /\ offset + Z.max bufsiz erase_size <= dev_size d
  /\ others_kept fd w w'
  /\ exists d',
       w_dev w' fd = Some d' /\ dev_size d' = dev_size d
       /\ peek (dev_data d') offset (Z.to_nat bufsiz)
          = firstn (Z.to_nat bufsiz) buf
       /\ (forall x, offset + bufsiz <= x < offset + erase_size ->
                     dev_data d' x = zero_byte)
       /\ (forall x, x < offset \/ offset + Z.max bufsiz erase_size <= x ->
                     dev_data d' x = dev_data d x).
Proof.
  intros H Hr Hb He Hd Lb.
  assert (Hr' : (r <? 0) = false) by lia.
  assert (Lz : (Z.to_nat erase_size <= List.length (zeros k))%nat)
    by (unfold zeros; rewrite repeat_length; lia).
  destruct (write_completely_at_contents (zeros k) fd buf bufsiz offset
              erase_size w r w' d H Hr' Hd Lb Lz)
    as (R & Ho & Rb & Re & (d' & Hd' & Sz & _ & Dt)).
  pose proof (write_completely_at_touches (zeros k) fd buf bufsiz offset
                erase_size w) as T.
  rewrite H in T. cbn [snd] in T. destruct T as (_ & O & _).
  assert (La : Z.of_nat (List.length (firstn (Z.to_nat erase_size) (zeros k)))
               = erase_size) by (rewrite length_firstn; lia).
  assert (Lp : Z.of_nat (List.length (firstn (Z.to_nat bufsiz) buf)) = bufsiz)
    by (rewrite length_firstn; lia).
  split; [lia|]. split; [lia|]. split.
  { destruct (Z.ltb_spec 0 bufsiz); destruct (Z.ltb_spec 0 erase_size); lia. }
  split; [exact O|].
  exists d'. split; [exact Hd'|]. split; [exact Sz|]. split; [|split].
  - rewrite (peek_ext _ _ offset (Z.to_nat bufsiz) Dt).
    rewrite peek_poke_prefix by (rewrite length_firstn; lia).
    now rewrite firstn_firstn, Nat.min_id.
  - intros x Hx. rewrite Dt, poke_twice_between by lia.
    unfold zeros. apply nth_firstn_repeat.
  - intros x Hx. rewrite Dt. apply poke_twice_outside. lia.
Qed.

Lemma write_completely_at_writes_the_range_witness :
  let run := write_completely_at (zeros 8) 3 sample_payload 4 8 8
                                 (small_world [3; 1]) in
  fst run = 4
  /\ others_kept 3 (small_world [3; 1]) (snd run)
  /\ device_bytes (snd run) 3 8 8
     = Some (sample_payload ++ zeros 4)
  /\ device_bytes (snd run) 3 0 8 = device_bytes (small_world [3; 1]) 3 0 8.
Proof.
  cbv zeta.
  assert (Hr : 0 <= fst (write_completely_at (zeros 8) 3 sample_payload 4 8 8
                                             (small_world [3; 1])))
    by (vm_compute; intro C; discriminate C).
  assert (Hx : device_bytes
                 (snd (write_completely_at (zeros 8) 3 sample_payload 4 8 8
                                           (small_world [3; 1]))) 3 8 8
               = Some (sample_payload ++ zeros 4)
               /\ device_bytes
                    (snd (write_completely_at (zeros 8) 3 sample_payload 4 8 8
                                              (small_world [3; 1]))) 3 0 8
                  = device_bytes (small_world [3; 1]) 3 0 8)
    by (split; vm_compute; reflexivity).
  destruct (write_completely_at (zeros 8) 3 sample_payload 4 8 8
                                (small_world [3; 1])) as [r w'] eqn:E.
  cbn [fst snd] in *.
  destruct (write_completely_at_writes_the_range 8 3 sample_payload 4 8 8
              (small_world [3; 1]) r w' (sample_device 64 xff) E Hr
              ltac:(lia) ltac:(lia) eq_refl ltac:(vm_compute; lia))
    as (A & _ & _ & B & _).
  split; [exact A|]. split; [exact B|exact Hx].
Defined.

(** ** write_completely_at: what no call does *)

(** The device behind [fd] in [w'] is the one [d] of before but for the
    bytes from [lo] to [hi - 1] and the file position. *)
Lemma sys_write_frame (fd : Z) (buf : list byte) (count : Z) (w : world)
  (d : device) :
  w_dev w fd = Some d ->
  exists d', w_dev (snd (sys_write fd buf count w)) fd = Some d'
             /\ dev_size d' = dev_size d
             /\ dev_pos d <= dev_pos d' <= dev_pos d + Z.max count 0
             /\ forall x, x < dev_pos d \/ dev_pos d + count <= x ->
                          dev_data d' x = dev_data d x.
Proof.
  intros Hd. unfold sys_write. rewrite Hd.
  destruct (take_limit (w_io w)) as [lim io'].
  pose proof (xfer_le_count count (dev_size d - dev_pos d) lim) as C.
  destruct (xfer count (dev_size d - dev_pos d) lim <=? 0) eqn:G; cbn [snd].
  - exists d. cbn. rewrite Hd. repeat split; lia.
  - eexists. cbn. rewrite Z.eqb_refl. split; [reflexivity|].
    cbn [dev_size dev_pos dev_data]. repeat split; try lia.
    intros x Hx. apply poke_outside. rewrite length_firstn. lia.
Qed.

Lemma write_loop_frame (fuel : nat) (fd : Z) (buf : list byte)
  (remain total : Z) (w : world) (r : Z) (w' : world) (d : device) :
  write_loop fuel fd buf remain total w = Some (r, w') ->
  w_dev w fd = Some d ->
  exists d', w_dev w' fd = Some d' /\ dev_size d' = dev_size d
             /\ forall x, x < dev_pos d \/ dev_pos d + remain <= x ->
                          dev_data d' x = dev_data d x.
Proof.
  revert remain total w d.
  induction fuel as [|fuel IH]; intros remain total w d H Hd;
    cbn [write_loop] in H; destruct (remain <=? 0) eqn:E; try discriminate.
  - injection H as <- <-. exists d. auto.
  - injection H as <- <-. exists d. auto.
  - destruct (sys_write_frame fd (skipn (Z.to_nat total) buf) remain w d Hd)
      as (d1 & Hd1 & Sz1 & Ps1 & Dt1).
    destruct (sys_write fd (skipn (Z.to_nat total) buf) remain w) as [n w1]
      eqn:W.
    cbn [snd] in Hd1.
    destruct (n <=? 0) eqn:N.
    + injection H as <- <-. exists d1. auto.
    + destruct (sys_write_ok fd _ remain w n w1 W N)
        as (d0 & Hd0 & Hn & _ & Hd1').
      rewrite Hd in Hd0. injection Hd0 as <-.
      rewrite Hd1 in Hd1'. injection Hd1' as ->.
      destruct (IH _ _ _ _ H Hd1) as (d' & Hd' & Sz & Dt).
      cbn [dev_size dev_pos dev_data] in *.
      exists d'. split; [exact Hd'|]. split; [exact Sz|].
      intros x Hx. rewrite Dt by lia. apply poke_outside.
      rewrite length_firstn. lia.
Qed.

Lemma write_all_frame (fd : Z) (buf : list byte) (size : Z) (w : world)
  (d : device) :
  w_dev w fd = Some d ->
  exists d', w_dev (snd (write_all fd buf size w)) fd = Some d'
             /\ dev_size d' = dev_size d
             /\ forall x, x < dev_pos d \/ dev_pos d + size <= x ->
                          dev_data d' x = dev_data d x.
Proof.
  intros Hd. unfold write_all.
  destruct (write_loop (Z.to_nat size) fd buf size 0 w) as [[r w']|] eqn:E.
  - cbn [snd]. exact (write_loop_frame _ fd buf size 0 w r w' d E Hd).
  - exists d. auto.
Qed.

Lemma sys_lseek_dev (fd off : Z) (w : world) (d : device) :
  w_dev w fd = Some d ->
  exists p, w_dev (snd (sys_lseek fd off w)) fd
            = Some (mkDevice (dev_size d) (dev_data d) p)
            /\ ((fst (sys_lseek fd off w) =? -1) = false -> p = off).
Proof.
  intros Hd. unfold sys_lseek. rewrite Hd.
  destruct ((off <? 0) || (off >? dev_size d)) eqn:G; cbn [fst snd].
  - exists (dev_pos d). rewrite Hd. destruct d. split; [reflexivity|].
    discriminate.
  - exists off. cbn. rewrite Z.eqb_refl. auto.
Qed.

(** Whatever it returns, [write_completely_at] changes no byte outside
    the range it was given. *)
Lemma write_completely_at_frame (zb : list byte) (fd : Z) (buf : list byte)
  (bufsiz offset erase_size : Z) (w : world) (d : device) :
  w_dev w fd = Some d ->
  exists d',
    w_dev (snd (write_completely_at zb fd buf bufsiz offset erase_size w)) fd
    = Some d'
    /\ dev_size d' = dev_size d
    /\ forall x, x < offset \/ offset + Z.max bufsiz erase_size <= x ->
                 dev_data d' x = dev_data d x.
Proof.
  intros Hd. unfold write_completely_at.
  set (w0 := log (EvWriteAt fd offset bufsiz erase_size) w).
  assert (Hd0 : w_dev w0 fd = Some d) by exact Hd.
  destruct (sys_lseek_dev fd offset w0 d Hd0) as (p1 & Hd1 & Hp1).
  destruct (sys_lseek fd offset w0) as [r1 w1]. cbn [fst snd] in Hd1, Hp1.
  destruct (r1 =? -1) eqn:E1; cbn [snd].
  { eexists. split; [exact Hd1|]. auto. }
  specialize (Hp1 eq_refl). subst p1.
  destruct (negb (erase_size =? 0)).
  - destruct (write_all_frame fd zb erase_size w1 _ Hd1)
      as (d2 & Hd2 & Sz2 & Dt2).
    destruct (write_all fd zb erase_size w1) as [e w2]. cbn [snd] in Hd2.
    cbn [dev_size dev_pos dev_data] in Sz2, Dt2.
    destruct (e <? 0); cbn [snd].
    { exists d2. split; [exact Hd2|]. split; [exact Sz2|].
      intros x Hx. apply Dt2. lia. }
    assert (Hd3 : w_dev (sys_fsync fd w2) fd = Some d2) by exact Hd2.
    destruct (sys_lseek_dev fd offset _ d2 Hd3) as (p4 & Hd4 & Hp4).
    destruct (sys_lseek fd offset (sys_fsync fd w2)) as [r4 w4].
    cbn [fst snd] in Hd4, Hp4.
    destruct (r4 =? -1) eqn:E4; cbn [snd].
    { eexists. split; [exact Hd4|]. cbn [dev_size dev_data].
      split; [exact Sz2|]. intros x Hx. apply Dt2. lia. }
    specialize (Hp4 eq_refl). subst p4.
    destruct (write_all_frame fd buf bufsiz w4 _ Hd4) as (d' & Hd' & Sz & Dt).
    cbn [dev_size dev_pos dev_data] in Sz, Dt.
    exists d'. split; [exact Hd'|]. split; [congruence|].
    intros x Hx. rewrite Dt by lia. apply Dt2. lia.
  - destruct (write_all_frame fd buf bufsiz w1 _ Hd1) as (d' & Hd' & Sz & Dt).
    cbn [dev_size dev_pos dev_data] in Sz, Dt.
    exists d'. split; [exact Hd'|]. split; [exact Sz|].
    intros x Hx. apply Dt. lia.
Qed.

(** X3: whether it succeeds or fails half-way, [write_completely_at]
    changes no byte of the device outside [offset .. offset +
    max(bufsiz, erase_size) - 1], leaves the size of the device as it
    was, and touches no other device. *)
Theorem write_completely_at_stays_in_range (zb : list byte) (fd : Z)
  (buf : list byte) (bufsiz offset erase_size : Z) (w : world) (d : device)
  (r : Z) (w' : world) :
  write_completely_at zb fd buf bufsiz offset erase_size w = (r, w') ->
  w_dev w fd = Some d ->
  others_kept fd w w'
  /\ exists d', w_dev w' fd = Some d' /\ dev_size d' = dev_size d
                /\ forall x, x < offset
                             \/ offset + Z.max bufsiz erase_size <= x ->
                             dev_data d' x = dev_data d x.
Proof.
  intros H Hd.
  pose proof (write_completely_at_touches zb fd buf bufsiz offset erase_size w)
    as T.
  pose proof (write_completely_at_frame zb fd buf bufsiz offset erase_size w d
                Hd) as F.
  rewrite H in T, F. cbn [snd] in T, F. destruct T as (_ & O & _).
  split; assumption.
Qed.

Lemma write_completely_at_stays_in_range_witness :
  let run := write_completely_at (zeros 8) 3 long_payload 8 60 0
                                 (small_world []) in
  fst run = -1
  /\ device_bytes (snd run) 3 60 4 = Some sample_payload
  /\ others_kept 3 (small_world []) (snd run)
  /\ exists d', w_dev (snd run) 3 = Some d' /\ dev_size d' = 64
                /\ forall x, x < 60 \/ 60 + Z.max 8 0 <= x ->
                             dev_data d' x = xff.
Proof.
  cbv zeta.
  split; [vm_compute; reflexivity|]. split; [vm_compute; reflexivity|].
  destruct (write_completely_at (zeros 8) 3 long_payload 8 60 0
                                (small_world [])) as [r w'] eqn:E.
  cbn [snd].
  exact (write_completely_at_stays_in_range (zeros 8) 3 long_payload 8 60 0
           (small_world []) (sample_device 64 xff) r w' E eq_refl).
Defined.

(** ** Where the bytes of the devices can change *)

Lemma changed_only_within_refl (fd lo hi : Z) (w : world) :
  changed_only_within fd lo hi w w.
Proof.
  split; [reflexivity|]. intros f. destruct (w_dev w f); auto.
Qed.

Lemma changed_only_within_trans (fd lo hi : Z) (w1 w2 w3 : world) :
  changed_only_within fd lo hi w1 w2 -> changed_only_within fd lo hi w2 w3 ->
  changed_only_within fd lo hi w1 w3.
Proof.
  intros [N1 D1] [N2 D2]. split; [intros p; now rewrite N2|].
  intros f. specialize (D1 f). specialize (D2 f).
  destruct (w_dev w1 f), (w_dev w2 f), (w_dev w3 f); try tauto.
  destruct D1 as [S1 E1], D2 as [S2 E2]. split; [congruence|].
  intros x Hx. rewrite E2, E1; auto.
Qed.

Lemma changed_only_within_widen (fd lo hi lo' hi' : Z) (w w' : world) :
  lo' <= lo -> hi <= hi' ->
  changed_only_within fd lo hi w w' -> changed_only_within fd lo' hi' w w'.
Proof.
  intros Hlo Hhi [N D]. split; [exact N|]. intros f. specialize (D f).
  destruct (w_dev w f), (w_dev w' f); try tauto.
  destruct D as [S E]. split; [exact S|]. intros x Hx. apply E.
  intros Hf. specialize (Hx Hf). lia.
Qed.

Lemma same_devices_unchanged (fd lo hi : Z) (w w' : world) :
  same_devices w w' -> changed_only_within fd lo hi w w'.
Proof.
  intros [D N]. split; [intros p; now rewrite N|].
  intros f. specialize (D f).
  destruct (w_dev w f), (w_dev w' f); try tauto.
  destruct D as [S E]. split; [congruence|]. intros x _. now rewrite E.
Qed.

(** No byte at all has changed. *)
Lemma unchanged_same_devices (fd lo : Z) (w w' : world) :
  changed_only_within fd lo lo w w' -> same_devices w w'.
Proof.
  intros [N D]. split; [|intros p; now rewrite N].
  intros f. specialize (D f).
  destruct (w_dev w f), (w_dev w' f); try tauto.
  destruct D as [S E]. split; [congruence|]. intros x. rewrite E; [reflexivity|].
  intros _. lia.
Qed.

Lemma write_completely_at_changes (zb : list byte) (fd : Z) (buf : list byte)
  (bufsiz offset erase_size : Z) (w : world) :
  changed_only_within fd offset (offset + Z.max bufsiz erase_size) w
    (snd (write_completely_at zb fd buf bufsiz offset erase_size w)).
Proof.
  pose proof (write_completely_at_touches zb fd buf bufsiz offset erase_size w)
    as (_ & [O N] & K).
  split; [exact N|]. intros f.
  destruct (Z.eq_dec f fd) as [->|Hne].
  - destruct (w_dev w fd) as [d|] eqn:Hd.
    + destruct (write_completely_at_frame zb fd buf bufsiz offset erase_size
                  w d Hd) as (d' & Hd' & Sz & Dt).
      rewrite Hd'. split; [exact Sz|]. intros x Hx. apply Dt. now apply Hx.
    + exact K.
  - rewrite (O f Hne). destruct (w_dev w f); auto.
Qed.

(** ** maybe_update_bootpart *)

Section BootpartMore.

Variable X : externals.

(** An entry that is not the BCT: whatever the call returns, no byte
    outside the partition has changed. *)
Lemma maybe_update_bootpart_changes (g : globals) (bootfd gptfd : Z)
  (ent : update_entry_s) (p : gpt_entry_t) (initialize : Z)
  (bctctx : option Z) (w : world) :
  changed_only_within (part_fd g bootfd gptfd p) (part_offset g p)
    (part_offset g p + partsize_of p) w
    (snd (maybe_update_bootpart X g bootfd gptfd ent p false initialize
                                bctctx w)).
Proof.
  unfold maybe_update_bootpart.
  destruct (ent_length ent >? partsize_of p) eqn:Hsz;
    [apply changed_only_within_refl|].
  destruct (part_past g p && (gptfd <? 0)); [apply changed_only_within_refl|].
  match goal with
  | |- context [read_completely_at ?fd ?buf ?n ?off w] =>
      pose proof (read_completely_at_looks fd buf n off w) as [_ L];
      destruct (read_completely_at fd buf n off w) as [[r0 sb] w1]
  end.
  cbn [snd] in L.
  pose proof (same_devices_unchanged (part_fd g bootfd gptfd p)
                (part_offset g p) (part_offset g p + partsize_of p) w w1 L)
    as C1.
  destruct (r0 <? 0); [exact C1|].
  destruct (memcmp_eq _ _ _); [exact C1|].
  match goal with
  | |- context [write_completely_at ?zb ?fd ?buf ?n ?off ?er w1] =>
      pose proof (write_completely_at_changes zb fd buf n off er w1) as C2;
      destruct (write_completely_at zb fd buf n off er w1) as [r3 w3]
  end.
  cbn [snd] in C2.
  assert (C3 : changed_only_within (part_fd g bootfd gptfd p) (part_offset g p)
                 (part_offset g p + partsize_of p) w w3).
  { eapply changed_only_within_trans; [exact C1|].
    eapply changed_only_within_widen; [| |exact C2]; lia. }
  destruct (r3 <? 0); exact C3.
Qed.

(** X4: [maybe_update_bootpart] refuses a payload longer than the
    partition, and a partition whose start [first_lba * 512], as the
    64-bit product the code computes, is not below [bootdev_size] when
    there is no GPT device, both before any system call; and for an
    entry that is not the BCT, whatever the call returns, it has changed
    no byte outside [part_offset .. part_offset + partsize - 1] of the
    device the code chooses for the partition, and no size of a
    device. *)
Theorem maybe_update_bootpart_confined (g : globals) (bootfd gptfd : Z)
  (ent : update_entry_s) (p : gpt_entry_t) (is_bct : bool) (initialize : Z)
  (bctctx : option Z) (w : world) :
  (partsize_of p < ent_length ent ->
   maybe_update_bootpart X g bootfd gptfd ent p is_bct initialize bctctx w
   = (-1, bctctx, g, w))
  /\ (bootdev_size g <= u64 (first_lba p * 512) -> gptfd < 0 ->
      maybe_update_bootpart X g bootfd gptfd ent p is_bct initialize bctctx w
      = (-1, bctctx, g, w))
  /\ changed_only_within (part_fd g bootfd gptfd p) (part_offset g p)
       (part_offset g p + partsize_of p) w
       (snd (maybe_update_bootpart X g bootfd gptfd ent p false initialize
                                   bctctx w)).
Proof.
  split; [|split].
  - apply maybe_update_bootpart_too_large.
  - intros Hp Hg. unfold maybe_update_bootpart.
    destruct (ent_length ent >? partsize_of p); [reflexivity|].
    unfold part_past, part_start. rewrite geb_true by lia.
    now rewrite (proj2 (Z.ltb_lt gptfd 0) Hg).
  - apply maybe_update_bootpart_changes.
Qed.

End BootpartMore.

Lemma maybe_update_bootpart_confined_witness :
  maybe_update_bootpart sample_ext sector_globals 3 4
    (mkEntry "cboot" (Some (mkGptEntry 0 0)) "" 0 600) (mkGptEntry 0 0)
    false 0 None (sector_world [])
  = (-1, None, sector_globals, sector_world [])
  /\ maybe_update_bootpart sample_ext sector_globals 3 (-1) sector_entry
       (mkGptEntry 1 1) false 0 None (sector_world [])
     = (-1, None, sector_globals, sector_world [])
  /\ part_fd sector_globals 3 (-1) (mkGptEntry (2 ^ 55) (2 ^ 55)) = 3
  /\ part_offset sector_globals (mkGptEntry (2 ^ 55) (2 ^ 55)) = 0.
Proof.
  split; [|split; [|split; vm_compute; reflexivity]].
  - refine (proj1 (maybe_update_bootpart_confined sample_ext sector_globals 3 4
                     _ (mkGptEntry 0 0) false 0 None (sector_world [])) _).
    vm_compute. reflexivity.
  - refine (proj1 (proj2 (maybe_update_bootpart_confined sample_ext
                            sector_globals 3 (-1) sector_entry (mkGptEntry 1 1)
                            false 0 None (sector_world []))) _ _).
    + vm_compute. intro C. discriminate C.
    + lia.
Defined.

(** What a call that succeeds leaves on the device, with a zero-filled
    [zerobuf]. *)
Lemma write_completely_at_effect (k : Z) (fd : Z) (buf : list byte)
  (bufsiz offset erase_size : Z) (w : world) (r : Z) (w' : world)
  (d : device) :
  write_completely_at (zeros k) fd buf bufsiz offset erase_size w = (r, w') ->
  0 <= r -> 0 <= bufsiz -> 0 <= erase_size <= k -> w_dev w fd = Some d ->
  (Z.to_nat bufsiz <= List.length buf)%nat ->
  exists d',
    w_dev w' fd = Some d'
    /\ peek (dev_data d') offset (Z.to_nat bufsiz)
       = firstn (Z.to_nat bufsiz) buf
    /\ (forall x, offset + bufsiz <= x < offset + erase_size ->
                  dev_data d' x = zero_byte).
Proof.
  intros H Hr Hb He Hd Lb.
  assert (Hr' : (r <? 0) = false) by lia.
  assert (Lz : (Z.to_nat erase_size <= List.length (zeros k))%nat)
    by (unfold zeros; rewrite repeat_length; lia).
  destruct (write_completely_at_contents (zeros k) fd buf bufsiz offset
              erase_size w r w' d H Hr' Hd Lb Lz)
    as (_ & _ & _ & _ & (d' & Hd' & _ & _ & Dt)).
  assert (La : Z.of_nat (List.length (firstn (Z.to_nat erase_size) (zeros k)))
               = erase_size) by (rewrite length_firstn; lia).
  assert (Lp : Z.of_nat (List.length (firstn (Z.to_nat bufsiz) buf)) = bufsiz)
    by (rewrite length_firstn; lia).
  exists d'. split; [exact Hd'|]. split.
  - rewrite (peek_ext _ _ offset (Z.to_nat bufsiz) Dt).
    rewrite peek_poke_prefix by (rewrite length_firstn; lia).
    now rewrite firstn_firstn, Nat.min_id.
  - intros x Hx. rewrite Dt, poke_twice_between by lia.
    unfold zeros. apply nth_firstn_repeat.
Qed.

Lemma peek_zero (f : Z -> byte) (pos : Z) (n : nat) :
  (forall x, pos <= x < pos + Z.of_nat n -> f x = zero_byte) ->
  peek f pos n = repeat zero_byte n.
Proof.
  intros H. apply nth_ext with (d := zero_byte) (d' := zero_byte).
  - now rewrite peek_length, repeat_length.
  - intros i Hi. rewrite peek_length in Hi.
    rewrite peek_nth by assumption. rewrite nth_repeat. apply H. lia.
Qed.

Lemma partsize_of_nonneg (p : gpt_entry_t) : 0 <= partsize_of p.
Proof. unfold partsize_of, u64. apply Z.mod_pos_bound. lia. Qed.

Section BootpartSuccess.

Variable X : externals.

(** X5: when [maybe_update_bootpart] returns 0 for an entry that is not
    the BCT, the payload is not longer than the partition and the
    partition begins with the payload.  Either the partition began with
    it already and nothing was written, or [write_completely_at] was
    called once, on the partition, the partition is the payload
    followed by zeros to its end, and the last thing the call did is the
    [fsync] of the descriptor of the partition, the only descriptor
    written to; in both cases no [write] is left without a flush after
    it.  The descriptor and the offset are those the code computes from
    the 64-bit product [first_lba * 512]. *)
Theorem maybe_update_bootpart_installs (g : globals) (bootfd gptfd : Z)
  (ent : update_entry_s) (p : gpt_entry_t) (initialize : Z)
  (bctctx : option Z) (w : world) (b : option Z) (g' : globals) (w' : world)
  (k : Z) :
  maybe_update_bootpart X g bootfd gptfd ent p false initialize bctctx w
  = (0, b, g', w') ->
  0 <= ent_length ent ->
  (Z.to_nat (ent_length ent) <= List.length (contentbuf g))%nat ->
  zerobuf g = zeros k -> partsize_of p <= k ->
  let fd := part_fd g bootfd gptfd p in
  let payload := firstn (Z.to_nat (ent_length ent)) (contentbuf g) in
  ent_length ent <= partsize_of p
  /\ b = bctctx
  /\ device_bytes w' fd (part_offset g p) (ent_length ent) = Some payload
  /\ writes_flushed (new_events w w') = true
  /\ ((write_calls (new_events w w') = []
       /\ writes_in (new_events w w') = []
       /\ device_bytes w fd (part_offset g p) (ent_length ent) = Some payload)
      \/ (write_calls (new_events w w') = [(fd, part_offset g p)]
          /\ device_bytes w' fd (part_offset g p) (partsize_of p)
             = Some (payload ++ zeros (partsize_of p - ent_length ent))
          /\ exists pre, new_events w w' = pre ++ [EvFsync fd]
                         /\ forallb (writes_only fd) pre = true)).
Proof.
  intros H Hl Lc Hz Hk fd payload.
  assert (Lz : (Z.to_nat (partsize_of p) <= List.length (zerobuf g))%nat)
    by (rewrite Hz; unfold zeros; rewrite repeat_length; lia).
  destruct (maybe_update_bootpart_holds X g bootfd gptfd ent p initialize
              bctctx w 0 b g' w' H eq_refl Lc Lz) as [Hold _].
  destruct (maybe_update_bootpart_flush X g bootfd gptfd ent p false initialize
              bctctx w 0 b g' w' H eq_refl) as (evs & Ht & _).
  assert (Ff : writes_flushed evs = true).
  { destruct (maybe_update_bootpart_settled X g bootfd gptfd ent p false
                initialize bctctx w 0 b g' w' H eq_refl)
      as [[Wn _]|(fd' & pre & Hn & F & _)].
    - rewrite (new_events_app w w' evs Ht) in Wn.
      now apply writes_flushed_no_writes.
    - rewrite Ht in Hn. apply app_inv_head in Hn. rewrite Hn.
      now apply writes_flushed_fsync. }
  rewrite (new_events_app w w' evs Ht).
  revert H. unfold maybe_update_bootpart.
  destruct (ent_length ent >? partsize_of p) eqn:Hsz; [discriminate|].
  destruct (part_past g p && (gptfd <? 0)); [discriminate|].
  fold fd.
  destruct (read_completely_at fd (slotbuf g) (partsize_of p)
                               (part_offset g p) w) as [[r0 sb] w1] eqn:R.
  pose proof (read_completely_at_looks fd (slotbuf g) (partsize_of p)
                (part_offset g p) w) as L.
  rewrite R in L. cbn [snd] in L.
  destruct (r0 <? 0) eqn:E0; [discriminate|].
  destruct (read_completely_at_dev _ _ _ _ _ _ _ _ R E0) as [d Hd].
  pose proof (read_completely_at_ok _ _ _ _ _ _ _ _ d R E0 Hd) as Hsb.
  destruct (same_devices_dev w w1 fd d (proj2 L) Hd) as (d1 & Hd1 & Sz1 & Dt1).
  destruct (memcmp_eq (contentbuf (set_slotbuf sb g))
                      (slotbuf (set_slotbuf sb g)) (ent_length ent)) eqn:M.
  - intros H. injection H as <- <- <-.
    split; [lia|]. split; [reflexivity|]. split; [exact Hold|].
    split; [exact Ff|]. left.
    destruct (looks_no_writes w w1 L) as (C & W & _).
    rewrite (new_events_app w w1 evs Ht) in C, W.
    split; [exact C|]. split; [exact W|].
    unfold device_bytes. rewrite Hd. f_equal.
    apply memcmp_eq_iff in M. cbn [contentbuf slotbuf set_slotbuf] in M.
    fold payload in M. rewrite M, Hsb, firstn_app, peek_length.
    replace (Z.to_nat (ent_length ent) - Z.to_nat (partsize_of p))%nat
      with 0%nat by lia.
    cbn [firstn]. now rewrite app_nil_r, firstn_peek by lia.
  - cbn [contentbuf zerobuf set_slotbuf].
    destruct (write_completely_at (zerobuf g) fd (contentbuf g)
                (ent_length ent) (part_offset g p) (partsize_of p) w1)
      as [r3 w3] eqn:W.
    destruct (r3 <? 0) eqn:E3; [discriminate|].
    intros H. injection H as <- <- <-.
    split; [lia|]. split; [reflexivity|]. split; [exact Hold|].
    split; [exact Ff|]. right.
    pose proof (write_completely_at_calls (zerobuf g) fd (contentbuf g)
                  (ent_length ent) (part_offset g p) (partsize_of p) w1) as C.
    rewrite W in C. cbn [snd] in C.
    destruct (looks_no_writes w w1 L) as (C1 & _ & _).
    pose proof (looks_writes_only fd _ _ L) as (e1' & Ht1' & F1).
    destruct L as [(e1 & Ht1 & _) _].
    assert (e1' = e1) by (rewrite Ht1 in Ht1'; now apply app_inv_head in Ht1').
    subst e1'. clear Ht1'.
    pose proof (write_completely_at_touches (zerobuf g) fd (contentbuf g)
                  (ent_length ent) (part_offset g p) (partsize_of p) w1) as T.
    rewrite W in T. cbn [snd] in T.
    pose proof (touches_writes_only fd _ _ T) as (e2' & Ht2' & F2).
    destruct T as ((e2 & Ht2 & _) & _).
    assert (e2' = e2) by (rewrite Ht2 in Ht2'; now apply app_inv_head in Ht2').
    subst e2'. clear Ht2'.
    rewrite (new_events_app w w1 e1 Ht1) in C1.
    rewrite (new_events_app w1 w3 e2 Ht2) in C.
    assert (Hevs : evs = e1 ++ e2 ++ [EvFsync fd]).
    { cbn [sys_fsync log w_trace] in Ht. rewrite Ht2, Ht1 in Ht.
      rewrite <- !app_assoc in Ht. now apply app_inv_head in Ht. }
    split; [|split].
    3: { exists (e1 ++ e2). split; [now rewrite Hevs, <- app_assoc|].
         now rewrite forallb_app, F1, F2. }
    + rewrite Hevs, !write_calls_app, C1, C. reflexivity.
    + rewrite Hz in W.
      destruct (write_completely_at_effect k fd (contentbuf g)
                  (ent_length ent) (part_offset g p) (partsize_of p) w1 r3 w3
                  d1 W ltac:(lia) Hl
                  (conj (partsize_of_nonneg p) Hk) Hd1 Lc)
        as (d3 & Hd3 & Pk & Zr).
      unfold device_bytes. cbn [sys_fsync log w_dev]. rewrite Hd3. f_equal.
      replace (Z.to_nat (partsize_of p))
        with (Z.to_nat (ent_length ent)
              + Z.to_nat (partsize_of p - ent_length ent))%nat by lia.
      rewrite peek_app, Pk. f_equal.
      unfold zeros. apply peek_zero. intros x Hx. apply Zr. lia.
Qed.

End BootpartSuccess.

Lemma maybe_update_bootpart_installs_witness :
  let run := maybe_update_bootpart sample_ext sector_globals 3 4 sector_entry
               (mkGptEntry 0 0) false 0 None (sector_world [2]) in
  fst (fst (fst run)) = 0
  /\ device_bytes (snd run) 3 0 4 = Some sample_payload
  /\ write_calls (new_events (sector_world [2]) (snd run)) = [(3, 0)]
  /\ device_bytes (snd run) 3 0 512 = Some (sample_payload ++ zeros 508)
  /\ writes_flushed (new_events (sector_world [2]) (snd run)) = true
  /\ (let far := maybe_update_bootpart sample_ext sector_globals 3 (-1)
                    sector_entry (mkGptEntry (2 ^ 55) (2 ^ 55)) false 0 None
                    (sector_world []) in
      fst (fst (fst far)) = 0
      /\ write_calls (new_events (sector_world []) (snd far)) = [(3, 0)]).
Proof.
  cbv zeta.
  cut ((fst (fst (fst (maybe_update_bootpart sample_ext sector_globals 3 4
                        sector_entry (mkGptEntry 0 0) false 0 None
                        (sector_world [2])))) = 0
        /\ device_bytes
             (snd (maybe_update_bootpart sample_ext sector_globals 3 4
                     sector_entry (mkGptEntry 0 0) false 0 None
                     (sector_world [2]))) 3 0 4 = Some sample_payload
        /\ write_calls
             (new_events (sector_world [2])
                (snd (maybe_update_bootpart sample_ext sector_globals 3 4
                        sector_entry (mkGptEntry 0 0) false 0 None
                        (sector_world [2])))) = [(3, 0)]
        /\ device_bytes
             (snd (maybe_update_bootpart sample_ext sector_globals 3 4
                     sector_entry (mkGptEntry 0 0) false 0 None
                     (sector_world [2]))) 3 0 512
           = Some (sample_payload ++ zeros 508))
       /\ writes_flushed
            (new_events (sector_world [2])
               (snd (maybe_update_bootpart sample_ext sector_globals 3 4
                       sector_entry (mkGptEntry 0 0) false 0 None
                       (sector_world [2])))) = true).
  { intros [(A1 & A2 & A3 & A4) A5].
    split; [exact A1|]. split; [exact A2|]. split; [exact A3|].
    split; [exact A4|]. split; [exact A5|].
    split; vm_compute; reflexivity. }
  assert (Hr : fst (fst (fst (maybe_update_bootpart sample_ext sector_globals
                                3 4 sector_entry (mkGptEntry 0 0) false 0 None
                                (sector_world [2])))) = 0)
    by (vm_compute; reflexivity).
  assert (Hc : write_calls
                 (new_events (sector_world [2])
                    (snd (maybe_update_bootpart sample_ext sector_globals 3 4
                            sector_entry (mkGptEntry 0 0) false 0 None
                            (sector_world [2])))) = [(3, 0)])
    by (vm_compute; reflexivity).
  destruct (maybe_update_bootpart sample_ext sector_globals 3 4 sector_entry
              (mkGptEntry 0 0) false 0 None (sector_world [2]))
    as [[[r b] g'] w'] eqn:E.
  cbn [fst snd] in *. subst r.
  destruct (maybe_update_bootpart_installs sample_ext sector_globals 3 4
              sector_entry (mkGptEntry 0 0) 0 None (sector_world [2]) b g' w'
              512 E ltac:(cbn; lia) ltac:(vm_compute; lia) eq_refl
              ltac:(vm_compute; intro C; discriminate C))
    as (_ & _ & A & F & [(C & _)|(_ & B & _)]).
  - rewrite C in Hc. discriminate Hc.
  - split; [|exact F].
    split; [reflexivity|]. split; [exact A|]. split; [exact Hc|exact B].
Defined.

(** ** update_bct (tegra186/tegra194) *)

Section UpdateBctMore.

Variable X : externals.


End UpdateBctMore.




Section UpdateBctInstalls.

Variable X : externals.



End UpdateBctInstalls.


(** ** update_bct_t210 *)





Section T210More.

Variable X : externals.

(** X8: [update_bct_t210] refuses, before any system call and without
    moving [*which]: a call on another SoC, a NULL [which], a new BCT
    the validator rejects, a payload whose length is not a multiple of
    the page size, and a payload of which the copies of block 0 (two on
    SPI flash, one on eMMC) do not fit into one block. *)
Theorem update_bct_t210_refuses (g : globals) (bootfd : Z)
  (curbct : option (list byte)) (newbct : list byte) (ent : update_entry_s)
  (which : option Z) (w : world) :
  (soctype g <> TEGRA_SOCTYPE_210 ->
   update_bct_t210 X g bootfd curbct newbct ent which w = (-1, which, g, w))
  /\ (which = None ->
      update_bct_t210 X g bootfd curbct newbct ent which w = (-1, which, g, w))
  /\ (forall cur, curbct = Some cur ->
        fst (fst (bct_update_valid_t21x X cur newbct (bct_block_size g)
                                        (bct_page_size g))) = false ->
        update_bct_t210 X g bootfd curbct newbct ent which w
        = (-1, which, g, w))
  /\ (curbct = None -> ent_length ent mod bct_page_size g <> 0 ->
      update_bct_t210 X g bootfd curbct newbct ent which w = (-1, which, g, w))
  /\ (curbct = None ->
      bct_block_size g
      < ent_length ent * (if spiboot_platform g then 2 else 1) ->
      update_bct_t210 X g bootfd curbct newbct ent which w
      = (-1, which, g, w)).
Proof.
  unfold update_bct_t210. repeat split.
  - intros Hs. destruct (soctype g); try reflexivity. now elim Hs.
  - intros ->. now destruct (negb _).
  - intros cur -> Hv. destruct (negb _); [reflexivity|].
    destruct which as [wh|]; [|reflexivity].
    destruct (bct_update_valid_t21x X cur newbct (bct_block_size g)
                                    (bct_page_size g)) as [[v bs] ps].
    cbn [fst] in Hv. now subst v.
  - intros -> Hm. destruct (negb _); [reflexivity|].
    destruct which as [wh|]; [|reflexivity]. cbn [negb].
    now rewrite (proj2 (Z.eqb_neq _ _) Hm).
  - intros -> Hb. destruct (negb _); [reflexivity|].
    destruct which as [wh|]; [|reflexivity]. cbn [negb].
    destruct (negb (ent_length ent mod bct_page_size g =? 0)); [reflexivity|].
    now rewrite gtb_true by assumption.
Qed.

End T210More.

Lemma update_bct_t210_refuses_witness :
  update_bct_t210 sample_ext t186_bct_globals 3 None t210_payload
                  t210_bct_entry (Some (-1)) t210_world
  = (-1, Some (-1), t186_bct_globals, t210_world)
  /\ update_bct_t210 sample_ext t210_globals 3 None t210_payload
                     t210_bct_entry None t210_world
     = (-1, None, t210_globals, t210_world)
  /\ update_bct_t210 strict_ext t210_globals 3 (Some (zeros 16384))
                     t210_payload t210_bct_entry (Some (-1)) t210_world
     = (-1, Some (-1), t210_globals, t210_world)
  /\ update_bct_t210 sample_ext t210_globals 3 None t210_payload
                     (mkEntry "BCT" (Some (mkGptEntry 0 31)) "" 0 100)
                     (Some (-1)) t210_world
     = (-1, Some (-1), t210_globals, t210_world)
  /\ update_bct_t210 sample_ext t210_globals 3 None t210_payload
                     (mkEntry "BCT" (Some (mkGptEntry 0 31)) "" 0 32768)
                     (Some (-1)) t210_world
     = (-1, Some (-1), t210_globals, t210_world).
Proof.
  split; [|split; [|split; [|split]]].
  - refine (proj1 (update_bct_t210_refuses sample_ext t186_bct_globals 3 None
                     t210_payload t210_bct_entry (Some (-1)) t210_world) _).
    discriminate.
  - exact (proj1 (proj2 (update_bct_t210_refuses sample_ext t210_globals 3 None
                           t210_payload t210_bct_entry None t210_world))
             eq_refl).
  - exact (proj1 (proj2 (proj2 (update_bct_t210_refuses strict_ext t210_globals
                                  3 (Some (zeros 16384)) t210_payload
                                  t210_bct_entry (Some (-1)) t210_world)))
             (zeros 16384) eq_refl eq_refl).
  - refine (proj1 (proj2 (proj2 (proj2 (update_bct_t210_refuses sample_ext
              t210_globals 3 None t210_payload
              (mkEntry "BCT" (Some (mkGptEntry 0 31)) "" 0 100) (Some (-1))
              t210_world)))) eq_refl _).
    vm_compute. discriminate.
  - refine (proj2 (proj2 (proj2 (proj2 (update_bct_t210_refuses sample_ext
              t210_globals 3 None t210_payload
              (mkEntry "BCT" (Some (mkGptEntry 0 31)) "" 0 32768) (Some (-1))
              t210_world)))) eq_refl _).
    vm_compute. reflexivity.
Defined.



Section T210Phases.

Variable X : externals.


End T210Phases.


(** ** nvc_parts_match and the version gate *)

Lemma gate_scan_no_ver (g : globals) (l : list update_entry_s) :
  has_name l "VER" = false -> gv_ver0 (gate_scan g l) = None.
Proof.
  unfold gate_scan.
  assert (G : forall v, gv_ver0 v = None -> has_name l "VER" = false ->
              gv_ver0 (fold_left
                         (gate_scan_step (other_copy_name g "VER")
                                         (other_copy_name g "NVC")) l v)
              = None).
  { induction l as [|e l IH]; intros v Hv Hn; cbn [fold_left]; [exact Hv|].
    cbn [has_name existsb] in Hn. apply orb_false_iff in Hn.
    destruct Hn as [He Hl]. apply IH; [|exact Hl].
    unfold gate_scan_step. rewrite He.
    repeat match goal with
           | |- context [if ?c then _ else _] => destruct c
           end; exact Hv. }
  intros H. now apply G.
Qed.

Section GateMore.

Variable X : externals.

(** X10: whatever it answers, the version gate leaves the devices as
    they are: it makes seeks and reads only, never calls
    [write_completely_at] or [process_entry], and every device holds the
    bytes it held.  When the list of update tasks has no entry named
    VER, it answers [false] (the update may go on) without any system
    call and without reading from the package. *)
Theorem version_gate_only_reads (ctx : bup_context X) (g : globals)
  (bootfd gptfd : Z) (entry_list : list update_entry_s) (force : bool)
  (w : world) :
  (let w' := snd (invalid_version_or_downgrade X ctx g bootfd gptfd entry_list
                                               force w) in
   forallb is_seek_or_read (new_events w w') = true
   /\ writes_in (new_events w w') = []
   /\ write_calls (new_events w w') = []
   /\ processed_in (new_events w w') = []
   /\ same_devices w w')
  /\ (has_name entry_list "VER" = false ->
      invalid_version_or_downgrade X ctx g bootfd gptfd entry_list force w
      = (false, ctx, g, w)).
Proof.
  split.
  - cbv zeta.
    pose proof (invalid_version_or_downgrade_looks X ctx g bootfd gptfd
                  entry_list force w) as L.
    destruct (looks_no_writes _ _ L) as (C & W & P).
    destruct L as [S D]. destruct (steps_new_events _ _ _ S) as [_ F].
    split; [exact F|]. split; [exact W|]. split; [exact C|].
    split; [exact P|exact D].
  - intros H. unfold invalid_version_or_downgrade.
    now rewrite (gate_scan_no_ver g entry_list H).
Qed.

End GateMore.

Lemma version_gate_only_reads_witness :
  invalid_version_or_downgrade sample_ext (t210_payload, 0) t210_globals 3 4
                               [t210_bct_entry] false t210_world
  = (false, (t210_payload, 0), t210_globals, t210_world).
Proof.
  exact (proj2 (version_gate_only_reads sample_ext (t210_payload, 0)
                  t210_globals 3 4 [t210_bct_entry] false t210_world) eq_refl).
Defined.

Lemma same_devices_sym (w w' : world) : same_devices w w' -> same_devices w' w.
Proof.
  intros [D N]. split; [|intros p; now rewrite N].
  intros fd. specialize (D fd).
  destruct (w_dev w fd), (w_dev w' fd); try tauto.
  destruct D as [S E]. split; [congruence|]. intros x. now rewrite E.
Qed.

Section GateVerdict.

Variable X : externals.

(** A version info with a version other than 0 that the gate has got
    from a VER entry is what the partition of the entry parses to. *)
Lemma gate_read_ver_valid (g : globals) (bootfd gptfd : Z)
  (v : option update_entry_s) (w : world) (info : ver_info_s) (g' : globals)
  (w' : world) :
  gate_read_ver X g bootfd gptfd v w = (Some info, g', w') ->
  bsp_version info <> 0 ->
  exists e p, v = Some e /\ part e = Some p
              /\ partition_parses X g bootfd gptfd w p info.
Proof.
  unfold gate_read_ver. intros H Hn.
  destruct v as [e|]; [|injection H as <- _ _; now elim Hn].
  destruct (part e) as [p|] eqn:Hp; [|discriminate].
  exists e, p. split; [reflexivity|]. split; [exact Hp|].
  match type of H with
  | context [read_completely_at ?fd ?buf ?n ?off w] =>
      pose proof (read_completely_at_ok fd buf n off w) as R;
      pose proof (read_completely_at_dev fd buf n off w) as D;
      destruct (read_completely_at fd buf n off w) as [[r sb] w1]
  end.
  destruct (r <? 0) eqn:E; [discriminate|].
  destruct (D r sb w1 eq_refl E) as [d Hd].
  specialize (R r sb w1 d eq_refl E Hd).
  exists d. split; [exact Hd|].
  rewrite R in H.
  rewrite firstn_app, peek_length, Nat.sub_diag in H. cbn [firstn] in H.
  rewrite app_nil_r, firstn_all2 in H by (rewrite peek_length; lia).
  destruct (ver_extract_info X _) as [i|]; injection H as <- _ _;
    [reflexivity|now elim Hn].
Qed.

(** Without [force_initialize] the decision lets through one case only. *)
Lemma gate_decide_unforced (g : globals) (bootfd gptfd : Z) (vars : gate_vars)
  (v0 v1 b : ver_info_s) (w : world) (g' : globals) (w' : world) :
  gate_decide X g bootfd gptfd vars v0 v1 b false w = (false, g', w') ->
  bsp_version v0 = bsp_version v1 /\ bsp_version v0 <> 0
  /\ bsp_version v0 <= bsp_version b
  /\ (crc v0 = crc v1 ->
      fst (fst (nvc_parts_match X g bootfd gptfd (gv_nvc0 vars) (gv_nvc1 vars)
                                w)) = true).
Proof.
  unfold gate_decide. intros H.
  destruct ((bsp_version v0 =? bsp_version v1) && negb (bsp_version v0 =? 0))
    eqn:E.
  - apply andb_true_iff in E. destruct E as [E1 E2].
    apply Z.eqb_eq in E1. apply negb_true_iff, Z.eqb_neq in E2.
    destruct (bsp_version v0 >? bsp_version b) eqn:G; [discriminate|].
    split; [exact E1|]. split; [exact E2|]. split; [lia|].
    intros Hc. rewrite (proj2 (Z.eqb_eq _ _) Hc) in H.
    destruct (nvc_parts_match X g bootfd gptfd (gv_nvc0 vars) (gv_nvc1 vars) w)
      as [[m g1] w1].
    cbn [fst]. destruct m; [reflexivity|discriminate].
  - repeat match type of H with
           | context [if ?c then _ else _] => destruct c
           end; discriminate.
Qed.

(** X11: when the gate lets an update through that has a VER entry, and
    [force_initialize] is not set, then the package has a readable
    version, both VER entries are there with partitions that parse, the
    two partitions hold the same version, that version is not 0, and it
    is not above the version of the package: without force, no
    downgrade and no update over damaged version partitions gets
    through. *)
Theorem version_gate_lets_no_downgrade_through (ctx : bup_context X)
  (g : globals) (bootfd gptfd : Z) (entry_list : list update_entry_s)
  (w : world) (ctx' : bup_context X) (g' : globals) (w' : world)
  (e0 : update_entry_s) :
  invalid_version_or_downgrade X ctx g bootfd gptfd entry_list false w
  = (false, ctx', g', w') ->
  gv_ver0 (gate_scan g entry_list) = Some e0 ->
  exists e1 p0 p1 v0 v1 b,
    gv_ver1 (gate_scan g entry_list) = Some e1
    /\ part e0 = Some p0 /\ part e1 = Some p1
    /\ partition_parses X g bootfd gptfd w p0 v0
    /\ partition_parses X g bootfd gptfd w p1 v1
    /\ fst (fst (gate_bup_verinfo X ctx g e0)) = Some b
    /\ bsp_version v0 = bsp_version v1 /\ bsp_version v0 <> 0
    /\ bsp_version v0 <= bsp_version b.
Proof.
  unfold invalid_version_or_downgrade. intros H H0. rewrite H0 in H.
  destruct (gate_bup_verinfo_globals X ctx g e0) as [cb Hcb].
  destruct (gate_bup_verinfo X ctx g e0) as [[bv ctx2] g1].
  cbn [fst snd] in Hcb |- *. subst g1.
  destruct bv as [b|]; [|discriminate].
  pose proof (gate_read_ver_looks X (set_contentbuf cb g) bootfd gptfd
                (Some e0) w) as L0.
  destruct (gate_read_ver X (set_contentbuf cb g) bootfd gptfd (Some e0) w)
    as [[i0 g2] w1] eqn:R0.
  cbn [snd] in L0. destruct i0 as [v0|]; [|discriminate].
  pose proof (gate_read_ver_slotbuf_only X (set_contentbuf cb g) bootfd gptfd
                (Some e0) w) as [[_ [_ B2]] _].
  rewrite R0 in B2. cbn [fst snd] in B2.
  destruct (gate_read_ver X g2 bootfd gptfd (gv_ver1 (gate_scan g entry_list))
                          w1) as [[i1 g3] w2] eqn:R1.
  destruct i1 as [v1|]; [|discriminate].
  destruct (gate_decide X g3 bootfd gptfd (gate_scan g entry_list) v0 v1 b
                        false w2) as [[rej g4] w3] eqn:Dc.
  injection H as -> _ _ _.
  destruct (gate_decide_unforced _ _ _ _ _ _ _ _ _ _ Dc) as (E & N & Le & _).
  destruct (gate_read_ver_valid _ _ _ _ _ _ _ _ R0 N)
    as (e0' & p0 & He0 & Hp0 & P0).
  injection He0 as <-.
  assert (N1 : bsp_version v1 <> 0) by congruence.
  destruct (gate_read_ver_valid _ _ _ _ _ _ _ _ R1 N1)
    as (e1 & p1 & He1 & Hp1 & P1).
  exists e1, p0, p1, v0, v1, b.
  split; [exact He1|]. split; [exact Hp0|]. split; [exact Hp1|].
  split.
  { eapply partition_parses_later; [|apply same_devices_refl|exact P0].
    reflexivity. }
  split.
  { eapply partition_parses_later;
      [|apply same_devices_sym; exact (proj2 L0)|exact P1].
    cbn in B2. congruence. }
  repeat split; assumption.
Qed.

End GateVerdict.

Lemma version_gate_lets_no_downgrade_through_witness :
  fst (fst (fst (invalid_version_or_downgrade sample_ext ver5_package
                   ver_globals 3 4 ver_nvc_entries false ver_world))) = false
  /\ exists e1 p0 p1 v0 v1 b,
       gv_ver1 (gate_scan ver_globals ver_nvc_entries) = Some e1
       /\ part ver_entry = Some p0 /\ part e1 = Some p1
       /\ partition_parses sample_ext ver_globals 3 4 ver_world p0 v0
       /\ partition_parses sample_ext ver_globals 3 4 ver_world p1 v1
       /\ fst (fst (gate_bup_verinfo sample_ext ver5_package ver_globals
                                     ver_entry)) = Some b
       /\ bsp_version v0 = bsp_version v1 /\ bsp_version v0 <> 0
       /\ bsp_version v0 <= bsp_version b.
Proof.
  assert (Hr : fst (fst (fst (invalid_version_or_downgrade sample_ext
                 ver5_package ver_globals 3 4 ver_nvc_entries false
                 ver_world))) = false) by (vm_compute; reflexivity).
  split; [exact Hr|].
  destruct (invalid_version_or_downgrade sample_ext ver5_package ver_globals
              3 4 ver_nvc_entries false ver_world)
    as [[[rej ctx'] g'] w'] eqn:E.
  cbn [fst] in Hr. subst rej.
  exact (version_gate_lets_no_downgrade_through sample_ext ver5_package
           ver_globals 3 4 ver_nvc_entries ver_world ctx' g' w' ver_entry E
           eq_refl).
Defined.

Section NvcMore.

Variable X : externals.

(** One partition read for its CRC. *)
Lemma nvc_read_crc_ok (g : globals) (bootfd gptfd : Z) (p : gpt_entry_t)
  (w : world) (c : Z) (g' : globals) (w' : world) :
  nvc_read_crc X g bootfd gptfd p w = (Some c, g', w') ->
  exists d, w_dev w (part_fd g bootfd gptfd p) = Some d
            /\ part_offset g p + partsize_of p <= dev_size d
            /\ c = crc32 X (peek (dev_data d) (part_offset g p)
                                 (Z.to_nat (partsize_of p)))
            /\ g' = set_slotbuf (slotbuf g') g
            /\ same_devices w w'.
Proof.
  unfold nvc_read_crc. intros H.
  match type of H with
  | context [read_completely_at ?fd ?buf ?n ?off w] =>
      pose proof (read_completely_at_ok fd buf n off w) as R;
      pose proof (read_completely_at_dev fd buf n off w) as D;
      pose proof (read_completely_at_total fd buf n off w) as T;
      pose proof (read_completely_at_looks fd buf n off w) as L;
      destruct (read_completely_at fd buf n off w) as [[r sb] w1]
  end.
  cbn [snd] in L.
  destruct (r <? 0) eqn:E; [discriminate|]. injection H as <- <- <-.
  destruct (D r sb w1 eq_refl E) as [d Hd].
  specialize (R r sb w1 d eq_refl E Hd).
  destruct (T r sb w1 d eq_refl E Hd) as (_ & Ho & Room).
  pose proof (partsize_of_nonneg p) as Hp.
  exists d. split; [exact Hd|]. split.
  { destruct (Z.ltb_spec 0 (partsize_of p)); [apply Room; lia|lia]. }
  split; [|split; [reflexivity|exact (proj2 L)]].
  f_equal. rewrite R, firstn_app, peek_length, Nat.sub_diag. cbn [firstn].
  now rewrite app_nil_r, firstn_all2 by (rewrite peek_length; lia).
Qed.

(** X12: [nvc_parts_match] answers [false] without any system call when
    one of the two NVC entries, or the partition of one, is missing.
    When it answers [true], both entries are there, the two ranges it
    read - on the descriptor and at the offset the code computes from
    the 64-bit product [first_lba * 512], for the size of the partition
    - lie inside their devices, and the CRC-32 of the bytes of the one
    range equals the CRC-32 of the bytes of the other.  Whatever it
    answers, it has made seeks and reads only and the devices hold what
    they held. *)
Theorem nvc_parts_match_compares_the_copies (g : globals) (bootfd gptfd : Z)
  (nvc0 nvc1 : option update_entry_s) (w : world) :
  ((nvc0 = None \/ nvc1 = None
    \/ (exists e, nvc0 = Some e /\ part e = None)
    \/ (exists e, nvc1 = Some e /\ part e = None)) ->
   nvc_parts_match X g bootfd gptfd nvc0 nvc1 w = (false, g, w))
  /\ (forall g' w',
        nvc_parts_match X g bootfd gptfd nvc0 nvc1 w = (true, g', w') ->
        exists e0 e1 p0 p1 d0 d1,
          nvc0 = Some e0 /\ nvc1 = Some e1
          /\ part e0 = Some p0 /\ part e1 = Some p1
          /\ w_dev w (part_fd g bootfd gptfd p0) = Some d0
          /\ w_dev w (part_fd g bootfd gptfd p1) = Some d1
          /\ part_offset g p0 + partsize_of p0 <= dev_size d0
          /\ part_offset g p1 + partsize_of p1 <= dev_size d1
          /\ crc32 X (peek (dev_data d0) (part_offset g p0)
                           (Z.to_nat (partsize_of p0)))
             = crc32 X (peek (dev_data d1) (part_offset g p1)
                             (Z.to_nat (partsize_of p1))))
  /\ looks w (snd (nvc_parts_match X g bootfd gptfd nvc0 nvc1 w)).
Proof.
  split; [|split].
  - unfold nvc_parts_match.
    intros [->|[->|[(e & -> & He)|(e & -> & He)]]].
    + reflexivity.
    + now destruct nvc0.
    + destruct nvc1; now rewrite ?He.
    + destruct nvc0 as [e0|]; [|reflexivity]. rewrite He.
      now destruct (part e0).
  - unfold nvc_parts_match. intros g' w' H.
    destruct nvc0 as [e0|]; [|discriminate].
    destruct nvc1 as [e1|]; [|discriminate].
    destruct (part e0) as [p0|] eqn:P0; [|discriminate].
    destruct (part e1) as [p1|] eqn:P1; [|discriminate].
    destruct (nvc_read_crc X g bootfd gptfd p0 w) as [[c0 g1] w1] eqn:R0.
    destruct c0 as [crc0|]; [|discriminate].
    destruct (nvc_read_crc_ok _ _ _ _ _ _ _ _ R0)
      as (d0 & Hd0 & In0 & C0 & Hg1 & SD0).
    destruct (nvc_read_crc X g1 bootfd gptfd p1 w1) as [[c1 g2] w2] eqn:R1.
    destruct c1 as [crc1|]; [|discriminate].
    destruct (nvc_read_crc_ok _ _ _ _ _ _ _ _ R1)
      as (d1' & Hd1' & In1 & C1 & _ & _).
    injection H as Heq _ _. apply Z.eqb_eq in Heq.
    rewrite Hg1 in Hd1', In1, C1.
    change (part_fd (set_slotbuf (slotbuf g1) g) bootfd gptfd p1)
      with (part_fd g bootfd gptfd p1) in Hd1'.
    change (part_offset (set_slotbuf (slotbuf g1) g) p1)
      with (part_offset g p1) in In1, C1.
    destruct (same_devices_dev w1 w _ d1' (same_devices_sym _ _ SD0) Hd1')
      as (d1 & Hd1 & Sz1 & Dt1).
    exists e0, e1, p0, p1, d0, d1.
    repeat (split; [first [reflexivity|assumption|lia]|]).
    rewrite <- C0, Heq, C1. f_equal. apply peek_ext. intros x. now rewrite Dt1.
  - apply nvc_parts_match_looks.
Qed.

End NvcMore.

Lemma nvc_parts_match_compares_the_copies_witness :
  nvc_parts_match sample_ext ver_globals 3 4 None (Some ver_entry) ver_world
  = (false, ver_globals, ver_world)
  /\ fst (fst (nvc_parts_match sample_ext ver_globals 3 4
                 (Some (mkEntry "NVC" (Some (mkGptEntry 2 2)) "" 0 2))
                 (Some (mkEntry "NVC-1" (Some (mkGptEntry 3 3)) "" 0 2))
                 ver_world)) = true
  /\ (exists d0 d1,
         w_dev ver_world 3 = Some d0 /\ w_dev ver_world 3 = Some d1
         /\ crc32 sample_ext (peek (dev_data d0) 1024 512)
            = crc32 sample_ext (peek (dev_data d1) 1536 512))
  /\ fst (fst (nvc_parts_match sample_ext ver_globals 3 (-1)
                 (Some (mkEntry "NVC" (Some (mkGptEntry (2 ^ 55) (2 ^ 55)))
                                "" 0 2))
                 (Some (mkEntry "NVC-1" (Some (mkGptEntry (2 ^ 55) (2 ^ 55)))
                                "" 0 2))
                 ver_world)) = true.
Proof.
  split.
  - refine (proj1 (nvc_parts_match_compares_the_copies sample_ext ver_globals
                     3 4 None (Some ver_entry) ver_world) _).
    now left.
  - cut (fst (fst (nvc_parts_match sample_ext ver_globals 3 4
                 (Some (mkEntry "NVC" (Some (mkGptEntry 2 2)) "" 0 2))
                 (Some (mkEntry "NVC-1" (Some (mkGptEntry 3 3)) "" 0 2))
                 ver_world)) = true
         /\ exists d0 d1,
              w_dev ver_world 3 = Some d0 /\ w_dev ver_world 3 = Some d1
              /\ crc32 sample_ext (peek (dev_data d0) 1024 512)
                 = crc32 sample_ext (peek (dev_data d1) 1536 512)).
    { intros [A B]. split; [exact A|]. split; [exact B|].
      vm_compute. reflexivity. }
    assert (Hr : fst (fst (nvc_parts_match sample_ext ver_globals 3 4
                   (Some (mkEntry "NVC" (Some (mkGptEntry 2 2)) "" 0 2))
                   (Some (mkEntry "NVC-1" (Some (mkGptEntry 3 3)) "" 0 2))
                   ver_world)) = true) by (vm_compute; reflexivity).
    split; [exact Hr|].
    destruct (nvc_parts_match sample_ext ver_globals 3 4
                (Some (mkEntry "NVC" (Some (mkGptEntry 2 2)) "" 0 2))
                (Some (mkEntry "NVC-1" (Some (mkGptEntry 3 3)) "" 0 2))
                ver_world) as [[m g'] w'] eqn:E.
    cbn [fst] in Hr. subst m.
    destruct (proj1 (proj2 (nvc_parts_match_compares_the_copies sample_ext
                              ver_globals 3 4 _ _ ver_world)) g' w' E)
      as (e0 & e1 & p0 & p1 & d0 & d1 & H0 & H1 & P0 & P1 & D0 & D1 & _ & _
          & C).
    injection H0 as <-. injection H1 as <-.
    injection P0 as <-. injection P1 as <-.
    exists d0, d1. split; [exact D0|]. split; [exact D1|exact C].
Defined.

(** ** find_largest_partition *)

Lemma target_size_probes (ent : update_entry_s) (w : world) :
  steps is_probe w (snd (target_size ent w))
  /\ same_devices w (snd (target_size ent w)).
Proof.
  unfold target_size. destruct (part ent) as [p|];
    [split; [apply steps_refl|apply same_devices_refl]|].
  unfold sys_open.
  destruct (w_node w (devname ent) <? 0) eqn:Hn;
    [cbn; split; [apply steps_refl|apply same_devices_refl]|].
  destruct (w_dev w (w_node w (devname ent))) as [d|] eqn:Hd;
    [|cbn; split; [apply steps_refl|apply same_devices_refl]].
  rewrite Hn. unfold sys_lseek_end. cbn [w_dev log set_dev].
  rewrite Z.eqb_refl. cbn [dev_size dev_data].
  match goal with
  | |- context [if ?c then _ else _] => destruct c
  end; cbn [snd]; (split;
    [exists [EvOpen (devname ent) (w_node w (devname ent));
             EvLseek (w_node w (devname ent)) (dev_size d);
             EvClose (w_node w (devname ent))];
     split; [cbn; now rewrite <- !app_assoc|reflexivity]
    |split; [|reflexivity];
     intros fd; cbn; destruct (fd =? w_node w (devname ent)) eqn:E;
     [apply Z.eqb_eq in E; subst fd; rewrite Hd; cbn; auto
     |destruct (w_dev w fd); auto]]).
Qed.

Lemma target_size_ok (ent : update_entry_s) (w : world) (n : Z) (w' : world) :
  target_size ent w = (Some n, w') -> target_fits w ent n.
Proof.
  unfold target_size, target_fits. destruct (part ent) as [p|].
  - intros H. injection H as <- _. lia.
  - unfold sys_open.
    destruct (w_node w (devname ent) <? 0) eqn:Hn; [cbn; discriminate|].
    destruct (w_dev w (w_node w (devname ent))) as [d|] eqn:Hd;
      [|cbn; rewrite ?Hn; discriminate].
    rewrite Hn. unfold sys_lseek_end. cbn [w_dev log set_dev].
    rewrite Z.eqb_refl. cbn [dev_size dev_data].
    destruct (dev_size d =? -1) eqn:E; [discriminate|].
    intros H. injection H as <- _. exists d. split; [reflexivity|lia].
Qed.

Lemma target_fits_mono (w : world) (ent : update_entry_s) (l l' : Z) :
  l <= l' -> target_fits w ent l -> target_fits w ent l'.
Proof.
  unfold target_fits. intros H. destruct (part ent); [lia|].
  intros (d & Hd & Hs). exists d. split; [exact Hd|lia].
Qed.

Lemma target_fits_earlier (w w' : world) (ent : update_entry_s) (l : Z) :
  same_devices w w' -> target_fits w' ent l -> target_fits w ent l.
Proof.
  unfold target_fits. intros SD. destruct (part ent); [auto|].
  intros (d' & Hd' & Hs). destruct SD as [D N]. rewrite <- N in Hd'.
  specialize (D (w_node w (devname ent))). rewrite Hd' in D.
  destruct (w_dev w (w_node w (devname ent))) as [d|]; [|contradiction].
  destruct D as [S _]. exists d. split; [reflexivity|lia].
Qed.

Lemma steps_probe_trans (w1 w2 w3 : world) :
  steps is_probe w1 w2 -> steps is_probe w2 w3 -> steps is_probe w1 w3.
Proof. apply steps_trans. Qed.

Lemma largest_of_probes (entries : list update_entry_s) (largest : Z)
  (w : world) :
  steps is_probe w (snd (largest_of entries largest w))
  /\ same_devices w (snd (largest_of entries largest w)).
Proof.
  revert largest w. induction entries as [|ent rest IH]; intros largest w;
    cbn [largest_of]; [split; [apply steps_refl|apply same_devices_refl]|].
  destruct (target_size_probes ent w) as [S1 D1].
  destruct (target_size ent w) as [[n|] w1]; cbn [snd] in *;
    [|split; assumption].
  destruct (IH (if n >? largest then n else largest) w1) as [S2 D2].
  split; [eapply steps_trans|eapply same_devices_trans]; eassumption.
Qed.

Lemma largest_of_ok (entries : list update_entry_s) (largest : Z) (w : world)
  (l : Z) (w' : world) :
  largest_of entries largest w = (Some l, w') ->
  largest <= l /\ Forall (fun ent => target_fits w ent l) entries.
Proof.
  revert largest w. induction entries as [|ent rest IH]; intros largest w H;
    cbn [largest_of] in H.
  - injection H as <- _. split; [lia|constructor].
  - destruct (target_size_probes ent w) as [_ D1].
    destruct (target_size ent w) as [[n|] w1] eqn:T; [|discriminate].
    cbn [snd] in D1.
    pose proof (target_size_ok ent w n w1 T) as F.
    destruct (IH _ _ H) as [Hl Hr].
    assert (Hn : n <= l /\ largest <= l)
      by (destruct (n >? largest) eqn:G; lia).
    split; [lia|]. constructor.
    + eapply target_fits_mono; [|exact F]. lia.
    + eapply Forall_impl; [|exact Hr]. cbn. intros e He.
      eapply target_fits_earlier; eassumption.
Qed.

(** X13: when [find_largest_partition] succeeds, the size it gives is a
    multiple of 512 and every target of the two lists - GPT partition or
    partition node - has at most that many bytes: the buffers [slotbuf]
    and [zerobuf] allocated with it hold any of these targets.  Whatever
    the result, the function has only opened, sought and closed nodes;
    it has read and written nothing, and the devices are as they
    were. *)
Theorem find_largest_partition_covers (redundant nonredundant
  : list update_entry_s) (w : world) :
  (forall size w',
      find_largest_partition redundant nonredundant w = (Some size, w') ->
      size mod 512 = 0 /\ 0 <= size
      /\ Forall (fun ent => target_fits w ent size)
                (redundant ++ nonredundant))
  /\ forallb is_probe
       (new_events w (snd (find_largest_partition redundant nonredundant w)))
     = true
  /\ same_devices w (snd (find_largest_partition redundant nonredundant w)).
Proof.
  unfold find_largest_partition.
  destruct (largest_of_probes redundant 0 w) as [S1 D1].
  pose proof (largest_of_ok redundant 0 w) as O1.
  destruct (largest_of redundant 0 w) as [[l1|] w1]; cbn [snd] in *.
  - destruct (largest_of_probes nonredundant l1 w1) as [S2 D2].
    pose proof (largest_of_ok nonredundant l1 w1) as O2.
    destruct (largest_of nonredundant l1 w1) as [[l2|] w2]; cbn [snd] in *.
    + destruct (O1 l1 w1 eq_refl) as [H1 F1].
      destruct (O2 l2 w2 eq_refl) as [H2 F2].
      assert (R : l2 <= 512 * ((l2 + 511) / 512)).
      { pose proof (Z.div_mod (l2 + 511) 512 ltac:(lia)) as A.
        pose proof (Z.mod_pos_bound (l2 + 511) 512 ltac:(lia)) as B. lia. }
      split; [|split].
      * intros size w' H.
        assert (Hs : 512 * ((l2 + 511) / 512) = size) by congruence.
        clear H. rewrite <- Hs.
        split; [rewrite Z.mul_comm; apply Z.mod_mul; lia|].
        split; [lia|]. apply Forall_app. split.
        -- eapply Forall_impl; [|exact F1]. cbv beta. intros e He.
           eapply target_fits_mono; [|exact He]. lia.
        -- eapply Forall_impl; [|exact F2]. cbv beta. intros e He.
           eapply target_fits_earlier; [exact D1|].
           eapply target_fits_mono; [|exact He]. lia.
      * exact (proj2 (steps_new_events _ _ _ (steps_trans _ _ _ _ S1 S2))).
      * eapply same_devices_trans; eassumption.
    + split; [discriminate|]. split.
      * exact (proj2 (steps_new_events _ _ _ (steps_trans _ _ _ _ S1 S2))).
      * eapply same_devices_trans; eassumption.
  - split; [discriminate|]. split; [|exact D1].
    exact (proj2 (steps_new_events _ _ _ S1)).
Qed.

Lemma find_largest_partition_covers_witness :
  fst (find_largest_partition
         [mkEntry "cboot" (Some (mkGptEntry 0 2)) "" 0 4] [node_entry 4]
         (sector_world [])) = Some 1536
  /\ Forall (fun ent => target_fits (sector_world []) ent 1536)
            ([mkEntry "cboot" (Some (mkGptEntry 0 2)) "" 0 4]
             ++ [node_entry 4]).
Proof.
  assert (Hr : fst (find_largest_partition
                      [mkEntry "cboot" (Some (mkGptEntry 0 2)) "" 0 4]
                      [node_entry 4] (sector_world [])) = Some 1536)
    by (vm_compute; reflexivity).
  split; [exact Hr|].
  destruct (find_largest_partition
              [mkEntry "cboot" (Some (mkGptEntry 0 2)) "" 0 4] [node_entry 4]
              (sector_world [])) as [s w'] eqn:E.
  cbn [fst] in Hr. subst s.
  exact (proj2 (proj2 (proj1 (find_largest_partition_covers
                                [mkEntry "cboot" (Some (mkGptEntry 0 2)) "" 0 4]
                                [node_entry 4] (sector_world []))
                         1536 w' E))).
Defined.

(** ** find_entry_by_name *)

Lemma find_from_shift (l : list update_entry_s) (i : nat) (name : string) :
  find_from l i name = option_map (Nat.add i) (find_from l 0 name).
Proof.
  revert i. induction l as [|a l IH]; intros i; cbn [find_from option_map];
    [reflexivity|].
  destruct (String.eqb (partname a) name); cbn [option_map].
  - f_equal. lia.
  - rewrite (IH (S i)), (IH 1%nat).
    destruct (find_from l 0 name); cbn [option_map]; [f_equal; lia|reflexivity].
Qed.

Lemma find_entry_by_name_some (l : list update_entry_s) (name : string)
  (k : nat) :
  find_entry_by_name l name = Some k
  <-> (exists e, nth_error l k = Some e /\ partname e = name)
      /\ forall j e', (j < k)%nat -> nth_error l j = Some e' ->
                      partname e' <> name.
Proof.
  unfold find_entry_by_name. revert k.
  induction l as [|a l IH]; intros k; cbn [find_from].
  - split; [discriminate|]. intros [(e & He & _) _]. now destruct k.
  - destruct (String.eqb (partname a) name) eqn:E.
    + apply String.eqb_eq in E. split.
      * intros H. injection H as <-. split; [exists a; auto|].
        intros j e' Hj. lia.
      * intros [_ Hno]. destruct k as [|k]; [reflexivity|].
        elim (Hno 0%nat a ltac:(lia) eq_refl). exact E.
    + apply String.eqb_neq in E. rewrite find_from_shift.
      destruct k as [|k].
      * split.
        -- destruct (find_from l 0 name); discriminate.
        -- intros [(e & He & Hn) _]. cbn in He. injection He as <-.
           contradiction.
      * specialize (IH k). split.
        -- intros H. destruct (find_from l 0 name) as [k'|]; [|discriminate].
           cbn in H. injection H as <-.
           destruct (proj1 IH eq_refl) as [He Hno]. split; [exact He|].
           intros j e' Hj Hn. destruct j as [|j].
           ++ cbn in Hn. injection Hn as <-. exact E.
           ++ cbn in Hn. apply (Hno j e'); [lia|exact Hn].
        -- intros [He Hno].
           assert (F : find_from l 0 name = Some k).
           { apply IH. split; [exact He|].
             intros j e' Hj Hn. apply (Hno (S j) e'); [lia|exact Hn]. }
           now rewrite F.
Qed.

Lemma find_entry_by_name_none (l : list update_entry_s) (name : string) :
  find_entry_by_name l name = None
  <-> forall e, In e l -> partname e <> name.
Proof.
  unfold find_entry_by_name.
  induction l as [|a l IH]; cbn [find_from].
  - split; [intros _ e []|reflexivity].
  - destruct (String.eqb (partname a) name) eqn:E.
    + apply String.eqb_eq in E. split; [discriminate|].
      intros H. elim (H a (or_introl eq_refl)). exact E.
    + apply String.eqb_neq in E. rewrite find_from_shift. split.
      * intros H. destruct (find_from l 0 name); [discriminate|].
        intros e [<-|He]; [exact E|]. now apply (proj1 IH).
      * intros H. rewrite (proj2 IH); [reflexivity|].
        intros e He. apply H. now right.
Qed.

(** X14: [find_entry_by_name] returns the first entry that bears the
    name: it gives the entry at index [k] exactly when that entry bears
    the name and no entry before it does, and it gives NULL exactly when
    no entry of the list bears the name. *)
Theorem find_entry_by_name_first_match (l : list update_entry_s)
  (name : string) :
  (forall k,
      find_entry_by_name l name = Some k
      <-> (exists e, nth_error l k = Some e /\ partname e = name)
          /\ forall j e', (j < k)%nat -> nth_error l j = Some e' ->
                          partname e' <> name)
  /\ (find_entry_by_name l name = None
      <-> forall e, In e l -> partname e <> name).
Proof.
  split; [intros k; apply find_entry_by_name_some
         |apply find_entry_by_name_none].
Qed.

Lemma find_entry_by_name_first_match_witness :
  find_entry_by_name
    (map named_entry ["BCT"; "mb1"; "BCT"; "mb2"]) "BCT" = Some 0%nat
  /\ find_entry_by_name
       (map named_entry ["BCT"; "mb1"; "BCT"; "mb2"]) "mb2" = Some 3%nat
  /\ find_entry_by_name
       (map named_entry ["BCT"; "mb1"; "BCT"; "mb2"]) "VER" = None.
Proof.
  destruct (find_entry_by_name_first_match
              (map named_entry ["BCT"; "mb1"; "BCT"; "mb2"]) "BCT") as [A _].
  destruct (find_entry_by_name_first_match
              (map named_entry ["BCT"; "mb1"; "BCT"; "mb2"]) "mb2") as [B _].
  destruct (find_entry_by_name_first_match
              (map named_entry ["BCT"; "mb1"; "BCT"; "mb2"]) "VER") as [_ C].
  split; [|split].
  - apply (proj2 (A 0%nat)). split; [eexists; split; reflexivity|].
    intros j e' Hj. lia.
  - apply (proj2 (B 3%nat)). split; [eexists; split; reflexivity|].
    intros j e' Hj Hn.
    destruct j as [|[|[|j]]]; [| | |lia];
      cbn in Hn; injection Hn as <-; cbn; discriminate.
  - apply (proj2 C). intros e [<-|[<-|[<-|[<-|[]]]]]; cbn; discriminate.
Defined.

(** ** order_entries_t210: the length of the order *)

Lemma filter_fst_combine_length (A : Type) (f : nat -> bool) (l : list A)
  (a : nat) :
  List.length (filter (fun ie => f (fst ie)) (combine (seq a (List.length l)) l))
  = List.length (filter f (seq a (List.length l))).
Proof.
  revert a. induction l as [|x l IH]; intros a; [reflexivity|].
  cbn [List.length seq combine filter fst].
  destruct (f a); cbn [List.length]; now rewrite IH.
Qed.

Lemma not_consumed_length (orig : list update_entry_s) (used : list nat) :
  List.length (not_consumed orig used)
  = List.length (filter (fun i => negb (is_used used i))
                        (seq 0 (List.length orig))).
Proof.
  unfold not_consumed. rewrite length_map.
  exact (filter_fst_combine_length _ (fun i => negb (is_used used i)) orig 0).
Qed.

Lemma filter_same (A : Type) (f h : A -> bool) (l : list A) :
  (forall a, In a l -> f a = h a) -> filter f l = filter h l.
Proof.
  induction l as [|a l IH]; intros H; [reflexivity|]. cbn [filter].
  rewrite (H a (or_introl eq_refl)), IH; [reflexivity|].
  intros b Hb. apply H. now right.
Qed.

Lemma filter_remove_one (q : nat -> bool) (k : nat) (l : list nat) :
  NoDup l -> In k l -> q k = true ->
  (List.length (filter (fun i => negb (Nat.eqb i k) && q i) l) + 1
   = List.length (filter q l))%nat.
Proof.
  induction l as [|a l IH]; intros Hnd Hin Hq; [destruct Hin|].
  inversion Hnd as [|a' l' Hna Hnd']; subst. cbn [filter].
  destruct (Nat.eq_dec a k) as [->|Hne].
  - rewrite Nat.eqb_refl, Hq. cbn [negb andb List.length].
    rewrite (filter_same _ (fun i => negb (Nat.eqb i k) && q i) q l); [lia|].
    intros i Hi. destruct (Nat.eqb_spec i k) as [->|]; [contradiction|].
    reflexivity.
  - destruct Hin as [->|Hin]; [contradiction|].
    rewrite (proj2 (Nat.eqb_neq a k) Hne). cbn [negb andb].
    destruct (q a); cbn [List.length]; rewrite <- (IH Hnd' Hin Hq); lia.
Qed.

Lemma template_indices_app (orig : list update_entry_s) (l1 l2 : list string) :
  template_indices orig (l1 ++ l2)
  = template_indices orig l1 ++ template_indices orig l2.
Proof.
  induction l1 as [|n l1 IH]; [reflexivity|]. cbn [app template_indices].
  destruct (find_entry_by_name orig n); now rewrite IH.
Qed.

Lemma template_indices_in (orig : list update_entry_s) (names : list string)
  (k : nat) :
  In k (template_indices orig names)
  <-> exists name, In name names /\ find_entry_by_name orig name = Some k.
Proof.
  induction names as [|n names IH]; cbn [template_indices].
  - split; [intros []|intros (x & [] & _)].
  - destruct (find_entry_by_name orig n) as [j|] eqn:F.
    + split.
      * intros [<-|H]; [exists n; split; [now left|exact F]|].
        destruct (proj1 IH H) as (x & Hx & Fx). exists x. split; [now right|auto].
      * intros (x & [<-|Hx] & Fx).
        -- left. congruence.
        -- right. apply IH. eauto.
    + split.
      * intros H. destruct (proj1 IH H) as (x & Hx & Fx).
        exists x. split; [now right|auto].
      * intros (x & [<-|Hx] & Fx); [congruence|]. apply IH. eauto.
Qed.

Lemma template_matches_length (orig : list update_entry_s)
  (names : list string) :
  List.length (template_matches orig names)
  = List.length (template_indices orig names).
Proof.
  induction names as [|n names IH]; [reflexivity|].
  cbn [template_matches template_indices].
  unfold find_entry_by_name.
  destruct (find_from orig 0 n) as [k|] eqn:F.
  - destruct (find_from_some orig 0 n k F) as (_ & e & _ & Fe).
    rewrite Fe. cbn [List.length]. now rewrite IH.
  - now rewrite (find_from_none orig 0 n F).
Qed.

Lemma is_used_cons (k : nat) (used : list nat) (i : nat) :
  is_used (k :: used) i = Nat.eqb i k || is_used used i.
Proof. reflexivity. Qed.

Lemma is_used_in (used : list nat) (i : nat) :
  is_used used i = true <-> In i used.
Proof.
  unfold is_used. rewrite existsb_exists. split.
  - intros (x & Hx & E). apply Nat.eqb_eq in E. now subst.
  - intros H. exists i. split; [exact H|apply Nat.eqb_refl].
Qed.

(** Every entry the template has used is counted once, however often
    its name stands in the template. *)
Lemma template_use_count (orig : list update_entry_s) (names : list string) :
  (List.length (filter (fun i => negb (is_used (template_indices orig names) i))
                       (seq 0 (List.length orig)))
   + List.length (template_indices orig (nodup string_dec names))
   = List.length orig)%nat.
Proof.
  induction names as [|n names IH].
  - cbn [template_indices nodup List.length].
    rewrite (filter_same _ _ (fun _ => true)) by reflexivity.
    assert (F : forall l : list nat, filter (fun _ => true) l = l)
      by (induction l as [|x l IHl]; cbn; [|rewrite IHl]; reflexivity).
    rewrite F, length_seq. lia.
  - cbn [template_indices nodup].
    destruct (find_entry_by_name orig n) as [k|] eqn:F.
    + destruct (in_dec string_dec n names) as [Hin|Hnin].
      * assert (Hk : In k (template_indices orig names))
          by (apply template_indices_in; eauto).
        rewrite (filter_same _ _
                   (fun i => negb (is_used (template_indices orig names) i)));
          [exact IH|].
        intros i _. rewrite is_used_cons.
        destruct (Nat.eqb_spec i k) as [->|]; [|reflexivity].
        cbn [orb]. symmetry. f_equal. now apply is_used_in.
      * cbn [template_indices]. rewrite F. cbn [List.length].
        destruct (proj1 (find_entry_by_name_some orig n k) F)
          as [(e & He & Hn) _].
        assert (Hlt : (k < List.length orig)%nat)
          by (apply nth_error_Some; congruence).
        assert (Hq : negb (is_used (template_indices orig names) k) = true).
        { apply negb_true_iff. destruct (is_used _ k) eqn:U; [|reflexivity].
          apply is_used_in, template_indices_in in U.
          destruct U as (n' & Hn' & F').
          destruct (proj1 (find_entry_by_name_some orig n' k) F')
            as [(e' & He' & Hne') _].
          rewrite He in He'. injection He' as <-. congruence. }
        assert (Hseq : In k (seq 0 (List.length orig)))
          by (apply in_seq; lia).
        pose proof (filter_remove_one
                      (fun i => negb (is_used (template_indices orig names) i))
                      k (seq 0 (List.length orig)) (seq_NoDup _ _) Hseq Hq)
          as R.
        rewrite (filter_same _ _
                   (fun i => negb (Nat.eqb i k)
                             && negb (is_used (template_indices orig names) i)))
          by (intros i _; rewrite is_used_cons; now destruct (Nat.eqb i k)).
        lia.
    + destruct (in_dec string_dec n names); [exact IH|].
      cbn [template_indices]. rewrite F. exact IH.
Qed.

Lemma t210_update_list_shape (g : globals) :
  t210_update_list g
  = ["VER_b"; "BCT"] ++ t210_copy_names g ++ ["BCT"; "BCT"]
    ++ t210_primary_names
  /\ nodup string_dec (t210_update_list g)
     = ["VER_b"] ++ t210_copy_names g ++ ["BCT"] ++ t210_primary_names.
Proof.
  unfold t210_update_list, t210_copy_names.
  destruct (spiboot_platform g); split; vm_compute; reflexivity.
Qed.

(** X15: when [order_entries_t210] succeeds (at most 128 update tasks,
    and an entry for every template name that does not begin with EKS),
    the order it returns has exactly two entries more than the list it
    was given, since the template names the BCT three times and every
    other partition once; the number it returns is the length of that
    order. *)
Theorem order_entries_t210_two_more (g : globals)
  (orig : list update_entry_s) :
  Z.of_nat (List.length orig) <= 128 ->
  (forall name, In name (t210_update_list g) -> has_name orig name = false ->
                is_eks name = true) ->
  fst (order_entries_t210 g orig) = Z.of_nat (List.length orig) + 2
  /\ List.length (snd (order_entries_t210 g orig))
     = (List.length orig + 2)%nat.
Proof.
  intros Hlen Hopt.
  destruct (order_entries_t210_ok g orig Hlen Hopt) as [E _].
  cbv zeta in E. rewrite E. cbn [fst snd].
  assert (L : List.length
                (template_matches orig (t210_update_list g)
                 ++ not_consumed orig
                      (template_indices orig (t210_update_list g)))
              = (List.length orig + 2)%nat).
  { rewrite length_app, template_matches_length, not_consumed_length.
    pose proof (template_use_count orig (t210_update_list g)) as U.
    destruct (t210_update_list_shape g) as [S N]. rewrite N in U.
    assert (B : List.length (template_indices orig ["BCT"]) = 1%nat).
    { cbn [template_indices].
      destruct (find_entry_by_name orig "BCT") eqn:F; [reflexivity|].
      assert (Hin : In "BCT" (t210_update_list g))
        by (rewrite S; right; now left).
      assert (Hno : has_name orig "BCT" = false).
      { apply has_name_find. unfold find_entry_by_name in F.
        exact (find_from_none orig 0 "BCT" F). }
      specialize (Hopt _ Hin Hno). discriminate. }
    rewrite S at 1. rewrite !template_indices_app, !length_app in U |- *.
    change ["VER_b"; "BCT"] with (["VER_b"] ++ ["BCT"]).
    change ["BCT"; "BCT"] with (["BCT"] ++ ["BCT"]).
    rewrite !template_indices_app, !length_app. lia. }
  split; [rewrite L; lia|exact L].
Qed.

Lemma order_entries_t210_two_more_witness :
  List.length spi_entries = 16%nat
  /\ fst (order_entries_t210 spi_globals spi_entries) = 18
  /\ List.length (snd (order_entries_t210 spi_globals spi_entries)) = 18%nat.
Proof.
  split; [reflexivity|].
  refine (order_entries_t210_two_more spi_globals spi_entries _ _).
  - vm_compute. discriminate.
  - intros name Hin.
    repeat (destruct Hin as [<-|Hin]; [vm_compute; congruence|]).
    destruct Hin.
Defined.

(** ** The loops over the update tasks, dry runs and exit codes *)

Lemma touches_device_calls (fd : Z) (w w' : world) :
  touches fd w w' -> steps is_device_call w w'.
Proof.
  intros (S & _). eapply steps_weaken; [|exact S].
  intros e. destruct e; cbn; try discriminate; reflexivity.
Qed.

Lemma looks_device_calls (w w' : world) :
  looks w w' -> steps is_device_call w w'.
Proof.
  intros (S & _). eapply steps_weaken; [|exact S].
  intros e. destruct e; cbn; try discriminate; reflexivity.
Qed.

Lemma sys_open_device_calls (path : string) (w : world) :
  steps is_device_call w (snd (sys_open path w)).
Proof.
  unfold sys_open. destruct (w_node w path <? 0); [apply steps_refl|].
  destruct (w_dev w (w_node w path)); [|apply steps_refl].
  eexists [_]. split; reflexivity.
Qed.

Section EntryEvents.
Variable X : externals.

Lemma update_bct_device_calls (g : globals) (bootfd : Z)
  (curbct : option (list byte)) (newbct : list byte) (ent : update_entry_s)
  (w : world) :
  steps is_device_call w (snd (update_bct X g bootfd curbct newbct ent w)).
Proof.
  unfold update_bct.
  destruct (soc_eqb (soctype g) TEGRA_SOCTYPE_210); [apply steps_refl|].
  match goal with
  | |- context [if ?c then (-1, g, w) else _] => destruct c
  end; [apply steps_refl|].
  pose proof (update_bct_loop_touches g bootfd curbct newbct ent [0; 1; 2] w)
    as T.
  destruct (update_bct_loop g bootfd curbct newbct ent [0; 1; 2] w) as [r w1].
  cbn [snd] in T. apply touches_device_calls in T.
  destruct (r <? 0); cbn [snd]; [exact T|].
  eapply steps_trans; [exact T|]. now apply steps_log.
Qed.

Lemma update_bct_t210_device_calls (g : globals) (bootfd : Z)
  (curbct : option (list byte)) (newbct : list byte) (ent : update_entry_s)
  (which : option Z) (w : world) :
  steps is_device_call w
    (snd (update_bct_t210 X g bootfd curbct newbct ent which w)).
Proof.
  unfold update_bct_t210.
  destruct (negb (soc_eqb (soctype g) TEGRA_SOCTYPE_210));
    [apply steps_refl|].
  destruct which as [wh|]; [|apply steps_refl].
  assert (V : exists valid bs ps,
             match curbct with
             | None => (true, bct_block_size g, bct_page_size g)
             | Some cur =>
                 bct_update_valid_t21x X cur newbct (bct_block_size g)
                                       (bct_page_size g)
             end = (valid, bs, ps)).
  { destruct curbct as [cur|]; [|eauto].
    destruct (bct_update_valid_t21x X cur newbct (bct_block_size g)
                                    (bct_page_size g)) as [[v b] q]. eauto. }
  destruct V as (valid & bs & ps & ->).
  destruct (negb valid); [apply steps_refl|].
  destruct (negb (ent_length ent mod ps =? 0)); [apply steps_refl|].
  destruct (_ >? bs); [apply steps_refl|].
  destruct (bct_phase wh (bctcount_of bs ent)) as [[bctstart bctend] next].
  match goal with
  | |- context [update_bct_t210_loop ?a ?b ?c ?d ?e ?f ?h ?i ?j ?k] =>
      pose proof (update_bct_t210_loop_touches a b c d e f h i j k) as T;
      destruct (update_bct_t210_loop a b c d e f h i j k) as [r w1]
  end.
  cbn [snd] in T. apply touches_device_calls in T.
  destruct (r <? 0); cbn [snd]; [exact T|].
  eapply steps_trans; [exact T|]. now apply steps_log.
Qed.

Lemma maybe_update_bootpart_device_calls (g : globals) (bootfd gptfd : Z)
  (ent : update_entry_s) (p : gpt_entry_t) (is_bct : bool) (initialize : Z)
  (bctctx : option Z) (w : world) :
  steps is_device_call w
    (snd (maybe_update_bootpart X g bootfd gptfd ent p is_bct initialize
                                bctctx w)).
Proof.
  unfold maybe_update_bootpart.
  destruct (ent_length ent >? partsize_of p); [apply steps_refl|].
  destruct (part_past g p && (gptfd <? 0)); [apply steps_refl|].
  match goal with
  | |- context [read_completely_at ?fd ?buf ?n ?off w] =>
      pose proof (read_completely_at_looks fd buf n off w) as L;
      destruct (read_completely_at fd buf n off w) as [[r sb] w1]
  end.
  cbn [snd] in L. apply looks_device_calls in L.
  destruct (r <? 0); [exact L|].
  destruct is_bct.
  - destruct (soc_eqb (soctype (set_slotbuf sb g)) TEGRA_SOCTYPE_210).
    + eapply steps_trans; [exact L|]. apply update_bct_t210_device_calls.
    + match goal with
      | |- context [update_bct X ?a ?b ?c ?d ?e ?f] =>
          pose proof (update_bct_device_calls a b c d e f) as U;
          destruct (update_bct X a b c d e f) as [[r2 g2] w2]
      end.
      cbn [snd] in U |- *. eapply steps_trans; eassumption.
  - destruct (memcmp_eq _ _ _); [exact L|].
    match goal with
    | |- context [write_completely_at ?a ?b ?c ?d ?e ?f ?h] =>
        pose proof (write_completely_at_touches a b c d e f h) as T;
        destruct (write_completely_at a b c d e f h) as [r3 w3]
    end.
    cbn [snd] in T. apply touches_device_calls in T.
    destruct (r3 <? 0); cbn [snd].
    + eapply steps_trans; eassumption.
    + eapply steps_trans; [exact L|]. eapply steps_trans; [exact T|].
      now apply steps_log.
Qed.

Lemma process_entry_announces (ctx : bup_context X) (g : globals)
  (bootfd gptfd : Z) (ent : update_entry_s) (dryrun : bool) (initialize : Z)
  (bctctx : option Z) (w : world) :
  steps is_device_call (log (EvProcess (partname ent)) w)
    (snd (process_entry X ctx g bootfd gptfd ent dryrun initialize bctctx w)).
Proof.
  unfold process_entry.
  set (w0 := log (EvProcess (partname ent)) w).
  destruct (bup_setpos X ctx (bup_offset ent)) as [sp ctx1].
  destruct (sp =? -1); [apply steps_refl|].
  destruct (bup_read_content X ctx1 g (ent_length ent)) as [[rr g1] ctx2].
  destruct (rr <? 0); [apply steps_refl|].
  destruct dryrun; [apply steps_refl|].
  destruct (part ent) as [p|].
  - match goal with
    | |- context [maybe_update_bootpart X ?a ?b ?c ?d ?e ?f ?h ?i ?j] =>
        pose proof (maybe_update_bootpart_device_calls a b c d e f h i j) as M;
        destruct (maybe_update_bootpart X a b c d e f h i j)
          as [[[r b'] g2] w1]
    end.
    exact M.
  - pose proof (sys_open_device_calls (devname ent) w0) as S1.
    destruct (sys_open (devname ent) w0) as [fd w1]. cbn [snd] in S1.
    destruct (fd <? 0); [exact S1|].
    pose proof (looks_device_calls _ _ (sys_lseek_end_looks fd w1)) as S2.
    destruct (sys_lseek_end fd w1) as [e w2]. cbn [snd] in S2.
    assert (C : forall wz, steps is_device_call w0 wz ->
                           steps is_device_call w0 (sys_close fd wz)).
    { intros wz Hz. eapply steps_trans; [exact Hz|]. now apply steps_log. }
    destruct (u32 e <? 0).
    { cbn [snd]. apply C. eapply steps_trans; eassumption. }
    pose proof (looks_device_calls _ _ (sys_lseek_looks fd 0 w2)) as S3.
    destruct (sys_lseek fd 0 w2) as [s0 w3]. cbn [snd] in S3.
    assert (S03 : steps is_device_call w0 w3).
    { eapply steps_trans; [exact S1|]. eapply steps_trans; eassumption. }
    destruct (s0 <? 0); [cbn [snd]; now apply C|].
    match goal with
    | |- context [write_completely_at ?zb ?f ?buf ?n ?off ?er w3] =>
        pose proof (write_completely_at_touches zb f buf n off er w3) as S4;
        destruct (write_completely_at zb f buf n off er w3) as [r4 w4]
    end.
    cbn [snd] in S4. apply touches_device_calls in S4.
    destruct (r4 <? 0); cbn [snd]; apply C.
    + eapply steps_trans; eassumption.
    + eapply steps_trans; [exact S03|]. eapply steps_trans; [exact S4|].
      now apply steps_log.
Qed.

Lemma processed_in_app (a b : list event) :
  processed_in (a ++ b) = (processed_in a ++ processed_in b)%list.
Proof.
  induction a as [|e a IH]; [reflexivity|].
  destruct e; cbn; rewrite ?IH; reflexivity.
Qed.

Lemma processed_in_device_calls (evs : list event) :
  forallb is_device_call evs = true -> processed_in evs = [].
Proof.
  induction evs as [|e evs IH]; [reflexivity|].
  cbn [forallb]. intros H. apply andb_true_iff in H. destruct H as [He H].
  destruct e; cbn in He |- *; try discriminate He; now apply IH.
Qed.

Lemma process_entry_trace (ctx : bup_context X) (g : globals)
  (bootfd gptfd : Z) (ent : update_entry_s) (dryrun : bool) (initialize : Z)
  (bctctx : option Z) (w : world) :
  exists evs,
    w_trace (snd (process_entry X ctx g bootfd gptfd ent dryrun initialize
                                bctctx w))
    = w_trace w ++ EvProcess (partname ent) :: evs
    /\ forallb is_device_call evs = true.
Proof.
  destruct (process_entry_announces ctx g bootfd gptfd ent dryrun initialize
                                    bctctx w) as (evs & Ht & F).
  exists evs. split; [|exact F]. rewrite Ht. cbn. now rewrite <- app_assoc.
Qed.


Lemma process_all_prefix (ctx : bup_context X) (g : globals)
  (bootfd gptfd : Z) (entries : list update_entry_s) (dryrun : bool)
  (initialize : Z) (bctctx : option Z) (w : world) (r : Z) (b : option Z)
  (ctx' : bup_context X) (g' : globals) (w' : world) :
  process_all X ctx g bootfd gptfd entries dryrun initialize bctctx w
  = (r, b, ctx', g', w') ->
  exists done rest evs,
    entries = (done ++ rest)%list
    /\ w_trace w' = w_trace w ++ evs
    /\ forallb is_entry_event evs = true
    /\ processed_in evs = map partname done
    /\ (r = 0 -> rest = [])
    /\ (r <> 0 -> done <> []).
Proof.
  revert ctx g bctctx w.
  induction entries as [|ent entries IH]; intros ctx g bctctx w H.
  - cbn in H. injection H as <- <- <- <- <-.
    exists [], [], []. repeat split; try reflexivity.
    + now rewrite app_nil_r.
    + intros C; now contradiction C.
  - cbn [process_all] in H.
    destruct (process_entry_trace ctx g bootfd gptfd ent dryrun initialize
                                  bctctx w) as (evs & Ht & F).
    destruct (process_entry X ctx g bootfd gptfd ent dryrun initialize bctctx w)
      as [[[[r1 b1] ctx1] g1] w1].
    cbn [snd] in Ht.
    assert (P1 : processed_in (EvProcess (partname ent) :: evs)
                 = [partname ent]).
    { cbn. now rewrite (processed_in_device_calls evs F). }
    assert (F1 : forallb is_entry_event (EvProcess (partname ent) :: evs)
                 = true).
    { cbn. rewrite forallb_forall in *. intros e He.
      specialize (F e He). destruct e; try discriminate F; reflexivity. }
    destruct (r1 =? 0) eqn:E; cbn [negb] in H.
    + destruct (IH _ _ _ _ H) as (done & rest & evs2 & He & Ht2 & F2 & P2
                                  & R0 & R1).
      exists (ent :: done), rest, ((EvProcess (partname ent) :: evs) ++ evs2)%list.
      split; [cbn; now rewrite He|].
      split; [rewrite Ht2, Ht; now rewrite <- app_assoc|].
      split; [rewrite forallb_app, F1, F2; reflexivity|].
      split; [rewrite processed_in_app, P1, P2; reflexivity|].
      split; [exact R0|discriminate].
    + injection H as <- <- <- <- <-.
      exists [ent], entries, (EvProcess (partname ent) :: evs).
      split; [reflexivity|]. split; [exact Ht|]. split; [exact F1|].
      split; [exact P1|]. split; [|discriminate].
      intros ->. discriminate E.
Qed.

End EntryEvents.

Section TaskRuns.

Variable X : externals.

Lemma process_all_runs (ctx : bup_context X) (g : globals)
  (bootfd gptfd : Z) (entries : list update_entry_s) (dryrun : bool)
  (initialize : Z) (bctctx : option Z) (w : world) (r : Z) (b : option Z)
  (ctx' : bup_context X) (g' : globals) (w' : world) :
  process_all X ctx g bootfd gptfd entries dryrun initialize bctctx w
  = (r, b, ctx', g', w') ->
  (r = 0
   /\ all_return_0 X ctx g bootfd gptfd entries dryrun initialize bctctx w
                   (b, ctx', g', w'))
  \/ (r <> 0
      /\ exists done ent rest b1 ctx1 g1 w1,
           entries = done ++ ent :: rest
           /\ all_return_0 X ctx g bootfd gptfd done dryrun initialize bctctx
                           w (b1, ctx1, g1, w1)
           /\ process_entry X ctx1 g1 bootfd gptfd ent dryrun initialize b1 w1
              = (r, b, ctx', g', w')).
Proof.
  revert ctx g bctctx w.
  induction entries as [|ent entries IH]; intros ctx g bctctx w H.
  - cbn in H. injection H as <- <- <- <- <-. left. now split.
  - cbn [process_all] in H.
    destruct (process_entry X ctx g bootfd gptfd ent dryrun initialize bctctx w)
      as [[[[r1 b1] ctx1] g1] w1] eqn:E.
    destruct (r1 =? 0) eqn:R1; cbn [negb] in H.
    + apply Z.eqb_eq in R1. subst r1.
      destruct (IH _ _ _ _ H)
        as [[Hr A]|(Hr & done & e & rest & b2 & ctx2 & g2 & w2 & He & A & Pe)].
      * left. split; [exact Hr|]. cbn. eauto 10.
      * right. split; [exact Hr|].
        exists (ent :: done), e, rest, b2, ctx2, g2, w2.
        split; [cbn; now rewrite He|]. split; [cbn; eauto 10|exact Pe].
    + injection H as <- <- <- <- <-. right.
      split; [intros ->; discriminate R1|].
      exists [], ent, entries, bctctx, ctx, g, w. cbn. auto.
Qed.

Lemma all_return_0_processed (ctx : bup_context X) (g : globals)
  (bootfd gptfd : Z) (entries : list update_entry_s) (dryrun : bool)
  (initialize : Z) (bctctx : option Z) (w : world) (b : option Z)
  (ctx' : bup_context X) (g' : globals) (w' : world) :
  all_return_0 X ctx g bootfd gptfd entries dryrun initialize bctctx w
               (b, ctx', g', w') ->
  exists evs, w_trace w' = w_trace w ++ evs
              /\ processed_in evs = map partname entries.
Proof.
  revert ctx g bctctx w.
  induction entries as [|ent entries IH]; intros ctx g bctctx w A.
  - cbn in A. injection A as <- <- <- <-. exists [].
    split; [now rewrite app_nil_r|reflexivity].
  - cbn in A. destruct A as (b1 & ctx1 & g1 & w1 & E & A).
    destruct (process_entry_trace X ctx g bootfd gptfd ent dryrun initialize
                                  bctctx w) as (e1 & Ht1 & F1).
    rewrite E in Ht1. cbn [snd] in Ht1.
    destruct (IH _ _ _ _ A) as (e2 & Ht2 & P2).
    exists ((EvProcess (partname ent) :: e1) ++ e2). split.
    + rewrite Ht2, Ht1. now rewrite <- app_assoc.
    + rewrite processed_in_app, P2. cbn.
      now rewrite (processed_in_device_calls e1 F1).
Qed.

(** X16: the loops over the update tasks stop at the first task that
    fails.  When [process_all] returns 0, every task of the list was run
    by [process_entry], in the order of the list, each from the state
    the one before left, each returned 0, and what [process_all] leaves
    is what the last task left.  When it returns another value, the
    tasks before some task of the list were so run and all returned 0,
    [process_entry] on that task returned the value, and what
    [process_all] leaves is what that failing call left: no task after
    it was touched.  In both cases the calls of [process_entry] are
    those, in order. *)
Theorem process_all_stops_at_first_failure
  (ctx : bup_context X) (g : globals) (bootfd gptfd : Z)
  (entries : list update_entry_s) (dryrun : bool) (initialize : Z)
  (bctctx : option Z) (w : world) (r : Z) (b : option Z)
  (ctx' : bup_context X) (g' : globals) (w' : world) :
  process_all X ctx g bootfd gptfd entries dryrun initialize bctctx w
  = (r, b, ctx', g', w') ->
  (r = 0
   /\ all_return_0 X ctx g bootfd gptfd entries dryrun initialize bctctx w
                   (b, ctx', g', w')
   /\ processed_in (new_events w w') = map partname entries)
  \/ (r <> 0
      /\ exists done ent rest b1 ctx1 g1 w1,
           entries = done ++ ent :: rest
           /\ all_return_0 X ctx g bootfd gptfd done dryrun initialize bctctx
                           w (b1, ctx1, g1, w1)
           /\ process_entry X ctx1 g1 bootfd gptfd ent dryrun initialize b1 w1
              = (r, b, ctx', g', w')
           /\ processed_in (new_events w w') = map partname (done ++ [ent])).
Proof.
  intros H.
  destruct (process_all_runs _ _ _ _ _ _ _ _ _ _ _ _ _ _ H)
    as [[Hr A]|(Hr & done & e & rest & b1 & ctx1 & g1 & w1 & He & A & Pe)].
  - left. split; [exact Hr|]. split; [exact A|].
    destruct (all_return_0_processed _ _ _ _ _ _ _ _ _ _ _ _ _ A)
      as (evs & Ht & P).
    now rewrite (new_events_app w w' evs Ht).
  - right. split; [exact Hr|].
    exists done, e, rest, b1, ctx1, g1, w1.
    split; [exact He|]. split; [exact A|]. split; [exact Pe|].
    destruct (all_return_0_processed _ _ _ _ _ _ _ _ _ _ _ _ _ A)
      as (e1 & Ht1 & P1).
    destruct (process_entry_trace X ctx1 g1 bootfd gptfd e dryrun initialize
                                  b1 w1) as (e2 & Ht2 & F2).
    rewrite Pe in Ht2. cbn [snd] in Ht2.
    rewrite (new_events_app w w' (e1 ++ EvProcess (partname e) :: e2)).
    + rewrite processed_in_app, P1, map_app. cbn.
      now rewrite (processed_in_device_calls e2 F2).
    + rewrite Ht2, Ht1. now rewrite <- app_assoc.
Qed.

End TaskRuns.

Lemma process_all_stops_at_first_failure_witness :
  let entries := [mkEntry "mb2" (Some (mkGptEntry 0 0)) "" 0 4;
                  mkEntry "BCT" (Some (mkGptEntry 1 1)) "" (-1) 4;
                  mkEntry "mb1" (Some (mkGptEntry 2 2)) "" 0 4] in
  let run := process_all sample_ext (sample_payload, 0) sector_globals 3 4
                         entries true 0 None slot_world in
  pe_ret run = -1
  /\ processed_in (new_events slot_world (snd run)) = ["mb2"; "BCT"]
  /\ exists done ent rest b1 ctx1 g1 w1,
       entries = (done ++ ent :: rest)%list
       /\ all_return_0 sample_ext (sample_payload, 0) sector_globals 3 4 done
                       true 0 None slot_world (b1, ctx1, g1, w1)
       /\ pe_ret (process_entry sample_ext ctx1 g1 3 4 ent true 0 b1 w1) = -1
       /\ snd (process_entry sample_ext ctx1 g1 3 4 ent true 0 b1 w1)
          = snd run
       /\ processed_in (new_events slot_world (snd run))
          = map partname (done ++ [ent])%list.
Proof.
  cbv zeta.
  assert (R : pe_ret (process_all sample_ext (sample_payload, 0)
                        sector_globals 3 4
                        [mkEntry "mb2" (Some (mkGptEntry 0 0)) "" 0 4;
                         mkEntry "BCT" (Some (mkGptEntry 1 1)) "" (-1) 4;
                         mkEntry "mb1" (Some (mkGptEntry 2 2)) "" 0 4]
                        true 0 None slot_world) = -1)
    by (vm_compute; reflexivity).
  split; [exact R|].
  split; [vm_compute; reflexivity|].
  destruct (process_all sample_ext (sample_payload, 0) sector_globals 3 4
              [mkEntry "mb2" (Some (mkGptEntry 0 0)) "" 0 4;
               mkEntry "BCT" (Some (mkGptEntry 1 1)) "" (-1) 4;
               mkEntry "mb1" (Some (mkGptEntry 2 2)) "" 0 4]
              true 0 None slot_world) as [[[[r b] c] g] w'] eqn:E.
  cbn [pe_ret fst snd] in R. subst r.
  destruct (process_all_stops_at_first_failure sample_ext _ _ _ _ _ _ _ _ _
              _ _ _ _ _ E)
    as [[C _]|(_ & done & ent & rest & b1 & ctx1 & g1 & w1 & He & A & Pe & Pr)];
    [discriminate C|].
  exists done, ent, rest, b1, ctx1, g1, w1.
  split; [exact He|]. split; [exact A|]. rewrite Pe.
  split; [reflexivity|]. split; [reflexivity|exact Pr].
Defined.

Lemma harmless_refl (w : world) : harmless w w.
Proof. split; [apply steps_refl|apply same_devices_refl]. Qed.

Lemma harmless_trans (w1 w2 w3 : world) :
  harmless w1 w2 -> harmless w2 w3 -> harmless w1 w3.
Proof.
  intros [S1 D1] [S2 D2]. split.
  - eapply steps_trans; eassumption.
  - eapply same_devices_trans; eassumption.
Qed.

Lemma harmless_log (e : event) (w : world) :
  is_dry_event e = true -> harmless w (log e w).
Proof.
  intros H. split; [now apply steps_log|].
  split; [intros fd; cbn; destruct (w_dev w fd); auto|reflexivity].
Qed.

Lemma looks_harmless (w w' : world) : looks w w' -> harmless w w'.
Proof.
  intros [S D]. split; [|exact D]. eapply steps_weaken; [|exact S].
  intros e. destruct e; cbn; try discriminate; reflexivity.
Qed.

Lemma probes_harmless (w w' : world) :
  steps is_probe w w' -> same_devices w w' -> harmless w w'.
Proof.
  intros S D. split; [|exact D]. eapply steps_weaken; [|exact S].
  intros e. destruct e; cbn; try discriminate; reflexivity.
Qed.

Lemma sys_open_harmless (path : string) (w : world) :
  harmless w (snd (sys_open path w)).
Proof.
  unfold sys_open. destruct (w_node w path <? 0); [apply harmless_refl|].
  destruct (w_dev w (w_node w path)) as [d|] eqn:E; [|apply harmless_refl].
  cbn [snd]. split; [eexists [_]; split; reflexivity|].
  split; [|reflexivity].
  intros fd. cbn. destruct (fd =? w_node w path) eqn:F.
  - apply Z.eqb_eq in F. subst fd. rewrite E. cbn. auto.
  - destruct (w_dev w fd); auto.
Qed.

Lemma find_largest_partition_probes (redundant nonredundant
  : list update_entry_s) (w : world) :
  steps is_probe w (snd (find_largest_partition redundant nonredundant w))
  /\ same_devices w (snd (find_largest_partition redundant nonredundant w)).
Proof.
  unfold find_largest_partition.
  destruct (largest_of_probes redundant 0 w) as [S1 D1].
  destruct (largest_of redundant 0 w) as [[l1|] w1]; cbn [snd] in *;
    [|now split].
  destruct (largest_of_probes nonredundant l1 w1) as [S2 D2].
  destruct (largest_of nonredundant l1 w1) as [[l2|] w2]; cbn [snd] in *;
    (split; [eapply steps_trans|eapply same_devices_trans]; eassumption).
Qed.

Section DryRun.
Variable X : externals.

Lemma process_entry_dry (ctx : bup_context X) (g : globals)
  (bootfd gptfd : Z) (ent : update_entry_s) (initialize : Z)
  (bctctx : option Z) (w : world) :
  snd (process_entry X ctx g bootfd gptfd ent true initialize bctctx w)
  = log (EvProcess (partname ent)) w.
Proof.
  unfold process_entry.
  destruct (bup_setpos X ctx (bup_offset ent)) as [sp ctx1].
  destruct (sp =? -1); [reflexivity|].
  destruct (bup_read_content X ctx1 g (ent_length ent)) as [[rr g1] ctx2].
  destruct (rr <? 0); reflexivity.
Qed.

Lemma process_all_dry (ctx : bup_context X) (g : globals)
  (bootfd gptfd : Z) (entries : list update_entry_s) (initialize : Z)
  (bctctx : option Z) (w : world) :
  harmless w
    (snd (process_all X ctx g bootfd gptfd entries true initialize bctctx w)).
Proof.
  revert ctx g bctctx w.
  induction entries as [|ent entries IH]; intros ctx g bctctx w;
    [apply harmless_refl|].
  cbn [process_all].
  pose proof (process_entry_dry ctx g bootfd gptfd ent initialize bctctx w)
    as E.
  destruct (process_entry X ctx g bootfd gptfd ent true initialize bctctx w)
    as [[[[r1 b1] ctx1] g1] w1].
  cbn [snd] in E. subst w1.
  assert (H : harmless w (log (EvProcess (partname ent)) w))
    by now apply harmless_log.
  destruct (negb (r1 =? 0)); [exact H|].
  eapply harmless_trans; [exact H|apply IH].
Qed.

Lemma main_execute_dry (env : main_env X) (ctx : bup_context X) (g : globals)
  (fd gptfd : Z) (slot_specified : bool) (initialize curslot : Z) (p : plan)
  (w : world) (ret : Z) (w' : world) :
  main_execute X env ctx g fd gptfd slot_specified true initialize curslot p w
  = Exited ret w' ->
  harmless w w'.
Proof.
  unfold main_execute. intros H.
  destruct (soc_eqb (soctype g) TEGRA_SOCTYPE_210).
  - match type of H with
    | context [invalid_version_or_downgrade X ?a ?b ?c ?d ?e ?f ?h] =>
        pose proof (looks_harmless _ _
          (invalid_version_or_downgrade_looks X a b c d e f h)) as L;
        destruct (invalid_version_or_downgrade X a b c d e f h)
          as [[[rej ctx1] g1] w1]
    end.
    cbn [snd] in L.
    destruct rej; [injection H as <- <-; exact L|].
    destruct (order_entries_t210 g1 (redundant_entries p)) as [count ordered].
    destruct (count =? 0); [injection H as <- <-; exact L|].
    destruct (count >? MAX_ENTRIES); [discriminate H|].
    match type of H with
    | context [process_all X ?a ?b ?c ?d ?e true ?f ?h ?i] =>
        pose proof (process_all_dry a b c d e f h i) as P;
        destruct (process_all X a b c d e true f h i)
          as [[[[r b2] ctx2] g2] w2]
    end.
    cbn [snd] in P.
    destruct (negb (r =? 0)); injection H as <- <-;
      eapply harmless_trans; eassumption.
  - destruct (negb (_ =? _)%nat); [discriminate H|].
    match type of H with
    | context [process_all X ?a ?b ?c ?d ?e true ?f ?h ?i] =>
        pose proof (process_all_dry a b c d e f h i) as P;
        destruct (process_all X a b c d e true f h i)
          as [[[[r b2] ctx2] g2] w2]
    end.
    cbn [snd] in P.
    destruct (negb (r =? 0)); [injection H as <- <-; exact P|].
    assert (Q : forall r2 wz,
               (if negb (initialize =? 0) then
                  let '(r', _, _, _, w') :=
                    process_all X ctx2 g2 fd gptfd (nonredundant_entries p)
                                true initialize None w2 in (r', w')
                else if negb (bct_updated g2 =? 0) then
                  if String.eqb (partname (mb1_other p)) "" then (-1, w2)
                  else
                    let '(r', _, _, _, w') :=
                      process_entry X ctx2 g2 fd gptfd (mb1_other p) true
                                    initialize None w2 in (r', w')
                else (0, w2)) = (r2, wz) -> harmless w2 wz).
    { intros r2 wz E.
      destruct (negb (initialize =? 0)).
      - pose proof (process_all_dry ctx2 g2 fd gptfd (nonredundant_entries p)
                                    initialize None w2) as P2.
        destruct (process_all X ctx2 g2 fd gptfd (nonredundant_entries p)
                              true initialize None w2)
          as [[[[r' b'] ctx'] g'] wz'].
        injection E as <- <-. exact P2.
      - destruct (negb (bct_updated g2 =? 0)).
        + destruct (String.eqb _ _);
            [injection E as <- <-; apply harmless_refl|].
          pose proof (process_entry_dry ctx2 g2 fd gptfd (mb1_other p)
                                        initialize None w2) as P2.
          destruct (process_entry X ctx2 g2 fd gptfd (mb1_other p) true
                                  initialize None w2)
            as [[[[r' b'] ctx'] g'] wz'].
          injection E as <- <-. cbn [snd] in P2. subst wz'.
          now apply harmless_log.
        + injection E as <- <-. apply harmless_refl. }
    match type of H with
    | (let '(r2, w2') := ?e in _) = _ => destruct e as [r2 wz] eqn:E
    end.
    specialize (Q r2 wz eq_refl).
    destruct (negb (r2 =? 0));
      [injection H as <- <-; eapply harmless_trans; eassumption|].
    assert (C : main_commit X env slot_specified true initialize curslot wz
                = (0, wz)).
    { unfold main_commit. now destruct (negb slot_specified). }
    rewrite C in H. injection H as <- <-.
    eapply harmless_trans; eassumption.
Qed.

Lemma reset_and_depart_dry (env : main_env X) (fd gptfd : Z) (w : world) :
  harmless w (reset_and_depart X env true fd gptfd false false w).
Proof.
  unfold reset_and_depart. cbn [negb].
  assert (A : harmless w (if fd >=? 0 then sys_close fd w else w)).
  { destruct (fd >=? 0); [now apply harmless_log|apply harmless_refl]. }
  eapply harmless_trans; [exact A|].
  destruct (gptfd >=? 0); [|apply harmless_refl].
  eapply harmless_trans; [apply (harmless_log (EvFsync gptfd)); reflexivity|].
  now apply harmless_log.
Qed.

End DryRun.

(** A dry run is a harmless step. *)
Lemma main_dry (X : externals) (o : options) (env : main_env X) (w : world)
  (ret : Z) (w' : world) :
  opt_dryrun o = true -> main X o env w = Exited ret w' -> harmless w w'.
Proof.
  intros Hd H. unfold main in H. rewrite Hd in H. cbn [negb andb] in H.
  rewrite !andb_false_r in H. cbn [andb] in H.
  destruct (negb (opt_have_path o) && negb (opt_check_only o));
    [injection H as <- <-; apply harmless_refl|].
  destruct (soc_eqb (cvm_soctype X env) TEGRA_SOCTYPE_INVALID);
    [injection H as <- <-; apply harmless_refl|].
  destruct (select_slot o (cvm_soctype X env) (smd_get_current_slot X env))
    as [[[curslot suffix] initialize]|];
    [|injection H as <- <-; apply harmless_refl].
  destruct (bup_init X env) as [ctx|];
    [|injection H as <- <-; apply harmless_refl].
  destruct (Z.of_nat (String.length (bup_boot_device X env)) <? 8);
    [injection H as <- <-; apply harmless_refl|].
  destruct (negb (String.prefix "/dev/mtd" (bup_boot_device X env))
            && negb (String.prefix "/dev/mmc" (bup_boot_device X env)));
    [injection H as <- <-; apply harmless_refl|].
  assert (G : exists gptfd wg,
             (if String.prefix "/dev/mtd" (bup_boot_device X env)
              then (-1, false, w)
              else let (f, w') := sys_open (bup_gpt_device X env) w in
                   (f, false, w')) = (gptfd, false, wg)
             /\ harmless w wg).
  { destruct (String.prefix "/dev/mtd" (bup_boot_device X env)).
    - exists (-1), w. split; [reflexivity|apply harmless_refl].
    - pose proof (sys_open_harmless (bup_gpt_device X env) w) as O.
      destruct (sys_open (bup_gpt_device X env) w) as [f wo].
      exists f, wo. split; [reflexivity|exact O]. }
  destruct G as (gptfd & wg & Eg & Hg). rewrite Eg in H. clear Eg.
  assert (R : forall fd wz, harmless w wz ->
                harmless w (reset_and_depart X env true fd gptfd false false wz)).
  { intros fd wz Hz. eapply harmless_trans; [exact Hz|].
    apply reset_and_depart_dry. }
  destruct (negb (String.prefix "/dev/mtd" (bup_boot_device X env))
            && (gptfd <? 0));
    [injection H as <- <-; exact (R (-1) _ Hg)|].
  pose proof (sys_open_harmless (bup_boot_device X env) wg) as Hb.
  destruct (sys_open (bup_boot_device X env) wg) as [fd wb]. cbn [snd] in Hb.
  assert (Hwb : harmless w wb) by (eapply harmless_trans; eassumption).
  destruct (fd <? 0); [injection H as <- <-; now apply R|].
  destruct (negb (gpt_init X env)); [injection H as <- <-; now apply R|].
  destruct (opt_check_only o).
  { destruct (soc_eqb (cvm_soctype X env) TEGRA_SOCTYPE_210);
      [injection H as <- <-; now apply R|].
    destruct (negb (gpt_load X env =? 0));
      [injection H as <- <-; now apply R|].
    destruct (gpt_layout_config_match X env <? 0);
      injection H as <- <-; now apply R. }
  rewrite ?andb_false_r in H. cbn [andb] in H.
  match type of H with
  | (if ?c then _ else _) = _ => destruct c
  end; [injection H as <- <-; now apply R|].
  pose proof (looks_harmless _ _ (sys_lseek_end_looks fd wb)) as He.
  destruct (sys_lseek_end fd wb) as [bootdev_end_offset we]. cbn [snd] in He.
  assert (Hwe : harmless w we) by (eapply harmless_trans; eassumption).
  destruct (bootdev_end_offset =? -1); [injection H as <- <-; now apply R|].
  pose proof (looks_harmless _ _ (sys_lseek_looks fd 0 we)) as H0.
  destruct (sys_lseek fd 0 we) as [s0 w0]. cbn [snd] in H0.
  assert (Hw0 : harmless w w0) by (eapply harmless_trans; eassumption).
  match type of H with
  | (if ?c then _ else _) = _ => destruct c
  end; [injection H as <- <-; now apply R|].
  destruct (negb (bup_find_missing_entries X env =? 0));
    [injection H as <- <-; now apply R|].
  destruct (build_plan _ _ _ _ _ _) as [p0| |];
    [|injection H as <- <-; now apply R|discriminate H].
  destruct (merge_t210 _ p0) as [p| |];
    [|injection H as <- <-; now apply R|discriminate H].
  destruct (find_largest_partition_probes (redundant_entries p)
              (nonredundant_entries p) w0) as [Sl Dl].
  destruct (find_largest_partition (redundant_entries p)
              (nonredundant_entries p) w0) as [[size|] wl]; cbn [snd] in *.
  2: { injection H as <- <-. apply R. eapply harmless_trans; [exact Hw0|].
       now apply probes_harmless. }
  assert (Hwl : harmless w wl).
  { eapply harmless_trans; [exact Hw0|]. now apply probes_harmless. }
  destruct (negb (malloc_ok X env (largest_length p))
            || negb (malloc_ok X env size));
    [injection H as <- <-; now apply R|].
  match type of H with
  | context [main_execute X ?a ?b ?c ?d ?e ?f true ?h ?i ?j ?k] =>
      pose proof (main_execute_dry X a b c d e f h i j k) as M;
      destruct (main_execute X a b c d e f true h i j k) as [r wx|]
  end; [|discriminate H].
  injection H as <- <-. apply R. eapply harmless_trans; [exact Hwl|].
  exact (M r wx eq_refl).
Qed.

(** X17: a dry run ([--dry-run], and with it [--needs-repartition])
    changes nothing.  Whenever [main] returns, what it did is made of
    opening, seeking, reading, flushing and closing descriptors and of
    calls of [process_entry]: no [write], no call of
    [write_completely_at], no change of the write protection, no save of
    the GPT and no update of the slot metadata; and the devices hold what
    they held. *)
Theorem main_dry_run_changes_nothing (X : externals) (o : options)
  (env : main_env X) (w : world) (ret : Z) (w' : world) :
  opt_dryrun o = true -> main X o env w = Exited ret w' ->
  forallb is_dry_event (new_events w w') = true /\ same_devices w w'.
Proof.
  intros Hd H. destruct (main_dry X o env w ret w' Hd H) as [S D].
  split; [exact (proj2 (steps_new_events _ _ _ S))|exact D].
Qed.

Lemma main_dry_run_changes_nothing_witness :
  processed_in
    (run_trace (main sample_ext (mkOptions 0 None false true false true)
                     (slot_env TEGRA_SOCTYPE_186 0 0) slot_world))
  = ["cboot_b"]
  /\ exists ret w',
       main sample_ext (mkOptions 0 None false true false true)
            (slot_env TEGRA_SOCTYPE_186 0 0) slot_world = Exited ret w'
       /\ forallb is_dry_event (new_events slot_world w') = true
       /\ same_devices slot_world w'.
Proof.
  split; [vm_compute; reflexivity|].
  assert (S : exit_status
                (main sample_ext (mkOptions 0 None false true false true)
                      (slot_env TEGRA_SOCTYPE_186 0 0) slot_world) = Some 0)
    by (vm_compute; reflexivity).
  destruct (main sample_ext (mkOptions 0 None false true false true)
                 (slot_env TEGRA_SOCTYPE_186 0 0) slot_world)
    as [ret w'|] eqn:E; [|discriminate S].
  exists ret, w'. split; [reflexivity|].
  exact (main_dry_run_changes_nothing sample_ext
           (mkOptions 0 None false true false true) _ _ _ _ eq_refl E).
Defined.

Ltac split_run :=
  repeat match goal with
         | |- context [match ?x with _ => _ end] =>
             lazymatch x with
             | context [match _ with _ => _ end] => fail
             | _ => destruct x eqn:?
             end
         end.

Lemma main_commit_status (X : externals) (env : main_env X)
  (slot_specified dryrun : bool) (initialize curslot : Z) (w : world) :
  fst (main_commit X env slot_specified dryrun initialize curslot w) = 0
  \/ fst (main_commit X env slot_specified dryrun initialize curslot w) = 1.
Proof. unfold main_commit. split_run; cbn [fst]; auto. Qed.

Lemma main_execute_status (X : externals) (env : main_env X)
  (ctx : bup_context X) (g : globals) (fd gptfd : Z)
  (slot_specified dryrun : bool) (initialize curslot : Z) (p : plan)
  (w : world) (ret : Z) (w' : world) :
  main_execute X env ctx g fd gptfd slot_specified dryrun initialize curslot
               p w = Exited ret w' ->
  ret = 0 \/ ret = 1.
Proof.
  unfold main_execute. intros H.
  destruct (soc_eqb (soctype g) TEGRA_SOCTYPE_210).
  - destruct (invalid_version_or_downgrade X ctx g fd gptfd _ _ w)
      as [[[rej ctx1] g1] w1].
    destruct rej; [injection H as <- <-; auto|].
    destruct (order_entries_t210 g1 (redundant_entries p)) as [count ordered].
    destruct (count =? 0); [injection H as <- <-; auto|].
    destruct (count >? MAX_ENTRIES); [discriminate H|].
    destruct (process_all X ctx1 g1 fd gptfd ordered dryrun initialize _ w1)
      as [[[[r b2] ctx2] g2] w2].
    destruct (negb (r =? 0)); injection H as <- <-; auto.
  - destruct (negb (_ =? _)%nat); [discriminate H|].
    destruct (process_all X ctx g fd gptfd _ dryrun initialize None w)
      as [[[[r b2] ctx2] g2] w2].
    destruct (negb (r =? 0)); [injection H as <- <-; auto|].
    match type of H with
    | (let '(r2, w2') := ?e in _) = _ => destruct e as [r2 wz]
    end.
    destruct (negb (r2 =? 0)); [injection H as <- <-; auto|].
    pose proof (main_commit_status X env slot_specified dryrun initialize
                                   curslot wz) as C.
    destruct (main_commit X env slot_specified dryrun initialize curslot wz)
      as [c w3].
    injection H as <- <-. exact C.
Qed.

(** X18: [main] returns 0, 1 or 2, and 2 only in check-only mode, when
    [gpt_layout_config_match] fails (a negative value). *)
Theorem main_exit_status (X : externals) (o : options) (env : main_env X)
  (w : world) (ret : Z) (w' : world) :
  main X o env w = Exited ret w' ->
  ret = 0 \/ ret = 1
  \/ (ret = 2 /\ opt_check_only o = true
      /\ gpt_layout_config_match X env < 0).
Proof.
  unfold main. intros H.
  repeat match type of H with
         | context [match ?x with _ => _ end] =>
             lazymatch x with
             | context [match _ with _ => _ end] => fail
             | _ => destruct x eqn:?
             end
         end;
    try discriminate H;
    try (injection H as <- <-; auto; fail).
  all: try (injection H as <- <-;
            match goal with
            | M : main_execute _ _ _ _ _ _ _ _ _ _ _ _ = Exited _ _ |- _ =>
                destruct (main_execute_status _ _ _ _ _ _ _ _ _ _ _ _ _ _ M);
                auto
            end; fail).
  all: injection H as <- <-.
  all: try (right; right; split; [reflexivity|]; split; [reflexivity|];
            apply Z.ltb_lt; assumption).
Qed.

Lemma main_exit_status_witness :
  exists ret w',
    main sample_ext slot_options (slot_env TEGRA_SOCTYPE_186 0 0) slot_world
    = Exited ret w'
    /\ ret = 0
    /\ (ret = 0 \/ ret = 1
        \/ (ret = 2 /\ opt_check_only slot_options = true
            /\ gpt_layout_config_match sample_ext
                 (slot_env TEGRA_SOCTYPE_186 0 0) < 0)).
Proof.
  assert (S : exit_status
                (main sample_ext slot_options (slot_env TEGRA_SOCTYPE_186 0 0)
                      slot_world) = Some 0)
    by (vm_compute; reflexivity).
  destruct (main sample_ext slot_options (slot_env TEGRA_SOCTYPE_186 0 0)
                 slot_world) as [ret w'|] eqn:E; [|discriminate S].
  exists ret, w'. split; [reflexivity|].
  split; [cbn in S; congruence|].
  exact (main_exit_status sample_ext _ _ _ _ _ E).
Defined.

Lemma looks_no_lock (w w' : world) : looks w w' -> steps no_lock_event w w'.
Proof.
  intros [S _]. eapply steps_weaken; [|exact S].
  intros e. destruct e; cbn; try discriminate; reflexivity.
Qed.

Lemma probes_no_lock (w w' : world) :
  steps is_probe w w' -> steps no_lock_event w w'.
Proof.
  apply steps_weaken. intros e. destruct e; cbn; try discriminate; reflexivity.
Qed.

Lemma entry_events_no_lock (w w' : world) :
  steps is_entry_event w w' -> steps no_lock_event w w'.
Proof.
  apply steps_weaken. intros e. destruct e; cbn; try discriminate; reflexivity.
Qed.

Lemma device_calls_entry_events (w w' : world) :
  steps is_device_call w w' -> steps is_entry_event w w'.
Proof.
  apply steps_weaken. intros e. destruct e; cbn; try discriminate; reflexivity.
Qed.

Section LockEvents.
Variable X : externals.

Lemma process_entry_steps (ctx : bup_context X) (g : globals)
  (bootfd gptfd : Z) (ent : update_entry_s) (dryrun : bool) (initialize : Z)
  (bctctx : option Z) (w : world) :
  steps is_entry_event w
    (snd (process_entry X ctx g bootfd gptfd ent dryrun initialize bctctx w)).
Proof.
  eapply steps_trans;
    [apply (steps_log is_entry_event (EvProcess (partname ent))); reflexivity|].
  apply device_calls_entry_events. apply process_entry_announces.
Qed.

Lemma process_all_steps (ctx : bup_context X) (g : globals)
  (bootfd gptfd : Z) (entries : list update_entry_s) (dryrun : bool)
  (initialize : Z) (bctctx : option Z) (w : world) :
  steps is_entry_event w
    (snd (process_all X ctx g bootfd gptfd entries dryrun initialize bctctx w)).
Proof.
  destruct (process_all X ctx g bootfd gptfd entries dryrun initialize bctctx w)
    as [[[[r b] ctx'] g'] w'] eqn:E.
  destruct (process_all_prefix X _ _ _ _ _ _ _ _ _ _ _ _ _ _ E)
    as (done & rest & evs & _ & Ht & F & _).
  exists evs. now split.
Qed.

Lemma main_commit_no_lock (env : main_env X) (slot_specified dryrun : bool)
  (initialize curslot : Z) (w : world) :
  steps no_lock_event w
    (snd (main_commit X env slot_specified dryrun initialize curslot w)).
Proof.
  unfold main_commit.
  destruct (negb slot_specified); [|apply steps_refl].
  destruct dryrun; [apply steps_refl|].
  destruct (smd_slot_mark_active X env _ <? 0); cbn [snd].
  - now apply steps_log.
  - assert (S2 : forall wz e1 e2, no_lock_event e1 = true ->
                   no_lock_event e2 = true ->
                   steps no_lock_event wz (log e2 (log e1 wz))).
    { intros wz e1 e2 H1 H2. eapply steps_trans; now apply steps_log. }
    destruct (smd_update X env initialize <? 0); cbn [snd]; now apply S2.
Qed.

Lemma main_execute_no_lock (env : main_env X) (ctx : bup_context X)
  (g : globals) (fd gptfd : Z) (slot_specified dryrun : bool)
  (initialize curslot : Z) (p : plan) (w : world) (ret : Z) (w' : world) :
  main_execute X env ctx g fd gptfd slot_specified dryrun initialize curslot
               p w = Exited ret w' ->
  steps no_lock_event w w'.
Proof.
  unfold main_execute. intros H.
  destruct (soc_eqb (soctype g) TEGRA_SOCTYPE_210).
  - match type of H with
    | context [invalid_version_or_downgrade X ?a ?b ?c ?d ?e ?f ?h] =>
        pose proof (looks_no_lock _ _
          (invalid_version_or_downgrade_looks X a b c d e f h)) as L;
        destruct (invalid_version_or_downgrade X a b c d e f h)
          as [[[rej ctx1] g1] w1]
    end.
    cbn [snd] in L.
    destruct rej; [injection H as <- <-; exact L|].
    destruct (order_entries_t210 g1 (redundant_entries p)) as [count ordered].
    destruct (count =? 0); [injection H as <- <-; exact L|].
    destruct (count >? MAX_ENTRIES); [discriminate H|].
    match type of H with
    | context [process_all X ?a ?b ?c ?d ?e ?dr ?f ?h ?i] =>
        pose proof (entry_events_no_lock _ _
                      (process_all_steps a b c d e dr f h i)) as P;
        destruct (process_all X a b c d e dr f h i)
          as [[[[r b2] ctx2] g2] w2]
    end.
    cbn [snd] in P.
    destruct (negb (r =? 0)); injection H as <- <-;
      eapply steps_trans; eassumption.
  - destruct (negb (_ =? _)%nat); [discriminate H|].
    match type of H with
    | context [process_all X ?a ?b ?c ?d ?e ?dr ?f ?h ?i] =>
        pose proof (entry_events_no_lock _ _
                      (process_all_steps a b c d e dr f h i)) as P;
        destruct (process_all X a b c d e dr f h i)
          as [[[[r b2] ctx2] g2] w2]
    end.
    cbn [snd] in P.
    destruct (negb (r =? 0)); [injection H as <- <-; exact P|].
    assert (Q : forall r2 wz,
               (if negb (initialize =? 0) then
                  let '(r', _, _, _, w') :=
                    process_all X ctx2 g2 fd gptfd (nonredundant_entries p)
                                dryrun initialize None w2 in (r', w')
                else if negb (bct_updated g2 =? 0) then
                  if String.eqb (partname (mb1_other p)) "" then (-1, w2)
                  else
                    let '(r', _, _, _, w') :=
                      process_entry X ctx2 g2 fd gptfd (mb1_other p) dryrun
                                    initialize None w2 in (r', w')
                else (0, w2)) = (r2, wz) -> steps no_lock_event w2 wz).
    { intros r2 wz E.
      destruct (negb (initialize =? 0)).
      - pose proof (entry_events_no_lock _ _
                      (process_all_steps ctx2 g2 fd gptfd
                         (nonredundant_entries p) dryrun initialize None w2))
          as P2.
        destruct (process_all X ctx2 g2 fd gptfd (nonredundant_entries p)
                              dryrun initialize None w2)
          as [[[[r' b'] ctx'] g'] wz'].
        injection E as <- <-. exact P2.
      - destruct (negb (bct_updated g2 =? 0)).
        + destruct (String.eqb _ _);
            [injection E as <- <-; apply steps_refl|].
          pose proof (entry_events_no_lock _ _
                        (process_entry_steps ctx2 g2 fd gptfd (mb1_other p)
                           dryrun initialize None w2)) as P2.
          destruct (process_entry X ctx2 g2 fd gptfd (mb1_other p) dryrun
                                  initialize None w2)
            as [[[[r' b'] ctx'] g'] wz'].
          injection E as <- <-. exact P2.
        + injection E as <- <-. apply steps_refl. }
    match type of H with
    | (let '(r2, w2') := ?e in _) = _ => destruct e as [r2 wz] eqn:E
    end.
    specialize (Q r2 wz eq_refl).
    destruct (negb (r2 =? 0));
      [injection H as <- <-; eapply steps_trans; eassumption|].
    pose proof (main_commit_no_lock env slot_specified dryrun initialize
                                    curslot wz) as C.
    destruct (main_commit X env slot_specified dryrun initialize curslot wz)
      as [c w3].
    injection H as <- <-. cbn [snd] in C.
    eapply steps_trans; [exact P|]. eapply steps_trans; eassumption.
Qed.

End LockEvents.

(** ** Write protection *)

Lemma reset_and_depart_trace (X : externals) (env : main_env X)
  (dryrun : bool) (fd gptfd : Z) (rb rg : bool) (w : world) :
  exists cl,
    w_trace (reset_and_depart X env dryrun fd gptfd rb rg w)
    = w_trace w ++ cl
      ++ (if rb then [EvSetWriteable (bup_boot_device X env) false] else [])
      ++ (if rg then [EvSetWriteable (bup_gpt_device X env) false] else [])
    /\ forallb is_dry_event cl = true.
Proof.
  unfold reset_and_depart, sys_close, sys_fsync.
  exists ((if fd >=? 0
           then (if negb dryrun then [EvFsync fd] else []) ++ [EvClose fd]
           else [])
          ++ (if gptfd >=? 0 then [EvFsync gptfd; EvClose gptfd] else [])).
  split.
  - destruct (fd >=? 0), dryrun, (gptfd >=? 0), rb, rg; cbn;
      rewrite <- ?app_assoc; cbn; rewrite ?app_nil_r; reflexivity.
  - destruct (fd >=? 0), dryrun, (gptfd >=? 0); reflexivity.
Qed.

Lemma dry_events_no_unlock (path : string) (evs : list event) :
  forallb is_dry_event evs = true -> ~ In (EvSetWriteable path true) evs.
Proof.
  intros F I. rewrite forallb_forall in F. specialize (F _ I). discriminate F.
Qed.

Lemma no_lock_events_no_unlock (path : string) (evs : list event) :
  forallb no_lock_event evs = true -> ~ In (EvSetWriteable path true) evs.
Proof.
  intros F I. rewrite forallb_forall in F. specialize (F _ I). discriminate F.
Qed.

Lemma relock_tail (X : externals) (env : main_env X) (fd gptfd : Z)
  (rb rg : bool) (w wz : world) (evs : list event) (path : string) :
  w_trace wz = w_trace w ++ evs ->
  (In (EvSetWriteable path true) evs ->
   (rb = true /\ path = bup_boot_device X env)
   \/ (rg = true /\ path = bup_gpt_device X env)) ->
  In (EvSetWriteable path true)
     (new_events w (reset_and_depart X env false fd gptfd rb rg wz)) ->
  exists pre post,
    new_events w (reset_and_depart X env false fd gptfd rb rg wz)
    = pre ++ EvSetWriteable path false :: post
    /\ forallb is_relock post = true.
Proof.
  intros Ht U I.
  destruct (reset_and_depart_trace X env false fd gptfd rb rg wz)
    as (cl & Hr & Hc).
  rewrite Ht, <- app_assoc in Hr.
  rewrite (new_events_app _ _ _ Hr) in I |- *.
  assert (Ie : In (EvSetWriteable path true) evs).
  { apply in_app_or in I. destruct I as [I|I]; [exact I|].
    apply in_app_or in I. destruct I as [I|I];
      [now apply dry_events_no_unlock in I|].
    apply in_app_or in I.
    destruct I as [I|I]; [destruct rb|destruct rg]; cbn in I;
      try contradiction; destruct I as [I|[]]; discriminate I. }
  destruct (U Ie) as [[-> ->]|[-> ->]].
  - exists (evs ++ cl),
      (if rg then [EvSetWriteable (bup_gpt_device X env) false] else []).
    split; [now rewrite <- app_assoc|]. now destruct rg.
  - exists (evs ++ cl
            ++ (if rb then [EvSetWriteable (bup_boot_device X env) false]
                else [])), [].
    split; [|reflexivity]. now rewrite <- !app_assoc.
Qed.

Lemma sys_open_no_lock (path : string) (w : world) :
  steps no_lock_event w (snd (sys_open path w)).
Proof.
  apply entry_events_no_lock, device_calls_entry_events,
    sys_open_device_calls.
Qed.

(** X19: [main] gives back the write protection it took away.  For every
    device whose protection [set_bootdev_writeable_status] lifted (the
    call returned true), whatever the rest of the run did and whatever
    [main] returns, the lock is set again before [main] returns, and
    nothing but such locking follows it. *)
Theorem main_restores_write_protection (X : externals) (o : options)
  (env : main_env X) (w : world) (ret : Z) (w' : world) (path : string) :
  main X o env w = Exited ret w' ->
  In (EvSetWriteable path true) (new_events w w') ->
  set_bootdev_writeable_status X env path true = true ->
  exists pre post,
    new_events w w' = pre ++ EvSetWriteable path false :: post
    /\ forallb is_relock post = true.
Proof.
  intros H I Hst.
  destruct (opt_dryrun o) eqn:Hd.
  { destruct (main_dry X o env w ret w' Hd H) as [S _].
    apply steps_new_events in S. destruct S as [_ F].
    now apply dry_events_no_unlock in I. }
  revert I. unfold main in H. rewrite Hd in H. cbn [negb] in H.
  set (Inv := fun (rb rg : bool) (wz : world) =>
         exists evs, w_trace wz = w_trace w ++ evs
                     /\ (In (EvSetWriteable path true) evs ->
                         (rb = true /\ path = bup_boot_device X env)
                         \/ (rg = true /\ path = bup_gpt_device X env))).
  assert (Inv0 : forall rb rg, Inv rb rg w).
  { intros rb rg. exists []. split; [now rewrite app_nil_r|intros []]. }
  assert (StepI : forall rb rg wz wz',
             Inv rb rg wz -> steps no_lock_event wz wz' -> Inv rb rg wz').
  { intros rb rg wz wz' (evs & Ht & U) (evs2 & Ht2 & F).
    exists (evs ++ evs2). split; [rewrite Ht2, Ht; now rewrite <- app_assoc|].
    intros J. apply in_app_or in J. destruct J as [J|J]; [now apply U|].
    now apply no_lock_events_no_unlock in J. }
  assert (R : forall fd gptfd rb rg wz, Inv rb rg wz ->
             In (EvSetWriteable path true)
                (new_events w (reset_and_depart X env false fd gptfd rb rg wz))
             -> exists pre post,
                 new_events w (reset_and_depart X env false fd gptfd rb rg wz)
                 = pre ++ EvSetWriteable path false :: post
                 /\ forallb is_relock post = true).
  { intros fd gptfd rb rg wz (evs & Ht & U).
    exact (relock_tail X env fd gptfd rb rg w wz evs path Ht U). }
  assert (Quiet : In (EvSetWriteable path true) (new_events w w) ->
             exists pre post,
               new_events w w = pre ++ EvSetWriteable path false :: post
               /\ forallb is_relock post = true).
  { intros J. rewrite new_events_refl in J. destruct J. }
  destruct (negb (opt_have_path o) && negb (opt_check_only o));
    [injection H as <- <-; now apply Quiet|].
  destruct (soc_eqb (cvm_soctype X env) TEGRA_SOCTYPE_INVALID);
    [injection H as <- <-; now apply Quiet|].
  destruct (select_slot o (cvm_soctype X env) (smd_get_current_slot X env))
    as [[[curslot suffix] initialize]|];
    [|injection H as <- <-; now apply Quiet].
  destruct (bup_init X env) as [ctx|];
    [|injection H as <- <-; now apply Quiet].
  destruct (Z.of_nat (String.length (bup_boot_device X env)) <? 8);
    [injection H as <- <-; now apply Quiet|].
  destruct (negb (String.prefix "/dev/mtd" (bup_boot_device X env))
            && negb (String.prefix "/dev/mmc" (bup_boot_device X env)));
    [injection H as <- <-; now apply Quiet|].
  clear Quiet.
  assert (G : exists gptfd rg wg,
             (if String.prefix "/dev/mtd" (bup_boot_device X env)
              then (-1, false, w)
              else
                let (f, w'') :=
                  sys_open (bup_gpt_device X env)
                    (log (EvSetWriteable (bup_gpt_device X env) true) w) in
                (f, set_bootdev_writeable_status X env (bup_gpt_device X env)
                      true, w'')) = (gptfd, rg, wg)
             /\ Inv false rg wg).
  { destruct (String.prefix "/dev/mtd" (bup_boot_device X env)).
    - exists (-1), false, w. split; [reflexivity|apply Inv0].
    - cbv zeta.
      pose proof (sys_open_no_lock (bup_gpt_device X env)
                    (log (EvSetWriteable (bup_gpt_device X env) true) w)) as O.
      destruct (sys_open (bup_gpt_device X env)
                  (log (EvSetWriteable (bup_gpt_device X env) true) w))
        as [f wo].
      exists f, (set_bootdev_writeable_status X env (bup_gpt_device X env) true),
        wo.
      split; [reflexivity|]. cbn [snd] in O.
      apply (StepI _ _ (log (EvSetWriteable (bup_gpt_device X env) true) w));
        [|exact O].
      exists [EvSetWriteable (bup_gpt_device X env) true].
      split; [reflexivity|].
      intros [J|[]]. right. injection J as J. subst path. now split. }
  destruct G as (gptfd & rg & wg & Eg & Hg). rewrite Eg in H. clear Eg.
  destruct (negb (String.prefix "/dev/mtd" (bup_boot_device X env))
            && (gptfd <? 0));
    [injection H as <- <-; exact (R (-1) _ _ _ _ Hg)|].
  cbv zeta in H.
  pose proof (sys_open_no_lock (bup_boot_device X env)
                (log (EvSetWriteable (bup_boot_device X env) true) wg)) as O.
  destruct (sys_open (bup_boot_device X env)
              (log (EvSetWriteable (bup_boot_device X env) true) wg))
    as [fd wb].
  cbn [snd] in O.
  set (rb := set_bootdev_writeable_status X env (bup_boot_device X env) true)
    in *.
  assert (Hb : Inv rb rg wb).
  { apply (StepI _ _ (log (EvSetWriteable (bup_boot_device X env) true) wg));
      [|exact O].
    destruct Hg as (evs & Ht & U).
    exists (evs ++ [EvSetWriteable (bup_boot_device X env) true]).
    split; [cbn; rewrite Ht; now rewrite <- app_assoc|].
    intros J. apply in_app_or in J. destruct J as [J|[J|[]]].
    - destruct (U J) as [[C _]|U2]; [discriminate C|now right].
    - left. injection J as J. subst path. now split. }
  clear O Hg.
  assert (Next : forall wz wz', Inv rb rg wz -> steps no_lock_event wz wz' ->
                                Inv rb rg wz') by (intros; eapply StepI; eauto).
  destruct (fd <? 0); [injection H as <- <-; now apply R|].
  destruct (negb (gpt_init X env)); [injection H as <- <-; now apply R|].
  destruct (opt_check_only o).
  { destruct (soc_eqb (cvm_soctype X env) TEGRA_SOCTYPE_210);
      [injection H as <- <-; now apply R|].
    destruct (negb (gpt_load X env =? 0));
      [injection H as <- <-; now apply R|].
    destruct (gpt_layout_config_match X env <? 0);
      injection H as <- <-; now apply R. }
  match type of H with
  | (if ?c then _ else _) = _ => destruct c
  end; [injection H as <- <-; now apply R|].
  rewrite ?andb_true_r in H.
  match type of H with
  | context [if ?c then log EvGptSave wb else wb] =>
      assert (Hs : Inv rb rg (if c then log EvGptSave wb else wb))
        by (destruct c; [apply (Next wb); [exact Hb|now apply steps_log]
                        |exact Hb]);
      generalize dependent (if c then log EvGptSave wb else wb)
  end.
  intros ws H Hs.
  match type of H with
  | (if ?c then _ else _) = _ => destruct c
  end; [injection H as <- <-; now apply R|].
  pose proof (looks_no_lock _ _ (sys_lseek_end_looks fd ws)) as He.
  destruct (sys_lseek_end fd ws) as [bootdev_end_offset we]. cbn [snd] in He.
  assert (Hwe : Inv rb rg we) by (eapply Next; eassumption).
  destruct (bootdev_end_offset =? -1); [injection H as <- <-; now apply R|].
  pose proof (looks_no_lock _ _ (sys_lseek_looks fd 0 we)) as H0.
  destruct (sys_lseek fd 0 we) as [s0 w0]. cbn [snd] in H0.
  assert (Hw0 : Inv rb rg w0) by (eapply Next; eassumption).
  match type of H with
  | (if ?c then _ else _) = _ => destruct c
  end; [injection H as <- <-; now apply R|].
  match type of H with
  | context [if ?c then log EvSmdSetRedundancy w0 else w0] =>
      assert (Hr : Inv rb rg (if c then log EvSmdSetRedundancy w0 else w0))
        by (destruct c; [apply (Next w0); [exact Hw0|now apply steps_log]
                        |exact Hw0]);
      generalize dependent (if c then log EvSmdSetRedundancy w0 else w0)
  end.
  intros wr H Hr.
  match type of H with
  | (if ?c then _ else _) = _ => destruct c
  end; [injection H as <- <-; now apply R|].
  destruct (negb (bup_find_missing_entries X env =? 0));
    [injection H as <- <-; now apply R|].
  destruct (build_plan _ _ _ _ _ _) as [p0| |];
    [|injection H as <- <-; now apply R|discriminate H].
  destruct (merge_t210 _ p0) as [p| |];
    [|injection H as <- <-; now apply R|discriminate H].
  destruct (find_largest_partition_probes (redundant_entries p)
              (nonredundant_entries p) wr) as [Sl _].
  apply probes_no_lock in Sl.
  destruct (find_largest_partition (redundant_entries p)
              (nonredundant_entries p) wr) as [[size|] wl]; cbn [snd] in *.
  2: { injection H as <- <-. apply R. eapply Next; eassumption. }
  assert (Hwl : Inv rb rg wl) by (eapply Next; eassumption).
  destruct (negb (malloc_ok X env (largest_length p))
            || negb (malloc_ok X env size));
    [injection H as <- <-; now apply R|].
  match type of H with
  | context [main_execute X ?a ?b ?c ?d ?e ?f ?dr ?h ?i ?j ?k] =>
      pose proof (main_execute_no_lock X a b c d e f dr h i j k) as M;
      destruct (main_execute X a b c d e f dr h i j k) as [r wx|]
  end; [|discriminate H].
  injection H as <- <-. apply R. eapply Next; [exact Hwl|].
  exact (M r wx eq_refl).
Qed.

Lemma main_restores_write_protection_witness :
  exists ret w' pre post,
    main sample_ext slot_options (slot_env TEGRA_SOCTYPE_186 0 0) slot_world
    = Exited ret w'
    /\ In (EvSetWriteable "/dev/mmcblk0boot0" true) (new_events slot_world w')
    /\ new_events slot_world w'
       = pre ++ EvSetWriteable "/dev/mmcblk0boot0" false :: post
    /\ forallb is_relock post = true.
Proof.
  assert (S : exit_status
                (main sample_ext slot_options (slot_env TEGRA_SOCTYPE_186 0 0)
                      slot_world) = Some 0)
    by (vm_compute; reflexivity).
  assert (I : In (EvSetWriteable "/dev/mmcblk0boot0" true)
                 (run_trace (main sample_ext slot_options
                                  (slot_env TEGRA_SOCTYPE_186 0 0)
                                  slot_world)))
    by (vm_compute; repeat (first [left; reflexivity|right])).
  destruct (main sample_ext slot_options (slot_env TEGRA_SOCTYPE_186 0 0)
                 slot_world) as [ret w'|] eqn:E; [|discriminate S].
  destruct (main_restores_write_protection sample_ext _ _ _ _ _
              "/dev/mmcblk0boot0" E I eq_refl) as (pre & post & Hn & Hp).
  exists ret, w', pre, post. split; [reflexivity|].
  split; [exact I|]. split; [exact Hn|exact Hp].
Defined.

(** ** What a successful run has flushed *)

Lemma sys_lseek_setup (fd off : Z) (w : world) :
  steps is_setup_event w (snd (sys_lseek fd off w)).
Proof.
  unfold sys_lseek. destruct (w_dev w fd) as [d|]; [|apply steps_refl].
  destruct ((off <? 0) || (off >? dev_size d)); [apply steps_refl|].
  eexists [_]. split; reflexivity.
Qed.

Lemma sys_lseek_end_setup (fd : Z) (w : world) :
  steps is_setup_event w (snd (sys_lseek_end fd w)).
Proof.
  unfold sys_lseek_end. destruct (w_dev w fd) as [d|]; [|apply steps_refl].
  eexists [_]. split; reflexivity.
Qed.

Lemma sys_open_setup (path : string) (w : world) :
  steps is_setup_event w (snd (sys_open path w)).
Proof.
  unfold sys_open. destruct (w_node w path <? 0); [apply steps_refl|].
  destruct (w_dev w (w_node w path)); [|apply steps_refl].
  eexists [_]. split; reflexivity.
Qed.

Lemma probes_setup (w w' : world) :
  steps is_probe w w' -> steps is_setup_event w w'.
Proof.
  apply steps_weaken. intros e. destruct e; cbn; try discriminate; reflexivity.
Qed.

(** The three ways [main] returns: at once; from [reset_and_depart]
    before the update tasks are run (with 1, or in check-only mode); or
    from [reset_and_depart] with what the run of the tasks gave. *)
Lemma main_shape (X : externals) (o : options) (env : main_env X) (w : world)
  (ret : Z) (w' : world) :
  main X o env w = Exited ret w' ->
  (w' = w /\ ret = 1)
  \/ (exists fd gptfd rb rg wz,
         steps is_setup_event w wz
         /\ w' = reset_and_depart X env (opt_dryrun o) fd gptfd rb rg wz
         /\ (ret = 1 \/ opt_check_only o = true))
  \/ (exists ctx g fd gptfd initialize curslot p rb rg wl wx,
         steps is_setup_event w wl
         /\ main_execute X env ctx g fd gptfd (opt_slot_specified o)
                         (opt_dryrun o) initialize curslot p wl
            = Exited ret wx
         /\ w' = reset_and_depart X env (opt_dryrun o) fd gptfd rb rg wx).
Proof.
  intros H. unfold main in H. cbv zeta in H.
  destruct (negb (opt_have_path o) && negb (opt_check_only o));
    [injection H as <- <-; now left|].
  destruct (soc_eqb (cvm_soctype X env) TEGRA_SOCTYPE_INVALID);
    [injection H as <- <-; now left|].
  destruct (select_slot o (cvm_soctype X env) (smd_get_current_slot X env))
    as [[[curslot suffix] initialize]|];
    [|injection H as <- <-; now left].
  destruct (bup_init X env) as [ctx|];
    [|injection H as <- <-; now left].
  destruct (Z.of_nat (String.length (bup_boot_device X env)) <? 8);
    [injection H as <- <-; now left|].
  destruct (negb (String.prefix "/dev/mtd" (bup_boot_device X env))
            && negb (String.prefix "/dev/mmc" (bup_boot_device X env)));
    [injection H as <- <-; now left|].
  right.
  assert (Log : forall e wz, is_setup_event e = true ->
                             steps is_setup_event w wz ->
                             steps is_setup_event w (log e wz)).
  { intros e wz He Hz. eapply steps_trans; [exact Hz|now apply steps_log]. }
  assert (Stop : forall r fd gptfd rb rg wz,
             steps is_setup_event w wz ->
             r = 1 \/ opt_check_only o = true ->
             Exited r (reset_and_depart X env (opt_dryrun o) fd gptfd rb rg wz)
             = Exited ret w' ->
             (exists fd gptfd rb rg wz,
                 steps is_setup_event w wz
                 /\ w' = reset_and_depart X env (opt_dryrun o) fd gptfd rb rg wz
                 /\ (ret = 1 \/ opt_check_only o = true))
             \/ (exists ctx g fd gptfd initialize curslot p rb rg wl wx,
                    steps is_setup_event w wl
                    /\ main_execute X env ctx g fd gptfd (opt_slot_specified o)
                                    (opt_dryrun o) initialize curslot p wl
                       = Exited ret wx
                    /\ w' = reset_and_depart X env (opt_dryrun o) fd gptfd
                                             rb rg wx)).
  { intros r fd gptfd rb rg wz Hz Hr E. left.
    exists fd, gptfd, rb, rg, wz. split; [exact Hz|].
    split; [congruence|]. destruct Hr as [Hr|Hr]; [left; congruence|now right]. }
  match type of H with
  | match ?t with _ => _ end = _ =>
      assert (G : exists gptfd rg wg,
                 t = (gptfd, rg, wg) /\ steps is_setup_event w wg)
  end.
  { destruct (String.prefix "/dev/mtd" (bup_boot_device X env)).
    - exists (-1), false, w. split; [reflexivity|apply steps_refl].
    - destruct (opt_dryrun o).
      + pose proof (sys_open_setup (bup_gpt_device X env) w) as O.
        destruct (sys_open (bup_gpt_device X env) w) as [f wo].
        exists f, false, wo. now split.
      + pose proof (sys_open_setup (bup_gpt_device X env)
                      (log (EvSetWriteable (bup_gpt_device X env) true) w))
          as O.
        destruct (sys_open (bup_gpt_device X env)
                    (log (EvSetWriteable (bup_gpt_device X env) true) w))
          as [f wo].
        eexists f, _, wo. split; [reflexivity|].
        eapply steps_trans; [|exact O]. now apply steps_log. }
  destruct G as (gptfd & rg & wg & Eg & Hg). rewrite Eg in H. clear Eg.
  destruct (negb (String.prefix "/dev/mtd" (bup_boot_device X env))
            && (gptfd <? 0));
    [apply (Stop 1 (-1) gptfd false rg wg Hg); [now left|exact H]|].
  match type of H with
  | match ?t with _ => _ end = _ =>
      assert (B : exists fd rb wb,
                 t = (fd, rb, wb) /\ steps is_setup_event w wb)
  end.
  { destruct (opt_dryrun o).
    - pose proof (sys_open_setup (bup_boot_device X env) wg) as O.
      destruct (sys_open (bup_boot_device X env) wg) as [f wo].
      exists f, false, wo. split; [reflexivity|].
      eapply steps_trans; eassumption.
    - pose proof (sys_open_setup (bup_boot_device X env)
                    (log (EvSetWriteable (bup_boot_device X env) true) wg))
        as O.
      destruct (sys_open (bup_boot_device X env)
                  (log (EvSetWriteable (bup_boot_device X env) true) wg))
        as [f wo].
      eexists f, _, wo. split; [reflexivity|].
      eapply steps_trans; [|exact O]. now apply Log. }
  destruct B as (fd & rb & wb & Eb & Hb). rewrite Eb in H. clear Eb.
  destruct (fd <? 0); [eapply Stop; [exact Hb|now left|exact H]|].
  destruct (negb (gpt_init X env));
    [eapply Stop; [exact Hb|now left|exact H]|].
  destruct (opt_check_only o) eqn:Hc.
  { destruct (soc_eqb (cvm_soctype X env) TEGRA_SOCTYPE_210);
      [eapply Stop; [exact Hb|now right|exact H]|].
    destruct (negb (gpt_load X env =? 0));
      [eapply Stop; [exact Hb|now right|exact H]|].
    destruct (gpt_layout_config_match X env <? 0);
      (eapply Stop; [exact Hb|now right|exact H]). }
  match type of H with
  | (if ?c then _ else _) = _ => destruct c
  end; [eapply Stop; [exact Hb|now left|exact H]|].
  match type of H with
  | context [if ?c then log EvGptSave wb else wb] =>
      assert (Hs : steps is_setup_event w
                     (if c then log EvGptSave wb else wb))
        by (destruct c; [now apply Log|exact Hb]);
      generalize dependent (if c then log EvGptSave wb else wb)
  end.
  intros ws H Hs.
  match type of H with
  | (if ?c then _ else _) = _ => destruct c
  end; [eapply Stop; [exact Hs|now left|exact H]|].
  pose proof (sys_lseek_end_setup fd ws) as He.
  destruct (sys_lseek_end fd ws) as [bootdev_end_offset we]. cbn [snd] in He.
  assert (Hwe : steps is_setup_event w we)
    by (eapply steps_trans; eassumption).
  destruct (bootdev_end_offset =? -1);
    [eapply Stop; [exact Hwe|now left|exact H]|].
  pose proof (sys_lseek_setup fd 0 we) as H0.
  destruct (sys_lseek fd 0 we) as [s0 w0]. cbn [snd] in H0.
  assert (Hw0 : steps is_setup_event w w0)
    by (eapply steps_trans; eassumption).
  match type of H with
  | (if ?c then _ else _) = _ => destruct c
  end; [eapply Stop; [exact Hw0|now left|exact H]|].
  match type of H with
  | context [if ?c then log EvSmdSetRedundancy w0 else w0] =>
      assert (Hr : steps is_setup_event w
                     (if c then log EvSmdSetRedundancy w0 else w0))
        by (destruct c; [now apply Log|exact Hw0]);
      generalize dependent (if c then log EvSmdSetRedundancy w0 else w0)
  end.
  intros wr H Hr.
  match type of H with
  | (if ?c then _ else _) = _ => destruct c
  end; [eapply Stop; [exact Hr|now left|exact H]|].
  destruct (negb (bup_find_missing_entries X env =? 0));
    [eapply Stop; [exact Hr|now left|exact H]|].
  destruct (build_plan _ _ _ _ _ _) as [p0| |];
    [|eapply Stop; [exact Hr|now left|exact H]|discriminate H].
  destruct (merge_t210 _ p0) as [p| |];
    [|eapply Stop; [exact Hr|now left|exact H]|discriminate H].
  destruct (find_largest_partition_probes (redundant_entries p)
              (nonredundant_entries p) wr) as [Sl _].
  apply probes_setup in Sl.
  destruct (find_largest_partition (redundant_entries p)
              (nonredundant_entries p) wr) as [[size|] wl]; cbn [snd] in *.
  2: { eapply Stop; [eapply steps_trans; eassumption|now left|exact H]. }
  assert (Hwl : steps is_setup_event w wl)
    by (eapply steps_trans; eassumption).
  destruct (negb (malloc_ok X env (largest_length p))
            || negb (malloc_ok X env size));
    [eapply Stop; [exact Hwl|now left|exact H]|].
  match type of H with
  | context [main_execute X ?a ?b ?c ?d ?e ?f ?dr ?h ?i ?j ?k] =>
      destruct (main_execute X a b c d e f dr h i j k) as [r wx|] eqn:M
  end; [|discriminate H].
  right. injection H as <- <-.
  do 11 eexists. split; [exact Hwl|]. split; [exact M|reflexivity].
Qed.

Lemma flush_follows_app (a b : list event) :
  flush_follows a = true -> flush_follows b = true ->
  flush_follows (a ++ b) = true.
Proof.
  intros Ha Hb. induction a as [|e a IH]; [exact Hb|].
  destruct e; cbn [app flush_follows] in *; try (now apply IH).
  apply andb_true_iff in Ha. destruct Ha as [Ex Ha].
  rewrite existsb_app, Ex. cbn. now apply IH.
Qed.

Lemma durable_refl (w : world) : durable w w.
Proof. exists []. split; [now rewrite app_nil_r|reflexivity]. Qed.

Lemma durable_trans (w1 w2 w3 : world) :
  durable w1 w2 -> durable w2 w3 -> durable w1 w3.
Proof.
  intros (a & Ha & Fa) (b & Hb & Fb). exists (a ++ b). split.
  - now rewrite Hb, Ha, <- app_assoc.
  - now apply flush_follows_app.
Qed.

Lemma steps_durable (P : event -> bool) (w w' : world) :
  (forall e, P e = true ->
             match e with EvWriteAt _ _ _ _ => False | _ => True end) ->
  steps P w w' -> durable w w'.
Proof.
  intros HP (evs & Ht & F). exists evs. split; [exact Ht|].
  apply flush_follows_no_calls. clear Ht.
  induction evs as [|e evs IH]; [reflexivity|].
  cbn [forallb] in F. apply andb_true_iff in F. destruct F as [He F].
  specialize (HP e He). destruct e; cbn; try (now apply IH). destruct HP.
Qed.

Lemma setup_durable (w w' : world) : steps is_setup_event w w' -> durable w w'.
Proof.
  apply steps_durable. intros e. destruct e; cbn; try discriminate; auto.
Qed.

Lemma looks_durable (w w' : world) : looks w w' -> durable w w'.
Proof.
  intros [S _]. revert S. apply steps_durable.
  intros e. destruct e; cbn; try discriminate; auto.
Qed.

Lemma reset_and_depart_durable (X : externals) (env : main_env X)
  (dryrun : bool) (fd gptfd : Z) (rb rg : bool) (w : world) :
  durable w (reset_and_depart X env dryrun fd gptfd rb rg w).
Proof.
  destruct (reset_and_depart_trace X env dryrun fd gptfd rb rg w)
    as (cl & Ht & F).
  eexists. split; [exact Ht|].
  apply flush_follows_no_calls.
  assert (C : write_calls cl = []).
  { clear Ht. induction cl as [|e cl IH]; [reflexivity|].
    cbn [forallb] in F. apply andb_true_iff in F. destruct F as [He F].
    destruct e; cbn in He |- *; try discriminate He; now apply IH. }
  assert (A : forall a b, write_calls a = [] -> write_calls b = [] ->
                          write_calls (a ++ b) = []).
  { intros a b Ha Hb. induction a as [|e a IH]; [exact Hb|].
    destruct e; cbn in Ha |- *; try discriminate Ha; now apply IH. }
  apply A; [exact C|]. apply A; [now destruct rb|now destruct rg].
Qed.

Section Durable.
Variable X : externals.

Lemma process_entry_durable (ctx : bup_context X) (g : globals)
  (bootfd gptfd : Z) (ent : update_entry_s) (dryrun : bool) (initialize : Z)
  (bctctx : option Z) (w : world) (r : Z) (b : option Z)
  (ctx' : bup_context X) (g' : globals) (w' : world) :
  process_entry X ctx g bootfd gptfd ent dryrun initialize bctctx w
  = (r, b, ctx', g', w') ->
  r = 0 -> durable w w'.
Proof.
  intros H Hr.
  pose proof (process_entry_flush X _ _ _ _ _ _ _ _ _ _ _ _ _ _ H Hr) as F.
  pose proof (process_entry_steps X ctx g bootfd gptfd ent dryrun initialize
                                  bctctx w) as S.
  rewrite H in S. cbn [snd] in S. apply steps_new_events in S.
  exists (new_events w w'). split; [exact (proj1 S)|exact F].
Qed.

Lemma process_all_durable (ctx : bup_context X) (g : globals)
  (bootfd gptfd : Z) (entries : list update_entry_s) (dryrun : bool)
  (initialize : Z) (bctctx : option Z) (w : world) (r : Z) (b : option Z)
  (ctx' : bup_context X) (g' : globals) (w' : world) :
  process_all X ctx g bootfd gptfd entries dryrun initialize bctctx w
  = (r, b, ctx', g', w') ->
  r = 0 -> durable w w'.
Proof.
  revert ctx g bctctx w.
  induction entries as [|ent entries IH]; intros ctx g bctctx w H Hr.
  - cbn in H. injection H as <- <- <- <- <-. apply durable_refl.
  - cbn [process_all] in H.
    destruct (process_entry X ctx g bootfd gptfd ent dryrun initialize bctctx w)
      as [[[[r1 b1] ctx1] g1] w1] eqn:E.
    destruct (r1 =? 0) eqn:R1; cbn [negb] in H.
    + apply Z.eqb_eq in R1.
      eapply durable_trans;
        [exact (process_entry_durable _ _ _ _ _ _ _ _ _ _ _ _ _ _ E R1)|].
      exact (IH _ _ _ _ H Hr).
    + injection H as <- <- <- <- <-. subst r1. discriminate R1.
Qed.

Lemma main_commit_durable (env : main_env X) (slot_specified dryrun : bool)
  (initialize curslot : Z) (w : world) :
  durable w (snd (main_commit X env slot_specified dryrun initialize curslot w)).
Proof.
  generalize (main_commit_no_lock X env slot_specified dryrun initialize
                                  curslot w).
  unfold main_commit.
  destruct (negb slot_specified); [|intros _; apply durable_refl].
  destruct dryrun; [intros _; apply durable_refl|].
  intros _.
  assert (L : forall e wz, match e with EvWriteAt _ _ _ _ => False | _ => True end
                           -> durable wz (log e wz)).
  { intros e wz He. exists [e]. split; [reflexivity|]. now destruct e. }
  destruct (smd_slot_mark_active X env _ <? 0); cbn [snd];
    [now apply L|].
  destruct (smd_update X env initialize <? 0); cbn [snd];
    (eapply durable_trans; now apply L).
Qed.

Lemma main_execute_durable (env : main_env X) (ctx : bup_context X)
  (g : globals) (fd gptfd : Z) (slot_specified dryrun : bool)
  (initialize curslot : Z) (p : plan) (w : world) (w' : world) :
  main_execute X env ctx g fd gptfd slot_specified dryrun initialize curslot
               p w = Exited 0 w' ->
  durable w w'.
Proof.
  unfold main_execute. intros H.
  destruct (soc_eqb (soctype g) TEGRA_SOCTYPE_210).
  - match type of H with
    | context [invalid_version_or_downgrade X ?a ?b ?c ?d ?e ?f ?h] =>
        pose proof (looks_durable _ _
          (invalid_version_or_downgrade_looks X a b c d e f h)) as L;
        destruct (invalid_version_or_downgrade X a b c d e f h)
          as [[[rej ctx1] g1] w1]
    end.
    cbn [snd] in L.
    destruct rej; [discriminate H|].
    destruct (order_entries_t210 g1 (redundant_entries p)) as [count ordered].
    destruct (count =? 0); [discriminate H|].
    destruct (count >? MAX_ENTRIES); [discriminate H|].
    match type of H with
    | context [process_all X ?a ?b ?c ?d ?e ?dr ?f ?h ?i] =>
        destruct (process_all X a b c d e dr f h i)
          as [[[[r b2] ctx2] g2] w2] eqn:P
    end.
    destruct (r =? 0) eqn:R; cbn [negb] in H; [|discriminate H].
    injection H as <-. apply Z.eqb_eq in R.
    eapply durable_trans; [exact L|].
    exact (process_all_durable _ _ _ _ _ _ _ _ _ _ _ _ _ _ P R).
  - destruct (negb (_ =? _)%nat); [discriminate H|].
    match type of H with
    | context [process_all X ?a ?b ?c ?d ?e ?dr ?f ?h ?i] =>
        destruct (process_all X a b c d e dr f h i)
          as [[[[r b2] ctx2] g2] w2] eqn:P
    end.
    destruct (r =? 0) eqn:R; cbn [negb] in H; [|discriminate H].
    apply Z.eqb_eq in R.
    pose proof (process_all_durable _ _ _ _ _ _ _ _ _ _ _ _ _ _ P R) as D1.
    assert (Q : forall r2 wz,
               (if negb (initialize =? 0) then
                  let '(r', _, _, _, w') :=
                    process_all X ctx2 g2 fd gptfd (nonredundant_entries p)
                                dryrun initialize None w2 in (r', w')
                else if negb (bct_updated g2 =? 0) then
                  if String.eqb (partname (mb1_other p)) "" then (-1, w2)
                  else
                    let '(r', _, _, _, w') :=
                      process_entry X ctx2 g2 fd gptfd (mb1_other p) dryrun
                                    initialize None w2 in (r', w')
                else (0, w2)) = (r2, wz) -> r2 = 0 -> durable w2 wz).
    { intros r2 wz E Hr2.
      destruct (negb (initialize =? 0)).
      - destruct (process_all X ctx2 g2 fd gptfd (nonredundant_entries p)
                              dryrun initialize None w2)
          as [[[[r' b'] ctx'] g'] wz'] eqn:P2.
        injection E as <- <-.
        exact (process_all_durable _ _ _ _ _ _ _ _ _ _ _ _ _ _ P2 Hr2).
      - destruct (negb (bct_updated g2 =? 0)).
        + destruct (String.eqb _ _);
            [injection E as <- <-; discriminate Hr2|].
          destruct (process_entry X ctx2 g2 fd gptfd (mb1_other p) dryrun
                                  initialize None w2)
            as [[[[r' b'] ctx'] g'] wz'] eqn:P2.
          injection E as <- <-.
          exact (process_entry_durable _ _ _ _ _ _ _ _ _ _ _ _ _ _ P2 Hr2).
        + injection E as <- <-. apply durable_refl. }
    match type of H with
    | (let '(r2, w2') := ?e in _) = _ => destruct e as [r2 wz] eqn:E
    end.
    specialize (Q r2 wz eq_refl).
    destruct (r2 =? 0) eqn:R2; cbn [negb] in H; [|discriminate H].
    apply Z.eqb_eq in R2. specialize (Q R2).
    pose proof (main_commit_durable env slot_specified dryrun initialize
                                    curslot wz) as C.
    destruct (main_commit X env slot_specified dryrun initialize curslot wz)
      as [c w3].
    injection H as _ <-. cbn [snd] in C.
    eapply durable_trans; [exact D1|]. eapply durable_trans; eassumption.
Qed.

End Durable.

Lemma setup_settled (w w' : world) : steps is_setup_event w w' -> settled w w'.
Proof.
  apply steps_settled. intros e. destruct e; cbn; try discriminate; auto.
Qed.

Section SettledRuns.

Variable X : externals.

Lemma process_all_settled (ctx : bup_context X) (g : globals)
  (bootfd gptfd : Z) (entries : list update_entry_s) (dryrun : bool)
  (initialize : Z) (bctctx : option Z) (w : world) (r : Z) (b : option Z)
  (ctx' : bup_context X) (g' : globals) (w' : world) :
  process_all X ctx g bootfd gptfd entries dryrun initialize bctctx w
  = (r, b, ctx', g', w') ->
  r = 0 -> settled w w'.
Proof.
  revert ctx g bctctx w.
  induction entries as [|ent entries IH]; intros ctx g bctctx w H Hr.
  - cbn in H. injection H as <- <- <- <- <-. apply settled_refl.
  - cbn [process_all] in H.
    destruct (process_entry X ctx g bootfd gptfd ent dryrun initialize bctctx w)
      as [[[[r1 b1] ctx1] g1] w1] eqn:E.
    destruct (r1 =? 0) eqn:R1; cbn [negb] in H.
    + apply Z.eqb_eq in R1.
      eapply settled_trans;
        [exact (process_entry_settled X _ _ _ _ _ _ _ _ _ _ _ _ _ _ E R1)|].
      exact (IH _ _ _ _ H Hr).
    + injection H as <- <- <- <- <-. subst r1. discriminate R1.
Qed.

Lemma main_commit_settled (env : main_env X) (slot_specified dryrun : bool)
  (initialize curslot : Z) (w : world) :
  settled w (snd (main_commit X env slot_specified dryrun initialize curslot w)).
Proof.
  unfold main_commit.
  destruct (negb slot_specified); [|apply settled_refl].
  destruct dryrun; [apply settled_refl|].
  destruct (smd_slot_mark_active X env _ <? 0); cbn [snd];
    [now apply settled_log|].
  destruct (smd_update X env initialize <? 0); cbn [snd];
    (eapply settled_trans; now apply settled_log).
Qed.

Lemma main_execute_settled (env : main_env X) (ctx : bup_context X)
  (g : globals) (fd gptfd : Z) (slot_specified dryrun : bool)
  (initialize curslot : Z) (p : plan) (w : world) (w' : world) :
  main_execute X env ctx g fd gptfd slot_specified dryrun initialize curslot
               p w = Exited 0 w' ->
  settled w w'.
Proof.
  unfold main_execute. intros H.
  destruct (soc_eqb (soctype g) TEGRA_SOCTYPE_210).
  - match type of H with
    | context [invalid_version_or_downgrade X ?a ?b ?c ?d ?e ?f ?h] =>
        pose proof (looks_settled _ _
          (invalid_version_or_downgrade_looks X a b c d e f h)) as L;
        destruct (invalid_version_or_downgrade X a b c d e f h)
          as [[[rej ctx1] g1] w1]
    end.
    cbn [snd] in L.
    destruct rej; [discriminate H|].
    destruct (order_entries_t210 g1 (redundant_entries p)) as [count ordered].
    destruct (count =? 0); [discriminate H|].
    destruct (count >? MAX_ENTRIES); [discriminate H|].
    match type of H with
    | context [process_all X ?a ?b ?c ?d ?e ?dr ?f ?h ?i] =>
        destruct (process_all X a b c d e dr f h i)
          as [[[[r b2] ctx2] g2] w2] eqn:P
    end.
    destruct (r =? 0) eqn:R; cbn [negb] in H; [|discriminate H].
    injection H as <-. apply Z.eqb_eq in R.
    eapply settled_trans; [exact L|].
    exact (process_all_settled _ _ _ _ _ _ _ _ _ _ _ _ _ _ P R).
  - destruct (negb (_ =? _)%nat); [discriminate H|].
    match type of H with
    | context [process_all X ?a ?b ?c ?d ?e ?dr ?f ?h ?i] =>
        destruct (process_all X a b c d e dr f h i)
          as [[[[r b2] ctx2] g2] w2] eqn:P
    end.
    destruct (r =? 0) eqn:R; cbn [negb] in H; [|discriminate H].
    apply Z.eqb_eq in R.
    pose proof (process_all_settled _ _ _ _ _ _ _ _ _ _ _ _ _ _ P R) as D1.
    assert (Q : forall r2 wz,
               (if negb (initialize =? 0) then
                  let '(r', _, _, _, w') :=
                    process_all X ctx2 g2 fd gptfd (nonredundant_entries p)
                                dryrun initialize None w2 in (r', w')
                else if negb (bct_updated g2 =? 0) then
                  if String.eqb (partname (mb1_other p)) "" then (-1, w2)
                  else
                    let '(r', _, _, _, w') :=
                      process_entry X ctx2 g2 fd gptfd (mb1_other p) dryrun
                                    initialize None w2 in (r', w')
                else (0, w2)) = (r2, wz) -> r2 = 0 -> settled w2 wz).
    { intros r2 wz E Hr2.
      destruct (negb (initialize =? 0)).
      - destruct (process_all X ctx2 g2 fd gptfd (nonredundant_entries p)
                              dryrun initialize None w2)
          as [[[[r' b'] ctx'] g'] wz'] eqn:P2.
        injection E as <- <-.
        exact (process_all_settled _ _ _ _ _ _ _ _ _ _ _ _ _ _ P2 Hr2).
      - destruct (negb (bct_updated g2 =? 0)).
        + destruct (String.eqb _ _);
            [injection E as <- <-; discriminate Hr2|].
          destruct (process_entry X ctx2 g2 fd gptfd (mb1_other p) dryrun
                                  initialize None w2)
            as [[[[r' b'] ctx'] g'] wz'] eqn:P2.
          injection E as <- <-.
          exact (process_entry_settled X _ _ _ _ _ _ _ _ _ _ _ _ _ _ P2 Hr2).
        + injection E as <- <-. apply settled_refl. }
    match type of H with
    | (let '(r2, w2') := ?e in _) = _ => destruct e as [r2 wz] eqn:E
    end.
    specialize (Q r2 wz eq_refl).
    destruct (r2 =? 0) eqn:R2; cbn [negb] in H; [|discriminate H].
    apply Z.eqb_eq in R2. specialize (Q R2).
    pose proof (main_commit_settled env slot_specified dryrun initialize
                                    curslot wz) as C.
    destruct (main_commit X env slot_specified dryrun initialize curslot wz)
      as [c w3].
    injection H as _ <-. cbn [snd] in C.
    eapply settled_trans; [exact D1|]. eapply settled_trans; eassumption.
Qed.

End SettledRuns.

Lemma reset_and_depart_settled (X : externals) (env : main_env X)
  (dryrun : bool) (fd gptfd : Z) (rb rg : bool) (w : world) :
  settled w (reset_and_depart X env dryrun fd gptfd rb rg w).
Proof.
  destruct (reset_and_depart_trace X env dryrun fd gptfd rb rg w)
    as (cl & Ht & F).
  eexists. split; [exact Ht|].
  apply writes_flushed_no_writes.
  assert (C : writes_in cl = []).
  { clear Ht. induction cl as [|e cl IH]; [reflexivity|].
    cbn [forallb] in F. apply andb_true_iff in F. destruct F as [He F].
    destruct e; cbn in He |- *; try discriminate He; now apply IH. }
  unfold writes_in in *. rewrite !filter_app, C.
  now destruct rb, rg.
Qed.

Lemma main_settled (X : externals) (o : options) (env : main_env X)
  (w w' : world) :
  main X o env w = Exited 0 w' -> settled w w'.
Proof.
  intros H.
  destruct (main_shape X o env w 0 w' H)
    as [[_ C]|[(fd & gptfd & rb & rg & wz & S & -> & _)
              |(ctx & g & fd & gptfd & ini & cs & p & rb & rg & wl & wx
                & S & M & ->)]].
  - discriminate C.
  - eapply settled_trans; [apply setup_settled; exact S|].
    apply reset_and_depart_settled.
  - eapply settled_trans; [apply setup_settled; exact S|].
    eapply settled_trans;
      [exact (main_execute_settled X _ _ _ _ _ _ _ _ _ _ _ _ M)|].
    apply reset_and_depart_settled.
Qed.

(** X20: a run of [main] that returns 0 has flushed what it wrote: every
    [write] of the run - erase or payload, on the boot device, the GPT
    device or a partition node - is followed later in the run by an
    [fsync] of the descriptor it wrote to, and so is every call of
    [write_completely_at]. *)
Theorem main_success_is_flushed (X : externals) (o : options)
  (env : main_env X) (w w' : world) :
  main X o env w = Exited 0 w' ->
  writes_flushed (new_events w w') = true
  /\ flush_follows (new_events w w') = true.
Proof.
  intros H. split.
  { destruct (main_settled X o env w w' H) as (evs & Ht & F).
    now rewrite (new_events_app w w' evs Ht). }
  assert (D : durable w w').
  { destruct (main_shape X o env w 0 w' H)
      as [[_ C]|[(fd & gptfd & rb & rg & wz & S & -> & _)
                |(ctx & g & fd & gptfd & ini & cs & p & rb & rg & wl & wx
                  & S & M & ->)]].
    - discriminate C.
    - eapply durable_trans; [apply setup_durable; exact S|].
      apply reset_and_depart_durable.
    - eapply durable_trans; [apply setup_durable; exact S|].
      eapply durable_trans; [exact (main_execute_durable X _ _ _ _ _ _ _ _ _ _ _ _ M)|].
      apply reset_and_depart_durable. }
  destruct D as (evs & Ht & F). now rewrite (new_events_app w w' evs Ht).
Qed.

Lemma main_success_is_flushed_witness :
  write_calls
    (run_trace (main sample_ext slot_options (slot_env TEGRA_SOCTYPE_186 0 0)
                     slot_world))
  = [(3, 512)]
  /\ exists w',
       main sample_ext slot_options (slot_env TEGRA_SOCTYPE_186 0 0) slot_world
       = Exited 0 w'
       /\ writes_flushed (new_events slot_world w') = true
       /\ flush_follows (new_events slot_world w') = true.
Proof.
  split; [vm_compute; reflexivity|].
  assert (S : exit_status
                (main sample_ext slot_options (slot_env TEGRA_SOCTYPE_186 0 0)
                      slot_world) = Some 0)
    by (vm_compute; reflexivity).
  destruct (main sample_ext slot_options (slot_env TEGRA_SOCTYPE_186 0 0)
                 slot_world) as [ret w'|] eqn:E; [|discriminate S].
  cbn in S. injection S as ->.
  exists w'. split; [reflexivity|].
  exact (main_success_is_flushed sample_ext _ _ _ _ E).
Defined.

(** ** The update tasks [main] builds *)

Lemma targets_snoc (E : plan_env) (red nonred : list update_entry_s)
  (e : update_entry_s) :
  Forall (task_target_ok E) (red ++ nonred) -> task_target_ok E e ->
  Forall (task_target_ok E) ((red ++ [e]) ++ nonred)
  /\ Forall (task_target_ok E) (red ++ nonred ++ [e]).
Proof.
  intros F He. rewrite Forall_app in F. destruct F as [F1 F2].
  split; rewrite !Forall_app; repeat split; auto.
Qed.

Lemma plan_step_targets (g : globals) (E : plan_env) (initialize : Z)
  (suffix : option string) (p : plan) (item : string * Z * Z) (p' : plan) :
  plan_step g E initialize suffix p item = PlanOk p' ->
  plan_targets_ok E p -> plan_targets_ok E p'.
Proof.
  destruct item as [[name offset] len]. unfold plan_step, push, is_full.
  intros H [F M]. 
  assert (F' := F). rewrite Forall_app in F'. destruct F' as [F1 F2].
  destruct (gpt_find_by_name E name) as [pt|] eqn:Gn.
  - destruct (gpt_find_by_name E (other_copy_name g name)) as [pb|] eqn:Gb;
      cbn [orb negb] in H.
    + destruct (negb (initialize =? 0)).
      * destruct (_ >=? MAX_ENTRIES); [discriminate H|].
        destruct (_ >=? MAX_ENTRIES); [discriminate H|].
        injection H as <-. split; [|exact M]. cbn.
        rewrite !Forall_app. repeat split; auto;
          (constructor; [|constructor]); unfold task_target_ok;
             cbn [part devname partname]; auto.
      * destruct (_ >=? MAX_ENTRIES); [discriminate H|].
        injection H as <-. split.
        -- cbn. rewrite !Forall_app. repeat split; auto.
           destruct (suffix_empty suffix);
             (constructor; [|constructor]); unfold task_target_ok;
             cbn [part devname partname]; auto.
        -- cbn. destruct (String.eqb name "mb1"); [|exact M].
           right. destruct (suffix_empty suffix); cbn; eauto.
    + destruct (negb (initialize =? 0)).
      * destruct (String.eqb name "BCT").
        -- destruct (_ >=? MAX_ENTRIES); [discriminate H|].
           injection H as <-. split; [|exact M]. cbn.
           rewrite !Forall_app. repeat split; auto.
           (constructor; [|constructor]); unfold task_target_ok;
             cbn [part devname partname]; auto.
        -- destruct (_ >=? MAX_ENTRIES); [discriminate H|].
           injection H as <-. split; [|exact M]. cbn.
           rewrite !Forall_app. repeat split; auto.
           (constructor; [|constructor]); unfold task_target_ok;
             cbn [part devname partname]; auto.
      * destruct (String.eqb name "BCT") eqn:B.
        -- destruct (_ >=? MAX_ENTRIES); [discriminate H|].
           injection H as <-. split.
           ++ cbn. rewrite !Forall_app. repeat split; auto.
              (constructor; [|constructor]); unfold task_target_ok;
             cbn [part devname partname]; auto.
           ++ cbn. apply String.eqb_eq in B. subst name. exact M.
        -- injection H as <-. split; [exact F|exact M].
  - destruct (access_ok E (partlabel_path name)) eqn:A; cbn [negb] in H.
    + destruct (access_ok E (partlabel_path (other_copy_name g name))) eqn:Ab.
      * destruct (negb (initialize =? 0)).
        -- destruct (_ >=? MAX_ENTRIES); [discriminate H|].
           destruct (_ >=? MAX_ENTRIES); [discriminate H|].
           injection H as <-. split; [|exact M]. cbn.
           rewrite !Forall_app. repeat split; auto;
             (constructor; [|constructor]); unfold task_target_ok;
             cbn [part devname partname]; auto.
        -- destruct (_ >=? MAX_ENTRIES); [discriminate H|].
           injection H as <-. split; [|exact M]. cbn.
           rewrite !Forall_app. repeat split; auto.
           destruct (suffix_empty suffix);
             (constructor; [|constructor]); unfold task_target_ok;
             cbn [part devname partname]; auto.
      * destruct (negb (initialize =? 0)).
        -- destruct (_ >=? MAX_ENTRIES); [discriminate H|].
           injection H as <-. split; [|exact M]. cbn.
           rewrite !Forall_app. repeat split; auto.
           (constructor; [|constructor]); unfold task_target_ok;
             cbn [part devname partname]; auto.
        -- injection H as <-. split; [exact F|exact M].
    + destruct (partition_should_be_present E name); [discriminate H|].
      injection H as <-. split; [exact F|exact M].
Qed.

Lemma build_plan_targets (g : globals) (E : plan_env) (initialize : Z)
  (suffix : option string) (items : list (string * Z * Z)) (p0 p : plan) :
  build_plan g E initialize suffix items p0 = PlanOk p ->
  plan_targets_ok E p0 -> plan_targets_ok E p.
Proof.
  revert p0. induction items as [|item items IH]; intros p0 H T.
  - cbn in H. now injection H as <-.
  - cbn [build_plan] in H.
    destruct (plan_step g E initialize suffix p0 item) as [p1| |] eqn:S;
      try discriminate H.
    exact (IH _ H (plan_step_targets _ _ _ _ _ _ _ S T)).
Qed.

(** X21: every update task [main] builds has a target, and it is the
    target its name stands for.  A task with a partition has the
    partition the GPT holds under the name of the task and no device
    path; a task without one has the path of the partition node of its
    name, which [access] found writeable.  The spare [mb1] task, once set,
    has the GPT partition of its name. *)
Theorem planned_tasks_have_their_target (g : globals) (E : plan_env)
  (initialize : Z) (suffix : option string) (items : list (string * Z * Z))
  (p0 p : plan) :
  build_plan g E initialize suffix items empty_plan = PlanOk p0 ->
  merge_t210 g p0 = PlanOk p ->
  Forall (task_target_ok E) (redundant_entries p ++ nonredundant_entries p)
  /\ (mb1_other p = empty_entry
      \/ exists pt, part (mb1_other p) = Some pt
                    /\ gpt_find_by_name E (partname (mb1_other p)) = Some pt).
Proof.
  intros B M.
  assert (T : plan_targets_ok E p0).
  { apply (build_plan_targets _ _ _ _ _ _ _ B).
    split; [constructor|now left]. }
  unfold merge_t210 in M.
  destruct (soc_eqb (soctype g) TEGRA_SOCTYPE_210).
  - destruct (_ >? MAX_ENTRIES); [discriminate M|].
    injection M as <-. destruct T as [F Mo]. cbn.
    rewrite app_nil_r. now split.
  - injection M as <-. exact T.
Qed.

Lemma planned_tasks_have_their_target_witness :
  exists p,
    build_plan sector_globals slot_plan_env 0 (Some "_b") [("cboot", 0, 4)]
               empty_plan = PlanOk p
    /\ redundant_entries p = [mkEntry "cboot_b" (Some (mkGptEntry 1 1)) "" 0 4]
    /\ Forall (task_target_ok slot_plan_env)
              (redundant_entries p ++ nonredundant_entries p)
    /\ (mb1_other p = empty_entry
        \/ exists pt, part (mb1_other p) = Some pt
                      /\ gpt_find_by_name slot_plan_env
                           (partname (mb1_other p)) = Some pt).
Proof.
  eexists. split; [vm_compute; reflexivity|].
  split; [reflexivity|].
  refine (planned_tasks_have_their_target sector_globals slot_plan_env 0
            (Some "_b") [("cboot", 0, 4)] _ _ _ _);
    vm_compute; reflexivity.
Defined.

Lemma plan_step_keeps (g : globals) (E : plan_env) (initialize : Z)
  (suffix : option string) (p : plan) (item : string * Z * Z) (p' : plan) :
  plan_step g E initialize suffix p item = PlanOk p' ->
  incl (redundant_entries p) (redundant_entries p').
Proof.
  destruct item as [[name offset] len]. unfold plan_step, push, is_full.
  intros H.
  repeat match type of H with
         | context [match ?x with _ => _ end] =>
             lazymatch x with
             | context [match _ with _ => _ end] => fail
             | _ => destruct x
             end
         end;
    try discriminate H; injection H as <-; cbn [redundant_entries];
    intros e He; repeat (apply in_or_app; left); exact He.
Qed.

Lemma build_plan_keeps (g : globals) (E : plan_env) (initialize : Z)
  (suffix : option string) (items : list (string * Z * Z)) (p0 p : plan) :
  build_plan g E initialize suffix items p0 = PlanOk p ->
  incl (redundant_entries p0) (redundant_entries p).
Proof.
  revert p0. induction items as [|item items IH]; intros p0 H.
  - cbn in H. injection H as <-. apply incl_refl.
  - cbn [build_plan] in H.
    destruct (plan_step g E initialize suffix p0 item) as [p1| |] eqn:S;
      try discriminate H.
    eapply incl_tran; [exact (plan_step_keeps _ _ _ _ _ _ _ S)|exact (IH _ H)].
Qed.

Lemma plan_step_both_copies (g : globals) (E : plan_env) (initialize : Z)
  (suffix : option string) (p : plan) (name : string) (offset len : Z)
  (p' : plan) :
  initialize <> 0 ->
  plan_step g E initialize suffix p (name, offset, len) = PlanOk p' ->
  (forall pt pb,
      gpt_find_by_name E name = Some pt ->
      gpt_find_by_name E (other_copy_name g name) = Some pb ->
      In (mkEntry name (Some pt) "" offset len) (redundant_entries p')
      /\ In (mkEntry (other_copy_name g name) (Some pb) "" offset len)
            (redundant_entries p'))
  /\ (gpt_find_by_name E name = None ->
      access_ok E (partlabel_path name) = true ->
      access_ok E (partlabel_path (other_copy_name g name)) = true ->
      In (mkEntry name None (partlabel_path name) offset len)
         (redundant_entries p')
      /\ In (mkEntry (other_copy_name g name) None
                     (partlabel_path (other_copy_name g name)) offset len)
            (redundant_entries p')).
Proof.
  intros Hi H. unfold plan_step, push, is_full in H.
  assert (Ei : negb (initialize =? 0) = true).
  { destruct (initialize =? 0) eqn:E0; [apply Z.eqb_eq in E0; contradiction|].
    reflexivity. }
  rewrite Ei in H. split.
  - intros pt pb Gn Gb. rewrite Gn, Gb in H. cbn [orb] in H.
    destruct (_ >=? MAX_ENTRIES); [discriminate H|].
    destruct (_ >=? MAX_ENTRIES); [discriminate H|].
    injection H as <-. cbn [redundant_entries]. split.
    + apply in_or_app. left. apply in_or_app. right. now left.
    + apply in_or_app. right. now left.
  - intros Gn A Ab. rewrite Gn, A, Ab in H. cbn [negb] in H.
    destruct (_ >=? MAX_ENTRIES); [discriminate H|].
    destruct (_ >=? MAX_ENTRIES); [discriminate H|].
    injection H as <-. cbn [redundant_entries]. split.
    + apply in_or_app. left. apply in_or_app. right. now left.
    + apply in_or_app. right. now left.
Qed.

(** X22: when initializing, both copies of a redundant partition are
    scheduled, with the same payload.  For every entry of the package
    whose partition and second copy are both in the GPT, or else both
    there as partition nodes, the redundant list of the plan holds a
    task for the partition and a task for its second copy, with the
    offset and length of that entry. *)
Theorem initialize_schedules_both_copies (g : globals) (E : plan_env)
  (initialize : Z) (suffix : option string) (items : list (string * Z * Z))
  (p : plan) (name : string) (offset len : Z) :
  initialize <> 0 ->
  build_plan g E initialize suffix items empty_plan = PlanOk p ->
  In (name, offset, len) items ->
  (forall pt pb,
      gpt_find_by_name E name = Some pt ->
      gpt_find_by_name E (other_copy_name g name) = Some pb ->
      In (mkEntry name (Some pt) "" offset len) (redundant_entries p)
      /\ In (mkEntry (other_copy_name g name) (Some pb) "" offset len)
            (redundant_entries p))
  /\ (gpt_find_by_name E name = None ->
      access_ok E (partlabel_path name) = true ->
      access_ok E (partlabel_path (other_copy_name g name)) = true ->
      In (mkEntry name None (partlabel_path name) offset len)
         (redundant_entries p)
      /\ In (mkEntry (other_copy_name g name) None
                     (partlabel_path (other_copy_name g name)) offset len)
            (redundant_entries p)).
Proof.
  intros Hi. generalize empty_plan as p0.
  induction items as [|item items IH]; intros p0 H I; [destruct I|].
  cbn [build_plan] in H.
  destruct (plan_step g E initialize suffix p0 item) as [p1| |] eqn:S;
    try discriminate H.
  destruct I as [->|I]; [|exact (IH _ H I)].
  destruct (plan_step_both_copies _ _ _ _ _ _ _ _ _ Hi S) as [A B].
  pose proof (build_plan_keeps _ _ _ _ _ _ _ H) as K.
  split.
  - intros pt pb Gn Gb. destruct (A pt pb Gn Gb) as [A1 A2].
    split; apply K; assumption.
  - intros Gn Ac Ab. destruct (B Gn Ac Ab) as [B1 B2].
    split; apply K; assumption.
Qed.

Lemma initialize_schedules_both_copies_witness :
  exists p,
    build_plan sector_globals slot_plan_env 1 None [("cboot", 0, 4)]
               empty_plan = PlanOk p
    /\ In (mkEntry "cboot" (Some (mkGptEntry 0 0)) "" 0 4)
          (redundant_entries p)
    /\ In (mkEntry "cboot_b" (Some (mkGptEntry 1 1)) "" 0 4)
          (redundant_entries p).
Proof.
  eexists. split; [vm_compute; reflexivity|].
  refine (proj1 (initialize_schedules_both_copies sector_globals slot_plan_env
                   1 None [("cboot", 0, 4)] _ "cboot" 0 4 _ _ _)
                (mkGptEntry 0 0) (mkGptEntry 1 1) _ _).
  - lia.
  - vm_compute; reflexivity.
  - now left.
  - reflexivity.
  - reflexivity.
Defined.

(** ** Entries written through a partition node *)

Section NodeEntry.
Variable X : externals.

Lemma bup_read_content_zerobuf (ctx : bup_context X) (g : globals) (len : Z) :
  zerobuf (snd (fst (bup_read_content X ctx g len))) = zerobuf g.
Proof.
  unfold bup_read_content.
  destruct (bup_read_loop X _ ctx (contentbuf g) (contentbuf_size g) len 0)
    as [[[r cb] c]|]; reflexivity.
Qed.

(** X23: when [process_entry] returns 0 for an entry that is written
    through its partition node (it has no GPT partition), the node was
    opened, erased over its size (as an unsigned 32-bit number) and
    written from offset 0: it holds the payload followed by zeros up to
    the erased size, it has kept its size, and the last two calls are a
    flush and the close of the node. *)
Theorem process_entry_installs_on_node (ctx : bup_context X) (g : globals)
  (bootfd gptfd : Z) (ent : update_entry_s) (initialize : Z)
  (bctctx : option Z) (w : world) (b : option Z) (ctx' : bup_context X)
  (g' : globals) (w' : world) (k : Z) :
  part ent = None ->
  process_entry X ctx g bootfd gptfd ent false initialize bctctx w
  = (0, b, ctx', g', w') ->
  0 <= ent_length ent ->
  (Z.to_nat (ent_length ent) <= List.length (contentbuf g'))%nat ->
  zerobuf g = zeros k ->
  (forall d, w_dev w (w_node w (devname ent)) = Some d ->
             u32 (dev_size d) <= k) ->
  let fd := w_node w (devname ent) in
  exists d d',
    w_dev w fd = Some d /\ w_dev w' fd = Some d'
    /\ dev_size d' = dev_size d
    /\ peek (dev_data d') 0 (Z.to_nat (ent_length ent))
       = firstn (Z.to_nat (ent_length ent)) (contentbuf g')
    /\ (forall x, ent_length ent <= x < u32 (dev_size d) ->
                  dev_data d' x = zero_byte)
    /\ exists evs,
         new_events w w'
         = EvProcess (partname ent) :: evs ++ [EvFsync fd; EvClose fd].
Proof.
  intros Hp H Hl Hc Hz Hk fd. unfold process_entry in H. rewrite Hp in H.
  destruct (bup_setpos X ctx (bup_offset ent)) as [sp ctx1].
  destruct (sp =? -1); [discriminate H|].
  pose proof (bup_read_content_zerobuf ctx1 g (ent_length ent)) as Zb.
  destruct (bup_read_content X ctx1 g (ent_length ent)) as [[rr g1] ctx2].
  cbn [fst snd] in Zb.
  destruct (rr <? 0); [discriminate H|].
  set (w0 := log (EvProcess (partname ent)) w) in *.
  unfold sys_open in H. change (w_node w0 (devname ent)) with fd in H.
  change (w_dev w0 fd) with (w_dev w fd) in H.
  destruct (fd <? 0) eqn:Fd0; [cbn in H; discriminate H|].
  destruct (w_dev w fd) as [d|] eqn:Dw; [|cbn in H; discriminate H].
  rewrite Fd0 in H.
  set (w1 := log (EvOpen (devname ent) fd)
               (set_dev fd (mkDevice (dev_size d) (dev_data d) 0) w0)) in *.
  assert (D1 : w_dev w1 fd = Some (mkDevice (dev_size d) (dev_data d) 0)).
  { cbn. now rewrite Z.eqb_refl. }
  unfold sys_lseek_end in H. rewrite D1 in H. cbn [dev_size dev_data] in H.
  set (w2 := log (EvLseek fd (dev_size d))
               (set_dev fd (mkDevice (dev_size d) (dev_data d) (dev_size d))
                        w1)) in *.
  assert (D2 : w_dev w2 fd
               = Some (mkDevice (dev_size d) (dev_data d) (dev_size d))).
  { cbn. now rewrite Z.eqb_refl. }
  destruct (u32 (dev_size d) <? 0); [discriminate H|].
  unfold sys_lseek in H. rewrite D2 in H. cbn [dev_size dev_data] in H.
  destruct ((0 <? 0) || (0 >? dev_size d)); [cbn in H; discriminate H|].
  change (0 <? 0) with false in H. cbv iota in H.
  set (w3 := log (EvLseek fd 0)
               (set_dev fd (mkDevice (dev_size d) (dev_data d) 0) w2)) in *.
  assert (D3 : w_dev w3 fd = Some (mkDevice (dev_size d) (dev_data d) 0)).
  { cbn. now rewrite Z.eqb_refl. }
  destruct (write_completely_at (zerobuf g1) fd (contentbuf g1)
              (ent_length ent) 0 (u32 (dev_size d)) w3) as [r w4] eqn:W.
  destruct (r <? 0) eqn:R; [discriminate H|].
  injection H as <- <- <- <-. apply Z.ltb_ge in R.
  rewrite Zb, Hz in W.
  assert (U : 0 <= u32 (dev_size d) <= k).
  { split; [apply Z.mod_pos_bound; lia|now apply Hk]. }
  destruct (write_completely_at_effect k fd _ _ _ _ _ _ _ _ W R Hl U D3 Hc)
    as (d' & D4 & Pk & Zr).
  pose proof (write_completely_at_touches (zeros k) fd (contentbuf g1)
                (ent_length ent) 0 (u32 (dev_size d)) w3) as T.
  rewrite W in T. cbn [snd] in T. destruct T as ((evs & Ht & _) & _ & Sz).
  rewrite D3, D4 in Sz. cbn [dev_size] in Sz.
  exists d, d'. split; [reflexivity|]. split; [exact D4|].
  split; [now symmetry|]. split; [exact Pk|]. split.
  - intros x Hx. apply Zr. lia.
  - exists ([EvOpen (devname ent) fd; EvLseek fd (dev_size d); EvLseek fd 0]
            ++ evs).
    apply new_events_app. cbn [sys_close sys_fsync log w_trace].
    rewrite Ht. cbn. rewrite <- !app_assoc. reflexivity.
Qed.

End NodeEntry.

Lemma process_entry_installs_on_node_witness :
  exists b ctx' g' w' d d',
    process_entry sample_ext (sample_payload, 0) small_globals 3 4
                  (node_entry 4) false 0 None (small_world [])
    = (0, b, ctx', g', w')
    /\ w_dev (small_world []) 5 = Some d /\ w_dev w' 5 = Some d'
    /\ dev_size d' = dev_size d
    /\ peek (dev_data d') 0 4 = firstn 4 (contentbuf g')
    /\ firstn 4 (contentbuf g') = sample_payload.
Proof.
  assert (R : pe_ret (process_entry sample_ext (sample_payload, 0)
                        small_globals 3 4 (node_entry 4) false 0 None
                        (small_world [])) = 0)
    by (vm_compute; reflexivity).
  assert (C : firstn 4 (contentbuf
                 (snd (fst (process_entry sample_ext (sample_payload, 0)
                        small_globals 3 4 (node_entry 4) false 0 None
                        (small_world []))))) = sample_payload)
    by (vm_compute; reflexivity).
  assert (L : (Z.to_nat (ent_length (node_entry 4%Z))
               <= List.length (contentbuf
                    (snd (fst (process_entry sample_ext (sample_payload, 0%Z)
                        small_globals 3%Z 4%Z (node_entry 4%Z) false 0%Z None
                        (small_world []))))))%nat)
    by (vm_compute; lia).
  destruct (process_entry sample_ext (sample_payload, 0) small_globals 3 4
              (node_entry 4) false 0 None (small_world []))
    as [[[[r b] ctx'] g'] w'] eqn:E.
  cbn [pe_ret fst snd] in R, C, L. subst r.
  assert (P : 0 <= ent_length (node_entry 4))
    by (vm_compute; intros Q; discriminate Q).
  destruct (process_entry_installs_on_node sample_ext (sample_payload, 0)
              small_globals 3 4 (node_entry 4) 0 None (small_world [])
              b ctx' g' w' 8 eq_refl E P L eq_refl)
    as (d & d' & D & D' & Sz & Pk & _).
  - intros d0 Hd. vm_compute in Hd. injection Hd as <-. vm_compute.
    discriminate.
  - exists b, ctx', g', w', d, d'. repeat split; assumption.
Defined.
